(** * LAME psychoacoustic model and quantization loop: a shallow embedding

    The development follows the C sources file by file:
    - [psymodel.c]: block-type state machine, additive masking, attack
      detection, masking thresholds, initialisation of the psy state;
    - [quantize.c]: [init_outer_loop], [bin_search_StepSize], [inner_loop],
      [inc_subblock_gain], [balance_noise], [outer_loop], [iteration_loop];
    - [lame.c]: the [lame_encode_buffer] family and [lame_close].

    Conventions.  A C [FLOAT]/[FLOAT8] is modelled by a real number (exact
    arithmetic, no rounding); a C [int] by [Z]; a C array by a list read
    with a default, or by a total map from indices when it is indexed by
    the channel.  Code that is not part of the translated sources (macros,
    tables, helper functions of other files) enters as a [Variable] of the
    enclosing [Section]. *)

From Stdlib Require Import Reals ZArith List Bool Lia Lra Arith.
Import ListNotations.

(** ** Channel-indexed arrays *)

(** [upd a i v] is the array [a] after the assignment [a[i] = v]. *)
Definition upd {A : Type} (a : nat -> A) (i : nat) (v : A) : nat -> A :=
  fun j => if Nat.eqb j i then v else a j.

Lemma upd_same {A : Type} (a : nat -> A) i v : upd a i v i = v.
Proof. unfold upd. now rewrite Nat.eqb_refl. Qed.

Lemma upd_other {A : Type} (a : nat -> A) i j v : j <> i -> upd a i v j = a j.
Proof. unfold upd. intro H. apply Nat.eqb_neq in H. now rewrite H. Qed.

(** ** Counted loops *)

(** [for (i = lo; i < lo + n; i++) s = body (s, i);] *)
Fixpoint for_loop {St : Type} (body : St -> nat -> St) (lo n : nat) (s : St) : St :=
  match n with
  | O => s
  | S n' => for_loop body (S lo) n' (body s lo)
  end.

(** A loop whose body at index [c] changes the part [view] of the state by
    [f], and at the other indices leaves it alone, applies [f] once when
    [c] is in range. *)
Lemma for_loop_view {St V : Type} (body : St -> nat -> St) (view : St -> V)
  (f : V -> V) (c : nat) :
  (forall s chn, chn <> c -> view (body s chn) = view s) ->
  (forall s, view (body s c) = f (view s)) ->
  forall n lo s,
    view (for_loop body lo n s)
    = if (lo <=? c)%nat && (c <? lo + n)%nat then f (view s) else view s.
Proof.
  intros Hother Hsame n.
  induction n as [|n IH]; intros lo s; simpl.
  - destruct (Nat.leb_spec lo c), (Nat.ltb_spec c (lo + 0)); simpl; try reflexivity; lia.
  - rewrite IH.
    destruct (Nat.eq_dec lo c) as [->|Hne].
    + rewrite Hsame.
      destruct (Nat.leb_spec (S c) c), (Nat.leb_spec c c),
        (Nat.ltb_spec c (c + S n)); simpl; try reflexivity; lia.
    + rewrite (Hother s lo Hne).
      destruct (Nat.leb_spec (S lo) c), (Nat.leb_spec lo c),
        (Nat.ltb_spec c (S lo + n)), (Nat.ltb_spec c (lo + S n));
        simpl; try reflexivity; lia.
Qed.

Lemma for_loop_frame {St V : Type} (body : St -> nat -> St) (view : St -> V) :
  (forall s k, view (body s k) = view s) ->
  forall n lo s, view (for_loop body lo n s) = view s.
Proof.
  intros H n. induction n as [|n IH]; intros lo s; simpl; [reflexivity|].
  now rewrite IH, H.
Qed.

Lemma for_loop_set {St V : Type} (body : St -> nat -> St) (view : St -> V)
  (v : V) (c : nat) :
  (forall s k, k <> c -> view (body s k) = view s) ->
  (forall s, view (body s c) = v) ->
  forall n lo s, (lo <= c < lo + n)%nat -> view (for_loop body lo n s) = v.
Proof.
  intros Hother Hsame n lo s [Hlo Hhi].
  rewrite (for_loop_view body view (fun _ => v) c Hother Hsame).
  destruct (Nat.leb_spec lo c), (Nat.ltb_spec c (lo + n)); simpl; try reflexivity; lia.
Qed.

(** Loop invariants: [P i s] holds of the state [s] before iteration [i]. *)
Lemma for_loop_ind {St : Type} (P : nat -> St -> Prop) (body : St -> nat -> St) :
  forall n lo s,
    P lo s ->
    (forall i s, (lo <= i < lo + n)%nat -> P i s -> P (S i) (body s i)) ->
    P (lo + n)%nat (for_loop body lo n s).
Proof.
  induction n as [|n IH]; intros lo s H0 Hstep; simpl.
  - now rewrite Nat.add_0_r.
  - rewrite <- Nat.add_succ_comm. apply IH.
    + apply Hstep; [lia | exact H0].
    + intros i s' Hi. apply Hstep. lia.
Qed.

(** * psymodel.c: the block-type state machine *)

Module BlockType.

(** The window types of a granule ([NORM_TYPE] .. [STOP_TYPE] of encoder.h). *)
Inductive block_type : Type :=
| NORM_TYPE
| START_TYPE
| SHORT_TYPE
| STOP_TYPE.

Definition block_type_eqb (a b : block_type) : bool :=
  match a, b with
  | NORM_TYPE, NORM_TYPE | START_TYPE, START_TYPE
  | SHORT_TYPE, SHORT_TYPE | STOP_TYPE, STOP_TYPE => true
  | _, _ => false
  end.

(** The short-block policy of the session ([cfg->short_blocks]). *)
Inductive short_block_t : Type :=
| short_block_not_set
| short_block_allowed
| short_block_coupled
| short_block_dispensed
| short_block_forced.

Definition short_block_eqb (a b : short_block_t) : bool :=
  match a, b with
  | short_block_not_set, short_block_not_set
  | short_block_allowed, short_block_allowed
  | short_block_coupled, short_block_coupled
  | short_block_dispensed, short_block_dispensed
  | short_block_forced, short_block_forced => true
  | _, _ => false
  end.

Record SessionConfig : Type := {
  short_blocks : short_block_t;
  channels_out : nat
}.

(** The variables the two routines read and write: the caller's
    [uselongblock], [blocktype_d] and [blocktype] arrays and the
    persistent [psv->blocktype_old]. *)
Record bt_vars : Type := {
  uselongblock : nat -> bool;
  blocktype_old : nat -> block_type;
  blocktype_d : nat -> block_type;
  blocktype : nat -> block_type
}.

(** The first statement of [block_type_set] and of
    [vbrpsy_compute_block_type]: with coupled short blocks one short
    channel makes both channels short. *)
Definition couple_channels (cfg : SessionConfig) (ul : nat -> bool) : nat -> bool :=
  if short_block_eqb (short_blocks cfg) short_block_coupled
     && negb (ul 0%nat && ul 1%nat)
  then upd (upd ul 1%nat false) 0%nat false
  else ul.

(** The two policy overrides applied to channel [chn]. *)
Definition override_channel (cfg : SessionConfig) (ul : nat -> bool) (chn : nat)
  : nat -> bool :=
  let ul1 := if short_block_eqb (short_blocks cfg) short_block_dispensed
             then upd ul chn true else ul in
  if short_block_eqb (short_blocks cfg) short_block_forced
  then upd ul1 chn false else ul1.

(** The part of the loop body shared by [block_type_set] and
    [vbrpsy_apply_block_type]: given the long/short decision of channel
    [chn] it fixes the type of the previous granule ([blocktype_d]) and
    remembers the provisional type of the current one. *)
Definition apply_channel (v : bt_vars) (chn : nat) : bt_vars :=
  let old := blocktype_old v chn in
  if uselongblock v chn then
    (* no attack : use long blocks *)
    let bt := if block_type_eqb old SHORT_TYPE then STOP_TYPE else NORM_TYPE in
    {| uselongblock := uselongblock v;
       blocktype_old := upd (blocktype_old v) chn bt;
       blocktype_d := upd (blocktype_d v) chn old;
       blocktype := upd (blocktype v) chn bt |}
  else
    (* attack : use short blocks *)
    let old1 := if block_type_eqb old NORM_TYPE then START_TYPE else old in
    let old2 := if block_type_eqb old1 STOP_TYPE then SHORT_TYPE else old1 in
    {| uselongblock := uselongblock v;
       blocktype_old := upd (blocktype_old v) chn SHORT_TYPE;
       blocktype_d := upd (blocktype_d v) chn old2;
       blocktype := upd (blocktype v) chn SHORT_TYPE |}.

(** [block_type_set] of L3psycho_anal_ns. *)
Definition block_type_set (cfg : SessionConfig) (v : bt_vars) : bt_vars :=
  let v0 := {| uselongblock := couple_channels cfg (uselongblock v);
               blocktype_old := blocktype_old v;
               blocktype_d := blocktype_d v;
               blocktype := blocktype v |} in
  for_loop
    (fun v chn =>
       apply_channel
         {| uselongblock := override_channel cfg (uselongblock v) chn;
            blocktype_old := blocktype_old v;
            blocktype_d := blocktype_d v;
            blocktype := blocktype v |} chn)
    0 (channels_out cfg) v0.

(** [vbrpsy_compute_block_type] of L3psycho_anal_vbr: it only rewrites
    [uselongblock]. *)
Definition vbrpsy_compute_block_type (cfg : SessionConfig) (ul : nat -> bool)
  : nat -> bool :=
  for_loop (override_channel cfg) 0 (channels_out cfg) (couple_channels cfg ul).

(** [vbrpsy_apply_block_type (psv, nch, uselongblock, blocktype_d)]. *)
Definition vbrpsy_apply_block_type (nch : nat) (v : bt_vars) : bt_vars :=
  for_loop apply_channel 0 nch v.

(** One granule of the vbr analyser, as far as block types go. *)
Definition vbr_block_type_step (cfg : SessionConfig) (v : bt_vars) : bt_vars :=
  vbrpsy_apply_block_type (channels_out cfg)
    {| uselongblock := vbrpsy_compute_block_type cfg (uselongblock v);
       blocktype_old := blocktype_old v;
       blocktype_d := blocktype_d v;
       blocktype := blocktype v |}.

(** The psy state at session start: [psymodel_init] stores [NORM_TYPE] in
    both entries of [blocktype_old]. *)
Definition init_blocktype_old : nat -> block_type := fun _ => NORM_TYPE.

(** A session: one call per granule, each with the attack detector's
    decisions [uls]; the result lists the [blocktype_d] arrays handed back
    to the caller, oldest first.  [d0] is the caller's array before the
    first call. *)
Fixpoint run_granules (step : bt_vars -> bt_vars)
  (old d : nat -> block_type) (uls : list (nat -> bool))
  : list (nat -> block_type) :=
  match uls with
  | [] => []
  | ul :: rest =>
      let v := step {| uselongblock := ul; blocktype_old := old;
                       blocktype_d := d; blocktype := fun _ => NORM_TYPE |} in
      blocktype_d v :: run_granules step (blocktype_old v) (blocktype_d v) rest
  end.

(** The block types channel [chn] is given over a session. *)
Definition emitted (step : bt_vars -> bt_vars) (uls : list (nat -> bool))
  (chn : nat) : list block_type :=
  map (fun d => d chn)
      (run_granules step init_blocktype_old (fun _ => NORM_TYPE) uls).

(** Which type may follow which: a SHORT granule is followed by SHORT or
    STOP, and only START or SHORT come before a SHORT granule. *)
Definition may_follow (a b : block_type) : bool :=
  match a, b with
  | SHORT_TYPE, SHORT_TYPE | SHORT_TYPE, STOP_TYPE => true
  | SHORT_TYPE, _ => false
  | START_TYPE, SHORT_TYPE => true
  | _, SHORT_TYPE => false
  | _, _ => true
  end.

Fixpoint chain_ok (a : block_type) (l : list block_type) : bool :=
  match l with
  | [] => true
  | b :: rest => may_follow a b && chain_ok b rest
  end.

(** A legal sequence of window types: it does not open with SHORT and each
    neighbouring pair is allowed. *)
Definition legal_sequence (l : list block_type) : bool :=
  match l with
  | [] => true
  | a :: rest => negb (block_type_eqb a SHORT_TYPE) && chain_ok a rest
  end.

(** *** The state machine seen from one channel *)

(** What [apply_channel] does to channel [chn], as a function of the stored
    type and the decision: (type handed back, type stored). *)
Definition chan_step (old : block_type) (ul : bool) : block_type * block_type :=
  if ul then
    (old, if block_type_eqb old SHORT_TYPE then STOP_TYPE else NORM_TYPE)
  else
    let old1 := if block_type_eqb old NORM_TYPE then START_TYPE else old in
    (if block_type_eqb old1 STOP_TYPE then SHORT_TYPE else old1, SHORT_TYPE).

Fixpoint chan_trace (old : block_type) (us : list bool) : list block_type :=
  match us with
  | [] => []
  | u :: rest => fst (chan_step old u) :: chan_trace (snd (chan_step old u)) rest
  end.

(** What one channel sees of a call: its decision, its stored type and the
    type handed back. *)
Definition chan_view (c : nat) (v : bt_vars) : bool * block_type * block_type :=
  (uselongblock v c, blocktype_old v c, blocktype_d v c).

Definition chan_apply (x : bool * block_type * block_type)
  : bool * block_type * block_type :=
  let '(u, old, _) := x in
  (u, snd (chan_step old u), fst (chan_step old u)).

Lemma apply_channel_same c v :
  chan_view c (apply_channel v c) = chan_apply (chan_view c v).
Proof.
  unfold chan_view, chan_apply, apply_channel, chan_step.
  destruct (uselongblock v c) eqn:E; cbn [uselongblock blocktype_old blocktype_d];
    rewrite ?upd_same, ?E; reflexivity.
Qed.

Lemma apply_channel_other c chn v :
  chn <> c -> chan_view c (apply_channel v chn) = chan_view c v.
Proof.
  intro H. unfold chan_view, apply_channel.
  destruct (uselongblock v chn); cbn [uselongblock blocktype_old blocktype_d];
    rewrite !upd_other; auto.
Qed.

Lemma override_channel_other cfg ul chn c :
  chn <> c -> override_channel cfg ul chn c = ul c.
Proof.
  intro H. unfold override_channel.
  destruct (short_blocks cfg); simpl; rewrite ?upd_other; auto.
Qed.

Lemma override_channel_same cfg ul c :
  override_channel cfg ul c c = override_channel cfg (fun _ => ul c) c c.
Proof.
  unfold override_channel.
  destruct (short_blocks cfg); simpl; rewrite ?upd_same; reflexivity.
Qed.

(** Within a call every channel below [channels_out] makes exactly one
    [chan_step], on some decision [u]. *)
Lemma block_type_set_channel cfg v c :
  (c < channels_out cfg)%nat ->
  exists u,
    blocktype_d (block_type_set cfg v) c = fst (chan_step (blocktype_old v c) u) /\
    blocktype_old (block_type_set cfg v) c = snd (chan_step (blocktype_old v c) u).
Proof.
  intro Hc. unfold block_type_set.
  set (body := fun (v : bt_vars) (chn : nat) => apply_channel _ chn).
  set (v0 := Build_bt_vars _ _ _ _).
  pose proof (for_loop_view body (chan_view c)
    (fun x => chan_apply (override_channel cfg (fun _ => fst (fst x)) c c,
                          snd (fst x), snd x)) c) as H.
  assert (H1 : forall s chn, chn <> c -> chan_view c (body s chn) = chan_view c s).
  { intros s chn Hne. unfold body. rewrite apply_channel_other by exact Hne.
    unfold chan_view; simpl. now rewrite override_channel_other. }
  assert (H2 : forall s, chan_view c (body s c)
     = chan_apply (override_channel cfg (fun _ => fst (fst (chan_view c s))) c c,
                   snd (fst (chan_view c s)), snd (chan_view c s))).
  { intros s. unfold body. rewrite apply_channel_same.
    unfold chan_view; cbn [uselongblock blocktype_old blocktype_d fst snd].
    now rewrite override_channel_same. }
  specialize (H H1 H2 (channels_out cfg) 0%nat v0).
  replace ((0 <=? c)%nat && (c <? 0 + channels_out cfg)%nat) with true in H.
  2:{ symmetry. apply andb_true_intro. split.
      - now apply Nat.leb_le, Nat.le_0_l.
      - now apply Nat.ltb_lt. }
  unfold chan_view, chan_apply in H; simpl in H.
  injection H as _ Hold Hd.
  eexists. split; [exact Hd | exact Hold].
Qed.

Lemma vbr_block_type_step_channel cfg v c :
  (c < channels_out cfg)%nat ->
  exists u,
    blocktype_d (vbr_block_type_step cfg v) c = fst (chan_step (blocktype_old v c) u) /\
    blocktype_old (vbr_block_type_step cfg v) c = snd (chan_step (blocktype_old v c) u).
Proof.
  intro Hc. unfold vbr_block_type_step, vbrpsy_apply_block_type.
  set (v0 := Build_bt_vars _ _ _ _).
  pose proof (for_loop_view apply_channel (chan_view c) chan_apply c
                (fun s chn Hne => apply_channel_other c chn s Hne)
                (apply_channel_same c) (channels_out cfg) 0%nat v0) as H.
  replace ((0 <=? c)%nat && (c <? 0 + channels_out cfg)%nat) with true in H.
  2:{ symmetry. apply andb_true_intro. split.
      - now apply Nat.leb_le, Nat.le_0_l.
      - now apply Nat.ltb_lt. }
  unfold chan_view, chan_apply in H; simpl in H.
  injection H as _ Hold Hd.
  eexists. split; [exact Hd | exact Hold].
Qed.

(** Over a session a channel's types are the trace of [chan_step] on some
    sequence of decisions. *)
Lemma run_granules_trace (step : bt_vars -> bt_vars) (c : nat) :
  (forall v, exists u,
      blocktype_d (step v) c = fst (chan_step (blocktype_old v c) u) /\
      blocktype_old (step v) c = snd (chan_step (blocktype_old v c) u)) ->
  forall uls old d,
  exists us, length us = length uls /\
    map (fun d => d c) (run_granules step old d uls) = chan_trace (old c) us.
Proof.
  intros Hstep uls. induction uls as [|ul rest IH]; intros old d.
  - exists []. split; reflexivity.
  - simpl.
    destruct (Hstep {| uselongblock := ul; blocktype_old := old;
                       blocktype_d := d; blocktype := fun _ => NORM_TYPE |})
      as [u [Hd Hold]].
    simpl in Hd, Hold.
    destruct (IH (blocktype_old (step {| uselongblock := ul; blocktype_old := old;
                       blocktype_d := d; blocktype := fun _ => NORM_TYPE |}))
                 (blocktype_d (step {| uselongblock := ul; blocktype_old := old;
                       blocktype_d := d; blocktype := fun _ => NORM_TYPE |})))
      as [us [Hlen Hus]].
    exists (u :: us). split; [simpl; now rewrite Hlen|].
    simpl. rewrite Hd, Hus, Hold. reflexivity.
Qed.

(** The invariant between the type handed back last and the stored one. *)
Definition linked (e old : block_type) : bool :=
  match old, e with
  | NORM_TYPE, NORM_TYPE | NORM_TYPE, STOP_TYPE => true
  | SHORT_TYPE, START_TYPE | SHORT_TYPE, SHORT_TYPE => true
  | STOP_TYPE, SHORT_TYPE => true
  | _, _ => false
  end.

Lemma chan_trace_chain e old us :
  linked e old = true -> chain_ok e (chan_trace old us) = true.
Proof.
  revert e old. induction us as [|u rest IH]; intros e old H; simpl; [reflexivity|].
  apply andb_true_intro. split.
  - destruct e, old, u; simpl in *; congruence.
  - apply IH. destruct e, old, u; simpl in *; congruence.
Qed.

Lemma chan_trace_legal us : legal_sequence (chan_trace NORM_TYPE us) = true.
Proof.
  destruct us as [|u rest]; simpl; [reflexivity|].
  apply andb_true_intro. split.
  - now destruct u.
  - apply chan_trace_chain. now destruct u.
Qed.

Lemma chain_ok_nth a l :
  chain_ok a l = true ->
  forall i x y, nth_error (a :: l) i = Some x -> nth_error (a :: l) (S i) = Some y ->
    may_follow x y = true.
Proof.
  revert a. induction l as [|b rest IH]; intros a H i x y Hx Hy.
  - destruct i; simpl in Hy; [discriminate| destruct i; discriminate].
  - simpl in H. apply andb_prop in H as [H1 H2].
    destruct i as [|i].
    + simpl in Hx, Hy. congruence.
    + simpl in Hx. apply (IH b H2 i x y Hx Hy).
Qed.

(** C2: on every coded channel, in both analysers, the window types handed
    back over a session never open with SHORT; a SHORT granule is followed
    (if at all) by SHORT or STOP and comes right after START or SHORT; so
    SHORT and NORM are never neighbours, every run of SHORT granules is
    entered through START and left through STOP. *)
Theorem block_type_legality :
  forall (cfg : SessionConfig) (uls : list (nat -> bool)) (chn : nat),
    (chn < channels_out cfg)%nat ->
    forall l,
      l = emitted (block_type_set cfg) uls chn \/
      l = emitted (vbr_block_type_step cfg) uls chn ->
      nth_error l 0 <> Some SHORT_TYPE /\
      forall i a b,
        nth_error l i = Some a -> nth_error l (S i) = Some b ->
        (a = SHORT_TYPE -> b = SHORT_TYPE \/ b = STOP_TYPE) /\
        (b = SHORT_TYPE -> a = START_TYPE \/ a = SHORT_TYPE) /\
        ~ (a = SHORT_TYPE /\ b = NORM_TYPE) /\
        ~ (a = NORM_TYPE /\ b = SHORT_TYPE).
Proof.
  intros cfg uls chn Hc l Hl.
  assert (Hlegal : legal_sequence l = true).
  { destruct Hl as [-> | ->]; unfold emitted.
    - destruct (run_granules_trace (block_type_set cfg) chn
                  (fun v => block_type_set_channel cfg v chn Hc)
                  uls init_blocktype_old (fun _ => NORM_TYPE)) as [us [_ ->]].
      apply chan_trace_legal.
    - destruct (run_granules_trace (vbr_block_type_step cfg) chn
                  (fun v => vbr_block_type_step_channel cfg v chn Hc)
                  uls init_blocktype_old (fun _ => NORM_TYPE)) as [us [_ ->]].
      apply chan_trace_legal. }
  clear Hl. destruct l as [|a0 rest].
  - split; [discriminate|]. intros [|i] a b Ha; discriminate.
  - simpl in Hlegal. apply andb_prop in Hlegal as [H0 Hch].
    split.
    + simpl. intro E. injection E as ->. discriminate.
    + intros i a b Ha Hb.
      pose proof (chain_ok_nth a0 rest Hch i a b Ha Hb) as Hm.
      repeat split.
      * intros ->. destruct b; simpl in Hm; try discriminate; auto.
      * intros ->. destruct a; simpl in Hm; try discriminate; auto.
      * intros [-> ->]. discriminate.
      * intros [-> ->]. discriminate.
Qed.

(** A stereo session with coupled short blocks: an attack on the left
    channel in the second of four granules. *)
Lemma block_type_legality_witness :
  let cfg := {| short_blocks := short_block_coupled; channels_out := 2 |} in
  let uls := [ (fun _ : nat => true); (fun c : nat => negb (Nat.eqb c 0));
               (fun _ : nat => true); (fun _ : nat => true) ] in
  emitted (block_type_set cfg) uls 1 = [NORM_TYPE; START_TYPE; SHORT_TYPE; STOP_TYPE] /\
  (nth_error (emitted (block_type_set cfg) uls 1) 0 <> Some SHORT_TYPE /\
   forall i a b,
     nth_error (emitted (block_type_set cfg) uls 1) i = Some a ->
     nth_error (emitted (block_type_set cfg) uls 1) (S i) = Some b ->
     (a = SHORT_TYPE -> b = SHORT_TYPE \/ b = STOP_TYPE) /\
     (b = SHORT_TYPE -> a = START_TYPE \/ a = SHORT_TYPE) /\
     ~ (a = SHORT_TYPE /\ b = NORM_TYPE) /\
     ~ (a = NORM_TYPE /\ b = SHORT_TYPE)).
Proof.
  intros cfg uls. split.
  - reflexivity.
  - apply (block_type_legality cfg uls 1%nat).
    + unfold cfg; simpl; lia.
    + left; reflexivity.
Defined.

End BlockType.

(** * C numbers *)

Open Scope R_scope.

(** The C conversion [(int) x] of a floating-point value: truncation
    toward zero. *)
Definition c_int (x : R) : Z :=
  if Rle_dec 0 x then Int_part x else (- Int_part (- x))%Z.

(** [t[i]] for a constant table: the entry, and 0 where the C read would
    leave the table. *)
Definition table_at (t : list R) (i : Z) : R :=
  if (i <? 0)%Z then 0 else nth (Z.to_nat i) t 0.

Lemma c_int_range (x : R) (n : Z) :
  0 <= x -> x < IZR n -> (0 <= c_int x < n)%Z.
Proof.
  intros H0 Hn. unfold c_int.
  destruct (Rle_dec 0 x) as [_|Hc]; [|contradiction].
  destruct (base_Int_part x) as [Hle Hgt].
  split.
  - apply Z.lt_succ_r. apply lt_IZR. rewrite succ_IZR. lra.
  - apply lt_IZR. lra.
Qed.

(** * psymodel.c: addition of simultaneous masking *)

Module MaskAdd.

Definition I1LIMIT : Z := 8.
Definition I2LIMIT : Z := 23.
Definition MLIMIT : Z := 15.

(** The three file-level statics [ma_max_i1], [ma_max_i2], [ma_max_m]. *)
Record mask_add_limits : Type := {
  ma_max_i1 : R;
  ma_max_i2 : R;
  ma_max_m : R
}.

(** [init_mask_add_max_values]: [pow(10, x)] is [Rpower 10 x]. *)
Definition init_mask_add_max_values : mask_add_limits :=
  {| ma_max_i1 := Rpower 10 (IZR (I1LIMIT + 1) / 16);
     ma_max_i2 := Rpower 10 (IZR (I2LIMIT + 1) / 16);
     ma_max_m := Rpower 10 (IZR MLIMIT / 10) |}.

Definition table1 : list R :=
  [ 3.3246 * 3.3246; 3.23837 * 3.23837; 3.15437 * 3.15437; 3.00412 * 3.00412;
    2.86103 * 2.86103; 2.65407 * 2.65407; 2.46209 * 2.46209; 2.284 * 2.284;
    2.11879 * 2.11879; 1.96552 * 1.96552; 1.82335 * 1.82335; 1.69146 * 1.69146;
    1.56911 * 1.56911; 1.46658 * 1.46658; 1.37074 * 1.37074; 1.31036 * 1.31036;
    1.25264 * 1.25264; 1.20648 * 1.20648; 1.16203 * 1.16203; 1.12765 * 1.12765;
    1.09428 * 1.09428; 1.0659 * 1.0659; 1.03826 * 1.03826; 1.01895 * 1.01895;
    1 ].

Definition table2 : list R :=
  [ 1.33352 * 1.33352; 1.35879 * 1.35879; 1.38454 * 1.38454; 1.39497 * 1.39497;
    1.40548 * 1.40548; 1.3537 * 1.3537; 1.30382 * 1.30382; 1.22321 * 1.22321;
    1.14758 * 1.14758;
    1 ].

Definition table3 : list R :=
  [ 2.35364 * 2.35364; 2.29259 * 2.29259; 2.23313 * 2.23313; 2.12675 * 2.12675;
    2.02545 * 2.02545; 1.87894 * 1.87894; 1.74303 * 1.74303; 1.61695 * 1.61695;
    1.49999 * 1.49999; 1.39148 * 1.39148; 1.29083 * 1.29083; 1.19746 * 1.19746;
    1.11084 * 1.11084; 1.03826 * 1.03826 ].

(** The exact form of the macro [FAST_LOG10_X(x, y)]: [log10(x) * y]. *)
Definition log10_x (x y : R) : R := ln x / ln 10 * y.

Section WithLog.

(** The macro [FAST_LOG10_X] of machine.h (not among the translated
    sources: it is either [log10(x)*(y)] or a table-driven approximation
    of it). *)
Variable FAST_LOG10_X : R -> R -> R.

(** [vbrpsy_mask_add (m1, m2, b)], reading the limits from [lim]. *)
Definition vbrpsy_mask_add (lim : mask_add_limits) (m1 m2 : R) (b : Z) : R :=
  let m1 := if Rlt_dec m1 0 then 0 else m1 in
  let m2 := if Rlt_dec m2 0 then 0 else m2 in
  if Rle_dec m1 0 then m2
  else if Rle_dec m2 0 then m1
  else
    let ratio := if Rgt_dec m2 m1 then m2 / m1 else m1 / m2 in
    if ((-2 <=? b) && (b <=? 2))%Z then
      (* approximately, 1 bark = 3 partitions *)
      if Rge_dec ratio (ma_max_i1 lim) then m1 + m2
      else
        let i := c_int (FAST_LOG10_X ratio 16) in
        (m1 + m2) * table_at table2 i
    else if Rlt_dec ratio (ma_max_i2 lim) then m1 + m2
    else if Rlt_dec m1 m2 then m2 else m1.

(** [mask_add (m1, m2, kk, b, gfc, shortblock)] of the ns analyser;
    [cb_l], [cb_s] and [adjust_factor] are the fields of [gfc->ATH] it
    reads.  The test [(unsigned int) (b + 3) <= 3 + 3] holds exactly for
    [-3 <= b <= 3]. *)
Definition mask_add (lim : mask_add_limits) (cb_l cb_s : Z -> R)
  (adjust_factor : R) (m1 m2 : R) (kk b : Z) (shortblock : bool) : R :=
  let sum := m1 + m2 in
  let go (ratio : R) : R :=
    if ((-3 <=? b) && (b <=? 3))%Z then
      if Rge_dec ratio (ma_max_i1 lim) then sum
      else sum * table_at table2 (c_int (FAST_LOG10_X ratio 16))
    else
      let i := c_int (FAST_LOG10_X ratio 16) in
      let ath := (if shortblock then cb_s kk else cb_l kk) * adjust_factor in
      if Rlt_dec sum (ma_max_m lim * ath) then
        if Rgt_dec sum ath then
          let f := if (i <=? 13)%Z then table_at table3 i else 1 in
          let r := FAST_LOG10_X (sum / ath) (10 / 15) in
          sum * ((table_at table1 i - f) * r + f)
        else if (13 <? i)%Z then sum
        else sum * table_at table3 i
      else sum * table_at table1 i in
  if Rgt_dec m2 m1 then
    if Rlt_dec m2 (m1 * ma_max_i2 lim) then go (m2 / m1) else sum
  else
    if Rge_dec m1 (m2 * ma_max_i2 lim) then sum else go (m1 / m2).

End WithLog.

(** *** Facts about the tables and the limits *)

Lemma table2_at_ge_1 (i : Z) : (0 <= i < 10)%Z -> 1 <= table_at table2 i.
Proof.
  intros [H0 H10]. unfold table_at.
  destruct (Z.ltb_spec i 0) as [Hn|_]; [lia|].
  assert (Hi : (Z.to_nat i < 10)%nat) by lia.
  remember (Z.to_nat i) as k eqn:Hk. clear Hk. unfold table2.
  do 10 (destruct k as [|k]; [simpl; nra|]).
  lia.
Qed.

Lemma ln_10_pos : 0 < ln 10.
Proof. rewrite <- ln_1. apply ln_increasing; lra. Qed.

(** Below the limit [ma_max_i1] the exact logarithm indexes [table2]
    within its first nine entries. *)
Lemma log10_x_16_range (x : R) :
  1 <= x -> x < ma_max_i1 init_mask_add_max_values ->
  0 <= log10_x x 16 < 10.
Proof.
  intros H1 Hx. unfold log10_x.
  pose proof ln_10_pos as Hl.
  assert (Hln0 : 0 <= ln x).
  { rewrite <- ln_1. destruct H1 as [H1|<-]; [left; apply ln_increasing; lra | right; reflexivity]. }
  assert (Hln : ln x < 9 / 16 * ln 10).
  { unfold init_mask_add_max_values, I1LIMIT in Hx; simpl in Hx.
    replace (9 / 16 * ln 10) with (ln (Rpower 10 (9 / 16))).
    - apply ln_increasing; [lra|]. exact Hx.
    - unfold Rpower. now rewrite ln_exp. }
  split.
  - apply Rmult_le_pos; [|lra].
    apply Rmult_le_pos; [exact Hln0|]. left. now apply Rinv_0_lt_compat.
  - assert (ln x / ln 10 < 9 / 16).
    { apply Rmult_lt_reg_r with (r := ln 10); [exact Hl|].
      unfold Rdiv at 1. rewrite Rmult_assoc, Rinv_l by lra. lra. }
    lra.
Qed.

Section MaskAddProperties.

Variable FAST_LOG10_X : R -> R -> R.

(** What [vbrpsy_mask_add] computes once both maskers are positive. *)
Definition mask_add_pos (lim : mask_add_limits) (a c : R) (b : Z) : R :=
  let ratio := Rmax a c / Rmin a c in
  if ((-2 <=? b) && (b <=? 2))%Z then
    if Rge_dec ratio (ma_max_i1 lim) then a + c
    else (a + c) * table_at table2 (c_int (FAST_LOG10_X ratio 16))
  else if Rlt_dec ratio (ma_max_i2 lim) then a + c
  else Rmax a c.

Lemma vbrpsy_mask_add_positive lim m1 m2 b :
  0 < m1 -> 0 < m2 ->
  vbrpsy_mask_add FAST_LOG10_X lim m1 m2 b = mask_add_pos lim m1 m2 b.
Proof.
  intros H1 H2. unfold vbrpsy_mask_add, mask_add_pos.
  destruct (Rlt_dec m1 0) as [?|_]; [lra|].
  destruct (Rlt_dec m2 0) as [?|_]; [lra|].
  destruct (Rle_dec m1 0) as [?|_]; [lra|].
  destruct (Rle_dec m2 0) as [?|_]; [lra|].
  destruct (Rgt_dec m2 m1) as [Hgt|Hle].
  - rewrite Rmax_right, Rmin_left by lra.
    destruct (Rlt_dec m1 m2) as [_|?]; [reflexivity|lra].
  - rewrite Rmax_left, Rmin_right by lra.
    destruct (Rlt_dec m1 m2) as [?|_]; [lra|reflexivity].
Qed.

Lemma vbrpsy_mask_add_nonpos_l lim m1 m2 b :
  m1 <= 0 -> vbrpsy_mask_add FAST_LOG10_X lim m1 m2 b = Rmax m2 0.
Proof.
  intros H1. unfold vbrpsy_mask_add.
  assert (E : (if Rlt_dec m1 0 then 0 else m1) = 0)
    by (destruct (Rlt_dec m1 0); lra).
  rewrite E. destruct (Rle_dec 0 0) as [_|?]; [|lra].
  destruct (Rlt_dec m2 0); [rewrite Rmax_right | rewrite Rmax_left]; lra.
Qed.

Lemma vbrpsy_mask_add_nonpos_r lim m1 m2 b :
  0 < m1 -> m2 <= 0 -> vbrpsy_mask_add FAST_LOG10_X lim m1 m2 b = m1.
Proof.
  intros H1 H2. unfold vbrpsy_mask_add.
  destruct (Rlt_dec m1 0) as [?|_]; [lra|].
  destruct (Rle_dec m1 0) as [?|_]; [lra|].
  assert (E : (if Rlt_dec m2 0 then 0 else m2) = 0)
    by (destruct (Rlt_dec m2 0); lra).
  rewrite E. destruct (Rle_dec 0 0) as [_|?]; [reflexivity|lra].
Qed.

Lemma mask_add_pos_sym lim a c b : mask_add_pos lim a c b = mask_add_pos lim c a b.
Proof.
  unfold mask_add_pos.
  now rewrite (Rmax_comm a c), (Rmin_comm a c), (Rplus_comm a c).
Qed.

(** The macro is only ever asked for ratios from 1 up to the limit
    [ma_max_i1]; there it must stay inside the ten entries of [table2]. *)
Hypothesis FAST_LOG10_X_in_table :
  forall x, 1 <= x -> x < ma_max_i1 init_mask_add_max_values ->
            0 <= FAST_LOG10_X x 16 < 10.

Lemma mask_add_pos_ge_max a c b :
  0 < a -> 0 < c -> Rmax a c <= mask_add_pos init_mask_add_max_values a c b.
Proof.
  intros Ha Hc. unfold mask_add_pos.
  assert (Hmax : Rmax a c <= a + c).
  { apply Rmax_lub; lra. }
  assert (Hmin : 0 < Rmin a c) by (apply Rmin_glb_lt; lra).
  assert (Hratio : 1 <= Rmax a c / Rmin a c).
  { apply Rmult_le_reg_r with (r := Rmin a c); [exact Hmin|].
    unfold Rdiv. rewrite Rmult_assoc, Rinv_l, Rmult_1_r, Rmult_1_l by lra.
    apply Rle_trans with a; [apply Rmin_l | apply Rmax_l]. }
  destruct ((-2 <=? b)%Z && (b <=? 2)%Z).
  - destruct (Rge_dec _ _) as [_|Hlt]; [exact Hmax|].
    apply Rnot_ge_lt in Hlt.
    pose proof (FAST_LOG10_X_in_table _ Hratio Hlt) as [Hlo Hhi].
    pose proof (table2_at_ge_1 _ (c_int_range _ 10 Hlo Hhi)) as Ht.
    nra.
  - destruct (Rlt_dec _ _); [exact Hmax | apply Rle_refl].
Qed.

(** C10: [vbrpsy_mask_add] does not depend on the order of its two maskers,
    and its result is at least the larger of the two maskers and zero.
    This holds for the limits set by [init_mask_add_max_values] and every
    distance [b]. *)
Theorem vbrpsy_mask_add_symmetric_not_weaker :
  forall (m1 m2 : R) (b : Z),
    vbrpsy_mask_add FAST_LOG10_X init_mask_add_max_values m1 m2 b
    = vbrpsy_mask_add FAST_LOG10_X init_mask_add_max_values m2 m1 b /\
    Rmax (Rmax m1 m2) 0
    <= vbrpsy_mask_add FAST_LOG10_X init_mask_add_max_values m1 m2 b.
Proof.
  intros m1 m2 b.
  destruct (Rle_dec m1 0) as [H1|H1]; destruct (Rle_dec m2 0) as [H2|H2].
  - rewrite !vbrpsy_mask_add_nonpos_l by assumption.
    rewrite (Rmax_right m2 0), (Rmax_right m1 0) by lra.
    split; [reflexivity|]. repeat apply Rmax_lub; lra.
  - rewrite vbrpsy_mask_add_nonpos_l by assumption.
    rewrite vbrpsy_mask_add_nonpos_r by lra.
    rewrite (Rmax_left m2 0) by lra.
    split; [reflexivity|]. repeat apply Rmax_lub; lra.
  - rewrite vbrpsy_mask_add_nonpos_r by lra.
    rewrite vbrpsy_mask_add_nonpos_l by assumption.
    rewrite (Rmax_left m1 0) by lra.
    split; [reflexivity|]. repeat apply Rmax_lub; lra.
  - rewrite !vbrpsy_mask_add_positive by lra.
    split; [apply mask_add_pos_sym|].
    apply Rmax_lub.
    + apply mask_add_pos_ge_max; lra.
    + apply Rle_trans with (Rmax m1 m2).
      * apply Rle_trans with m1; [lra | apply Rmax_l].
      * apply mask_add_pos_ge_max; lra.
Qed.

End MaskAddProperties.

(** Two close maskers (ratio 2, one partition apart) under the exact
    logarithm. *)
Lemma vbrpsy_mask_add_symmetric_not_weaker_witness :
  vbrpsy_mask_add log10_x init_mask_add_max_values 1 2 1
  = vbrpsy_mask_add log10_x init_mask_add_max_values 2 1 1 /\
  Rmax (Rmax 1 2) 0 <= vbrpsy_mask_add log10_x init_mask_add_max_values 1 2 1.
Proof.
  exact (vbrpsy_mask_add_symmetric_not_weaker log10_x log10_x_16_range 1 2 1%Z).
Defined.

End MaskAdd.

(** * psymodel.c: the persistent psy state and its initialisation *)

Module PsyInit.

Import BlockType.

(** Two-dimensional arrays: [upd2 a i j v] is [a] after [a[i][j] = v]. *)
Definition upd2 {A : Type} (a : nat -> nat -> A) (i j : nat) (v : A)
  : nat -> nat -> A :=
  upd a i (upd (a i) j v).

Lemma upd2_same {A : Type} (a : nat -> nat -> A) i j v : upd2 a i j v i j = v.
Proof. unfold upd2. now rewrite !upd_same. Qed.

Lemma upd2_other {A : Type} (a : nat -> nat -> A) i j i' j' v :
  (i', j') <> (i, j) -> upd2 a i j v i' j' = a i' j'.
Proof.
  intro H. unfold upd2, upd.
  destruct (Nat.eqb_spec i' i) as [->|]; [|reflexivity].
  destruct (Nat.eqb_spec j' j) as [->|]; [congruence|reflexivity].
Qed.

(** [III_psy_xmin]: the long-block table [l[SBMAX_l]] and the short-block
    table [s[SBMAX_s][3]]. *)
Record III_psy_xmin : Type := {
  psy_l : nat -> R;
  psy_s : nat -> nat -> R
}.

(** The fields of [PsyStateVar_t] that [psymodel_init] writes. *)
Record PsyStateVar : Type := {
  nb_l1 : nat -> nat -> R;
  nb_l2 : nat -> nat -> R;
  nb_s1 : nat -> nat -> R;
  nb_s2 : nat -> nat -> R;
  en : nat -> III_psy_xmin;
  thm : nat -> III_psy_xmin;
  last_attacks : nat -> Z;
  last_en_subshort : nat -> nat -> R;
  loudness_sq_save : nat -> R;
  psv_blocktype_old : nat -> block_type
}.

(** A freshly [calloc]ed state. *)
Definition zero_xmin : III_psy_xmin :=
  {| psy_l := fun _ => 0; psy_s := fun _ _ => 0 |}.

Definition zero_psv : PsyStateVar :=
  {| nb_l1 := fun _ _ => 0; nb_l2 := fun _ _ => 0;
     nb_s1 := fun _ _ => 0; nb_s2 := fun _ _ => 0;
     en := fun _ => zero_xmin; thm := fun _ => zero_xmin;
     last_attacks := fun _ => 0%Z;
     last_en_subshort := fun _ _ => 0;
     loudness_sq_save := fun _ => 0;
     psv_blocktype_old := fun _ => NORM_TYPE |}.

Section Dimensions.

(** Array dimensions of encoder.h. *)
Variables CBANDS SBMAX_l SBMAX_s : nat.

(** [psv->nb_l1[i][j] = 1e20; psv->nb_l2[i][j] = 1e20;
     psv->nb_s1[i][j] = psv->nb_s2[i][j] = 1.0;] *)
Definition init_nb (i : nat) (p : PsyStateVar) (j : nat) : PsyStateVar :=
  {| nb_l1 := upd2 (nb_l1 p) i j 1e20;
     nb_l2 := upd2 (nb_l2 p) i j 1e20;
     nb_s1 := upd2 (nb_s1 p) i j 1.0;
     nb_s2 := upd2 (nb_s2 p) i j 1.0;
     en := en p; thm := thm p;
     last_attacks := last_attacks p;
     last_en_subshort := last_en_subshort p;
     loudness_sq_save := loudness_sq_save p;
     psv_blocktype_old := psv_blocktype_old p |}.

Definition set_l (x : III_psy_xmin) (sb : nat) (v : R) : III_psy_xmin :=
  {| psy_l := upd (psy_l x) sb v; psy_s := psy_s x |}.

Definition set_s (x : III_psy_xmin) (sb j : nat) (v : R) : III_psy_xmin :=
  {| psy_l := psy_l x; psy_s := upd2 (psy_s x) sb j v |}.

(** [psv->en[i].l[sb] = 1e20; psv->thm[i].l[sb] = 1e20;] *)
Definition init_xmin_l (i : nat) (p : PsyStateVar) (sb : nat) : PsyStateVar :=
  {| nb_l1 := nb_l1 p; nb_l2 := nb_l2 p; nb_s1 := nb_s1 p; nb_s2 := nb_s2 p;
     en := upd (en p) i (set_l (en p i) sb 1e20);
     thm := upd (thm p) i (set_l (thm p i) sb 1e20);
     last_attacks := last_attacks p;
     last_en_subshort := last_en_subshort p;
     loudness_sq_save := loudness_sq_save p;
     psv_blocktype_old := psv_blocktype_old p |}.

(** [psv->en[i].s[sb][j] = 1e20; psv->thm[i].s[sb][j] = 1e20;] *)
Definition init_xmin_s (i j : nat) (p : PsyStateVar) (sb : nat) : PsyStateVar :=
  {| nb_l1 := nb_l1 p; nb_l2 := nb_l2 p; nb_s1 := nb_s1 p; nb_s2 := nb_s2 p;
     en := upd (en p) i (set_s (en p i) sb j 1e20);
     thm := upd (thm p) i (set_s (thm p i) sb j 1e20);
     last_attacks := last_attacks p;
     last_en_subshort := last_en_subshort p;
     loudness_sq_save := loudness_sq_save p;
     psv_blocktype_old := psv_blocktype_old p |}.

(** The body of [for (j = 0; j < 3; ++j)]: the loop over [sb], then
    [psv->last_attacks[i] = 0;]. *)
Definition init_window (i : nat) (p : PsyStateVar) (j : nat) : PsyStateVar :=
  let p1 := for_loop (init_xmin_s i j) 0 SBMAX_s p in
  {| nb_l1 := nb_l1 p1; nb_l2 := nb_l2 p1; nb_s1 := nb_s1 p1; nb_s2 := nb_s2 p1;
     en := en p1; thm := thm p1;
     last_attacks := upd (last_attacks p1) i 0%Z;
     last_en_subshort := last_en_subshort p1;
     loudness_sq_save := loudness_sq_save p1;
     psv_blocktype_old := psv_blocktype_old p1 |}.

(** [psv->last_en_subshort[i][j] = 10.;] *)
Definition init_subshort (i : nat) (p : PsyStateVar) (j : nat) : PsyStateVar :=
  {| nb_l1 := nb_l1 p; nb_l2 := nb_l2 p; nb_s1 := nb_s1 p; nb_s2 := nb_s2 p;
     en := en p; thm := thm p;
     last_attacks := last_attacks p;
     last_en_subshort := upd2 (last_en_subshort p) i j 10;
     loudness_sq_save := loudness_sq_save p;
     psv_blocktype_old := psv_blocktype_old p |}.

(** The body of [for (i = 0; i < 4; ++i)]. *)
Definition init_psy_channel (p : PsyStateVar) (i : nat) : PsyStateVar :=
  let p1 := for_loop (init_nb i) 0 CBANDS p in
  let p2 := for_loop (init_xmin_l i) 0 SBMAX_l p1 in
  let p3 := for_loop (init_window i) 0 3 p2 in
  for_loop (init_subshort i) 0 9 p3.

(** [psv->blocktype_old[0] = psv->blocktype_old[1] = NORM_TYPE;] *)
Definition init_blocktype (p : PsyStateVar) : PsyStateVar :=
  {| nb_l1 := nb_l1 p; nb_l2 := nb_l2 p; nb_s1 := nb_s1 p; nb_s2 := nb_s2 p;
     en := en p; thm := thm p;
     last_attacks := last_attacks p;
     last_en_subshort := last_en_subshort p;
     loudness_sq_save := loudness_sq_save p;
     psv_blocktype_old :=
       upd (upd (psv_blocktype_old p) 1%nat NORM_TYPE) 0%nat NORM_TYPE |}.

(** [psv->loudness_sq_save[0] = psv->loudness_sq_save[1] = 0.0;] *)
Definition init_loudness (p : PsyStateVar) : PsyStateVar :=
  {| nb_l1 := nb_l1 p; nb_l2 := nb_l2 p; nb_s1 := nb_s1 p; nb_s2 := nb_s2 p;
     en := en p; thm := thm p;
     last_attacks := last_attacks p;
     last_en_subshort := last_en_subshort p;
     loudness_sq_save := upd (upd (loudness_sq_save p) 1%nat 0.0) 0%nat 0.0;
     psv_blocktype_old := psv_blocktype_old p |}.

(** The part of [psymodel_init] that sets up the psy state: it runs when
    the session has no psy constants yet ([gfc->cd_psy == 0]); a second
    call returns at once. *)
Definition psymodel_init (cd_psy_set : bool) (psv : PsyStateVar) : PsyStateVar :=
  if cd_psy_set then psv
  else init_loudness (for_loop init_psy_channel 0 4 (init_blocktype psv)).

End Dimensions.

Section InitProperties.

Variables CBANDS SBMAX_l SBMAX_s : nat.

Local Abbreviation init_psy_channel := (init_psy_channel CBANDS SBMAX_l SBMAX_s).
Local Abbreviation init_window := (init_window SBMAX_s).
Local Abbreviation psymodel_init := (psymodel_init CBANDS SBMAX_l SBMAX_s).

(** *** What the initialisation leaves in each table *)

Ltac upd_cases :=
  unfold set_l, set_s, upd2; simpl;
  repeat first
    [ rewrite upd_same; simpl
    | rewrite upd_other by congruence; simpl
    | match goal with
      | |- context [upd _ ?a _ ?b] =>
          destruct (Nat.eq_dec b a) as [?|?];
          [ subst; rewrite !upd_same | rewrite !(upd_other _ a b) by assumption ];
          simpl
      end ];
  try congruence; try reflexivity.

(** The four partition-band memories at one place. *)
Definition view_nb (i0 j0 : nat) (p : PsyStateVar) : R * R * R * R :=
  (nb_l1 p i0 j0, nb_l2 p i0 j0, nb_s1 p i0 j0, nb_s2 p i0 j0).

Lemma view_nb_init_loudness i0 j0 p :
  view_nb i0 j0 (init_loudness p) = view_nb i0 j0 p.
Proof. reflexivity. Qed.

Lemma init_psy_channel_nb_other i0 j0 p i :
  i <> i0 -> view_nb i0 j0 (init_psy_channel p i) = view_nb i0 j0 p.
Proof.
  intro Hi. unfold init_psy_channel.
  rewrite (for_loop_frame (init_subshort i) (view_nb i0 j0)) by reflexivity.
  rewrite (for_loop_frame (init_window i) (view_nb i0 j0)).
  2:{ intros s k. unfold init_window, view_nb; simpl.
      pose proof (for_loop_frame (init_xmin_s i k) (view_nb i0 j0)
                    (fun _ _ => eq_refl) SBMAX_s 0%nat s) as H.
      unfold view_nb in H. exact H. }
  rewrite (for_loop_frame (init_xmin_l i) (view_nb i0 j0)) by reflexivity.
  apply for_loop_frame. intros s k. unfold view_nb, init_nb; simpl.
  rewrite !upd2_other by congruence. reflexivity.
Qed.

Lemma init_psy_channel_nb_same i0 j0 p :
  (j0 < CBANDS)%nat ->
  view_nb i0 j0 (init_psy_channel p i0) = (1e20, 1e20, 1.0, 1.0).
Proof.
  intro Hj. unfold init_psy_channel.
  rewrite (for_loop_frame (init_subshort i0) (view_nb i0 j0)) by reflexivity.
  rewrite (for_loop_frame (init_window i0) (view_nb i0 j0)).
  2:{ intros s k. unfold init_window, view_nb; simpl.
      pose proof (for_loop_frame (init_xmin_s i0 k) (view_nb i0 j0)
                    (fun _ _ => eq_refl) SBMAX_s 0%nat s) as H.
      unfold view_nb in H. exact H. }
  rewrite (for_loop_frame (init_xmin_l i0) (view_nb i0 j0)) by reflexivity.
  apply (for_loop_set (init_nb i0) (view_nb i0 j0) _ j0).
  - intros s k Hk. unfold view_nb, init_nb; simpl.
    rewrite !upd2_other by congruence. reflexivity.
  - intros s. unfold view_nb, init_nb; simpl. now rewrite !upd2_same.
  - lia.
Qed.

Lemma psymodel_init_nb psv i0 j0 :
  (i0 < 4)%nat -> (j0 < CBANDS)%nat ->
  view_nb i0 j0 (psymodel_init false psv) = (1e20, 1e20, 1.0, 1.0).
Proof.
  intros Hi Hj. unfold psymodel_init.
  rewrite (view_nb_init_loudness i0 j0).
  apply (for_loop_set init_psy_channel (view_nb i0 j0) _ i0
           (fun s k Hk => init_psy_channel_nb_other i0 j0 s k Hk) (fun s => init_psy_channel_nb_same i0 j0 s Hj)).
  lia.
Qed.

(** The saved long-block energy and threshold of one scalefactor band. *)
Definition view_l (i0 sb0 : nat) (p : PsyStateVar) : R * R :=
  (psy_l (en p i0) sb0, psy_l (thm p i0) sb0).

Lemma view_l_init_loudness i0 sb0 p :
  view_l i0 sb0 (init_loudness p) = view_l i0 sb0 p.
Proof. reflexivity. Qed.

Lemma init_xmin_s_keeps_l i0 sb0 i j s k :
  view_l i0 sb0 (init_xmin_s i j s k) = view_l i0 sb0 s.
Proof. unfold view_l, init_xmin_s; simpl. upd_cases. Qed.

Lemma init_window_keeps_l i0 sb0 i s k :
  view_l i0 sb0 (init_window i s k) = view_l i0 sb0 s.
Proof.
  unfold init_window.
  pose proof (for_loop_frame (init_xmin_s i k) (view_l i0 sb0)
                (init_xmin_s_keeps_l i0 sb0 i k) SBMAX_s 0%nat s) as H.
  unfold view_l in *. exact H.
Qed.

Lemma init_psy_channel_l_other i0 sb0 p i :
  i <> i0 -> view_l i0 sb0 (init_psy_channel p i) = view_l i0 sb0 p.
Proof.
  intro Hi. unfold init_psy_channel.
  rewrite (for_loop_frame (init_subshort i) (view_l i0 sb0)) by reflexivity.
  rewrite (for_loop_frame (init_window i) (view_l i0 sb0))
    by apply init_window_keeps_l.
  rewrite (for_loop_frame (init_xmin_l i) (view_l i0 sb0)).
  2:{ intros s k. unfold view_l, init_xmin_l; simpl. upd_cases. }
  now rewrite (for_loop_frame (init_nb i) (view_l i0 sb0)) by reflexivity.
Qed.

Lemma init_psy_channel_l_same i0 sb0 p :
  (sb0 < SBMAX_l)%nat ->
  view_l i0 sb0 (init_psy_channel p i0) = (1e20, 1e20).
Proof.
  intro Hsb. unfold init_psy_channel.
  rewrite (for_loop_frame (init_subshort i0) (view_l i0 sb0)) by reflexivity.
  rewrite (for_loop_frame (init_window i0) (view_l i0 sb0))
    by apply init_window_keeps_l.
  apply (for_loop_set (init_xmin_l i0) (view_l i0 sb0) _ sb0).
  - intros s k Hk. unfold view_l, init_xmin_l; simpl. upd_cases.
  - intros s. unfold view_l, init_xmin_l; simpl. upd_cases.
  - lia.
Qed.

Lemma psymodel_init_l psv i0 sb0 :
  (i0 < 4)%nat -> (sb0 < SBMAX_l)%nat ->
  view_l i0 sb0 (psymodel_init false psv) = (1e20, 1e20).
Proof.
  intros Hi Hsb. unfold psymodel_init.
  rewrite (view_l_init_loudness i0 sb0).
  apply (for_loop_set init_psy_channel (view_l i0 sb0) _ i0
           (fun s k Hk => init_psy_channel_l_other i0 sb0 s k Hk) (fun s => init_psy_channel_l_same i0 sb0 s Hsb)).
  lia.
Qed.

(** The saved short-block energy and threshold of one band and window. *)
Definition view_s (i0 sb0 w0 : nat) (p : PsyStateVar) : R * R :=
  (psy_s (en p i0) sb0 w0, psy_s (thm p i0) sb0 w0).

Lemma view_s_init_loudness i0 sb0 w0 p :
  view_s i0 sb0 w0 (init_loudness p) = view_s i0 sb0 w0 p.
Proof. reflexivity. Qed.

Lemma init_window_s_other i0 sb0 w0 i s k :
  (i, k) <> (i0, w0) ->
  view_s i0 sb0 w0 (init_window i s k) = view_s i0 sb0 w0 s.
Proof.
  intro Hne. unfold init_window.
  pose proof (for_loop_frame (init_xmin_s i k) (view_s i0 sb0 w0)) as H.
  unfold view_s in *. simpl. apply H.
  intros q sb. unfold init_xmin_s; simpl. upd_cases.
Qed.

Lemma init_window_s_same i0 sb0 w0 s :
  (sb0 < SBMAX_s)%nat ->
  view_s i0 sb0 w0 (init_window i0 s w0) = (1e20, 1e20).
Proof.
  intro Hsb. unfold init_window.
  pose proof (for_loop_set (init_xmin_s i0 w0) (view_s i0 sb0 w0)
                (1e20, 1e20) sb0) as H.
  unfold view_s in *. simpl. apply H.
  - intros q sb Hk. unfold init_xmin_s; simpl. upd_cases.
  - intros q. unfold init_xmin_s; simpl. upd_cases.
  - lia.
Qed.

Lemma init_psy_channel_s_other i0 sb0 w0 p i :
  i <> i0 -> view_s i0 sb0 w0 (init_psy_channel p i) = view_s i0 sb0 w0 p.
Proof.
  intro Hi. unfold init_psy_channel.
  rewrite (for_loop_frame (init_subshort i) (view_s i0 sb0 w0)) by reflexivity.
  rewrite (for_loop_frame (init_window i) (view_s i0 sb0 w0)).
  2:{ intros s k. apply init_window_s_other. congruence. }
  rewrite (for_loop_frame (init_xmin_l i) (view_s i0 sb0 w0)).
  2:{ intros s k. unfold view_s, init_xmin_l; simpl. upd_cases. }
  now rewrite (for_loop_frame (init_nb i) (view_s i0 sb0 w0)) by reflexivity.
Qed.

Lemma init_psy_channel_s_same i0 sb0 w0 p :
  (sb0 < SBMAX_s)%nat -> (w0 < 3)%nat ->
  view_s i0 sb0 w0 (init_psy_channel p i0) = (1e20, 1e20).
Proof.
  intros Hsb Hw. unfold init_psy_channel.
  rewrite (for_loop_frame (init_subshort i0) (view_s i0 sb0 w0)) by reflexivity.
  apply (for_loop_set (init_window i0) (view_s i0 sb0 w0) _ w0).
  - intros s k Hk. apply init_window_s_other. congruence.
  - intros s. now apply init_window_s_same.
  - lia.
Qed.

Lemma psymodel_init_s psv i0 sb0 w0 :
  (i0 < 4)%nat -> (sb0 < SBMAX_s)%nat -> (w0 < 3)%nat ->
  view_s i0 sb0 w0 (psymodel_init false psv) = (1e20, 1e20).
Proof.
  intros Hi Hsb Hw. unfold psymodel_init.
  rewrite (view_s_init_loudness i0 sb0 w0).
  apply (for_loop_set init_psy_channel (view_s i0 sb0 w0) _ i0
           (fun s k Hk => init_psy_channel_s_other i0 sb0 w0 s k Hk) (fun s => init_psy_channel_s_same i0 sb0 w0 s Hsb Hw)).
  lia.
Qed.

(** C8 (as the code has it): the first call of [psymodel_init] leaves the
    loud sentinel 1e20 in the long-block memories [nb_l1], [nb_l2] and in
    the saved [en]/[thm] tables (long and short) of all four channels,
    whereas the short-block memories [nb_s1] and [nb_s2] start at 1.0. *)
Theorem psymodel_init_sentinels :
  forall (psv : PsyStateVar),
    let p := psymodel_init false psv in
    (forall i j, (i < 4)%nat -> (j < CBANDS)%nat ->
       nb_l1 p i j = 1e20 /\ nb_l2 p i j = 1e20 /\
       nb_s1 p i j = 1.0 /\ nb_s2 p i j = 1.0) /\
    (forall i sb, (i < 4)%nat -> (sb < SBMAX_l)%nat ->
       psy_l (en p i) sb = 1e20 /\ psy_l (thm p i) sb = 1e20) /\
    (forall i sb w, (i < 4)%nat -> (sb < SBMAX_s)%nat -> (w < 3)%nat ->
       psy_s (en p i) sb w = 1e20 /\ psy_s (thm p i) sb w = 1e20).
Proof.
  intros psv p. split; [|split].
  - intros i j Hi Hj.
    pose proof (psymodel_init_nb psv i j Hi Hj) as E.
    unfold view_nb in E. fold p in E. repeat split; congruence.
  - intros i sb Hi Hsb.
    pose proof (psymodel_init_l psv i sb Hi Hsb) as E.
    unfold view_l in E. fold p in E. split; congruence.
  - intros i sb w Hi Hsb Hw.
    pose proof (psymodel_init_s psv i sb w Hi Hsb Hw) as E.
    unfold view_s in E. fold p in E. split; congruence.
Qed.

End InitProperties.

(** The dimensions of encoder.h. *)
Definition CBANDS : nat := 64.
Definition SBMAX_l : nat := 22.
Definition SBMAX_s : nat := 13.

(** The first partition band of the left channel after the first
    initialisation of a fresh session. *)
Lemma psymodel_init_sentinels_witness :
  let p := psymodel_init CBANDS SBMAX_l SBMAX_s false zero_psv in
  (nb_l1 p 0 0 = 1e20 /\ nb_l2 p 0 0 = 1e20 /\
   nb_s1 p 0 0 = 1.0 /\ nb_s2 p 0 0 = 1.0) /\
  (psy_l (en p 0) 0 = 1e20 /\ psy_l (thm p 0) 0 = 1e20) /\
  (psy_s (en p 0) 0 0 = 1e20 /\ psy_s (thm p 0) 0 0 = 1e20).
Proof.
  intro p.
  destruct (psymodel_init_sentinels CBANDS SBMAX_l SBMAX_s zero_psv)
    as [Hnb [Hl Hs]].
  split; [|split].
  - apply Hnb; unfold CBANDS; lia.
  - apply Hl; unfold SBMAX_l; lia.
  - apply Hs; unfold SBMAX_s; lia.
Defined.

(** The short-block memory of the first partition band does not hold the
    sentinel after initialisation: it holds 1.0. *)
Lemma psymodel_init_nb_s1_not_sentinel :
  nb_s1 (psymodel_init CBANDS SBMAX_l SBMAX_s false zero_psv) 0 0 = 1.0 /\
  nb_s2 (psymodel_init CBANDS SBMAX_l SBMAX_s false zero_psv) 0 0 = 1.0 /\
  1.0 <> 1e20.
Proof.
  assert (H0 : (0 < 4)%nat) by lia.
  assert (H1 : (0 < CBANDS)%nat) by (unfold CBANDS; lia).
  pose proof (psymodel_init_nb CBANDS SBMAX_l SBMAX_s zero_psv 0 0 H0 H1) as E.
  unfold view_nb in E.
  split; [congruence | split; [congruence | lra]].
Qed.

End PsyInit.

(** * psymodel.c: attack detection *)

Module Attack.

(** The peak of one sub-short block of high-passed samples: [p] starts at
    1 and is raised to the absolute value of every sample above it. *)
Definition peak (samples : list R) : R :=
  fold_left (fun p x => if Rlt_dec p (Rabs x) then Rabs x else p) samples 1.

(** The [i]-th of the nine blocks of [576 / 9] samples. *)
Definition subblock (pf : list R) (i : nat) : list R :=
  firstn 64 (skipn (64 * i) pf).

(** The local arrays of the detector and the row of
    [psv->last_en_subshort] it updates. *)
Record energies : Type := {
  en_subshort : nat -> R;
  en_short : nat -> R;
  attack_intensity : nat -> R;
  last_en_subshort : nat -> R
}.

(** [for (i = 0; i < 3; i++)]: the last three sub-short blocks of the
    previous granule; [les] is the stored row as the call finds it. *)
Definition carry_over (les : nat -> R) (e : energies) (i : nat) : energies :=
  let v := les (i + 6)%nat in
  {| en_subshort := upd (en_subshort e) i v;
     en_short := upd (en_short e) 0%nat (en_short e 0%nat + v);
     attack_intensity := upd (attack_intensity e) i (v / les (i + 4)%nat);
     last_en_subshort := last_en_subshort e |}.

(** [for (i = 0; i < 9; i++)]: the nine sub-short blocks of this granule. *)
Definition measure_subshort (pf : list R) (e : energies) (i : nat) : energies :=
  let p := peak (subblock pf i) in
  let ens := upd (en_subshort e) (i + 3)%nat p in
  let before := ens (i + 3 - 2)%nat in
  let a :=
    if Rgt_dec p before then p / before
    else if Rgt_dec before (p * 10.0) then before / (p * 10.0)
    else 0.0 in
  {| en_subshort := ens;
     en_short := upd (en_short e) (1 + i / 3)%nat (en_short e (1 + i / 3)%nat + p);
     attack_intensity := upd (attack_intensity e) (i + 3)%nat a;
     last_en_subshort := upd (last_en_subshort e) i p |}.

(** Energies and attack intensities of one channel: [les] is
    [psv->last_en_subshort[chn]], [pf] the 576 high-passed samples. *)
Definition subshort_energies (les : nat -> R) (pf : list R) : energies :=
  let e0 := {| en_subshort := fun _ => 0; en_short := fun _ => 0;
               attack_intensity := fun _ => 0; last_en_subshort := les |} in
  for_loop (measure_subshort pf) 0 9 (for_loop (carry_over les) 0 3 e0).

(** "compare energies between sub-shortblocks": the first sub-block of
    each short block whose intensity exceeds the threshold [x] marks it. *)
Definition mark_step (x : R) (intensity : nat -> R) (ns : nat -> Z) (i : nat)
  : nat -> Z :=
  if Z.eqb (ns (i / 3)%nat) 0%Z then
    if Rgt_dec (intensity i) x
    then upd ns (i / 3)%nat (Z.of_nat (i mod 3) + 1)%Z
    else ns
  else ns.

Definition mark_attacks (x : R) (intensity : nat -> R) : nat -> Z :=
  for_loop (mark_step x intensity) 0 12 (fun _ => 0%Z).

(** The ratio of the larger to the smaller of two neighbouring energies,
    as L3psycho_anal_ns forms it. *)
Definition energy_ratio (u v : R) : R :=
  if Rgt_dec u v then u / v else v / u.

(** L3psycho_anal_ns: "should have energy change between short blocks, in
    order to avoid periodic signals". *)
Definition clear_periodic_ns (ens : nat -> R) (ns : nat -> Z) (i : nat)
  : nat -> Z :=
  if Rlt_dec (energy_ratio (ens (i - 1)%nat) (ens i)) 1.7 then
    let ns1 := upd ns i 0%Z in
    if Nat.eqb i 1 then upd ns1 0%nat 0%Z else ns1
  else ns.

(** vbrpsy_attack_detection: the same test with the tunings (1) and (2). *)
Definition clear_periodic_vbr (ens : nat -> R) (ns : nat -> Z) (i : nat)
  : nat -> Z :=
  let u := ens (i - 1)%nat in
  let v := ens i in
  let m := Rmax u v in
  if Rlt_dec m 40000 then
    if Rlt_dec u (1.7 * v) then
      if Rlt_dec v (1.7 * u) then
        let ns0 := if Nat.eqb i 1 && Z.leb (ns 0%nat) (ns i)
                   then upd ns 0%nat 0%Z else ns in
        upd ns0 i 0%Z
      else ns
    else ns
  else ns.

(** The closing statements, common to both analysers: with any attack left
    (or an attack at the very end of the previous granule) the granule
    goes short, and of two neighbouring marks the later one is dropped. *)
Definition resolve_attacks (last_attacks : Z) (ns : nat -> Z)
  : (nat -> Z) * bool :=
  if Z.eqb last_attacks 3
     || negb (Z.eqb (ns 0%nat + ns 1%nat + ns 2%nat + ns 3%nat)%Z 0%Z) then
    let ns1 := if negb (Z.eqb (ns 1%nat) 0%Z) && negb (Z.eqb (ns 0%nat) 0%Z)
               then upd ns 1%nat 0%Z else ns in
    let ns2 := if negb (Z.eqb (ns1 2%nat) 0%Z) && negb (Z.eqb (ns1 1%nat) 0%Z)
               then upd ns1 2%nat 0%Z else ns1 in
    let ns3 := if negb (Z.eqb (ns2 3%nat) 0%Z) && negb (Z.eqb (ns2 2%nat) 0%Z)
               then upd ns2 3%nat 0%Z else ns2 in
    (ns3, false)
  else (ns, true).

(** The attack marks and the long/short decision of L3psycho_anal_ns for
    one channel. *)
Definition attack_detection_ns (les : nat -> R) (pf : list R) (x : R)
  (last_attacks : Z) : (nat -> Z) * bool :=
  let e := subshort_energies les pf in
  let ns := mark_attacks x (attack_intensity e) in
  let ns := for_loop (clear_periodic_ns (en_short e)) 1 3 ns in
  let ns := if negb (Z.eqb (ns 0%nat) 0%Z) && negb (Z.eqb last_attacks 0%Z)
            then upd ns 0%nat 0%Z else ns in
  resolve_attacks last_attacks ns.

(** The same for vbrpsy_attack_detection. *)
Definition attack_detection_vbr (les : nat -> R) (pf : list R) (x : R)
  (last_attacks : Z) : (nat -> Z) * bool :=
  let e := subshort_energies les pf in
  let ns := mark_attacks x (attack_intensity e) in
  let ns := for_loop (clear_periodic_vbr (en_short e)) 1 3 ns in
  let ns := if Z.leb (ns 0%nat) last_attacks then upd ns 0%nat 0%Z else ns in
  resolve_attacks last_attacks ns.

(** *** Marks are set only above the threshold *)

Lemma mark_attacks_sound (x : R) (intensity : nat -> R) (k : nat) :
  mark_attacks x intensity k <> 0%Z ->
  exists i, (i < 12)%nat /\ (i / 3)%nat = k /\ intensity i > x.
Proof.
  unfold mark_attacks. intro Hk.
  refine (for_loop_ind
    (fun j (ns : nat -> Z) =>
       forall k, ns k <> 0%Z ->
                 exists i, (i < j)%nat /\ (i / 3)%nat = k /\ intensity i > x)
    (mark_step x intensity) 12 0 (fun _ => 0%Z) _ _ k Hk).
  { intros k' H'. exfalso. apply H'. reflexivity. }
  clear. intros i ns _ IH k Hk. unfold mark_step in Hk.
  destruct (Z.eqb (ns (i / 3)%nat) 0).
  - destruct (Rgt_dec (intensity i) x) as [Hgt|_].
    + unfold upd in Hk. destruct (Nat.eqb_spec k (i / 3)%nat) as [->|_].
      * exists i. repeat split; [lia | exact Hgt].
      * destruct (IH k Hk) as [j [Hj Hr]]. exists j. split; [lia | exact Hr].
    + destruct (IH k Hk) as [j [Hj Hr]]. exists j. split; [lia | exact Hr].
  - destruct (IH k Hk) as [j [Hj Hr]]. exists j. split; [lia | exact Hr].
Qed.

(** *** The periodicity tests *)

(** The marks after the three tests, for the three short blocks of the
    granule ([k] = 1, 2, 3) and for the carried-over mark ([k] = 0, which
    the first test of the ns analyser clears too). *)
Lemma clear_periodic_ns_sound (ens : nat -> R) (ns : nat -> Z) (k : nat) :
  (k < 4)%nat ->
  for_loop (clear_periodic_ns ens) 1 3 ns k <> 0%Z ->
  ns k <> 0%Z /\
  1.7 <= energy_ratio (ens (Nat.max 1 k - 1)%nat) (ens (Nat.max 1 k)).
Proof.
  intros Hk. cbn [for_loop]. unfold clear_periodic_ns.
  cbn [Nat.eqb Nat.sub].
  destruct (Rlt_dec (energy_ratio (ens 0%nat) (ens 1%nat)) 1.7) as [H1|H1];
  destruct (Rlt_dec (energy_ratio (ens 1%nat) (ens 2%nat)) 1.7) as [H2|H2];
  destruct (Rlt_dec (energy_ratio (ens 2%nat) (ens 3%nat)) 1.7) as [H3|H3];
  (destruct k as [|[|[|[|k]]]]; [| | | |lia]);
  unfold upd; cbn [Nat.eqb Nat.max Nat.sub]; intro H;
  try (exfalso; apply H; reflexivity);
  (split; [exact H | lra]).
Qed.

(** The reading of the vbr test as a condition on its two energies. *)
Definition non_periodic_vbr (u v : R) : Prop :=
  40000 <= Rmax u v \/ 1.7 * v <= u \/ 1.7 * u <= v.

Lemma clear_periodic_vbr_sound (ens : nat -> R) (ns : nat -> Z) (k : nat) :
  (1 <= k < 4)%nat ->
  for_loop (clear_periodic_vbr ens) 1 3 ns k <> 0%Z ->
  ns k <> 0%Z /\ non_periodic_vbr (ens (k - 1)%nat) (ens k).
Proof.
  intros Hk. cbn [for_loop]. unfold clear_periodic_vbr, non_periodic_vbr.
  cbn [Nat.eqb Nat.sub andb].
  destruct k as [|[|[|[|k]]]]; [lia| | | |lia]; cbn [Nat.sub].
  all: repeat match goal with
         | |- context [Rlt_dec ?a ?b] => destruct (Rlt_dec a b)
         | |- context [Z.leb ?a ?b] => destruct (Z.leb a b)
         end;
       unfold upd; cbn [Nat.eqb]; intro H;
       try (exfalso; apply H; reflexivity);
       (split; [exact H | lra]).
Qed.

(** The statements after the tests only ever clear marks. *)
Lemma resolve_attacks_only_clears (last_attacks : Z) (ns : nat -> Z) (k : nat) :
  fst (resolve_attacks last_attacks ns) k <> 0%Z -> ns k <> 0%Z.
Proof.
  unfold resolve_attacks.
  destruct (Z.eqb last_attacks 3 || _); cbn [fst]; [|auto].
  repeat match goal with
         | |- context [if ?c then upd _ _ _ else _] => destruct c
         end;
  unfold upd;
  repeat match goal with
         | |- context [Nat.eqb k ?a] => destruct (Nat.eqb k a)
         end; auto; intro H; exfalso; apply H; reflexivity.
Qed.

Lemma upd_zero_only_clears (ns : nat -> Z) (c : bool) (i k : nat) :
  (if c then upd ns i 0%Z else ns) k <> 0%Z -> ns k <> 0%Z.
Proof.
  destruct c; [|auto]. unfold upd. destruct (Nat.eqb k i); [|auto].
  intro H. exfalso. apply H. reflexivity.
Qed.

(** C7 (as the code has it): a mark of one of the three short blocks of
    the granule ([k] = 1, 2, 3) that is still set when the detector
    returns was set because the attack intensity of one of its sub-blocks
    exceeded the threshold, and it passed the periodicity test against
    the preceding block: in L3psycho_anal_ns the ratio of the two
    energies is at least 1.7 (the mark of the carried-over block 0 obeys
    the first test too); in vbrpsy_attack_detection the larger energy is
    at least 40000 or one energy is at least 1.7 times the other. *)
Theorem attack_survives_only_if_non_periodic :
  forall (les : nat -> R) (pf : list R) (x : R) (last_attacks : Z) (k : nat),
    (1 <= k < 4)%nat ->
    let e := subshort_energies les pf in
    (fst (attack_detection_ns les pf x last_attacks) k <> 0%Z ->
       (exists i, (i < 12)%nat /\ (i / 3)%nat = k /\ attack_intensity e i > x) /\
       1.7 <= energy_ratio (en_short e (k - 1)%nat) (en_short e k)) /\
    (fst (attack_detection_vbr les pf x last_attacks) k <> 0%Z ->
       (exists i, (i < 12)%nat /\ (i / 3)%nat = k /\ attack_intensity e i > x) /\
       non_periodic_vbr (en_short e (k - 1)%nat) (en_short e k)) /\
    (fst (attack_detection_ns les pf x last_attacks) 0%nat <> 0%Z ->
       (exists i, (i < 12)%nat /\ (i / 3)%nat = 0%nat /\ attack_intensity e i > x) /\
       1.7 <= energy_ratio (en_short e 0%nat) (en_short e 1%nat)).
Proof.
  intros les pf x last_attacks k Hk e.
  unfold attack_detection_ns, attack_detection_vbr. fold e.
  split; [|split].
  - intro H.
    apply resolve_attacks_only_clears, upd_zero_only_clears in H.
    apply clear_periodic_ns_sound in H; [|lia].
    destruct H as [Hm Hr]. split; [now apply mark_attacks_sound|].
    replace (Nat.max 1 k) with k in Hr by lia. exact Hr.
  - intro H.
    apply resolve_attacks_only_clears, upd_zero_only_clears in H.
    apply clear_periodic_vbr_sound in H; [|lia].
    destruct H as [Hm Hr]. split; [now apply mark_attacks_sound | exact Hr].
  - intro H.
    apply resolve_attacks_only_clears, upd_zero_only_clears in H.
    apply clear_periodic_ns_sound in H; [|lia].
    destruct H as [Hm Hr]. split; [now apply mark_attacks_sound | exact Hr].
Qed.

(** *** Running the detector on concrete granules *)

Lemma peak_fold_repeat (c : R) (n : nat) (p : R) :
  0 <= c ->
  fold_left (fun p x => if Rlt_dec p (Rabs x) then Rabs x else p) (repeat c n) p
  = match n with O => p | S _ => Rmax p c end.
Proof.
  intros Hc. revert p. induction n as [|n IH]; intro p; [reflexivity|].
  simpl. rewrite IH. rewrite (Rabs_pos_eq c Hc).
  destruct (Rlt_dec p c) as [Hlt|Hge].
  - destruct n; [now rewrite Rmax_right by lra|].
    rewrite Rmax_left by lra. now rewrite Rmax_right by lra.
  - destruct n; [now rewrite Rmax_left by lra|].
    rewrite !Rmax_left by (try apply Rmax_l; lra). reflexivity.
Qed.

Lemma peak_repeat (c : R) (n : nat) :
  0 <= c -> peak (repeat c (S n)) = Rmax 1 c.
Proof. intro Hc. unfold peak. now rewrite peak_fold_repeat. Qed.

(** The intensity of a sub-block of the granule from its peak [p] and the
    energy two sub-blocks before. *)
Definition intensity_of (p before : R) : R :=
  if Rgt_dec p before then p / before
  else if Rgt_dec before (p * 10.0) then before / (p * 10.0)
  else 0.0.

(** The energies and intensities in closed form. *)
Lemma subshort_energies_closed (les : nat -> R) (pf : list R) :
  let P := fun i => peak (subblock pf i) in
  let e := subshort_energies les pf in
  (en_short e 0%nat = 0 + les 6%nat + les 7%nat + les 8%nat /\
   en_short e 1%nat = 0 + P 0%nat + P 1%nat + P 2%nat /\
   en_short e 2%nat = 0 + P 3%nat + P 4%nat + P 5%nat /\
   en_short e 3%nat = 0 + P 6%nat + P 7%nat + P 8%nat) /\
  (attack_intensity e 0%nat = les 6%nat / les 4%nat /\
   attack_intensity e 1%nat = les 7%nat / les 5%nat /\
   attack_intensity e 2%nat = les 8%nat / les 6%nat /\
   attack_intensity e 3%nat = intensity_of (P 0%nat) (les 7%nat) /\
   attack_intensity e 4%nat = intensity_of (P 1%nat) (les 8%nat) /\
   attack_intensity e 5%nat = intensity_of (P 2%nat) (P 0%nat) /\
   attack_intensity e 6%nat = intensity_of (P 3%nat) (P 1%nat) /\
   attack_intensity e 7%nat = intensity_of (P 4%nat) (P 2%nat) /\
   attack_intensity e 8%nat = intensity_of (P 5%nat) (P 3%nat) /\
   attack_intensity e 9%nat = intensity_of (P 6%nat) (P 4%nat) /\
   attack_intensity e 10%nat = intensity_of (P 7%nat) (P 5%nat) /\
   attack_intensity e 11%nat = intensity_of (P 8%nat) (P 6%nat)).
Proof.
  intros P e. unfold e, P, intensity_of.
  cbv [subshort_energies for_loop measure_subshort carry_over
       en_subshort en_short attack_intensity last_en_subshort
       upd Nat.eqb Nat.add Nat.sub Nat.div Nat.divmod fst snd].
  repeat split; reflexivity.
Qed.

(** The marking loop, driven by the set of sub-blocks above the
    threshold. *)
Definition mark_step_b (hit : nat -> bool) (ns : nat -> Z) (i : nat) : nat -> Z :=
  if Z.eqb (ns (i / 3)%nat) 0%Z then
    if hit i then upd ns (i / 3)%nat (Z.of_nat (i mod 3) + 1)%Z else ns
  else ns.

Lemma for_loop_ext_range {St : Type} (f g : St -> nat -> St) :
  forall n lo s,
    (forall s i, (lo <= i < lo + n)%nat -> f s i = g s i) ->
    for_loop f lo n s = for_loop g lo n s.
Proof.
  induction n as [|n IH]; intros lo s H; simpl; [reflexivity|].
  rewrite H by lia. apply IH. intros s' i Hi. apply H. lia.
Qed.

Lemma mark_attacks_reflect (x : R) (intensity : nat -> R) (hit : nat -> bool) :
  (forall i, (i < 12)%nat -> if hit i then intensity i > x else ~ intensity i > x) ->
  mark_attacks x intensity = for_loop (mark_step_b hit) 0 12 (fun _ => 0%Z).
Proof.
  intro H. unfold mark_attacks. apply for_loop_ext_range.
  intros s i Hi. unfold mark_step, mark_step_b.
  specialize (H i (proj2 Hi)).
  destruct (hit i), (Rgt_dec (intensity i) x); try reflexivity; contradiction.
Qed.

(** Decide every comparison of reals in sight by linear arithmetic. *)
Ltac decide_reals :=
  repeat match goal with
         | |- context [Rlt_dec ?a ?b] =>
             destruct (Rlt_dec a b);
             try (exfalso; unfold Rmax in *;
                  repeat match goal with
                         | H : context [Rle_dec ?c ?d] |- _ => destruct (Rle_dec c d)
                         end; lra)
         end.

Ltac decide_hits HI :=
  let i := fresh "i" in
  let Hi := fresh "Hi" in
  intros i Hi; decompose [and] HI;
  do 12 (destruct i as [|i];
         [ cbn [Nat.eqb orb]; unfold intensity_of in *;
           repeat match goal with
                  | H : context [Rgt_dec ?a ?b] |- _ =>
                      destruct (Rgt_dec a b); try lra
                  end; lra | ]);
  lia.

(** A granule that starts quiet and turns loud after its first short
    block, in a fresh session (every stored energy is 10). *)
Definition les_fresh : nat -> R := fun _ => 10.
Definition pf_surge : list R := repeat 0 192 ++ repeat 100 384.

Lemma subblock_pf_surge i :
  (i < 9)%nat ->
  subblock pf_surge i = if (i <? 3)%nat then repeat 0 64 else repeat 100 64.
Proof.
  intro Hi. unfold subblock, pf_surge.
  do 9 (destruct i as [|i]; [reflexivity|]). lia.
Qed.

Lemma attack_detection_vbr_surge :
  fst (attack_detection_vbr les_fresh pf_surge 4.4 0) 2%nat = 1%Z.
Proof.
  unfold attack_detection_vbr.
  destruct (subshort_energies_closed les_fresh pf_surge) as [[E0 [E1 [E2 E3]]] HI].
  rewrite !subblock_pf_surge in * by lia. cbn [Nat.ltb Nat.leb] in *.
  rewrite !peak_repeat in * by lra.
  rewrite (Rmax_left 1 0) in * by lra. rewrite (Rmax_right 1 100) in * by lra.
  unfold les_fresh in *.
  set (e := subshort_energies (fun _ => 10) pf_surge) in *.
  rewrite (mark_attacks_reflect 4.4 (attack_intensity e)
             (fun i => Nat.eqb i 6 || Nat.eqb i 7)) by decide_hits HI.
  set (marks := for_loop (mark_step_b _) 0 12 (fun _ => 0%Z)).
  assert (M0 : marks 0%nat = 0%Z) by reflexivity.
  assert (M1 : marks 1%nat = 0%Z) by reflexivity.
  assert (M2 : marks 2%nat = 1%Z) by reflexivity.
  assert (M3 : marks 3%nat = 0%Z) by reflexivity.
  clearbody marks.
  cbn [for_loop]. unfold clear_periodic_vbr. cbn [Nat.sub Nat.eqb andb].
  rewrite E0, E1, E2, E3. decide_reals.
  unfold resolve_attacks, upd.
  repeat (progress (rewrite ?M0, ?M1, ?M2, ?M3; simpl)).
  reflexivity.
Qed.

(** The surge granule: the mark of its second short block survives, and
    the theorem gives the reasons. *)
Lemma attack_survives_only_if_non_periodic_witness :
  let e := subshort_energies les_fresh pf_surge in
  fst (attack_detection_vbr les_fresh pf_surge 4.4 0) 2%nat = 1%Z /\
  ((fst (attack_detection_ns les_fresh pf_surge 4.4 0) 2%nat <> 0%Z ->
      (exists i, (i < 12)%nat /\ (i / 3)%nat = 2%nat /\ attack_intensity e i > 4.4) /\
      1.7 <= energy_ratio (en_short e (2 - 1)%nat) (en_short e 2%nat)) /\
   (fst (attack_detection_vbr les_fresh pf_surge 4.4 0) 2%nat <> 0%Z ->
      (exists i, (i < 12)%nat /\ (i / 3)%nat = 2%nat /\ attack_intensity e i > 4.4) /\
      non_periodic_vbr (en_short e (2 - 1)%nat) (en_short e 2%nat)) /\
   (fst (attack_detection_ns les_fresh pf_surge 4.4 0) 0%nat <> 0%Z ->
      (exists i, (i < 12)%nat /\ (i / 3)%nat = 0%nat /\ attack_intensity e i > 4.4) /\
      1.7 <= energy_ratio (en_short e 0%nat) (en_short e 1%nat))).
Proof.
  intro e. split.
  - exact attack_detection_vbr_surge.
  - apply (attack_survives_only_if_non_periodic les_fresh pf_surge 4.4 0%Z 2%nat).
    lia.
Defined.

(** A steady granule (every sample 70) after a granule whose last two
    sub-blocks rose from 10 to 100. *)
Definition les_risen : nat -> R :=
  fun j => if (j <? 7)%nat then 10 else 100.
Definition pf_steady : list R := repeat 70 576.

Lemma subblock_pf_steady i :
  (i < 9)%nat -> subblock pf_steady i = repeat 70 64.
Proof.
  intro Hi. unfold subblock, pf_steady.
  do 9 (destruct i as [|i]; [reflexivity|]). lia.
Qed.

(** In the vbr analyser the mark carried over from the previous granule
    (block 0) survives although all four short-block energies are equal
    (210), far below 40000: the first test clears it only when it does
    not exceed the mark of block 1. *)
Lemma attack_vbr_carried_mark_survives_periodic :
  let e := subshort_energies les_risen pf_steady in
  fst (attack_detection_vbr les_risen pf_steady 4.4 0) 0%nat = 2%Z /\
  snd (attack_detection_vbr les_risen pf_steady 4.4 0) = false /\
  en_short e 0%nat = 210 /\ en_short e 1%nat = 210 /\
  en_short e 2%nat = 210 /\ en_short e 3%nat = 210 /\
  ~ non_periodic_vbr 210 210 /\
  ~ 1.7 <= energy_ratio 210 210.
Proof.
  intro e.
  destruct (subshort_energies_closed les_risen pf_steady) as [[E0 [E1 [E2 E3]]] HI].
  rewrite !subblock_pf_steady in * by lia.
  rewrite !peak_repeat in * by lra.
  rewrite (Rmax_right 1 70) in * by lra.
  change (les_risen 4%nat) with 10 in *. change (les_risen 5%nat) with 10 in *.
  change (les_risen 6%nat) with 10 in *. change (les_risen 7%nat) with 100 in *.
  change (les_risen 8%nat) with 100 in *.
  fold e in E0, E1, E2, E3, HI.
  assert (V0 : en_short e 0%nat = 210) by (rewrite E0; lra).
  assert (V1 : en_short e 1%nat = 210) by (rewrite E1; lra).
  assert (V2 : en_short e 2%nat = 210) by (rewrite E2; lra).
  assert (V3 : en_short e 3%nat = 210) by (rewrite E3; lra).
  assert (Hres : fst (attack_detection_vbr les_risen pf_steady 4.4 0) 0%nat = 2%Z /\
                 snd (attack_detection_vbr les_risen pf_steady 4.4 0) = false).
  { unfold attack_detection_vbr. fold e.
    rewrite (mark_attacks_reflect 4.4 (attack_intensity e)
               (fun i => Nat.eqb i 1 || Nat.eqb i 2)) by decide_hits HI.
    set (marks := for_loop (mark_step_b _) 0 12 (fun _ => 0%Z)).
    assert (M0 : marks 0%nat = 2%Z) by reflexivity.
    assert (M1 : marks 1%nat = 0%Z) by reflexivity.
    assert (M2 : marks 2%nat = 0%Z) by reflexivity.
    assert (M3 : marks 3%nat = 0%Z) by reflexivity.
    clearbody marks.
    cbn [for_loop]. unfold clear_periodic_vbr. cbn [Nat.sub Nat.eqb andb].
    rewrite V0, V1, V2, V3. decide_reals.
    unfold resolve_attacks, upd.
    repeat (progress (rewrite ?M0, ?M1, ?M2, ?M3; simpl)).
    split; reflexivity. }
  destruct Hres as [Hf Hs].
  repeat (split; [assumption|]).
  split.
  - unfold non_periodic_vbr, Rmax. destruct (Rle_dec 210 210); lra.
  - unfold energy_ratio. destruct (Rgt_dec 210 210); lra.
Qed.

End Attack.

(** * psymodel.c: long-block masking thresholds *)

Module Masking.

Import BlockType MaskAdd.

(** The masking table [tab] (0 dB .. 9.3 dB, by tonality). *)
Definition tab : list R :=
  [ 1.0; 0.79433; 0.63096; 0.63096; 0.63096; 0.63096; 0.63096; 0.25119; 0.11749 ].

Definition last_tab_entry : Z := 8.

(** The fields of [PsyConst_l_t] the long-block code reads.  [s3ind0 b]
    and [s3ind1 b] are [s3ind[b][0]] and [s3ind[b][1]]. *)
Record PsyConst_l : Type := {
  npart : nat;
  numlines : nat -> nat;
  rnumlines : nat -> R;
  s3 : nat -> R;
  s3ind0 : nat -> nat;
  s3ind1 : nat -> nat;
  bo : nat -> nat;
  bo_weight : nat -> R;
  minval : nat -> R;
  masking_lower : nat -> R;
  mld_cb : nat -> R
}.

(** *** [calc_energy] *)

(** One spectral line: [ebb += el; if (m < el) m = el;] on the pair
    [(ebb, m)]. *)
Definition energy_line (fftenergy : nat -> R) (j0 : nat) (acc : R * R) (i : nat)
  : R * R :=
  let el := fftenergy (j0 + i)%nat in
  (fst acc + el, if Rlt_dec (snd acc) el then el else snd acc).

Record energy_tables : Type := {
  ce_j : nat;
  eb_of : nat -> R;
  max_of : nat -> R;
  avg_of : nat -> R
}.

Definition calc_energy_band (l : PsyConst_l) (fftenergy : nat -> R)
  (t : energy_tables) (b : nat) : energy_tables :=
  let acc := for_loop (energy_line fftenergy (ce_j t)) 0 (numlines l b) (0, 0) in
  {| ce_j := (ce_j t + numlines l b)%nat;
     eb_of := upd (eb_of t) b (fst acc);
     max_of := upd (max_of t) b (snd acc);
     avg_of := upd (avg_of t) b (fst acc * rnumlines l b) |}.

(** [calc_energy (l, fftenergy, eb, max, avg)]; the three arrays come in
    with whatever they held. *)
Definition calc_energy (l : PsyConst_l) (fftenergy : nat -> R)
  (eb mx av : nat -> R) : energy_tables :=
  for_loop (calc_energy_band l fftenergy) 0 (npart l)
    {| ce_j := 0; eb_of := eb; max_of := mx; avg_of := av |}.

(** *** [calc_mask_index_l] *)

(** The index stored for one partition: [a] is the sum of the averages of
    the neighbourhood, [m] its maximum, [c] the number of partitions in it
    (2.0 or 3.0), [w] its number of lines less one.  The store into the
    [unsigned char] array reduces the value modulo 256. *)
Definition mask_index (a m c : R) (w : Z) : Z :=
  if Rgt_dec a 0 then
    let a' := 20.0 * (m * c - a) / (a * IZR w) in
    let k := c_int a' in
    let k := if (last_tab_entry <? k)%Z then last_tab_entry else k in
    (k mod 256)%Z
  else 0%Z.

Definition Rmax_c (a b : R) : R := if Rlt_dec a b then b else a.

Definition mask_index_first (l : PsyConst_l) (mx av : nat -> R) : Z :=
  mask_index (av 0%nat + av 1%nat) (Rmax_c (mx 0%nat) (mx 1%nat)) 2.0
    (Z.of_nat (numlines l 0%nat) + Z.of_nat (numlines l 1%nat) - 1).

Definition mask_index_middle (l : PsyConst_l) (mx av : nat -> R)
  (idx : nat -> Z) (b : nat) : nat -> Z :=
  upd idx b
    (mask_index (av (b - 1)%nat + av b + av (b + 1)%nat)
       (Rmax_c (Rmax_c (mx (b - 1)%nat) (mx b)) (mx (b + 1)%nat)) 3.0
       (Z.of_nat (numlines l (b - 1)%nat) + Z.of_nat (numlines l b)
        + Z.of_nat (numlines l (b + 1)%nat) - 1)).

Definition mask_index_last (l : PsyConst_l) (mx av : nat -> R) (b : nat) : Z :=
  mask_index (av (b - 1)%nat + av b) (Rmax_c (mx (b - 1)%nat) (mx b)) 2.0
    (Z.of_nat (numlines l (b - 1)%nat) + Z.of_nat (numlines l b) - 1).

(** The loop [for (b = 1; b < npart - 1; b++)] leaves [b] at
    [max 1 (npart - 1)], where the last index is stored. *)
Definition calc_mask_index_l (l : PsyConst_l) (mx av : nat -> R) (idx : nat -> Z)
  : nat -> Z :=
  let idx0 := upd idx 0%nat (mask_index_first l mx av) in
  let idx1 := for_loop (mask_index_middle l mx av) 1 (npart l - 1 - 1) idx0 in
  let b := Nat.max 1 (npart l - 1) in
  upd idx1 b (mask_index_last l mx av b).

(** *** [convert_partition2scalefac_l] *)

Section Conversion.

Variable SBMAX_l : nat.

(** The loop over the scalefactor bands, [n] iterations from the state
    [(sb, b, enn, thmm)]; the result carries the [sb] at which the zero
    fill starts. *)
Fixpoint convert_bands (l : PsyConst_l) (eb thr : nat -> R) (n : nat)
  (sb b : nat) (enn thmm : R) (en thm : nat -> R)
  : nat * (nat -> R) * (nat -> R) :=
  match n with
  | O => (sb, en, thm)
  | S n' =>
      let b_lim := if (bo l sb <? npart l)%nat then bo l sb else npart l in
      let enn1 := for_loop (fun acc j => acc + eb j) b (b_lim - b) enn in
      let thmm1 := for_loop (fun acc j => acc + thr j) b (b_lim - b) thmm in
      let b1 := Nat.max b b_lim in
      let en1 := upd en sb enn1 in
      let thm1 := upd thm sb thmm1 in
      if (npart l <=? b1)%nat then (S sb, en1, thm1)
      else
        (* at transition sfb -> sfb+1 *)
        let w_curr := bo_weight l sb in
        let w_next := 1.0 - w_curr in
        let en2 := upd en1 sb (en1 sb + w_curr * eb b1) in
        let thm2 := upd thm1 sb (thm1 sb + w_curr * thr b1) in
        convert_bands l eb thr n' (S sb) (S b1)
          (w_next * eb b1) (w_next * thr b1) en2 thm2
  end.

Definition zero_band (t : (nat -> R) * (nat -> R)) (sb : nat)
  : (nat -> R) * (nat -> R) :=
  (upd (fst t) sb 0, upd (snd t) sb 0).

(** [convert_partition2scalefac_l (gfc, eb, thr, chn)]: the new contents of
    [psv->en[chn].l] and [psv->thm[chn].l]. *)
Definition convert_partition2scalefac_l (l : PsyConst_l) (eb thr : nat -> R)
  (en thm : nat -> R) : (nat -> R) * (nat -> R) :=
  let '(sb, en1, thm1) := convert_bands l eb thr SBMAX_l 0 0 0.0 0.0 en thm in
  for_loop zero_band sb (SBMAX_l - sb) (en1, thm1).

End Conversion.

(** *** Spreading and pre-echo control *)

(** [NS_INTERP (x, y, r)]; [pow] of a base that is not positive is 0 here
    (the exponent is strictly between 0 and 1 where it is called). *)
Definition c_pow (x r : R) : R := if Rle_dec x 0 then 0 else Rpower x r.

Definition NS_INTERP (x y r : R) : R :=
  if Rge_dec r 1.0 then x
  else if Rle_dec r 0.0 then y
  else if Rgt_dec y 0.0 then c_pow (x / y) r * y
  else 0.0.

Definition Min (a b : R) : R := if Rlt_dec a b then a else b.
Definition Max (a b : R) : R := if Rgt_dec a b then a else b.

Section Thresholds.

(** Macros and dimensions of the headers: [FAST_LOG10_X], the pre-echo
    constants [rpelev], [rpelev2], [NS_PREECHO_ATT2] and [CBANDS]. *)
Variable FAST_LOG10_X : R -> R -> R.
Variables rpelev rpelev2 NS_PREECHO_ATT2 : R.
Variable CBANDS : nat.

(** The limits of [mask_add] as [psymodel_init] leaves them. *)
Let lim : mask_add_limits := init_mask_add_max_values.

(** The state threaded through the partitions of one channel: the running
    index [k] into [s3], the thresholds, and the channel's rows of
    [psv->nb_l1] and [psv->nb_l2]. *)
Record band_state : Type := {
  bs_k : nat;
  bs_thr : nat -> R;
  bs_nb_l1 : nat -> R;
  bs_nb_l2 : nat -> R
}.

(** The accumulator of the vbr convolution: [ecb], [dd], [dd_n]. *)
Record spread_acc : Type := {
  sp_ecb : R;
  sp_dd : Z;
  sp_dd_n : Z
}.

Definition vbr_spread_term (l : PsyConst_l) (eb : nat -> R) (idx : nat -> Z)
  (k0 kk0 b : nat) (a : spread_acc) (i : nat) : spread_acc :=
  let kk := (kk0 + 1 + i)%nat in
  let x := s3 l (k0 + 1 + i)%nat * eb kk * table_at tab (idx kk) in
  {| sp_ecb := vbrpsy_mask_add FAST_LOG10_X lim (sp_ecb a) x
                 (Z.of_nat kk - Z.of_nat b);
     sp_dd := (sp_dd a + idx kk)%Z;
     sp_dd_n := (sp_dd_n a + 1)%Z |}.

(** The convolution of partition [b]: [(ecb, avg_mask)] after
    [ecb *= avg_mask]. *)
Definition vbr_spread (l : PsyConst_l) (eb : nat -> R) (idx : nat -> Z)
  (k0 b : nat) : R * R :=
  let kk0 := s3ind0 l b in
  let a0 := {| sp_ecb := s3 l k0 * eb kk0 * table_at tab (idx kk0);
               sp_dd := idx kk0; sp_dd_n := 1 |} in
  let a := for_loop (vbr_spread_term l eb idx k0 kk0 b) 0
             (s3ind1 l b - kk0) a0 in
  let dd := Z.quot (1 + 2 * sp_dd a) (2 * sp_dd_n a) in
  let avg_mask := table_at tab dd * 0.5 in
  (sp_ecb a * avg_mask, avg_mask).

(** "long block pre-echo control" of vbrpsy_compute_masking_l. *)
Definition vbr_preecho (old : block_type) (ecb eb_b nb1 nb2 : R) : R :=
  if block_type_eqb old SHORT_TYPE then
    let ecb_limit := rpelev * nb1 in
    if Rgt_dec ecb_limit 0 then Min ecb ecb_limit
    else Min ecb (eb_b * NS_PREECHO_ATT2)
  else
    let ecb_limit_2 := rpelev2 * nb2 in
    let ecb_limit_1 := rpelev * nb1 in
    let ecb_limit_2 := if Rle_dec ecb_limit_2 0 then ecb else ecb_limit_2 in
    let ecb_limit_1 := if Rle_dec ecb_limit_1 0 then ecb else ecb_limit_1 in
    let ecb_limit := if block_type_eqb old NORM_TYPE
                     then Min ecb_limit_1 ecb_limit_2 else ecb_limit_1 in
    Min ecb ecb_limit.

(** The last statements of the loop body: the limit by
    [max * minval * avg_mask], the two scalings by [masking_lower] and the
    clamp to the partition energy between them. *)
Definition vbr_limit (thr0 mx_b minval_b avg_mask ml eb_b : R) : R :=
  let x := mx_b * minval_b * avg_mask in
  let t1 := if Rgt_dec thr0 x then x else thr0 in
  let t2 := if Rgt_dec ml 1 then t1 * ml else t1 in
  let t3 := if Rgt_dec t2 eb_b then eb_b else t2 in
  if Rlt_dec ml 1 then t3 * ml else t3.

(** One partition of vbrpsy_compute_masking_l; [old] is
    [psv->blocktype_old[chn & 1]], [qml] is [gfc->sv_qnt.masking_lower]. *)
Definition vbr_band (l : PsyConst_l) (old : block_type) (qml : R)
  (eb mx : nat -> R) (idx : nat -> Z) (st : band_state) (b : nat) : band_state :=
  let '(ecb, avg_mask) := vbr_spread l eb idx (bs_k st) b in
  let thr0 := vbr_preecho old ecb (eb b) (bs_nb_l1 st b) (bs_nb_l2 st b) in
  {| bs_k := (bs_k st + 1 + (s3ind1 l b - s3ind0 l b))%nat;
     bs_thr := upd (bs_thr st) b
                 (vbr_limit thr0 (mx b) (minval l b) avg_mask
                    (masking_lower l b * qml) (eb b));
     bs_nb_l1 := upd (bs_nb_l1 st) b ecb;
     bs_nb_l2 := upd (bs_nb_l2 st) b (bs_nb_l1 st b) |}.

(** [for (; b < CBANDS; ++b) { eb_l[b] = 0; thr[b] = 0; }] on the pair
    [(eb_l, thr)]. *)
Definition zero_partition (t : (nat -> R) * (nat -> R)) (b : nat)
  : (nat -> R) * (nat -> R) :=
  (upd (fst t) b 0, upd (snd t) b 0).

(** The outcome of a masking routine for one channel. *)
Record masking_result : Type := {
  mr_eb : nat -> R;
  mr_thr : nat -> R;
  mr_nb_l1 : nat -> R;
  mr_nb_l2 : nat -> R
}.

(** [vbrpsy_compute_masking_l (gfc, fftenergy, eb_l, thr, chn)]. *)
Definition vbrpsy_compute_masking_l (l : PsyConst_l) (old : block_type)
  (qml : R) (fftenergy : nat -> R) (eb_l thr nb1 nb2 : nat -> R)
  : masking_result :=
  let t := calc_energy l fftenergy eb_l (fun _ => 0) (fun _ => 0) in
  let idx := calc_mask_index_l l (max_of t) (avg_of t) (fun _ => 0%Z) in
  let st := for_loop (vbr_band l old qml (eb_of t) (max_of t) idx) 0 (npart l)
              {| bs_k := 0; bs_thr := thr; bs_nb_l1 := nb1; bs_nb_l2 := nb2 |} in
  let z := for_loop zero_partition (npart l) (CBANDS - npart l)
             (eb_of t, bs_thr st) in
  {| mr_eb := fst z; mr_thr := snd z;
     mr_nb_l1 := bs_nb_l1 st; mr_nb_l2 := bs_nb_l2 st |}.

(** *** The ns analyser *)

(** The fields of [gfc->ATH] read by [mask_add]. *)
Variables ATH_cb_l ATH_cb_s : Z -> R.
Variable ATH_adjust_factor : R.

Definition ns_spread_term (l : PsyConst_l) (eb : nat -> R) (idx : nat -> Z)
  (k0 kk0 b : nat) (ecb : R) (i : nat) : R :=
  let kk := (kk0 + 1 + i)%nat in
  let eb2 := eb kk * table_at tab (idx kk) in
  mask_add FAST_LOG10_X lim ATH_cb_l ATH_cb_s ATH_adjust_factor
    ecb (s3 l (k0 + 1 + i)%nat * eb2) (Z.of_nat kk)
    (Z.of_nat kk - Z.of_nat b) false.

(** One partition of the long-block loop of L3psycho_anal_ns. *)
Definition ns_band (l : PsyConst_l) (old : block_type) (pcfact : R)
  (eb : nat -> R) (idx : nat -> Z) (st : band_state) (b : nat) : band_state :=
  let kk0 := s3ind0 l b in
  let ecb0 := s3 l (bs_k st) * (eb kk0 * table_at tab (idx kk0)) in
  let ecb1 := for_loop (ns_spread_term l eb idx (bs_k st) kk0 b) 0
                (s3ind1 l b - kk0) ecb0 in
  let ecb := ecb1 * 0.158489319246111 in
  let thr_b :=
    if block_type_eqb old SHORT_TYPE then ecb
    else NS_INTERP (Min ecb (Min (rpelev * bs_nb_l1 st b)
                                 (rpelev2 * bs_nb_l2 st b))) ecb pcfact in
  {| bs_k := (bs_k st + 1 + (s3ind1 l b - kk0))%nat;
     bs_thr := upd (bs_thr st) b thr_b;
     bs_nb_l1 := upd (bs_nb_l1 st) b ecb;
     bs_nb_l2 := upd (bs_nb_l2 st) b (bs_nb_l1 st b) |}.

(** The long-block part of L3psycho_anal_ns for one channel, up to the
    call of [convert_partition2scalefac_l]: energies, mask indices, the
    convolution loop and the zero fill [for (; b <= CBANDS; ++b)]. *)
Definition ns_compute_masking_l (l : PsyConst_l) (old : block_type)
  (pcfact : R) (fftenergy : nat -> R) (eb_l thr nb1 nb2 : nat -> R)
  : masking_result :=
  let t := calc_energy l fftenergy eb_l (fun _ => 0) (fun _ => 0) in
  let idx := calc_mask_index_l l (max_of t) (avg_of t) (fun _ => 0%Z) in
  let st := for_loop (ns_band l old pcfact (eb_of t) idx) 0 (npart l)
              {| bs_k := 0; bs_thr := thr; bs_nb_l1 := nb1; bs_nb_l2 := nb2 |} in
  let z := for_loop zero_partition (npart l) (CBANDS + 1 - npart l)
             (eb_of t, bs_thr st) in
  {| mr_eb := fst z; mr_thr := snd z;
     mr_nb_l1 := bs_nb_l1 st; mr_nb_l2 := bs_nb_l2 st |}.

End Thresholds.

(** *** M/S thresholds and the long-block pass of L3psycho_anal_vbr *)

(** One partition of [vbrpsy_compute_MS_thresholds]: the new
    [(thr[2][b], thr[3][b])]. *)
Definition ms_threshold_band (ebM ebS thmL thmR thmM thmS : R)
  (mld ath_b athlower msfix : R) : R * R :=
  let msfix2 := msfix * 2.0 in
  let '(rmid, rside) :=
    if Rle_dec thmL (1.58 * thmR) then
      if Rle_dec thmR (1.58 * thmL) then
        let mld_m := mld * ebS in
        let mld_s := mld * ebM in
        (Max thmM (Min thmS mld_m), Max thmS (Min thmM mld_s))
      else (thmM, thmS)
    else (thmM, thmS) in
  let '(rmid, rside) :=
    if Rgt_dec msfix 0.0 then
      let ath := ath_b * athlower in
      let thmLR := Min (Max thmL ath) (Max thmR ath) in
      let thmM1 := Max rmid ath in
      let thmS1 := Max rside ath in
      let thmMS := thmM1 + thmS1 in
      let '(thmM2, thmS2) :=
        if Rgt_dec thmMS 0.0 then
          if Rlt_dec (thmLR * msfix2) thmMS then
            let f := thmLR * msfix2 / thmMS in (thmM1 * f, thmS1 * f)
          else (thmM1, thmS1)
        else (thmM1, thmS1) in
      (Min thmM2 rmid, Min thmS2 rside)
    else (rmid, rside) in
  (if Rgt_dec rmid ebM then ebM else rmid,
   if Rgt_dec rside ebS then ebS else rside).

Definition ms_threshold_step (eb : nat -> nat -> R) (cb_mld ath_cb : nat -> R)
  (athlower msfix : R) (thr : nat -> nat -> R) (b : nat) : nat -> nat -> R :=
  let r := ms_threshold_band (eb 2%nat b) (eb 3%nat b)
             (thr 0%nat b) (thr 1%nat b) (thr 2%nat b) (thr 3%nat b)
             (cb_mld b) (ath_cb b) athlower msfix in
  upd (upd thr 2%nat (upd (thr 2%nat) b (fst r))) 3%nat (upd (thr 3%nat) b (snd r)).

(** [vbrpsy_compute_MS_thresholds (eb, thr, cb_mld, ath_cb, athlower,
    msfix, n)]. *)
Definition vbrpsy_compute_MS_thresholds (eb thr : nat -> nat -> R)
  (cb_mld ath_cb : nat -> R) (athlower msfix : R) (n : nat) : nat -> nat -> R :=
  for_loop (ms_threshold_step eb cb_mld ath_cb athlower msfix) 0 n thr.

Section VbrLongPass.

Variable FAST_LOG10_X : R -> R -> R.
Variables rpelev rpelev2 NS_PREECHO_ATT2 : R.
Variables CBANDS SBMAX_l : nat.

(** The arrays of L3psycho_anal_vbr touched by its "LONG BLOCK CASE",
    all indexed by the channel first: the locals [eb] and [thr], and
    [nb_l1], [nb_l2], [en[chn].l], [thm[chn].l] of the psy state. *)
Record long_state : Type := {
  ls_eb : nat -> nat -> R;
  ls_thr : nat -> nat -> R;
  ls_nb_l1 : nat -> nat -> R;
  ls_nb_l2 : nat -> nat -> R;
  ls_en : nat -> nat -> R;
  ls_thm : nat -> nat -> R
}.

(** The session facts the pass reads. *)
Record long_config : Type := {
  lc_l : PsyConst_l;
  lc_joint_stereo : bool;
  lc_channels_out : nat;
  lc_old : nat -> block_type;
  lc_uselongblock : nat -> bool;
  lc_qnt_masking_lower : R;
  lc_ath_cb_l : nat -> R;
  lc_ath_factor : R;
  lc_msfix : R
}.

Definition n_chn_psy (c : long_config) : nat :=
  if lc_joint_stereo c then 4%nat else lc_channels_out c.

(** First loop: [vbrpsy_compute_masking_l] for every psy channel;
    [fftenergy chn] is the spectrum [vbrpsy_compute_fft_l] delivered. *)
Definition long_mask_channel (c : long_config) (fftenergy : nat -> nat -> R)
  (s : long_state) (chn : nat) : long_state :=
  let r := vbrpsy_compute_masking_l FAST_LOG10_X rpelev rpelev2 NS_PREECHO_ATT2
             CBANDS (lc_l c) (lc_old c (chn mod 2)%nat) (lc_qnt_masking_lower c)
             (fftenergy chn) (ls_eb s chn) (ls_thr s chn)
             (ls_nb_l1 s chn) (ls_nb_l2 s chn) in
  {| ls_eb := upd (ls_eb s) chn (mr_eb r);
     ls_thr := upd (ls_thr s) chn (mr_thr r);
     ls_nb_l1 := upd (ls_nb_l1 s) chn (mr_nb_l1 r);
     ls_nb_l2 := upd (ls_nb_l2 s) chn (mr_nb_l2 r);
     ls_en := ls_en s; ls_thm := ls_thm s |}.

(** Second step: the M/S thresholds when both channels are long. *)
Definition long_ms (c : long_config) (s : long_state) : long_state :=
  if lc_uselongblock c 0%nat && lc_uselongblock c 1%nat && lc_joint_stereo c then
    {| ls_eb := ls_eb s;
       ls_thr := vbrpsy_compute_MS_thresholds (ls_eb s) (ls_thr s)
                   (mld_cb (lc_l c)) (lc_ath_cb_l c) (lc_ath_factor c)
                   (lc_msfix c) (npart (lc_l c));
       ls_nb_l1 := ls_nb_l1 s; ls_nb_l2 := ls_nb_l2 s;
       ls_en := ls_en s; ls_thm := ls_thm s |}
  else s.

(** Third loop: the conversion to scalefactor bands of every long
    channel. *)
Definition long_convert_channel (c : long_config) (s : long_state) (chn : nat)
  : long_state :=
  if lc_uselongblock c (chn mod 2)%nat then
    let r := convert_partition2scalefac_l SBMAX_l (lc_l c)
               (ls_eb s chn) (ls_thr s chn) (ls_en s chn) (ls_thm s chn) in
    {| ls_eb := ls_eb s; ls_thr := ls_thr s;
       ls_nb_l1 := ls_nb_l1 s; ls_nb_l2 := ls_nb_l2 s;
       ls_en := upd (ls_en s) chn (fst r);
       ls_thm := upd (ls_thm s) chn (snd r) |}
  else s.

(** The "LONG BLOCK CASE" of L3psycho_anal_vbr. *)
Definition vbr_long_block_case (c : long_config) (fftenergy : nat -> nat -> R)
  (s : long_state) : long_state :=
  let s1 := for_loop (long_mask_channel c fftenergy) 0 (n_chn_psy c) s in
  let s2 := long_ms c s1 in
  for_loop (long_convert_channel c) 0 (n_chn_psy c) s2.

End VbrLongPass.

(** *** From partitions to scalefactor bands *)

(** A threshold below its energy and not negative. *)
Definition clamped (thr en : R) : Prop := 0 <= thr <= en.

Lemma sum_loop_clamped (eb thr : nat -> R) (cnt lo : nat) (e t : R) :
  (forall j, (lo <= j < lo + cnt)%nat -> clamped (thr j) (eb j)) ->
  clamped t e ->
  clamped (for_loop (fun acc j => acc + thr j) lo cnt t)
          (for_loop (fun acc j => acc + eb j) lo cnt e).
Proof.
  revert lo e t. induction cnt as [|cnt IH]; intros lo e t H H0; simpl; [exact H0|].
  apply IH.
  - intros j Hj. apply H. lia.
  - specialize (H lo ltac:(lia)). unfold clamped in *. lra.
Qed.

Lemma convert_bands_clamped (l : PsyConst_l) (eb thr : nat -> R) :
  (forall b, (b < npart l)%nat -> clamped (thr b) (eb b)) ->
  (forall sb, 0 <= bo_weight l sb <= 1) ->
  forall n sb b enn thmm en thm,
    clamped thmm enn ->
    (forall j, (j < sb)%nat -> clamped (thm j) (en j)) ->
    let r := convert_bands l eb thr n sb b enn thmm en thm in
    (fst (fst r) <= sb + n)%nat /\
    forall j, (j < fst (fst r))%nat -> clamped (snd r j) (snd (fst r) j).
Proof.
  intros Hp Hw n. induction n as [|n IH]; intros sb b enn thmm en thm Hacc Hprev.
  - simpl. split; [lia | exact Hprev].
  - cbn [convert_bands].
    set (b_lim := if (bo l sb <? npart l)%nat then bo l sb else npart l).
    assert (Hlim : (b_lim <= npart l)%nat).
    { unfold b_lim. destruct (Nat.ltb_spec (bo l sb) (npart l)); lia. }
    assert (Hsum : clamped
              (for_loop (fun acc j => acc + thr j) b (b_lim - b) thmm)
              (for_loop (fun acc j => acc + eb j) b (b_lim - b) enn)).
    { apply sum_loop_clamped; [|exact Hacc]. intros j Hj. apply Hp. lia. }
    set (enn1 := for_loop (fun acc j => acc + eb j) b (b_lim - b) enn) in *.
    set (thmm1 := for_loop (fun acc j => acc + thr j) b (b_lim - b) thmm) in *.
    destruct (Nat.leb_spec (npart l) (Nat.max b b_lim)) as [Hend|Hmore].
    + cbn [fst snd]. split; [lia|].
      intros j Hj. unfold upd.
      destruct (Nat.eqb_spec j sb) as [->|Hne]; [exact Hsum|].
      apply Hprev. lia.
    + set (b1 := Nat.max b b_lim) in *.
      pose proof (Hp b1 Hmore) as Hb1. pose proof (Hw sb) as Hwsb.
      match goal with
      | |- context [convert_bands l eb thr n (S sb) (S b1) ?e ?t ?en2 ?thm2] =>
          pose proof (IH (S sb) (S b1) e t en2 thm2) as IH'
      end.
      cbv zeta in IH'.
      destruct IH' as [Hle Hall].
      * unfold clamped in *. nra.
      * intros j Hj. unfold upd.
        destruct (Nat.eqb_spec j sb) as [->|Hne].
        -- rewrite Nat.eqb_refl. unfold clamped in *. nra.
        -- apply Hprev. lia.
      * split; [lia | exact Hall].
Qed.

Lemma zero_band_fill (n lo : nat) (t : (nat -> R) * (nat -> R)) (j : nat) :
  (fst (for_loop zero_band lo n t) j, snd (for_loop zero_band lo n t) j)
  = if (lo <=? j)%nat && (j <? lo + n)%nat then (0, 0) else (fst t j, snd t j).
Proof.
  apply (for_loop_view zero_band (fun t => (fst t j, snd t j)) (fun _ => (0, 0)) j).
  - intros s k Hk. unfold zero_band; simpl. now rewrite !upd_other by congruence.
  - intros s. unfold zero_band; simpl. now rewrite !upd_same.
Qed.

(** The scalefactor-band tables inherit the clamp of the partitions. *)
Lemma convert_partition2scalefac_l_clamped (SBMAX_l : nat) (l : PsyConst_l)
  (eb thr en thm : nat -> R) :
  (forall b, (b < npart l)%nat -> clamped (thr b) (eb b)) ->
  (forall sb, 0 <= bo_weight l sb <= 1) ->
  forall sb, (sb < SBMAX_l)%nat ->
    clamped (snd (convert_partition2scalefac_l SBMAX_l l eb thr en thm) sb)
            (fst (convert_partition2scalefac_l SBMAX_l l eb thr en thm) sb).
Proof.
  intros Hp Hw sb Hsb. unfold convert_partition2scalefac_l.
  pose proof (convert_bands_clamped l eb thr Hp Hw SBMAX_l 0 0 0.0 0.0 en thm) as H.
  cbv zeta in H.
  destruct (convert_bands l eb thr SBMAX_l 0 0 0.0 0.0 en thm) as [[sb' en1] thm1].
  cbn [fst snd] in H.
  destruct H as [Hle Hall]; [unfold clamped; lra | intros j Hj; lia |].
  pose proof (zero_band_fill (SBMAX_l - sb') sb' (en1, thm1) sb) as Hz.
  cbn [fst snd] in Hz.
  destruct (Nat.leb_spec sb' sb), (Nat.ltb_spec sb (sb' + (SBMAX_l - sb')));
    cbn [andb] in Hz; injection Hz as -> ->;
    try (unfold clamped; lra); try (apply Hall; lia); lia.
Qed.

(** *** The clamp of vbrpsy_compute_masking_l *)

Lemma table_at_nonneg (t : list R) (i : Z) :
  Forall (fun x => 0 <= x) t -> 0 <= table_at t i.
Proof.
  intro H. unfold table_at. destruct (i <? 0)%Z; [lra|].
  destruct (nth_in_or_default (Z.to_nat i) t 0) as [Hin | ->]; [|lra].
  rewrite Forall_forall in H. now apply H.
Qed.

Lemma tab_nonneg : Forall (fun x => 0 <= x) tab.
Proof. unfold tab. repeat constructor; lra. Qed.

Lemma table2_nonneg : Forall (fun x => 0 <= x) table2.
Proof. unfold table2. repeat constructor; nra. Qed.

Lemma vbrpsy_mask_add_nonneg F lim m1 m2 b :
  0 <= vbrpsy_mask_add F lim m1 m2 b.
Proof.
  unfold vbrpsy_mask_add.
  pose proof (table_at_nonneg table2 (c_int (F (if Rgt_dec
      (if Rlt_dec m2 0 then 0 else m2) (if Rlt_dec m1 0 then 0 else m1)
      then (if Rlt_dec m2 0 then 0 else m2) / (if Rlt_dec m1 0 then 0 else m1)
      else (if Rlt_dec m1 0 then 0 else m1) / (if Rlt_dec m2 0 then 0 else m2))
      16)) table2_nonneg) as Ht.
  destruct (Rlt_dec m1 0), (Rlt_dec m2 0);
    repeat match goal with
           | |- context [Rle_dec ?a ?b] => destruct (Rle_dec a b)
           end; try lra;
    destruct ((-2 <=? b)%Z && (b <=? 2)%Z);
    repeat match goal with
           | |- context [Rge_dec ?a ?b] => destruct (Rge_dec a b)
           | |- context [Rlt_dec ?a ?b] => destruct (Rlt_dec a b)
           end; try lra; try nra.
Qed.

Lemma energy_line_nonneg (fftenergy : nat -> R) (j0 n : nat) :
  (forall j, 0 <= fftenergy j) ->
  forall lo acc, 0 <= fst acc -> 0 <= snd acc ->
    0 <= fst (for_loop (energy_line fftenergy j0) lo n acc) /\
    0 <= snd (for_loop (energy_line fftenergy j0) lo n acc).
Proof.
  intro Hf. induction n as [|n IH]; intros lo acc H1 H2; simpl; [now split|].
  apply IH; unfold energy_line; simpl.
  - specialize (Hf (j0 + lo)%nat). lra.
  - destruct (Rlt_dec _ _); [apply Hf | exact H2].
Qed.

Lemma calc_energy_nonneg (l : PsyConst_l) (fftenergy eb mx av : nat -> R) :
  (forall j, 0 <= fftenergy j) ->
  forall b, (b < npart l)%nat ->
    0 <= eb_of (calc_energy l fftenergy eb mx av) b /\
    0 <= max_of (calc_energy l fftenergy eb mx av) b.
Proof.
  intros Hf. unfold calc_energy.
  refine (for_loop_ind
    (fun j t => forall b, (b < j)%nat -> 0 <= eb_of t b /\ 0 <= max_of t b)
    (calc_energy_band l fftenergy) (npart l) 0 _ _ _).
  - intros b Hb. lia.
  - intros i t _ IH b Hb. unfold calc_energy_band; cbn [eb_of max_of].
    unfold upd. destruct (Nat.eqb_spec b i) as [->|Hne].
    + apply energy_line_nonneg; simpl; try lra. exact Hf.
    + apply IH. lia.
Qed.

Section ClampProofs.

Variable FAST_LOG10_X : R -> R -> R.
Variables rpelev rpelev2 NS_PREECHO_ATT2 : R.
Variable CBANDS : nat.

Hypothesis NS_PREECHO_ATT2_nonneg : 0 <= NS_PREECHO_ATT2.

Lemma Min_nonneg a b : 0 <= a -> 0 <= b -> 0 <= Min a b.
Proof. intros. unfold Min. destruct (Rlt_dec a b); assumption. Qed.

Lemma vbr_preecho_nonneg old ecb eb_b nb1 nb2 :
  0 <= ecb -> 0 <= eb_b ->
  0 <= vbr_preecho rpelev rpelev2 NS_PREECHO_ATT2 old ecb eb_b nb1 nb2.
Proof.
  intros He Hb. unfold vbr_preecho.
  destruct (block_type_eqb old SHORT_TYPE).
  - destruct (Rgt_dec _ _); apply Min_nonneg; try lra.
    apply Rmult_le_pos; assumption.
  - apply Min_nonneg; [exact He|].
    destruct (Rle_dec (rpelev2 * nb2) 0), (Rle_dec (rpelev * nb1) 0),
      (block_type_eqb old NORM_TYPE); try apply Min_nonneg; lra.
Qed.

Lemma vbr_limit_clamped thr0 mx_b minval_b avg_mask ml eb_b :
  0 <= thr0 -> 0 <= mx_b -> 0 <= minval_b -> 0 <= avg_mask -> 0 <= ml ->
  0 <= eb_b ->
  clamped (vbr_limit thr0 mx_b minval_b avg_mask ml eb_b) eb_b.
Proof.
  intros Ht Hm Hv Ha Hl He. unfold vbr_limit, clamped.
  assert (Hx : 0 <= mx_b * minval_b * avg_mask).
  { apply Rmult_le_pos; [apply Rmult_le_pos|]; assumption. }
  set (x := mx_b * minval_b * avg_mask) in *.
  set (t1 := if Rgt_dec thr0 x then x else thr0).
  assert (H1 : 0 <= t1) by (unfold t1; destruct (Rgt_dec thr0 x); lra).
  set (t2 := if Rgt_dec ml 1 then t1 * ml else t1).
  assert (H2 : 0 <= t2) by (unfold t2; destruct (Rgt_dec ml 1); nra).
  set (t3 := if Rgt_dec t2 eb_b then eb_b else t2).
  assert (H3 : 0 <= t3 <= eb_b) by (unfold t3; destruct (Rgt_dec t2 eb_b); lra).
  destruct (Rlt_dec ml 1); [nra | exact H3].
Qed.

Lemma vbr_spread_nonneg (l : PsyConst_l) (eb : nat -> R) (idx : nat -> Z) k0 b :
  0 <= s3 l k0 -> 0 <= eb (s3ind0 l b) ->
  0 <= fst (vbr_spread FAST_LOG10_X l eb idx k0 b) /\
  0 <= snd (vbr_spread FAST_LOG10_X l eb idx k0 b).
Proof.
  intros Hs He. unfold vbr_spread. cbn [fst snd].
  pose proof tab_nonneg as Htab.
  match goal with
  | |- context [for_loop ?body 0 ?n ?a0] =>
      assert (Hecb : 0 <= sp_ecb (for_loop body 0 n a0))
  end.
  { refine (for_loop_ind (fun _ a => 0 <= sp_ecb a) _ _ 0 _ _ _).
    - cbn [sp_ecb]. apply Rmult_le_pos; [apply Rmult_le_pos; assumption|].
      now apply table_at_nonneg.
    - intros i a _ _. unfold vbr_spread_term; cbn [sp_ecb].
      apply vbrpsy_mask_add_nonneg. }
  split.
  - apply Rmult_le_pos; [exact Hecb|].
    apply Rmult_le_pos; [now apply table_at_nonneg | lra].
  - apply Rmult_le_pos; [now apply table_at_nonneg | lra].
Qed.

(** After the loop over the partitions every threshold written so far is
    clamped by its partition energy. *)
Lemma vbr_band_loop_clamped (l : PsyConst_l) (old : block_type) (qml : R)
  (eb mx : nat -> R) (idx : nat -> Z) (st0 : band_state) :
  (forall k, 0 <= s3 l k) ->
  (forall b, 0 <= minval l b) ->
  (forall b, 0 <= masking_lower l b * qml) ->
  (forall b, (b < npart l)%nat -> (s3ind0 l b < npart l)%nat) ->
  (forall b, (b < npart l)%nat -> 0 <= eb b /\ 0 <= mx b) ->
  forall b, (b < npart l)%nat ->
    clamped
      (bs_thr (for_loop (vbr_band FAST_LOG10_X rpelev rpelev2 NS_PREECHO_ATT2
                           l old qml eb mx idx) 0 (npart l) st0) b)
      (eb b).
Proof.
  intros Hs3 Hmin Hml Hind Heb.
  refine (for_loop_ind
    (fun j st => forall b, (b < j)%nat -> clamped (bs_thr st b) (eb b))
    _ (npart l) 0 st0 _ _).
  - intros b Hb. lia.
  - intros i st Hi IH b Hb. unfold vbr_band.
    pose proof (vbr_spread_nonneg l eb idx (bs_k st) i (Hs3 _)
                  (proj1 (Heb _ (Hind i (proj2 Hi))))) as [He Ha].
    destruct (vbr_spread FAST_LOG10_X l eb idx (bs_k st) i) as [ecb avg_mask].
    cbn [fst snd bs_thr] in *. unfold upd.
    destruct (Nat.eqb_spec b i) as [->|Hne].
    + destruct (Heb i (proj2 Hi)) as [Hebi Hmxi].
      apply vbr_limit_clamped; auto.
      now apply vbr_preecho_nonneg.
    + apply IH. lia.
Qed.

Lemma zero_partition_below (n lo : nat) (t : (nat -> R) * (nat -> R)) (b : nat) :
  (b < lo)%nat ->
  fst (for_loop zero_partition lo n t) b = fst t b /\
  snd (for_loop zero_partition lo n t) b = snd t b.
Proof.
  revert lo t. induction n as [|n IH]; intros lo t Hb; simpl; [now split|].
  destruct (IH (S lo) (zero_partition t lo)) as [E1 E2]; [lia|].
  rewrite E1, E2. unfold zero_partition; simpl.
  assert (b <> lo) by lia. now rewrite !upd_other by assumption.
Qed.

(** The partition thresholds of one channel after
    vbrpsy_compute_masking_l. *)
Lemma vbrpsy_compute_masking_l_clamped (l : PsyConst_l) (old : block_type)
  (qml : R) (fftenergy eb_l thr nb1 nb2 : nat -> R) :
  (forall j, 0 <= fftenergy j) ->
  (forall k, 0 <= s3 l k) ->
  (forall b, 0 <= minval l b) ->
  (forall b, 0 <= masking_lower l b * qml) ->
  (forall b, (b < npart l)%nat -> (s3ind0 l b < npart l)%nat) ->
  let r := vbrpsy_compute_masking_l FAST_LOG10_X rpelev rpelev2 NS_PREECHO_ATT2
             CBANDS l old qml fftenergy eb_l thr nb1 nb2 in
  forall b, (b < npart l)%nat -> clamped (mr_thr r b) (mr_eb r b).
Proof.
  intros Hf Hs3 Hmin Hml Hind r b Hb. unfold r, vbrpsy_compute_masking_l.
  cbn [mr_thr mr_eb].
  match goal with
  | |- context [for_loop zero_partition ?lo ?n ?t] =>
      destruct (zero_partition_below n lo t b Hb) as [E1 E2]
  end.
  rewrite E1, E2. cbn [fst snd].
  apply vbr_band_loop_clamped; auto.
  intros b' Hb'. now apply calc_energy_nonneg.
Qed.

End ClampProofs.

(** *** The clamp of vbrpsy_compute_MS_thresholds *)

Lemma Max_ge_l a b : a <= Max a b.
Proof. unfold Max. destruct (Rgt_dec a b); lra. Qed.

Lemma clamp_to_energy x e :
  0 <= x -> 0 <= e -> clamped (if Rgt_dec x e then e else x) e.
Proof. intros. unfold clamped. destruct (Rgt_dec x e); lra. Qed.

Lemma ms_threshold_band_clamped ebM ebS thmL thmR thmM thmS mld ath_b athlower msfix :
  0 <= ebM -> 0 <= ebS -> 0 <= thmL -> 0 <= thmR -> 0 <= thmM -> 0 <= thmS ->
  let r := ms_threshold_band ebM ebS thmL thmR thmM thmS mld ath_b athlower msfix in
  clamped (fst r) ebM /\ clamped (snd r) ebS.
Proof.
  intros HeM HeS HL HR HM HS. unfold ms_threshold_band.
  set (p1 := if Rle_dec thmL (1.58 * thmR) then _ else _).
  assert (H1 : 0 <= fst p1 /\ 0 <= snd p1).
  { unfold p1. destruct (Rle_dec thmL (1.58 * thmR)); [|simpl; lra].
    destruct (Rle_dec thmR (1.58 * thmL)); [|simpl; lra].
    cbn [fst snd]. split.
    - pose proof (Max_ge_l thmM (Min thmS (mld * ebS))). lra.
    - pose proof (Max_ge_l thmS (Min thmM (mld * ebM))). lra. }
  destruct p1 as [rmid rside]. cbn [fst snd] in H1. destruct H1 as [Hm Hs].
  set (p2 := if Rgt_dec msfix 0.0 then _ else _).
  assert (H2 : 0 <= fst p2 /\ 0 <= snd p2).
  { unfold p2. destruct (Rgt_dec msfix 0.0) as [Hfix|]; [|simpl; lra].
    set (ath := ath_b * athlower).
    pose proof (Max_ge_l rmid ath) as HM1. pose proof (Max_ge_l rside ath) as HS1.
    pose proof (Max_ge_l thmL ath) as HL1. pose proof (Max_ge_l thmR ath) as HR1.
    set (thmM1 := Max rmid ath) in *. set (thmS1 := Max rside ath) in *.
    assert (HLR : 0 <= Min (Max thmL ath) (Max thmR ath)).
    { apply Min_nonneg; lra. }
    set (thmLR := Min (Max thmL ath) (Max thmR ath)) in *.
    set (p3 := if Rgt_dec (thmM1 + thmS1) 0.0 then _ else _).
    assert (H3 : 0 <= fst p3 /\ 0 <= snd p3).
    { unfold p3. destruct (Rgt_dec (thmM1 + thmS1) 0.0) as [Hpos|]; [|simpl; lra].
      destruct (Rlt_dec _ _); [|simpl; lra].
      assert (Hf : 0 <= thmLR * (msfix * 2.0) / (thmM1 + thmS1)).
      { apply Rmult_le_pos; [nra|]. left. apply Rinv_0_lt_compat. lra. }
      cbn [fst snd]. split; apply Rmult_le_pos; lra. }
    destruct p3 as [thmM2 thmS2]. cbn [fst snd] in *.
    split; apply Min_nonneg; lra. }
  destruct p2 as [rm rs]. cbn [fst snd] in *.
  split; apply clamp_to_energy; lra.
Qed.

Lemma vbrpsy_compute_MS_thresholds_clamped (eb thr : nat -> nat -> R)
  (cb_mld ath_cb : nat -> R) (athlower msfix : R) (n : nat) :
  (forall chn b, (chn < 4)%nat -> (b < n)%nat -> clamped (thr chn b) (eb chn b)) ->
  forall chn b, (chn < 4)%nat -> (b < n)%nat ->
    clamped (vbrpsy_compute_MS_thresholds eb thr cb_mld ath_cb athlower msfix n chn b)
            (eb chn b).
Proof.
  intro H0. unfold vbrpsy_compute_MS_thresholds.
  refine (for_loop_ind
    (fun _ t => forall chn b, (chn < 4)%nat -> (b < n)%nat ->
                  clamped (t chn b) (eb chn b))
    (ms_threshold_step eb cb_mld ath_cb athlower msfix) n 0 thr H0 _).
  intros i t Hi IH chn b Hc Hb. unfold ms_threshold_step.
  destruct (ms_threshold_band_clamped (eb 2%nat i) (eb 3%nat i)
              (t 0%nat i) (t 1%nat i) (t 2%nat i) (t 3%nat i)
              (cb_mld i) (ath_cb i) athlower msfix) as [HM HS];
    try (pose proof (IH 0%nat i ltac:(lia) ltac:(lia));
         pose proof (IH 1%nat i ltac:(lia) ltac:(lia));
         pose proof (IH 2%nat i ltac:(lia) ltac:(lia));
         pose proof (IH 3%nat i ltac:(lia) ltac:(lia));
         unfold clamped in *; lra).
  unfold upd at 1. destruct (Nat.eqb_spec chn 3) as [->|H3].
  - unfold upd. destruct (Nat.eqb_spec b i) as [->|]; [exact HS | now apply IH].
  - unfold upd at 1. destruct (Nat.eqb_spec chn 2) as [->|H2].
    + unfold upd. destruct (Nat.eqb_spec b i) as [->|]; [exact HM | now apply IH].
    + now apply IH.
Qed.

(** *** The long-block pass of L3psycho_anal_vbr *)

Section VbrClamp.

Variable FAST_LOG10_X : R -> R -> R.
Variables rpelev rpelev2 NS_PREECHO_ATT2 : R.
Variables CBANDS SBMAX_l : nat.

Local Abbreviation pass :=
  (vbr_long_block_case FAST_LOG10_X rpelev rpelev2 NS_PREECHO_ATT2 CBANDS SBMAX_l).
Local Abbreviation mask_channel :=
  (long_mask_channel FAST_LOG10_X rpelev rpelev2 NS_PREECHO_ATT2 CBANDS).

Variable c : long_config.
Variable fftenergy : nat -> nat -> R.

Hypothesis NS_PREECHO_ATT2_nonneg : 0 <= NS_PREECHO_ATT2.
Hypothesis fftenergy_nonneg : forall chn j, 0 <= fftenergy chn j.
Hypothesis s3_nonneg : forall k, 0 <= s3 (lc_l c) k.
Hypothesis minval_nonneg : forall b, 0 <= minval (lc_l c) b.
Hypothesis masking_lower_nonneg :
  forall b, 0 <= masking_lower (lc_l c) b * lc_qnt_masking_lower c.
Hypothesis s3ind0_in_range :
  forall b, (b < npart (lc_l c))%nat -> (s3ind0 (lc_l c) b < npart (lc_l c))%nat.
Hypothesis bo_weight_range : forall sb, 0 <= bo_weight (lc_l c) sb <= 1.

Definition partitions_clamped (n : nat) (s : long_state) : Prop :=
  forall chn b, (chn < n)%nat -> (b < npart (lc_l c))%nat ->
    clamped (ls_thr s chn b) (ls_eb s chn b).

Lemma long_mask_loop_clamped (s : long_state) (n : nat) :
  partitions_clamped n (for_loop (mask_channel c fftenergy) 0 n s).
Proof.
  unfold partitions_clamped.
  refine (for_loop_ind
    (fun j s => forall chn b, (chn < j)%nat -> (b < npart (lc_l c))%nat ->
                  clamped (ls_thr s chn b) (ls_eb s chn b))
    (mask_channel c fftenergy) n 0 s _ _).
  - intros chn b Hc. lia.
  - intros i st _ IH chn b Hc Hb. unfold long_mask_channel. cbn [ls_thr ls_eb].
    unfold upd. destruct (Nat.eqb_spec chn i) as [->|Hne].
    + apply vbrpsy_compute_masking_l_clamped; auto.
    + apply IH; [lia | exact Hb].
Qed.

Lemma long_ms_clamped (s : long_state) :
  partitions_clamped (n_chn_psy c) s ->
  partitions_clamped (n_chn_psy c) (long_ms c s).
Proof.
  intro H. unfold long_ms.
  destruct (lc_uselongblock c 0%nat && lc_uselongblock c 1%nat && lc_joint_stereo c)
    eqn:E; [|exact H].
  apply andb_prop in E. destruct E as [_ Ej].
  unfold partitions_clamped, n_chn_psy in *. rewrite Ej in *.
  intros chn b Hc Hb. cbn [ls_thr ls_eb].
  apply vbrpsy_compute_MS_thresholds_clamped; auto.
Qed.

Lemma long_convert_loop_clamped (s : long_state) (n : nat) :
  partitions_clamped n s ->
  forall chn sb, (chn < n)%nat -> lc_uselongblock c (chn mod 2)%nat = true ->
    (sb < SBMAX_l)%nat ->
    clamped (ls_thm (for_loop (long_convert_channel SBMAX_l c) 0 n s) chn sb)
            (ls_en (for_loop (long_convert_channel SBMAX_l c) 0 n s) chn sb).
Proof.
  intro H.
  assert (Inv : let r := for_loop (long_convert_channel SBMAX_l c) 0 n s in
    ls_eb r = ls_eb s /\ ls_thr r = ls_thr s /\
    forall chn sb, (chn < n)%nat -> lc_uselongblock c (chn mod 2)%nat = true ->
      (sb < SBMAX_l)%nat -> clamped (ls_thm r chn sb) (ls_en r chn sb)).
  { refine (for_loop_ind
      (fun j r => ls_eb r = ls_eb s /\ ls_thr r = ls_thr s /\
         forall chn sb, (chn < j)%nat -> lc_uselongblock c (chn mod 2)%nat = true ->
           (sb < SBMAX_l)%nat -> clamped (ls_thm r chn sb) (ls_en r chn sb))
      (long_convert_channel SBMAX_l c) n 0 s _ _).
    - split; [reflexivity | split; [reflexivity|]]. intros chn sb Hc. lia.
    - intros i r Hi (Eeb & Ethr & IH). unfold long_convert_channel.
      destruct (lc_uselongblock c (i mod 2)%nat) eqn:Eu.
      + cbn [ls_eb ls_thr ls_thm ls_en].
        split; [exact Eeb | split; [exact Ethr|]].
        intros chn sb Hc Hu Hsb. unfold upd.
        destruct (Nat.eqb_spec chn i) as [->|Hne].
        * apply convert_partition2scalefac_l_clamped; auto.
          intros b Hb. rewrite Eeb, Ethr. apply H; [lia | exact Hb].
        * apply IH; [lia | exact Hu | exact Hsb].
      + split; [exact Eeb | split; [exact Ethr|]].
        intros chn sb Hc Hu Hsb.
        destruct (Nat.eq_dec chn i) as [->|Hne]; [congruence|].
        apply IH; [lia | exact Hu | exact Hsb]. }
  exact (proj2 (proj2 Inv)).
Qed.

(** The long-block half of the clamp: after the long-block pass of
    L3psycho_anal_vbr, in every analysed channel coded with long blocks
    and every scalefactor band, the threshold stored in [thm[chn].l] lies
    between 0 and the energy stored in [en[chn].l].  The tables of the
    session are assumed not negative, and the band weights within
    [0, 1], as psymodel_init builds them. *)
Theorem vbr_long_thresholds_clamped (s : long_state) :
  forall chn sb, (chn < n_chn_psy c)%nat ->
    lc_uselongblock c (chn mod 2)%nat = true -> (sb < SBMAX_l)%nat ->
    clamped (ls_thm (pass c fftenergy s) chn sb) (ls_en (pass c fftenergy s) chn sb).
Proof.
  intros chn sb Hc Hu Hsb. unfold vbr_long_block_case.
  apply long_convert_loop_clamped; try assumption.
  apply long_ms_clamped, long_mask_loop_clamped.
Qed.

End VbrClamp.

(** *** A loud partition next to a silent one *)

(** Two partitions of one line each, every partition spread over both,
    one scalefactor band per partition. *)
Definition two_partitions : PsyConst_l :=
  {| npart := 2;
     numlines := fun _ => 1%nat;
     rnumlines := fun _ => 1;
     s3 := fun _ => 1;
     s3ind0 := fun _ => 0%nat;
     s3ind1 := fun _ => 1%nat;
     bo := fun sb => sb;
     bo_weight := fun _ => 1;
     minval := fun _ => 1;
     masking_lower := fun _ => 1;
     mld_cb := fun _ => 1 |}.

(** The first line carries the energy 100, the others none. *)
Definition loud_then_silent (j : nat) : R := if (j =? 0)%nat then 100 else 0.

Definition mono_session : long_config :=
  {| lc_l := two_partitions;
     lc_joint_stereo := false;
     lc_channels_out := 1;
     lc_old := fun _ => NORM_TYPE;
     lc_uselongblock := fun _ => true;
     lc_qnt_masking_lower := 1;
     lc_ath_cb_l := fun _ => 0;
     lc_ath_factor := 1;
     lc_msfix := 0 |}.

(** The psy state as psymodel_init leaves it. *)
Definition fresh_long_state : long_state :=
  {| ls_eb := fun _ _ => 0; ls_thr := fun _ _ => 0;
     ls_nb_l1 := fun _ _ => 1e20; ls_nb_l2 := fun _ _ => 1e20;
     ls_en := fun _ _ => 1e20; ls_thm := fun _ _ => 1e20 |}.

Lemma vbr_long_thresholds_clamped_witness :
  clamped
    (ls_thm (vbr_long_block_case log10_x 2 16 0.3 64 22 mono_session
               (fun _ => loud_then_silent) fresh_long_state) 0%nat 1%nat)
    (ls_en (vbr_long_block_case log10_x 2 16 0.3 64 22 mono_session
              (fun _ => loud_then_silent) fresh_long_state) 0%nat 1%nat).
Proof.
  apply (vbr_long_thresholds_clamped log10_x 2 16 0.3 64 22 mono_session
           (fun _ => loud_then_silent)).
  - lra.
  - intros chn j. unfold loud_then_silent. destruct (j =? 0)%nat; lra.
  - intros k. simpl. lra.
  - intros b. simpl. lra.
  - intros b. simpl. lra.
  - intros b Hb. simpl. lia.
  - intros sb. simpl. lra.
  - unfold n_chn_psy. simpl. lia.
  - reflexivity.
  - lia.
Defined.

(** *** The long-block thresholds of L3psycho_anal_ns *)

(** One channel of the long-block part of L3psycho_anal_ns: the
    convolution, then [convert_partition2scalefac_l]; the result is the
    new [(en[chn].l, thm[chn].l)]. *)
Definition ns_long_block_channel (FAST_LOG10_X : R -> R -> R)
  (rpelev rpelev2 : R) (CBANDS SBMAX_l : nat) (ATH_cb_l ATH_cb_s : Z -> R)
  (ATH_adjust_factor : R) (l : PsyConst_l) (old : block_type) (pcfact : R)
  (fftenergy eb_l thr nb1 nb2 en thm : nat -> R) : (nat -> R) * (nat -> R) :=
  let r := ns_compute_masking_l FAST_LOG10_X rpelev rpelev2 CBANDS
             ATH_cb_l ATH_cb_s ATH_adjust_factor l old pcfact
             fftenergy eb_l thr nb1 nb2 in
  convert_partition2scalefac_l SBMAX_l l (mr_eb r) (mr_thr r) en thm.

(** The first granule of a mono session at constant bitrate (empty
    reservoir, so [pcfact] is 0), on the spectrum [loud_then_silent]. *)
Definition ns_first_granule : (nat -> R) * (nat -> R) :=
  ns_long_block_channel log10_x 2 16 64 22 (fun _ => 0) (fun _ => 0) 1
    two_partitions NORM_TYPE 0
    loud_then_silent (fun _ => 0) (fun _ => 0)
    (fun _ => 1e20) (fun _ => 1e20) (fun _ => 1e20) (fun _ => 1e20).

Lemma mask_add_zero_r F lim cl cs af m1 kk b sb :
  0 <= m1 -> mask_add F lim cl cs af m1 0 kk b sb = m1.
Proof.
  intro H. unfold mask_add.
  destruct (Rgt_dec 0 m1); [lra|].
  destruct (Rge_dec m1 (0 * ma_max_i2 lim)); lra.
Qed.

Lemma c_int_lower (x : R) (n : Z) : 0 <= x -> IZR n <= x -> (n <= c_int x)%Z.
Proof.
  intros H0 Hn. unfold c_int.
  destruct (Rle_dec 0 x) as [_|Hc]; [|contradiction].
  destruct (base_Int_part x) as [Hle Hgt].
  apply Z.lt_succ_r. apply lt_IZR. rewrite succ_IZR. lra.
Qed.

(** A neighbourhood whose energy sits in one line is as tonal as the
    table allows. *)
Lemma mask_index_peaked (c : R) (w : Z) :
  2 <= c -> (1 <= w <= 2)%Z -> mask_index 100 100 c w = 8%Z.
Proof.
  intros Hc Hw. unfold mask_index.
  destruct (Rgt_dec 100 0) as [_|]; [|lra].
  assert (Hk : (10 <= c_int (20.0 * (100 * c - 100) / (100 * IZR w)))%Z).
  { assert (Hw1 : 1 <= IZR w <= 2) by (split; apply IZR_le; lia).
    assert (Hq : 10 <= 20.0 * (100 * c - 100) / (100 * IZR w)).
    { apply (Rmult_le_reg_r (100 * IZR w)); [nra|].
      unfold Rdiv. rewrite Rmult_assoc, Rinv_l by nra. nra. }
    apply c_int_lower; lra. }
  unfold last_tab_entry.
  destruct (Z.ltb_spec 8 (c_int (20.0 * (100 * c - 100) / (100 * IZR w)))); [reflexivity | lia].
Qed.

Lemma calc_energy_loud_then_silent (eb mx av : nat -> R) :
  let t := calc_energy two_partitions loud_then_silent eb mx av in
  (eb_of t 0%nat = 100 /\ eb_of t 1%nat = 0) /\
  (max_of t 0%nat = 100 /\ max_of t 1%nat = 0) /\
  (avg_of t 0%nat = 100 /\ avg_of t 1%nat = 0).
Proof.
  cbv [calc_energy for_loop two_partitions npart numlines rnumlines
       calc_energy_band energy_line ce_j eb_of max_of avg_of upd
       Nat.eqb Nat.add fst snd loud_then_silent].
  destruct (Rlt_dec 0 100); [|lra]. destruct (Rlt_dec 0 0); [lra|].
  repeat split; lra.
Qed.

Lemma calc_mask_index_l_peaked (mx av : nat -> R) (idx : nat -> Z) :
  mx 0%nat = 100 -> mx 1%nat = 0 -> av 0%nat = 100 -> av 1%nat = 0 ->
  calc_mask_index_l two_partitions mx av idx 0%nat = 8%Z /\
  calc_mask_index_l two_partitions mx av idx 1%nat = 8%Z.
Proof.
  intros M0 M1 A0 A1.
  cbv [calc_mask_index_l two_partitions npart numlines for_loop Nat.sub Nat.max
       upd Nat.eqb mask_index_first mask_index_last].
  rewrite M0, M1, A0, A1.
  replace (100 + 0) with 100 by lra.
  replace (Rmax_c 100 0) with 100 by (unfold Rmax_c; destruct (Rlt_dec 100 0); lra).
  split; apply mask_index_peaked; simpl; lra || lia.
Qed.

(** With the reservoir empty the pre-echo interpolation returns the
    spread energy itself. *)
Lemma ns_band_loud_then_silent F cl cs af (eb : nat -> R) (idx : nat -> Z)
  (st : band_state) (b : nat) :
  eb 0%nat = 100 -> eb 1%nat = 0 -> idx 0%nat = 8%Z ->
  bs_thr (ns_band F 2 16 cl cs af two_partitions NORM_TYPE 0 eb idx st b)
  = upd (bs_thr st) b (11.749 * 0.158489319246111).
Proof.
  intros E0 E1 I0. unfold ns_band. cbn [bs_thr]. f_equal.
  cbn [two_partitions s3ind0 s3ind1 s3 Nat.sub for_loop].
  unfold ns_spread_term. cbn [Nat.add]. rewrite E0, E1, I0.
  replace (s3 two_partitions (bs_k st + 1 + 0) * (0 * table_at tab (idx 1%nat)))
    with 0 by (cbn [two_partitions s3]; lra).
  replace (table_at tab 8) with 0.11749 by reflexivity.
  rewrite mask_add_zero_r by lra.
  cbn [block_type_eqb]. unfold NS_INTERP.
  destruct (Rge_dec 0 1.0); [lra|]. destruct (Rle_dec 0 0.0); lra.
Qed.

Lemma convert_two_partitions (eb thr en thm : nat -> R) :
  fst (convert_partition2scalefac_l 22 two_partitions eb thr en thm) 1%nat
  = (1.0 - 1) * eb 0%nat + 1 * eb 1%nat /\
  snd (convert_partition2scalefac_l 22 two_partitions eb thr en thm) 1%nat
  = (1.0 - 1) * thr 0%nat + 1 * thr 1%nat.
Proof.
  unfold convert_partition2scalefac_l.
  cbv [convert_bands two_partitions npart bo bo_weight Nat.ltb Nat.leb Nat.max
       Nat.sub for_loop zero_band upd Nat.eqb fst snd].
  split; lra.
Qed.

(** C1, counterexample: in L3psycho_anal_ns the threshold of a silent
    band next to a loud one is the spread energy of the neighbour; it
    exceeds the energy of the band, which is 0. *)
Lemma ns_long_threshold_exceeds_energy :
  fst ns_first_granule 1%nat = 0 /\
  snd ns_first_granule 1%nat = 11.749 * 0.158489319246111 /\
  ~ clamped (snd ns_first_granule 1%nat) (fst ns_first_granule 1%nat).
Proof.
  unfold ns_first_granule, ns_long_block_channel.
  match goal with
  | |- context [convert_partition2scalefac_l 22 two_partitions ?eb ?thr ?en ?thm] =>
      destruct (convert_two_partitions eb thr en thm) as [Een Ethm];
      assert (Heb : eb 0%nat = 100 /\ eb 1%nat = 0);
      [| assert (Hthr : thr 0%nat = 11.749 * 0.158489319246111
                        /\ thr 1%nat = 11.749 * 0.158489319246111) ]
  end.
  - unfold ns_compute_masking_l. cbn [mr_eb].
    destruct (calc_energy_loud_then_silent (fun _ => 0) (fun _ => 0) (fun _ => 0))
      as [[E0 E1] _].
    split.
    + rewrite (proj1 (zero_partition_below _ 2 _ 0%nat ltac:(lia))). exact E0.
    + rewrite (proj1 (zero_partition_below _ 2 _ 1%nat ltac:(lia))). exact E1.
  - unfold ns_compute_masking_l. cbn [mr_thr].
    destruct (calc_energy_loud_then_silent (fun _ => 0) (fun _ => 0) (fun _ => 0))
      as [[E0 E1] [[M0 M1] [A0 A1]]].
    destruct (calc_mask_index_l_peaked _ _ (fun _ => 0%Z) M0 M1 A0 A1) as [I0 _].
    change (npart two_partitions) with 2%nat.
    split.
    + rewrite (proj2 (zero_partition_below _ 2 _ 0%nat ltac:(lia))). cbn [snd for_loop].
      rewrite !ns_band_loud_then_silent by assumption.
      reflexivity.
    + rewrite (proj2 (zero_partition_below _ 2 _ 1%nat ltac:(lia))). cbn [snd for_loop].
      rewrite !ns_band_loud_then_silent by assumption.
      reflexivity.
  - rewrite Een, Ethm. destruct Heb as [-> ->]. destruct Hthr as [-> ->].
    split; [lra | split; [lra|]].
    unfold clamped. lra.
Qed.

End Masking.

(** * psymodel.c: the thresholds of L3psycho_anal_vbr, long and short *)

Module VbrThresholds.

Import BlockType MaskAdd Masking.

(** *** The short-block masking of the vbr analyser *)

(** [psyvbr_calc_mask_index_s (gfc, max, avg, mask_idx)]: the statements
    of [calc_mask_index_l] on the short tables [gds]; [PsyConst_s_t] has
    the fields of [PsyConst_l_t] that the two passes read, so the short
    tables are a second value of the record. *)
Definition psyvbr_calc_mask_index_s (gds : PsyConst_l) (mx av : nat -> R)
  (mask_idx : nat -> Z) : nat -> Z :=
  let idx0 := upd mask_idx 0%nat (mask_index_first gds mx av) in
  let idx1 := for_loop (mask_index_middle gds mx av) 1 (npart gds - 1 - 1) idx0 in
  let b := Nat.max 1 (npart gds - 1) in
  upd idx1 b (mask_index_last gds mx av b).

(** [vbrpsy_skip_masking_s (gfc, chn, sblock)]: the new row
    [psv->nb_s2[chn]]. *)
Definition vbrpsy_skip_masking_s (gds : PsyConst_l) (sblock : nat)
  (nbs1 nbs2 : nat -> R) : nat -> R :=
  if (sblock =? 0)%nat
  then for_loop (fun nb b => upd nb b (nbs1 b)) 0 (npart gds) nbs2
  else nbs2.

(** The state threaded through the partitions of one channel and window:
    the running index [j] into [s3], the thresholds, and the channel's
    rows of [psv->nb_s1] and [psv->nb_s2]. *)
Record short_band_state : Type := {
  sb_j : nat;
  sb_thr : nat -> R;
  sb_nb_s1 : nat -> R;
  sb_nb_s2 : nat -> R
}.

(** The outcome of [vbrpsy_compute_masking_s] for one channel and
    window. *)
Record short_masking_result : Type := {
  sm_eb : nat -> R;
  sm_thr : nat -> R;
  sm_nb_s1 : nat -> R;
  sm_nb_s2 : nat -> R
}.

(** [pcfact] of L3psycho_anal_vbr. *)
Definition pcfact : R := 0.6.

(** "pulse like signal detection" of vbrpsy_attack_detection:
    [sub_short_factor[chn][i]] from the channel's [en_subshort]. *)
Definition sub_short_factor (en_subshort : nat -> R) (i : nat) : R :=
  let enn := en_subshort (i * 3 + 3)%nat + en_subshort (i * 3 + 4)%nat
             + en_subshort (i * 3 + 5)%nat in
  let factor := 1 in
  if Rlt_dec (en_subshort (i * 3 + 5)%nat * 6) enn then
    let factor := factor * 0.5 in
    if Rlt_dec (en_subshort (i * 3 + 4)%nat * 6) enn then factor * 0.5
    else factor
  else factor.

(** The arrays of L3psycho_anal_vbr touched by its "SHORT BLOCKS CASE",
    indexed by the channel first: the locals [eb] and [thr], and
    [nb_s1], [nb_s2], [en[chn].s[sb][sblock]], [thm[chn].s[sb][sblock]]
    of the psy state. *)
Record vbr_short_state : Type := {
  sh_eb : nat -> nat -> R;
  sh_thr : nat -> nat -> R;
  sh_nb_s1 : nat -> nat -> R;
  sh_nb_s2 : nat -> nat -> R;
  sh_en : nat -> nat -> nat -> R;
  sh_thm : nat -> nat -> nat -> R
}.

(** The session facts the analyser reads: those of the long pass, the
    short tables [gds] and [gfc->ATH->cb_s]. *)
Record vbr_config : Type := {
  vc_long : long_config;
  vc_s : PsyConst_l;
  vc_ath_cb_s : nat -> R
}.

(** What vbrpsy_attack_detection hands over to the short pre-echo
    control, and [psv->last_attacks]. *)
Record attack_facts : Type := {
  af_ns_attacks : nat -> nat -> Z;
  af_last_attacks : nat -> Z;
  af_en_subshort : nat -> nat -> R
}.

Section Analyser.

(** Macros and dimensions of the headers. *)
Variable FAST_LOG10_X : R -> R -> R.
Variables rpelev rpelev2 : R.
Variables NS_PREECHO_ATT0 NS_PREECHO_ATT1 NS_PREECHO_ATT2 : R.
Variables CBANDS SBMAX_l SBMAX_s : nat.

(** One partition of vbrpsy_compute_masking_s: the convolution, the
    shift of the memory, the limit and the clamp; the pre-echo control
    is left for later ([thr[b] = ecb]).  [qml] is
    [gfc->sv_qnt.masking_lower]. *)
Definition vbr_band_s (gds : PsyConst_l) (qml : R) (eb mx : nat -> R)
  (idx : nat -> Z) (st : short_band_state) (b : nat) : short_band_state :=
  let '(ecb, avg_mask) := vbr_spread FAST_LOG10_X gds eb idx (sb_j st) b in
  {| sb_j := (sb_j st + 1 + (s3ind1 gds b - s3ind0 gds b))%nat;
     sb_thr := upd (sb_thr st) b
                 (vbr_limit ecb (mx b) (minval gds b) avg_mask
                    (masking_lower gds b * qml) (eb b));
     sb_nb_s1 := upd (sb_nb_s1 st) b ecb;
     sb_nb_s2 := upd (sb_nb_s2 st) b (sb_nb_s1 st b) |}.

(** [vbrpsy_compute_masking_s (gfc, fftenergy_s, eb, thr, chn, sblock)];
    [fftenergy_s] is the row [fftenergy_s[sblock]].  The first loop is
    the body of [calc_energy], with [max] and [avg] cleared before. *)
Definition vbrpsy_compute_masking_s (gds : PsyConst_l) (qml : R)
  (fftenergy_s : nat -> R) (eb thr nbs1 nbs2 : nat -> R)
  : short_masking_result :=
  let t := for_loop (calc_energy_band gds fftenergy_s) 0 (npart gds)
             {| ce_j := 0; eb_of := eb; max_of := fun _ => 0;
                avg_of := fun _ => 0 |} in
  let idx := psyvbr_calc_mask_index_s gds (max_of t) (avg_of t) (fun _ => 0%Z) in
  let st := for_loop (vbr_band_s gds qml (eb_of t) (max_of t) idx) 0 (npart gds)
              {| sb_j := 0; sb_thr := thr; sb_nb_s1 := nbs1; sb_nb_s2 := nbs2 |} in
  let z := for_loop zero_partition (npart gds) (CBANDS - npart gds)
             (eb_of t, sb_thr st) in
  {| sm_eb := fst z; sm_thr := snd z;
     sm_nb_s1 := sb_nb_s1 st; sm_nb_s2 := sb_nb_s2 st |}.

(** [convert_partition2scalefac_s (gfc, eb, thr, chn, sblock)]: the new
    contents of [psv->en[chn].s] and [psv->thm[chn].s]; the loop is that
    of [convert_partition2scalefac_l] on the short tables, writing the
    column [sblock]. *)
Definition convert_partition2scalefac_s (gds : PsyConst_l) (eb thr : nat -> R)
  (sblock : nat) (en thm : nat -> nat -> R)
  : (nat -> nat -> R) * (nat -> nat -> R) :=
  let '(sb, en1, thm1) :=
    convert_bands gds eb thr SBMAX_s 0 0 0.0 0.0
      (fun sb => en sb sblock) (fun sb => thm sb sblock) in
  let z := for_loop zero_band sb (SBMAX_s - sb) (en1, thm1) in
  (fun sb k => if (k =? sblock)%nat then fst z sb else en sb k,
   fun sb k => if (k =? sblock)%nat then snd z sb else thm sb k).

(** First loop of a window: [vbrpsy_skip_masking_s] for the channels
    coded long, [vbrpsy_compute_masking_s] for the others;
    [fftenergy_s chn sblock] is the spectrum [vbrpsy_compute_fft_s]
    delivered. *)
Definition short_mask_channel (c : vbr_config) (sblock : nat)
  (fftenergy_s : nat -> nat -> nat -> R) (s : vbr_short_state) (chn : nat)
  : vbr_short_state :=
  if lc_uselongblock (vc_long c) (chn mod 2)%nat then
    {| sh_eb := sh_eb s; sh_thr := sh_thr s; sh_nb_s1 := sh_nb_s1 s;
       sh_nb_s2 := upd (sh_nb_s2 s) chn
                     (vbrpsy_skip_masking_s (vc_s c) sblock
                        (sh_nb_s1 s chn) (sh_nb_s2 s chn));
       sh_en := sh_en s; sh_thm := sh_thm s |}
  else
    let r := vbrpsy_compute_masking_s (vc_s c)
               (lc_qnt_masking_lower (vc_long c)) (fftenergy_s chn sblock)
               (sh_eb s chn) (sh_thr s chn) (sh_nb_s1 s chn) (sh_nb_s2 s chn) in
    {| sh_eb := upd (sh_eb s) chn (sm_eb r);
       sh_thr := upd (sh_thr s) chn (sm_thr r);
       sh_nb_s1 := upd (sh_nb_s1 s) chn (sm_nb_s1 r);
       sh_nb_s2 := upd (sh_nb_s2 s) chn (sm_nb_s2 r);
       sh_en := sh_en s; sh_thm := sh_thm s |}.

(** Second step: the M/S thresholds when both channels are short
    ([uselongblock[0] + uselongblock[1] == 0]). *)
Definition short_ms (c : vbr_config) (s : vbr_short_state) : vbr_short_state :=
  if negb (lc_uselongblock (vc_long c) 0%nat)
     && negb (lc_uselongblock (vc_long c) 1%nat) then
    if lc_joint_stereo (vc_long c) then
      {| sh_eb := sh_eb s;
         sh_thr := vbrpsy_compute_MS_thresholds (sh_eb s) (sh_thr s)
                     (mld_cb (vc_s c)) (vc_ath_cb_s c)
                     (lc_ath_factor (vc_long c)) (lc_msfix (vc_long c))
                     (npart (vc_s c));
         sh_nb_s1 := sh_nb_s1 s; sh_nb_s2 := sh_nb_s2 s;
         sh_en := sh_en s; sh_thm := sh_thm s |}
    else s
  else s.

(** Third loop: the conversion to scalefactor bands of every short
    channel. *)
Definition short_convert_channel (c : vbr_config) (sblock : nat)
  (s : vbr_short_state) (chn : nat) : vbr_short_state :=
  if negb (lc_uselongblock (vc_long c) (chn mod 2)%nat) then
    let r := convert_partition2scalefac_s (vc_s c) (sh_eb s chn) (sh_thr s chn)
               sblock (sh_en s chn) (sh_thm s chn) in
    {| sh_eb := sh_eb s; sh_thr := sh_thr s;
       sh_nb_s1 := sh_nb_s1 s; sh_nb_s2 := sh_nb_s2 s;
       sh_en := upd (sh_en s) chn (fst r);
       sh_thm := upd (sh_thm s) chn (snd r) |}
  else s.

(** One turn of [for (sblock = 0; sblock < 3; sblock++)]. *)
Definition short_window (c : vbr_config) (fftenergy_s : nat -> nat -> nat -> R)
  (s : vbr_short_state) (sblock : nat) : vbr_short_state :=
  let n := n_chn_psy (vc_long c) in
  let s1 := for_loop (short_mask_channel c sblock fftenergy_s) 0 n s in
  let s2 := short_ms c s1 in
  for_loop (short_convert_channel c sblock) 0 n s2.

(** "short block pre-echo control": the new [thmm] of window [sblock] in
    one band; [thm_sb] is [psv->thm[chn].s[sb]] as the band finds it,
    [ns_attacks] the row [ns_attacks[chn]], [last_attack] is
    [psv->last_attacks[chn]] and [factor] the row
    [sub_short_factor[chn]]. *)
Definition short_preecho_thmm (ns_attacks : nat -> Z) (last_attack : Z)
  (factor : nat -> R) (thm_sb : nat -> R) (sblock : nat) : R :=
  let thmm := thm_sb sblock * NS_PREECHO_ATT0 in
  let thmm :=
    if (ns_attacks sblock >=? 2)%Z || (ns_attacks (sblock + 1)%nat =? 1)%Z then
      let idx := if negb (sblock =? 0)%nat then (sblock - 1)%nat else 2%nat in
      let p := NS_INTERP (thm_sb idx) thmm (NS_PREECHO_ATT1 * pcfact) in
      Min thmm p
    else if (ns_attacks sblock =? 1)%Z then
      let idx := if negb (sblock =? 0)%nat then (sblock - 1)%nat else 2%nat in
      let p := NS_INTERP (thm_sb idx) thmm (NS_PREECHO_ATT2 * pcfact) in
      Min thmm p
    else if (negb (sblock =? 0)%nat && (ns_attacks (sblock - 1)%nat =? 3)%Z)
            || ((sblock =? 0)%nat && (last_attack =? 3)%Z) then
      let idx := if negb (sblock =? 2)%nat then (sblock + 1)%nat else 0%nat in
      let p := NS_INTERP (thm_sb idx) thmm (NS_PREECHO_ATT2 * pcfact) in
      Min thmm p
    else thmm in
  (* pulse like signal detection for fatboy.wav and so on *)
  thmm * factor sblock.

(** One band: the three [new_thmm] are formed from the thresholds as
    they stand, then stored. *)
Definition short_preecho_band (ns_attacks : nat -> Z) (last_attack : Z)
  (factor : nat -> R) (thm : nat -> nat -> R) (sb : nat) : nat -> nat -> R :=
  let new_thmm := short_preecho_thmm ns_attacks last_attack factor (thm sb) in
  for_loop (fun t sblock => upd t sb (upd (t sb) sblock (new_thmm sblock)))
    0 3 thm.

Definition short_preecho_channel (c : vbr_config) (a : attack_facts)
  (s : vbr_short_state) (chn : nat) : vbr_short_state :=
  if lc_uselongblock (vc_long c) (chn mod 2)%nat then s
  else
    {| sh_eb := sh_eb s; sh_thr := sh_thr s;
       sh_nb_s1 := sh_nb_s1 s; sh_nb_s2 := sh_nb_s2 s;
       sh_en := sh_en s;
       sh_thm := upd (sh_thm s) chn
                   (for_loop
                      (short_preecho_band (af_ns_attacks a chn)
                         (af_last_attacks a chn)
                         (sub_short_factor (af_en_subshort a chn)))
                      0 SBMAX_s (sh_thm s chn)) |}.

(** The "SHORT BLOCKS CASE" of L3psycho_anal_vbr: the three windows,
    then the pre-echo control. *)
Definition vbr_short_block_case (c : vbr_config)
  (fftenergy_s : nat -> nat -> nat -> R) (a : attack_facts) (s : vbr_short_state)
  : vbr_short_state :=
  let s1 := for_loop (short_window c fftenergy_s) 0 3 s in
  for_loop (short_preecho_channel c a) 0 (n_chn_psy (vc_long c)) s1.

(** Both cases in the order of L3psycho_anal_vbr.  The locals [eb] and
    [thr] are the same arrays in both: the short case finds them as the
    long case leaves them. *)
Definition vbr_block_cases (c : vbr_config) (fftenergy : nat -> nat -> R)
  (fftenergy_s : nat -> nat -> nat -> R) (a : attack_facts)
  (lg : long_state) (sh : vbr_short_state) : long_state * vbr_short_state :=
  let lg1 := vbr_long_block_case FAST_LOG10_X rpelev rpelev2 NS_PREECHO_ATT2
               CBANDS SBMAX_l (vc_long c) fftenergy lg in
  let sh1 := vbr_short_block_case c fftenergy_s a
               {| sh_eb := ls_eb lg1; sh_thr := ls_thr lg1;
                  sh_nb_s1 := sh_nb_s1 sh; sh_nb_s2 := sh_nb_s2 sh;
                  sh_en := sh_en sh; sh_thm := sh_thm sh |} in
  (lg1, sh1).

End Analyser.

(** *** The pre-echo control of the short blocks only lowers *)

Lemma c_pow_nonneg (x r : R) : 0 <= c_pow x r.
Proof.
  unfold c_pow. destruct (Rle_dec x 0); [lra|].
  unfold Rpower. left. apply exp_pos.
Qed.

Lemma NS_INTERP_nonneg (x y r : R) : 0 <= x -> 0 <= y -> 0 <= NS_INTERP x y r.
Proof.
  intros Hx Hy. unfold NS_INTERP.
  destruct (Rge_dec r 1.0); [exact Hx|].
  destruct (Rle_dec r 0.0); [exact Hy|].
  destruct (Rgt_dec y 0.0); [|lra].
  apply Rmult_le_pos; [apply c_pow_nonneg | exact Hy].
Qed.

Lemma Min_le_l (a b : R) : Min a b <= a.
Proof. unfold Min. destruct (Rlt_dec a b); lra. Qed.

(** The pulse detector gives 1, 1/2 or 1/4. *)
Lemma sub_short_factor_range (en_subshort : nat -> R) (i : nat) :
  0 <= sub_short_factor en_subshort i <= 1.
Proof.
  unfold sub_short_factor.
  destruct (Rlt_dec _ _); [destruct (Rlt_dec _ _)|]; lra.
Qed.

Section PreEcho.

Variables NS_PREECHO_ATT0 NS_PREECHO_ATT1 NS_PREECHO_ATT2 : R.
Hypothesis NS_PREECHO_ATT0_range : 0 <= NS_PREECHO_ATT0 <= 1.

Local Abbreviation preecho_thmm :=
  (short_preecho_thmm NS_PREECHO_ATT0 NS_PREECHO_ATT1 NS_PREECHO_ATT2).
Local Abbreviation preecho_band :=
  (short_preecho_band NS_PREECHO_ATT0 NS_PREECHO_ATT1 NS_PREECHO_ATT2).

Lemma short_preecho_thmm_lowers (ns_attacks : nat -> Z) (last_attack : Z)
  (factor thm_sb : nat -> R) (sblock : nat) :
  (sblock < 3)%nat ->
  (forall k, (k < 3)%nat -> 0 <= thm_sb k) ->
  0 <= factor sblock <= 1 ->
  0 <= preecho_thmm ns_attacks last_attack factor thm_sb sblock <= thm_sb sblock.
Proof.
  intros Hs Hthm Hf. unfold short_preecho_thmm.
  pose proof (Hthm sblock Hs) as H0.
  set (thmm := thm_sb sblock * NS_PREECHO_ATT0).
  assert (Ht : 0 <= thmm <= thm_sb sblock) by (unfold thmm; nra).
  assert (Hidx1 : ((if negb (sblock =? 0)%nat then (sblock - 1)%nat else 2%nat) < 3)%nat)
    by (destruct (sblock =? 0)%nat; cbn [negb]; lia).
  assert (Hidx2 : ((if negb (sblock =? 2)%nat then (sblock + 1)%nat else 0%nat) < 3)%nat).
  { destruct (Nat.eqb_spec sblock 2); cbn [negb]; lia. }
  assert (Hmin : forall idx r, (idx < 3)%nat ->
            0 <= Min thmm (NS_INTERP (thm_sb idx) thmm r) <= thm_sb sblock).
  { intros idx r Hidx. split.
    - apply Min_nonneg; [lra|]. apply NS_INTERP_nonneg; [now apply Hthm | lra].
    - pose proof (Min_le_l thmm (NS_INTERP (thm_sb idx) thmm r)). lra. }
  match goal with
  | |- 0 <= ?t * factor sblock <= _ =>
      assert (Hin : 0 <= t <= thm_sb sblock)
  end.
  { destruct ((ns_attacks sblock >=? 2)%Z || (ns_attacks (sblock + 1)%nat =? 1)%Z);
      [now apply Hmin|].
    destruct (ns_attacks sblock =? 1)%Z; [now apply Hmin|].
    destruct (negb (sblock =? 0)%nat && (ns_attacks (sblock - 1)%nat =? 3)%Z
              || (sblock =? 0)%nat && (last_attack =? 3)%Z);
      [now apply Hmin | exact Ht]. }
  nra.
Qed.

Lemma short_preecho_thmm_ext (ns_attacks : nat -> Z) (last_attack : Z)
  (factor f g : nat -> R) (sblock : nat) :
  (forall k, f k = g k) ->
  preecho_thmm ns_attacks last_attack factor f sblock
  = preecho_thmm ns_attacks last_attack factor g sblock.
Proof. intro H. unfold short_preecho_thmm. rewrite !H. reflexivity. Qed.

(** What a band of the pre-echo control stores. *)
Lemma short_preecho_band_stores (ns_attacks : nat -> Z) (last_attack : Z)
  (factor : nat -> R) (thm : nat -> nat -> R) (sb sb' k : nat) :
  preecho_band ns_attacks last_attack factor thm sb sb' k
  = if (sb' =? sb)%nat && (k <? 3)%nat
    then preecho_thmm ns_attacks last_attack factor (thm sb) k
    else thm sb' k.
Proof.
  unfold short_preecho_band. cbn [for_loop]. unfold upd.
  destruct (Nat.eqb_spec sb' sb) as [->|]; cbn [andb]; [|reflexivity].
  rewrite !Nat.eqb_refl.
  destruct k as [|[|[|k]]]; reflexivity.
Qed.

Lemma short_preecho_bands_store (ns_attacks : nat -> Z) (last_attack : Z)
  (factor : nat -> R) (thm : nat -> nat -> R) (n : nat) :
  forall sb k,
    for_loop (preecho_band ns_attacks last_attack factor) 0 n thm sb k
    = if (sb <? n)%nat && (k <? 3)%nat
      then preecho_thmm ns_attacks last_attack factor (thm sb) k
      else thm sb k.
Proof.
  refine (for_loop_ind
    (fun j t => forall sb k,
       t sb k = if (sb <? j)%nat && (k <? 3)%nat
                then preecho_thmm ns_attacks last_attack factor (thm sb) k
                else thm sb k)
    (preecho_band ns_attacks last_attack factor) n 0 thm _ _).
  - intros sb k. reflexivity.
  - intros i t _ IH sb k. rewrite short_preecho_band_stores.
    assert (Ei : forall k', t i k' = thm i k').
    { intro k'. rewrite IH, Nat.ltb_irrefl. reflexivity. }
    destruct (Nat.eqb_spec sb i) as [->|Hne]; cbn [andb].
    + rewrite (short_preecho_thmm_ext _ _ _ _ _ _ Ei), Ei.
      destruct (Nat.ltb_spec i (S i)); [reflexivity | lia].
    + rewrite IH.
      destruct (Nat.ltb_spec sb i), (Nat.ltb_spec sb (S i)); try reflexivity; lia.
Qed.

End PreEcho.

(** *** The clamp of vbrpsy_compute_masking_s *)

Section ShortMaskingClamp.

Variable FAST_LOG10_X : R -> R -> R.
Variable CBANDS : nat.

(** After the loop over the partitions every threshold written so far is
    clamped by its partition energy. *)
Lemma vbr_band_s_loop_clamped (gds : PsyConst_l) (qml : R)
  (eb mx : nat -> R) (idx : nat -> Z) (st0 : short_band_state) :
  (forall k, 0 <= s3 gds k) ->
  (forall b, 0 <= minval gds b) ->
  (forall b, 0 <= masking_lower gds b * qml) ->
  (forall b, (b < npart gds)%nat -> (s3ind0 gds b < npart gds)%nat) ->
  (forall b, (b < npart gds)%nat -> 0 <= eb b /\ 0 <= mx b) ->
  forall b, (b < npart gds)%nat ->
    clamped
      (sb_thr (for_loop (vbr_band_s FAST_LOG10_X gds qml eb mx idx) 0
                 (npart gds) st0) b)
      (eb b).
Proof.
  intros Hs3 Hmin Hml Hind Heb.
  refine (for_loop_ind
    (fun j st => forall b, (b < j)%nat -> clamped (sb_thr st b) (eb b))
    _ (npart gds) 0 st0 _ _).
  - intros b Hb. lia.
  - intros i st Hi IH b Hb. unfold vbr_band_s.
    pose proof (vbr_spread_nonneg FAST_LOG10_X gds eb idx (sb_j st) i (Hs3 _)
                  (proj1 (Heb _ (Hind i (proj2 Hi))))) as [He Ha].
    destruct (vbr_spread FAST_LOG10_X gds eb idx (sb_j st) i) as [ecb avg_mask].
    cbn [fst snd sb_thr] in *. unfold upd.
    destruct (Nat.eqb_spec b i) as [->|Hne].
    + destruct (Heb i (proj2 Hi)) as [Hebi Hmxi].
      apply vbr_limit_clamped; auto.
    + apply IH. lia.
Qed.

(** The partition thresholds of one channel and window after
    vbrpsy_compute_masking_s. *)
Lemma vbrpsy_compute_masking_s_clamped (gds : PsyConst_l) (qml : R)
  (fftenergy_s eb thr nbs1 nbs2 : nat -> R) :
  (forall j, 0 <= fftenergy_s j) ->
  (forall k, 0 <= s3 gds k) ->
  (forall b, 0 <= minval gds b) ->
  (forall b, 0 <= masking_lower gds b * qml) ->
  (forall b, (b < npart gds)%nat -> (s3ind0 gds b < npart gds)%nat) ->
  let r := vbrpsy_compute_masking_s FAST_LOG10_X CBANDS gds qml fftenergy_s
             eb thr nbs1 nbs2 in
  forall b, (b < npart gds)%nat -> clamped (sm_thr r b) (sm_eb r b).
Proof.
  intros Hf Hs3 Hmin Hml Hind r b Hb. unfold r, vbrpsy_compute_masking_s.
  cbn [sm_thr sm_eb].
  match goal with
  | |- context [for_loop zero_partition ?lo ?n ?t] =>
      destruct (zero_partition_below n lo t b Hb) as [E1 E2]
  end.
  rewrite E1, E2. cbn [fst snd].
  apply vbr_band_s_loop_clamped; auto.
  intros b' Hb'.
  exact (calc_energy_nonneg gds fftenergy_s eb (fun _ => 0) (fun _ => 0) Hf b' Hb').
Qed.

End ShortMaskingClamp.

(** *** The conversion of one window *)

Lemma convert_partition2scalefac_s_column (SBMAX_s : nat) (gds : PsyConst_l)
  (eb thr : nat -> R) (sblock : nat) (en thm : nat -> nat -> R) :
  let z := convert_partition2scalefac_l SBMAX_s gds eb thr
             (fun sb => en sb sblock) (fun sb => thm sb sblock) in
  convert_partition2scalefac_s SBMAX_s gds eb thr sblock en thm
  = (fun sb k => if (k =? sblock)%nat then fst z sb else en sb k,
     fun sb k => if (k =? sblock)%nat then snd z sb else thm sb k).
Proof.
  unfold convert_partition2scalefac_s, convert_partition2scalefac_l.
  destruct (convert_bands gds eb thr SBMAX_s 0 0 0.0 0.0 _ _) as [[sb en1] thm1].
  reflexivity.
Qed.

(** The column written inherits the clamp of the partitions; the other
    columns are not touched. *)
Lemma convert_partition2scalefac_s_clamped (SBMAX_s : nat) (gds : PsyConst_l)
  (eb thr : nat -> R) (sblock : nat) (en thm : nat -> nat -> R) :
  (forall b, (b < npart gds)%nat -> clamped (thr b) (eb b)) ->
  (forall sb, 0 <= bo_weight gds sb <= 1) ->
  let r := convert_partition2scalefac_s SBMAX_s gds eb thr sblock en thm in
  (forall sb, (sb < SBMAX_s)%nat -> clamped (snd r sb sblock) (fst r sb sblock)) /\
  (forall sb k, k <> sblock -> fst r sb k = en sb k /\ snd r sb k = thm sb k).
Proof.
  intros Hp Hw r. unfold r. rewrite convert_partition2scalefac_s_column.
  cbn [fst snd]. split.
  - intros sb Hsb. rewrite Nat.eqb_refl.
    now apply convert_partition2scalefac_l_clamped.
  - intros sb k Hk. apply Nat.eqb_neq in Hk. rewrite Hk. split; reflexivity.
Qed.

(** *** Both cases of L3psycho_anal_vbr *)

Section VbrClamp.

Variable FAST_LOG10_X : R -> R -> R.
Variables rpelev rpelev2 : R.
Variables NS_PREECHO_ATT0 NS_PREECHO_ATT1 NS_PREECHO_ATT2 : R.
Variables CBANDS SBMAX_l SBMAX_s : nat.

Local Abbreviation mask_channel := (short_mask_channel FAST_LOG10_X CBANDS).
Local Abbreviation convert_channel := (short_convert_channel SBMAX_s).
Local Abbreviation window := (short_window FAST_LOG10_X CBANDS SBMAX_s).
Local Abbreviation preecho_channel :=
  (short_preecho_channel NS_PREECHO_ATT0 NS_PREECHO_ATT1 NS_PREECHO_ATT2 SBMAX_s).
Local Abbreviation short_case :=
  (vbr_short_block_case FAST_LOG10_X NS_PREECHO_ATT0 NS_PREECHO_ATT1
     NS_PREECHO_ATT2 CBANDS SBMAX_s).
Local Abbreviation long_case :=
  (vbr_long_block_case FAST_LOG10_X rpelev rpelev2 NS_PREECHO_ATT2 CBANDS SBMAX_l).
Local Abbreviation block_cases :=
  (vbr_block_cases FAST_LOG10_X rpelev rpelev2 NS_PREECHO_ATT0 NS_PREECHO_ATT1
     NS_PREECHO_ATT2 CBANDS SBMAX_l SBMAX_s).

Variable c : vbr_config.
Variable fftenergy : nat -> nat -> R.
Variable fftenergy_s : nat -> nat -> nat -> R.
Variable a : attack_facts.

Local Abbreviation n_chn := (n_chn_psy (vc_long c)).
Local Abbreviation uselongblock := (lc_uselongblock (vc_long c)).

(** The pre-echo constants of the headers. *)
Hypothesis NS_PREECHO_ATT0_range : 0 <= NS_PREECHO_ATT0 <= 1.
Hypothesis NS_PREECHO_ATT2_nonneg : 0 <= NS_PREECHO_ATT2.

(** The spectra are energies. *)
Hypothesis fftenergy_nonneg : forall chn j, 0 <= fftenergy chn j.
Hypothesis fftenergy_s_nonneg : forall chn sblock j, 0 <= fftenergy_s chn sblock j.

(** The long tables, as psymodel_init builds them. *)
Hypothesis s3_l_nonneg : forall k, 0 <= s3 (lc_l (vc_long c)) k.
Hypothesis minval_l_nonneg : forall b, 0 <= minval (lc_l (vc_long c)) b.
Hypothesis masking_lower_l_nonneg :
  forall b, 0 <= masking_lower (lc_l (vc_long c)) b
                 * lc_qnt_masking_lower (vc_long c).
Hypothesis s3ind0_l_in_range :
  forall b, (b < npart (lc_l (vc_long c)))%nat ->
    (s3ind0 (lc_l (vc_long c)) b < npart (lc_l (vc_long c)))%nat.
Hypothesis bo_weight_l_range : forall sb, 0 <= bo_weight (lc_l (vc_long c)) sb <= 1.

(** The short tables. *)
Hypothesis s3_s_nonneg : forall k, 0 <= s3 (vc_s c) k.
Hypothesis minval_s_nonneg : forall b, 0 <= minval (vc_s c) b.
Hypothesis masking_lower_s_nonneg :
  forall b, 0 <= masking_lower (vc_s c) b * lc_qnt_masking_lower (vc_long c).
Hypothesis s3ind0_s_in_range :
  forall b, (b < npart (vc_s c))%nat -> (s3ind0 (vc_s c) b < npart (vc_s c))%nat.
Hypothesis bo_weight_s_range : forall sb, 0 <= bo_weight (vc_s c) sb <= 1.

(** The partitions of the channels coded short, below [chn = n]. *)
Definition short_partitions_clamped (n : nat) (s : vbr_short_state) : Prop :=
  forall chn b, (chn < n)%nat -> uselongblock (chn mod 2)%nat = false ->
    (b < npart (vc_s c))%nat -> clamped (sh_thr s chn b) (sh_eb s chn b).

Lemma short_mask_loop_clamped (sblock : nat) (s : vbr_short_state) (n : nat) :
  let s' := for_loop (mask_channel c sblock fftenergy_s) 0 n s in
  short_partitions_clamped n s' /\ sh_en s' = sh_en s /\ sh_thm s' = sh_thm s.
Proof.
  refine (for_loop_ind
    (fun j s' => short_partitions_clamped j s' /\
                 sh_en s' = sh_en s /\ sh_thm s' = sh_thm s)
    (mask_channel c sblock fftenergy_s) n 0 s _ _).
  - split; [|split; reflexivity]. intros chn b Hc. lia.
  - intros i st _ (IH & Een & Ethm). unfold short_mask_channel.
    destruct (uselongblock (i mod 2)%nat) eqn:Eu.
    + cbn [sh_en sh_thm]. split; [|split; assumption].
      intros chn b Hc Hu Hb. cbn [sh_thr sh_eb].
      destruct (Nat.eq_dec chn i) as [->|Hne]; [congruence|].
      apply IH; [lia | exact Hu | exact Hb].
    + cbn [sh_en sh_thm]. split; [|split; assumption].
      intros chn b Hc Hu Hb. cbn [sh_thr sh_eb]. unfold upd.
      destruct (Nat.eqb_spec chn i) as [->|Hne].
      * apply vbrpsy_compute_masking_s_clamped; auto.
      * apply IH; [lia | exact Hu | exact Hb].
Qed.

Lemma short_ms_clamped (s : vbr_short_state) :
  short_partitions_clamped n_chn s ->
  short_partitions_clamped n_chn (short_ms c s) /\
  sh_en (short_ms c s) = sh_en s /\ sh_thm (short_ms c s) = sh_thm s.
Proof.
  intro H. unfold short_ms.
  destruct (uselongblock 0%nat) eqn:E0; cbn [negb andb];
    [split; [exact H | split; reflexivity]|].
  destruct (uselongblock 1%nat) eqn:E1; cbn [negb];
    [split; [exact H | split; reflexivity]|].
  destruct (lc_joint_stereo (vc_long c)) eqn:Ej;
    [|split; [exact H | split; reflexivity]].
  cbn [sh_en sh_thm]. split; [|split; reflexivity].
  unfold short_partitions_clamped, n_chn_psy in *. rewrite Ej in *.
  intros chn b Hc Hu Hb. cbn [sh_thr sh_eb].
  apply vbrpsy_compute_MS_thresholds_clamped; auto.
  intros chn' b' Hc' Hb'. apply H; [exact Hc' | | exact Hb'].
  pose proof (Nat.mod_upper_bound chn' 2 ltac:(lia)) as Hm.
  destruct (chn' mod 2)%nat as [|[|m]]; [exact E0 | exact E1 | lia].
Qed.

(** The entries of the short tables that a window or the whole short
    case leaves alone: those of the channels coded long or beyond the
    last channel, and, for a single window, the other columns. *)
Definition short_tables_kept (s s' : vbr_short_state) (chn sb k : nat) : Prop :=
  sh_thm s' chn sb k = sh_thm s chn sb k /\ sh_en s' chn sb k = sh_en s chn sb k.

Lemma short_convert_loop_clamped (sblock : nat) (s : vbr_short_state) (n : nat) :
  short_partitions_clamped n s ->
  let s' := for_loop (convert_channel c sblock) 0 n s in
  (forall chn sb, (chn < n)%nat -> uselongblock (chn mod 2)%nat = false ->
     (sb < SBMAX_s)%nat ->
     clamped (sh_thm s' chn sb sblock) (sh_en s' chn sb sblock)) /\
  (forall chn sb k,
     uselongblock (chn mod 2)%nat = true \/ k <> sblock \/ (n <= chn)%nat ->
     short_tables_kept s s' chn sb k).
Proof.
  intro H.
  assert (Inv : let s' := for_loop (convert_channel c sblock) 0 n s in
    sh_eb s' = sh_eb s /\ sh_thr s' = sh_thr s /\
    (forall chn sb, (chn < n)%nat -> uselongblock (chn mod 2)%nat = false ->
       (sb < SBMAX_s)%nat ->
       clamped (sh_thm s' chn sb sblock) (sh_en s' chn sb sblock)) /\
    (forall chn sb k,
       uselongblock (chn mod 2)%nat = true \/ k <> sblock \/ (n <= chn)%nat ->
       short_tables_kept s s' chn sb k)).
  { refine (for_loop_ind
      (fun j s' => sh_eb s' = sh_eb s /\ sh_thr s' = sh_thr s /\
         (forall chn sb, (chn < j)%nat -> uselongblock (chn mod 2)%nat = false ->
            (sb < SBMAX_s)%nat ->
            clamped (sh_thm s' chn sb sblock) (sh_en s' chn sb sblock)) /\
         (forall chn sb k,
            uselongblock (chn mod 2)%nat = true \/ k <> sblock \/ (j <= chn)%nat ->
            short_tables_kept s s' chn sb k))
      (convert_channel c sblock) n 0 s _ _).
    - split; [reflexivity | split; [reflexivity|]]. split.
      + intros chn sb Hc. lia.
      + intros chn sb k _. split; reflexivity.
    - intros i r Hi (Eeb & Ethr & IH & Hkeep). unfold short_convert_channel.
      destruct (uselongblock (i mod 2)%nat) eqn:Eu; cbn [negb].
      + split; [exact Eeb | split; [exact Ethr|]]. split.
        * intros chn sb Hc Hu Hsb.
          destruct (Nat.eq_dec chn i) as [->|Hne]; [congruence|].
          apply IH; [lia | exact Hu | exact Hsb].
        * intros chn sb k Hk. apply Hkeep.
          destruct Hk as [Hk|[Hk|Hk]]; [now left | now right; left|].
          right; right. lia.
      + cbn [sh_eb sh_thr sh_thm sh_en].
        split; [exact Eeb | split; [exact Ethr|]].
        pose proof (convert_partition2scalefac_s_clamped SBMAX_s (vc_s c)
                      (sh_eb r i) (sh_thr r i) sblock (sh_en r i) (sh_thm r i))
          as Hconv.
        cbv zeta in Hconv. destruct Hconv as [Hcol Hother].
        { intros b Hb. rewrite Eeb, Ethr. apply H; [lia | exact Eu | exact Hb]. }
        { exact bo_weight_s_range. }
        split.
        * intros chn sb Hc Hu Hsb. unfold upd.
          destruct (Nat.eqb_spec chn i) as [->|Hne].
          -- now apply Hcol.
          -- apply IH; [lia | exact Hu | exact Hsb].
        * intros chn sb k Hk. unfold short_tables_kept. cbn [sh_thm sh_en].
          unfold upd. destruct (Nat.eqb_spec chn i) as [->|Hne].
          -- destruct Hk as [Hk|[Hk|Hk]]; [congruence | | lia].
             destruct (Hother sb k Hk) as [-> ->].
             apply Hkeep. right; right. lia.
          -- apply Hkeep. destruct Hk as [Hk|[Hk|Hk]];
               [now left | now right; left | right; right; lia]. }
  exact (proj2 (proj2 Inv)).
Qed.

(** One window: the column [sblock] of every channel coded short is
    clamped, and nothing else is written. *)
Lemma short_window_clamped (s : vbr_short_state) (sblock : nat) :
  let s' := window c fftenergy_s s sblock in
  (forall chn sb, (chn < n_chn)%nat -> uselongblock (chn mod 2)%nat = false ->
     (sb < SBMAX_s)%nat ->
     clamped (sh_thm s' chn sb sblock) (sh_en s' chn sb sblock)) /\
  (forall chn sb k,
     uselongblock (chn mod 2)%nat = true \/ k <> sblock \/ (n_chn <= chn)%nat ->
     short_tables_kept s s' chn sb k).
Proof.
  unfold short_window. cbv zeta.
  destruct (short_mask_loop_clamped sblock s n_chn) as (H1 & Een1 & Ethm1).
  set (s1 := for_loop (mask_channel c sblock fftenergy_s) 0 n_chn s) in *.
  destruct (short_ms_clamped s1 H1) as (H2 & Een2 & Ethm2).
  destruct (short_convert_loop_clamped sblock (short_ms c s1) n_chn H2)
    as [Hcol Hkeep].
  split; [exact Hcol|].
  intros chn sb k Hk. destruct (Hkeep chn sb k Hk) as [K1 K2].
  unfold short_tables_kept. rewrite K1, K2, Een2, Ethm2, Een1, Ethm1.
  split; reflexivity.
Qed.

Lemma short_windows_clamped (s : vbr_short_state) :
  let s' := for_loop (window c fftenergy_s) 0 3 s in
  (forall chn sb k, (chn < n_chn)%nat -> uselongblock (chn mod 2)%nat = false ->
     (sb < SBMAX_s)%nat -> (k < 3)%nat ->
     clamped (sh_thm s' chn sb k) (sh_en s' chn sb k)) /\
  (forall chn sb k,
     uselongblock (chn mod 2)%nat = true \/ (n_chn <= chn)%nat ->
     short_tables_kept s s' chn sb k).
Proof.
  refine (for_loop_ind
    (fun j s' =>
       (forall chn sb k, (chn < n_chn)%nat ->
          uselongblock (chn mod 2)%nat = false ->
          (sb < SBMAX_s)%nat -> (k < j)%nat ->
          clamped (sh_thm s' chn sb k) (sh_en s' chn sb k)) /\
       (forall chn sb k,
          uselongblock (chn mod 2)%nat = true \/ (n_chn <= chn)%nat ->
          short_tables_kept s s' chn sb k))
    (window c fftenergy_s) 3 0 s _ _).
  - split.
    + intros chn sb k _ _ _ Hk. lia.
    + intros chn sb k _. split; reflexivity.
  - intros i r _ [IH Hkeep].
    destruct (short_window_clamped r i) as [Hcol Hframe].
    split.
    + intros chn sb k Hc Hu Hsb Hk.
      destruct (Nat.eq_dec k i) as [->|Hne]; [now apply Hcol|].
      destruct (Hframe chn sb k ltac:(right; left; exact Hne)) as [-> ->].
      apply IH; try assumption. lia.
    + intros chn sb k Hk.
      destruct (Hframe chn sb k
                  ltac:(destruct Hk; [now left | now right; right]))
        as [K1 K2].
      destruct (Hkeep chn sb k Hk) as [K3 K4].
      unfold short_tables_kept. rewrite K1, K2. split; assumption.
Qed.

(** The pre-echo control rewrites the thresholds of the channels coded
    short, band by band, and nothing else. *)
Lemma short_preecho_loop_stores (s : vbr_short_state) (n : nat) :
  let s' := for_loop (preecho_channel c a) 0 n s in
  sh_en s' = sh_en s /\
  forall chn,
    sh_thm s' chn
    = if (chn <? n)%nat && negb (uselongblock (chn mod 2)%nat)
      then for_loop
             (short_preecho_band NS_PREECHO_ATT0 NS_PREECHO_ATT1 NS_PREECHO_ATT2
                (af_ns_attacks a chn) (af_last_attacks a chn)
                (sub_short_factor (af_en_subshort a chn)))
             0 SBMAX_s (sh_thm s chn)
      else sh_thm s chn.
Proof.
  refine (for_loop_ind
    (fun j s' =>
       sh_en s' = sh_en s /\
       forall chn,
         sh_thm s' chn
         = if (chn <? j)%nat && negb (uselongblock (chn mod 2)%nat)
           then for_loop
                  (short_preecho_band NS_PREECHO_ATT0 NS_PREECHO_ATT1
                     NS_PREECHO_ATT2
                     (af_ns_attacks a chn) (af_last_attacks a chn)
                     (sub_short_factor (af_en_subshort a chn)))
                  0 SBMAX_s (sh_thm s chn)
           else sh_thm s chn)
    (preecho_channel c a) n 0 s _ _).
  - split; [reflexivity|]. intro chn. reflexivity.
  - intros i r _ [Een IH]. unfold short_preecho_channel.
    destruct (uselongblock (i mod 2)%nat) eqn:Eu.
    + split; [exact Een|]. intro chn. rewrite IH.
      destruct (Nat.eq_dec chn i) as [->|Hne].
      * rewrite Eu. cbn [negb]. rewrite !Bool.andb_false_r. reflexivity.
      * destruct (Nat.ltb_spec chn i), (Nat.ltb_spec chn (S i));
          try reflexivity; lia.
    + cbn [sh_en sh_thm]. split; [exact Een|]. intro chn. unfold upd.
      destruct (Nat.eqb_spec chn i) as [->|Hne].
      * rewrite Eu. cbn [negb]. rewrite IH, Nat.ltb_irrefl. cbn [andb].
        destruct (Nat.ltb_spec i (S i)); [reflexivity | lia].
      * rewrite IH.
        destruct (Nat.ltb_spec chn i), (Nat.ltb_spec chn (S i));
          try reflexivity; lia.
Qed.

(** The short case as a whole. *)
Lemma vbr_short_block_case_clamped (s : vbr_short_state) :
  let s' := short_case c fftenergy_s a s in
  (forall chn sb k, (chn < n_chn)%nat -> uselongblock (chn mod 2)%nat = false ->
     (sb < SBMAX_s)%nat -> (k < 3)%nat ->
     clamped (sh_thm s' chn sb k) (sh_en s' chn sb k)) /\
  (forall chn sb k,
     uselongblock (chn mod 2)%nat = true \/ (n_chn <= chn)%nat ->
     short_tables_kept s s' chn sb k).
Proof.
  unfold vbr_short_block_case. cbv zeta.
  destruct (short_windows_clamped s) as [Hfresh Hkeep].
  set (s1 := for_loop (window c fftenergy_s) 0 3 s) in *.
  destruct (short_preecho_loop_stores s1 n_chn) as [Een Ethm].
  set (s2 := for_loop (preecho_channel c a) 0 n_chn s1) in *.
  split.
  - intros chn sb k Hc Hu Hsb Hk. rewrite Een, Ethm, Hu. cbn [negb].
    destruct (Nat.ltb_spec chn n_chn); [|lia]. cbn [andb].
    rewrite short_preecho_bands_store.
    destruct (Nat.ltb_spec sb SBMAX_s); [|lia].
    destruct (Nat.ltb_spec k 3); [|lia]. cbn [andb].
    pose proof (short_preecho_thmm_lowers NS_PREECHO_ATT0 NS_PREECHO_ATT1
                  NS_PREECHO_ATT2 NS_PREECHO_ATT0_range
                  (af_ns_attacks a chn) (af_last_attacks a chn)
                  (sub_short_factor (af_en_subshort a chn))
                  (sh_thm s1 chn sb) k Hk) as Hlow.
    pose proof (Hfresh chn sb k Hc Hu Hsb Hk) as Hcl.
    destruct Hlow as [L1 L2].
    + intros k' Hk'. apply (Hfresh chn sb k' Hc Hu Hsb Hk').
    + apply sub_short_factor_range.
    + unfold clamped in *. lra.
  - intros chn sb k Hk. destruct (Hkeep chn sb k Hk) as [K1 K2].
    unfold short_tables_kept. rewrite Een, Ethm, K2.
    destruct Hk as [Hk|Hk].
    + rewrite Hk. cbn [negb]. rewrite Bool.andb_false_r. split; [exact K1 | reflexivity].
    + destruct (Nat.ltb_spec chn n_chn); [lia|]. cbn [andb].
      split; [exact K1 | reflexivity].
Qed.

(** The long case leaves the long tables of the channels coded short as
    it finds them. *)
Lemma vbr_long_block_case_keeps (s : long_state) (chn : nat) :
  uselongblock (chn mod 2)%nat = false ->
  ls_thm (long_case (vc_long c) fftenergy s) chn = ls_thm s chn /\
  ls_en (long_case (vc_long c) fftenergy s) chn = ls_en s chn.
Proof.
  intro Hu. unfold vbr_long_block_case.
  set (s1 := for_loop (long_mask_channel FAST_LOG10_X rpelev rpelev2
                         NS_PREECHO_ATT2 CBANDS (vc_long c) fftenergy)
               0 n_chn s).
  assert (E1 : ls_thm s1 = ls_thm s /\ ls_en s1 = ls_en s).
  { unfold s1. split.
    - apply (for_loop_frame _ ls_thm). intros st k. reflexivity.
    - apply (for_loop_frame _ ls_en). intros st k. reflexivity. }
  assert (E2 : ls_thm (long_ms (vc_long c) s1) = ls_thm s1 /\
               ls_en (long_ms (vc_long c) s1) = ls_en s1).
  { unfold long_ms. destruct (_ && _ && _); split; reflexivity. }
  set (s2 := long_ms (vc_long c) s1) in *.
  assert (E3 : ls_thm (for_loop (long_convert_channel SBMAX_l (vc_long c)) 0 n_chn s2) chn
               = ls_thm s2 chn /\
               ls_en (for_loop (long_convert_channel SBMAX_l (vc_long c)) 0 n_chn s2) chn
               = ls_en s2 chn).
  { refine (for_loop_ind
      (fun _ r => ls_thm r chn = ls_thm s2 chn /\ ls_en r chn = ls_en s2 chn)
      (long_convert_channel SBMAX_l (vc_long c)) n_chn 0 s2 _ _).
    - split; reflexivity.
    - intros i r _ [K1 K2]. unfold long_convert_channel.
      destruct (uselongblock (i mod 2)%nat) eqn:Eu; [|split; assumption].
      cbn [ls_thm ls_en].
      assert (chn <> i) by congruence.
      rewrite !upd_other by assumption. split; assumption. }
  destruct E1 as [A1 A2], E2 as [B1 B2], E3 as [C1 C2].
  rewrite C1, C2, B1, B2, A1, A2. split; reflexivity.
Qed.

(** The thresholds stored for the channels below [n_chn_psy], long and
    short, all lie between 0 and the stored energies. *)
Definition stored_clamped (lg : long_state) (sh : vbr_short_state) : Prop :=
  forall chn, (chn < n_chn)%nat ->
    (forall sb, (sb < SBMAX_l)%nat -> clamped (ls_thm lg chn sb) (ls_en lg chn sb)) /\
    (forall sb sblock, (sb < SBMAX_s)%nat -> (sblock < 3)%nat ->
       clamped (sh_thm sh chn sb sblock) (sh_en sh chn sb sblock)).

(** C1 (as amended, vbr analyser): after the long and the short case of
    L3psycho_anal_vbr, pre-echo control included, every threshold the
    call has computed lies between 0 and the energy stored with it: for
    an analysed channel coded with long blocks [thm[chn].l[sb]] against
    [en[chn].l[sb]] in every scalefactor band, for one coded with short
    blocks [thm[chn].s[sb][sblock]] against [en[chn].s[sb][sblock]] in
    every band and window.  The tables of the other block type are not
    written, so the clamp, once it holds of all stored thresholds (as it
    does after psymodel_init), holds of them after every granule.  The
    spectra and the tables of the session are assumed not negative, the
    band weights and [NS_PREECHO_ATT0] within [0, 1]. *)
Theorem vbr_thresholds_clamped (lg : long_state) (sh : vbr_short_state) :
  let r := block_cases c fftenergy fftenergy_s a lg sh in
  (forall chn, (chn < n_chn)%nat ->
     (uselongblock (chn mod 2)%nat = true ->
      forall sb, (sb < SBMAX_l)%nat ->
        clamped (ls_thm (fst r) chn sb) (ls_en (fst r) chn sb)) /\
     (uselongblock (chn mod 2)%nat = false ->
      forall sb sblock, (sb < SBMAX_s)%nat -> (sblock < 3)%nat ->
        clamped (sh_thm (snd r) chn sb sblock) (sh_en (snd r) chn sb sblock))) /\
  (stored_clamped lg sh -> stored_clamped (fst r) (snd r)).
Proof.
  intro r.
  assert (Hlong : forall chn, (chn < n_chn)%nat ->
            uselongblock (chn mod 2)%nat = true ->
            forall sb, (sb < SBMAX_l)%nat ->
              clamped (ls_thm (fst r) chn sb) (ls_en (fst r) chn sb)).
  { intros chn Hc Hu sb Hsb. unfold r, vbr_block_cases. cbn [fst].
    now apply vbr_long_thresholds_clamped. }
  unfold r, vbr_block_cases in *. cbv zeta in *. cbn [fst snd] in *.
  match goal with
  | |- context [short_case c fftenergy_s a ?s0] =>
      destruct (vbr_short_block_case_clamped s0) as [Hshort Hkeep];
      set (sh1 := short_case c fftenergy_s a s0) in *
  end.
  cbn [sh_thm sh_en] in Hkeep.
  split.
  - intros chn Hc. split; [now apply Hlong|].
    intros Hu sb sblock Hsb Hk. now apply Hshort.
  - intros Hin chn Hc. destruct (Hin chn Hc) as [Hl Hs].
    destruct (uselongblock (chn mod 2)%nat) eqn:Eu.
    + split; [now apply Hlong|].
      intros sb sblock Hsb Hk.
      destruct (Hkeep chn sb sblock ltac:(left; exact Eu)) as [K1 K2].
      unfold short_tables_kept in *. cbn [sh_thm sh_en] in K1, K2.
      rewrite K1, K2. now apply Hs.
    + split; [|intros sb sblock Hsb Hk; now apply Hshort].
      intros sb Hsb.
      destruct (vbr_long_block_case_keeps lg chn Eu) as [-> ->]. now apply Hl.
Qed.

End VbrClamp.

(** *** A stereo granule with one channel of either block type *)

(** A stereo session on the tables [two_partitions], long and short: the
    left channel is coded with long blocks, the right one with short
    blocks. *)
Definition stereo_session : vbr_config :=
  {| vc_long :=
       {| lc_l := two_partitions;
          lc_joint_stereo := false;
          lc_channels_out := 2;
          lc_old := fun _ => NORM_TYPE;
          lc_uselongblock := fun ch => (ch =? 0)%nat;
          lc_qnt_masking_lower := 1;
          lc_ath_cb_l := fun _ => 0;
          lc_ath_factor := 1;
          lc_msfix := 0 |};
     vc_s := two_partitions;
     vc_ath_cb_s := fun _ => 0 |}.

(** An attack in the second window of either channel, none in the
    granule before, and a level sub-short energy. *)
Definition attack_in_second_window : attack_facts :=
  {| af_ns_attacks := fun _ k => if (k =? 1)%nat then 2%Z else 0%Z;
     af_last_attacks := fun _ => 0%Z;
     af_en_subshort := fun _ _ => 1 |}.

(** The short part of the psy state as psymodel_init leaves it. *)
Definition fresh_short_state : vbr_short_state :=
  {| sh_eb := fun _ _ => 0; sh_thr := fun _ _ => 0;
     sh_nb_s1 := fun _ _ => 1; sh_nb_s2 := fun _ _ => 1;
     sh_en := fun _ _ _ => 1e20; sh_thm := fun _ _ _ => 1e20 |}.

Lemma vbr_thresholds_clamped_witness :
  let r := vbr_block_cases log10_x 2 16 0.8 0.6 0.3 64 22 13 stereo_session
             (fun _ => loud_then_silent) (fun _ _ => loud_then_silent)
             attack_in_second_window fresh_long_state fresh_short_state in
  (forall chn, (chn < n_chn_psy (vc_long stereo_session))%nat ->
     (lc_uselongblock (vc_long stereo_session) (chn mod 2)%nat = true ->
      forall sb, (sb < 22)%nat ->
        clamped (ls_thm (fst r) chn sb) (ls_en (fst r) chn sb)) /\
     (lc_uselongblock (vc_long stereo_session) (chn mod 2)%nat = false ->
      forall sb sblock, (sb < 13)%nat -> (sblock < 3)%nat ->
        clamped (sh_thm (snd r) chn sb sblock) (sh_en (snd r) chn sb sblock))) /\
  (stored_clamped 22 13 stereo_session fresh_long_state fresh_short_state ->
   stored_clamped 22 13 stereo_session (fst r) (snd r)).
Proof.
  apply (vbr_thresholds_clamped log10_x 2 16 0.8 0.6 0.3 64 22 13
           stereo_session (fun _ => loud_then_silent)
           (fun _ _ => loud_then_silent) attack_in_second_window).
  - lra.
  - lra.
  - intros chn j. unfold loud_then_silent. destruct (j =? 0)%nat; lra.
  - intros chn sblock j. unfold loud_then_silent. destruct (j =? 0)%nat; lra.
  - intros k. simpl. lra.
  - intros b. simpl. lra.
  - intros b. simpl. lra.
  - intros b Hb. simpl. lia.
  - intros sb. simpl. lra.
  - intros k. simpl. lra.
  - intros b. simpl. lra.
  - intros b. simpl. lra.
  - intros b Hb. simpl. lia.
  - intros sb. simpl. lra.
Defined.

End VbrThresholds.

(** * quantize.c: the quantization loops *)

Module Quantize.

Import BlockType.

(** The Huffman side of [gr_info]: the fields the bit counting routines
    fill in. *)
Record huffman_side : Type := {
  big_values : Z;
  count1 : Z;
  scalefac_compress : Z;
  table_select : nat -> Z;
  region0_count : Z;
  region1_count : Z;
  count1table_select : Z;
  count1bits : Z;
  sfb_partition_table : nat -> Z;
  slen : nat -> Z
}.

(** [gr_info]. *)
Record gr_info : Type := {
  part2_3_length : Z;
  global_gain : Z;
  block_type_of : block_type;
  mixed_block_flag : bool;
  subblock_gain : nat -> Z;
  preflag : Z;
  scalefac_scale : Z;
  part2_length : Z;
  sfb_lmax : nat;
  sfb_smin : nat;
  huff : huffman_side
}.

(** [III_scalefac_t]: [l[sfb]] and [s[sfb][window]]. *)
Record III_scalefac_t : Type := {
  sf_l : nat -> Z;
  sf_s : nat -> nat -> Z
}.

Inductive vbr_mode : Type := vbr_off | vbr_mt | vbr_rh | vbr_abr | vbr_mtrh.

Definition vbr_mode_eqb (a b : vbr_mode) : bool :=
  match a, b with
  | vbr_off, vbr_off | vbr_mt, vbr_mt | vbr_rh, vbr_rh
  | vbr_abr, vbr_abr | vbr_mtrh, vbr_mtrh => true
  | _, _ => false
  end.

(** The fields of [lame_internal_flags] (and of [gfc->gfp]) the
    quantization loops read or write. *)
Record lame_internal_flags : Type := {
  CurrentStep : Z;
  OldValue : nat -> Z;
  noise_shaping : Z;
  noise_shaping_stop : Z;
  sfb21_extra : bool;
  nsPsy_use : bool;
  scalefac_band_l : nat -> Z;
  scalefac_band_s : nat -> Z;
  version : Z;
  VBR : vbr_mode;
  experimentalX : Z;
  experimentalY : bool;
  experimentalZ : bool
}.

Definition set_global_gain (c : gr_info) (g : Z) : gr_info :=
  {| part2_3_length := part2_3_length c; global_gain := g;
     block_type_of := block_type_of c; mixed_block_flag := mixed_block_flag c;
     subblock_gain := subblock_gain c; preflag := preflag c;
     scalefac_scale := scalefac_scale c; part2_length := part2_length c;
     sfb_lmax := sfb_lmax c; sfb_smin := sfb_smin c; huff := huff c |}.

Definition set_part2_3_length (c : gr_info) (n : Z) : gr_info :=
  {| part2_3_length := n; global_gain := global_gain c;
     block_type_of := block_type_of c; mixed_block_flag := mixed_block_flag c;
     subblock_gain := subblock_gain c; preflag := preflag c;
     scalefac_scale := scalefac_scale c; part2_length := part2_length c;
     sfb_lmax := sfb_lmax c; sfb_smin := sfb_smin c; huff := huff c |}.

Definition set_subblock_gain (c : gr_info) (g : nat -> Z) : gr_info :=
  {| part2_3_length := part2_3_length c; global_gain := global_gain c;
     block_type_of := block_type_of c; mixed_block_flag := mixed_block_flag c;
     subblock_gain := g; preflag := preflag c;
     scalefac_scale := scalefac_scale c; part2_length := part2_length c;
     sfb_lmax := sfb_lmax c; sfb_smin := sfb_smin c; huff := huff c |}.

Definition set_preflag (c : gr_info) (p : Z) : gr_info :=
  {| part2_3_length := part2_3_length c; global_gain := global_gain c;
     block_type_of := block_type_of c; mixed_block_flag := mixed_block_flag c;
     subblock_gain := subblock_gain c; preflag := p;
     scalefac_scale := scalefac_scale c; part2_length := part2_length c;
     sfb_lmax := sfb_lmax c; sfb_smin := sfb_smin c; huff := huff c |}.

Definition set_scalefac_scale (c : gr_info) (v : Z) : gr_info :=
  {| part2_3_length := part2_3_length c; global_gain := global_gain c;
     block_type_of := block_type_of c; mixed_block_flag := mixed_block_flag c;
     subblock_gain := subblock_gain c; preflag := preflag c;
     scalefac_scale := v; part2_length := part2_length c;
     sfb_lmax := sfb_lmax c; sfb_smin := sfb_smin c; huff := huff c |}.

Definition set_CurrentStep (g : lame_internal_flags) (v : Z) : lame_internal_flags :=
  {| CurrentStep := v; OldValue := OldValue g; noise_shaping := noise_shaping g;
     noise_shaping_stop := noise_shaping_stop g; sfb21_extra := sfb21_extra g;
     nsPsy_use := nsPsy_use g; scalefac_band_l := scalefac_band_l g;
     scalefac_band_s := scalefac_band_s g; version := version g; VBR := VBR g;
     experimentalX := experimentalX g; experimentalY := experimentalY g;
     experimentalZ := experimentalZ g |}.

Definition set_OldValue (g : lame_internal_flags) (v : nat -> Z) : lame_internal_flags :=
  {| CurrentStep := CurrentStep g; OldValue := v; noise_shaping := noise_shaping g;
     noise_shaping_stop := noise_shaping_stop g; sfb21_extra := sfb21_extra g;
     nsPsy_use := nsPsy_use g; scalefac_band_l := scalefac_band_l g;
     scalefac_band_s := scalefac_band_s g; version := version g; VBR := VBR g;
     experimentalX := experimentalX g; experimentalY := experimentalY g;
     experimentalZ := experimentalZ g |}.

(** *** [init_outer_loop] *)

Section Init.

(** [SBPSY_l], [SBPSY_s] of the encoder's header and the table row
    [nr_of_sfb_block[0][0]]. *)
Variables SBPSY_l SBPSY_s : nat.
Variable nr_of_sfb_block_0_0 : nat -> Z.

(** One turn of the loop over the 576 coefficients, on the pair
    [(xrpow, o)]. *)
Definition init_xrpow_step (xr : nat -> R) (st : (nat -> R) * Z) (i : nat)
  : (nat -> R) * Z :=
  let temp := Rabs (xr i) in
  (upd (fst st) i (sqrt (temp * sqrt temp)),
   (snd st + (if Rgt_dec temp 1e-20 then 1 else 0))%Z).

Definition fresh_cod_info (gfc : lame_internal_flags) (cod_info : gr_info) : gr_info :=
  let short := block_type_eqb (block_type_of cod_info) SHORT_TYPE in
  let mixed := mixed_block_flag cod_info in
  {| part2_3_length := 0;
     global_gain := 210;
     block_type_of := block_type_of cod_info;
     mixed_block_flag := mixed;
     subblock_gain := upd (upd (upd (subblock_gain cod_info) 0%nat 0%Z) 1%nat 0%Z) 2%nat 0%Z;
     preflag := 0;
     scalefac_scale := 0;
     part2_length := 0;
     sfb_lmax := if short
                 then (if mixed then (if (version gfc =? 1)%Z then 8%nat else 6%nat)
                       else 0%nat)
                 else SBPSY_l;
     sfb_smin := if short then (if mixed then 3%nat else 0%nat) else SBPSY_s;
     huff :=
       {| big_values := 0; count1 := 0; scalefac_compress := 0;
          table_select :=
            upd (upd (upd (table_select (huff cod_info)) 0%nat 0%Z) 1%nat 0%Z) 2%nat 0%Z;
          region0_count := 0; region1_count := 0; count1table_select := 0;
          count1bits := 0;
          sfb_partition_table := nr_of_sfb_block_0_0;
          slen := upd (upd (upd (upd (slen (huff cod_info)) 0%nat 0%Z) 1%nat 0%Z)
                         2%nat 0%Z) 3%nat 0%Z |} |}.

(** [memset (scalefac, 0, sizeof (III_scalefac_t))]. *)
Definition zero_scalefac : III_scalefac_t :=
  {| sf_l := fun _ => 0%Z; sf_s := fun _ _ => 0%Z |}.

Record init_result : Type := {
  init_ret : Z;
  init_cod : gr_info;
  init_scalefac : III_scalefac_t;
  init_xrpow : nat -> R
}.

(** [init_outer_loop (gfc, cod_info, scalefac, xr, xrpow)]. *)
Definition init_outer_loop (gfc : lame_internal_flags) (cod_info : gr_info)
  (xr xrpow : nat -> R) : init_result :=
  let st := for_loop (init_xrpow_step xr) 0 576 (xrpow, 0%Z) in
  {| init_ret := if (0 <? snd st)%Z then 1 else 0;
     init_cod := fresh_cod_info gfc cod_info;
     init_scalefac := zero_scalefac;
     init_xrpow := fst st |}.

End Init.

(** *** The searches for the global gain *)

Inductive binsearchDirection_t : Type :=
  BINSEARCH_NONE | BINSEARCH_UP | BINSEARCH_DOWN.

Definition is_down (d : binsearchDirection_t) : bool :=
  match d with BINSEARCH_DOWN => true | _ => false end.

Definition is_up (d : binsearchDirection_t) : bool :=
  match d with BINSEARCH_UP => true | _ => false end.

(** What a call of [count_bits] leaves behind: the bit count it returns,
    the quantized values and the granule info. *)
Record counted : Type := {
  cb_bits : Z;
  cb_l3enc : nat -> Z;
  cb_cod : gr_info
}.

Section Search.

(** [count_bits (gfc, l3enc, xrpow, cod_info)] belongs to the Huffman
    coder (takehiro.c), outside the translated sources. *)
Variable count_bits :
  lame_internal_flags -> (nat -> Z) -> (nat -> R) -> gr_info -> counted.

(** The locals of [bin_search_StepSize] together with what it writes. *)
Record search_state : Type := {
  ss_counted : counted;
  ss_CurrentStep : Z;
  ss_flag_GoneOver : bool;
  ss_StepSize : Z;
  ss_Direction : binsearchDirection_t
}.

(** The [do ... while (1)] loop; every [break] returns the state.  The C
    division of [int]s truncates: [Z.quot]. *)
Fixpoint bin_search_loop (fuel : nat) (gfc : lame_internal_flags)
  (desired_rate : Z) (xrpow : nat -> R) (st : search_state) : option search_state :=
  match fuel with
  | O => None
  | S fuel' =>
      let c := count_bits gfc (cb_l3enc (ss_counted st)) xrpow
                 (set_global_gain (cb_cod (ss_counted st)) (ss_StepSize st)) in
      let nBits := cb_bits c in
      if (ss_CurrentStep st =? 1)%Z then
        Some {| ss_counted := c; ss_CurrentStep := ss_CurrentStep st;
                ss_flag_GoneOver := ss_flag_GoneOver st;
                ss_StepSize := ss_StepSize st; ss_Direction := ss_Direction st |}
      else
        let cs := if ss_flag_GoneOver st then Z.quot (ss_CurrentStep st) 2
                  else ss_CurrentStep st in
        if (nBits >? desired_rate)%Z then
          (* increase Quantize_StepSize *)
          let late := is_down (ss_Direction st) && negb (ss_flag_GoneOver st) in
          let flag := if late then true else ss_flag_GoneOver st in
          let cs := if late then Z.quot cs 2 else cs in
          let st' := {| ss_counted := c; ss_CurrentStep := cs;
                        ss_flag_GoneOver := flag;
                        ss_StepSize := (ss_StepSize st + cs)%Z;
                        ss_Direction := BINSEARCH_UP |} in
          if (ss_StepSize st' >? 255)%Z then Some st'
          else bin_search_loop fuel' gfc desired_rate xrpow st'
        else if (nBits <? desired_rate)%Z then
          (* decrease Quantize_StepSize *)
          let late := is_up (ss_Direction st) && negb (ss_flag_GoneOver st) in
          let flag := if late then true else ss_flag_GoneOver st in
          let cs := if late then Z.quot cs 2 else cs in
          let st' := {| ss_counted := c; ss_CurrentStep := cs;
                        ss_flag_GoneOver := flag;
                        ss_StepSize := (ss_StepSize st - cs)%Z;
                        ss_Direction := BINSEARCH_DOWN |} in
          if (ss_StepSize st' <? 0)%Z then Some st'
          else bin_search_loop fuel' gfc desired_rate xrpow st'
        else
          Some {| ss_counted := c; ss_CurrentStep := cs;
                  ss_flag_GoneOver := ss_flag_GoneOver st;
                  ss_StepSize := ss_StepSize st; ss_Direction := ss_Direction st |}
  end.

(** [bin_search_StepSize (gfc, cod_info, desired_rate, start, xrpow,
    l3enc)]: the new [gfc] and the outcome of the last [count_bits]. *)
Definition bin_search_StepSize (fuel : nat) (gfc : lame_internal_flags)
  (cod_info : gr_info) (desired_rate start : Z) (xrpow : nat -> R)
  (l3enc : nat -> Z) : option (lame_internal_flags * counted) :=
  match bin_search_loop fuel gfc desired_rate xrpow
          {| ss_counted := {| cb_bits := 0; cb_l3enc := l3enc; cb_cod := cod_info |};
             ss_CurrentStep := CurrentStep gfc;
             ss_flag_GoneOver := false;
             ss_StepSize := start;
             ss_Direction := BINSEARCH_NONE |} with
  | None => None
  | Some st =>
      let CurrentStep' := (start - ss_StepSize st)%Z in
      Some (set_CurrentStep gfc (if (Z.quot CurrentStep' 4 =? 0)%Z then 2 else 4),
            ss_counted st)
  end.

(** The [while (bits > max_bits)] loop of [inner_loop]. *)
Fixpoint inner_loop_while (fuel : nat) (gfc : lame_internal_flags) (max_bits : Z)
  (xrpow : nat -> R) (c : counted) : option counted :=
  if (cb_bits c >? max_bits)%Z then
    match fuel with
    | O => None
    | S fuel' =>
        inner_loop_while fuel' gfc max_bits xrpow
          (count_bits gfc (cb_l3enc c) xrpow
             (set_global_gain (cb_cod c) (global_gain (cb_cod c) + 1)))
    end
  else Some c.

(** [inner_loop (gfc, cod_info, max_bits, xrpow, l3enc)]. *)
Definition inner_loop (fuel : nat) (gfc : lame_internal_flags) (cod_info : gr_info)
  (max_bits : Z) (xrpow : nat -> R) (l3enc : nat -> Z) : option counted :=
  inner_loop_while fuel gfc max_bits xrpow (count_bits gfc l3enc xrpow cod_info).

End Search.

(** *** Noise balancing *)

(** [calc_noise_result]. *)
Record calc_noise_result : Type := {
  over_count : Z;
  tot_count : Z;
  over_noise : R;
  tot_noise : R;
  max_noise : R;
  klemm_noise : R
}.

Definition Rltb (a b : R) : bool := if Rlt_dec a b then true else false.
Definition Rleb (a b : R) : bool := if Rle_dec a b then true else false.
Definition Rgtb (a b : R) : bool := if Rgt_dec a b then true else false.
Definition Reqb (a b : R) : bool := if Req_dec_T a b then true else false.

(** [quant_compare (experimentalX, best, calc)]. *)
Definition quant_compare (experimentalX : Z) (best calc : calc_noise_result) : bool :=
  match experimentalX with
  | 1%Z => Rltb (max_noise calc) (max_noise best)
  | 2%Z => Rltb (tot_noise calc) (tot_noise best)
  | 3%Z => Rltb (tot_noise calc) (tot_noise best)
           && Rltb (max_noise calc) (max_noise best + 2)
  | 4%Z =>
      (Rleb (max_noise calc) 0 && Rgtb (max_noise best) 2)
      || (Rleb (max_noise calc) 0 && Rltb (max_noise best) 0
          && Rgtb (max_noise best) (max_noise calc - 2)
          && Rltb (tot_noise calc) (tot_noise best))
      || (Rleb (max_noise calc) 0 && Rgtb (max_noise best) 0
          && Rgtb (max_noise best) (max_noise calc - 2)
          && Rltb (tot_noise calc) (tot_noise best + over_noise best))
      || (Rgtb (max_noise calc) 0 && Rgtb (max_noise best) (-0.5)
          && Rgtb (max_noise best) (max_noise calc - 1)
          && Rltb (tot_noise calc + over_noise calc)
                  (tot_noise best + over_noise best))
      || (Rgtb (max_noise calc) 0 && Rgtb (max_noise best) (-1)
          && Rgtb (max_noise best) (max_noise calc - 1.5)
          && Rltb (tot_noise calc + over_noise calc + over_noise calc)
                  (tot_noise best + over_noise best + over_noise best))
  | 5%Z => Rltb (over_noise calc) (over_noise best)
           || (Reqb (over_noise calc) (over_noise best)
               && Rltb (tot_noise calc) (tot_noise best))
  | 6%Z => Rltb (over_noise calc) (over_noise best)
           || (Reqb (over_noise calc) (over_noise best)
               && (Rltb (max_noise calc) (max_noise best)
                   || (Reqb (max_noise calc) (max_noise best)
                       && Rleb (tot_noise calc) (tot_noise best))))
  | 7%Z => (over_count calc <? over_count best)%Z
           || Rltb (over_noise calc) (over_noise best)
  | 8%Z => Rltb (klemm_noise calc) (klemm_noise best)
  | _ =>
      (over_count calc <? over_count best)%Z
      || ((over_count calc =? over_count best)%Z
          && Rltb (over_noise calc) (over_noise best))
      || ((over_count calc =? over_count best)%Z
          && Reqb (over_noise calc) (over_noise best)
          && Rltb (tot_noise calc) (tot_noise best))
  end.

(** [loop_break (cod_info, scalefac)]: 0 when some scalefactor has not
    been amplified, otherwise 1. *)
Definition loop_break (SBPSY_s : nat) (cod_info : gr_info) (scalefac : III_scalefac_t)
  : Z :=
  if existsb (fun sfb => (sf_l scalefac sfb =? 0)%Z) (seq 0 (sfb_lmax cod_info))
  then 0%Z
  else if existsb
            (fun sfb =>
               existsb (fun i => (sf_s scalefac sfb i + subblock_gain cod_info i =? 0)%Z)
                       (seq 0 3))
            (seq (sfb_smin cod_info) (SBPSY_s - sfb_smin cod_info))
  then 0%Z
  else 1%Z.

(** [for (l = 0; l < n; l++) xrpow[from + l] *= amp;] *)
Definition scale_xrpow (xrpow : nat -> R) (from n : Z) (amp : R) : nat -> R :=
  for_loop (fun x l => upd x (Z.to_nat from + l)%nat (x (Z.to_nat from + l)%nat * amp))
    0 (Z.to_nat n) xrpow.

Definition incr (a : nat -> Z) (i : nat) : nat -> Z := upd a i (a i + 1)%Z.

Definition incr2 (a : nat -> nat -> Z) (i j : nat) : nat -> nat -> Z :=
  upd a i (upd (a i) j (a i j + 1)%Z).

Definition set2 (a : nat -> nat -> Z) (i j : nat) (v : Z) : nat -> nat -> Z :=
  upd a i (upd (a i) j v).

Section Balance.

(** [SBPSY_s], [SBMAX_s], the table [pretab] and the macro [IPOW20] come
    from headers and tables outside the translated sources; so do the
    scalefactor bit counters [scale_bitcount] and [scale_bitcount_lsf]
    (takehiro.c), which return their status and may rewrite the
    scalefactors and the granule info. *)
Variables SBPSY_s SBMAX_s : nat.
Variable pretab : nat -> Z.
Variable IPOW20 : Z -> R.
Variables scale_bitcount scale_bitcount_lsf :
  III_scalefac_t -> gr_info -> Z * III_scalefac_t * gr_info.

Definition ifqstep34_of (cod_info : gr_info) : R :=
  if (scalefac_scale cod_info =? 0)%Z
  then 1.29683955465100964055 (* 2**(.75*.5) *)
  else 1.68179283050742922612 (* 2**(.75*1) *).

(** The threshold of [amp_scalefac_bands]: 1, unless all bands have
    distortion below 1; then 95% of the largest. *)
Definition distort_threshold (cod_info : gr_info) (distort : nat -> nat -> R) : R :=
  let t0 := for_loop (fun t sfb => Masking.Max (distort 0%nat sfb) t)
              0 (sfb_lmax cod_info) (-900) in
  let t1 := for_loop
              (fun t sfb =>
                 for_loop (fun t i => Masking.Max (distort (i + 1)%nat sfb) t) 0 3 t)
              (sfb_smin cod_info) (12 - sfb_smin cod_info) t0 in
  if Rgt_dec t1 1.0 then 1.0 else t1 * 0.95.

(** The search for the most distorted long band: [(asfb, max_dist)]. *)
Definition worst_long_step (distort : nat -> nat -> R) (thresh : R)
  (st : Z * R) (sfb : nat) : Z * R :=
  if Rgt_dec (distort 0%nat sfb) thresh then
    if Rgt_dec (distort 0%nat sfb - thresh) (snd st)
    then (Z.of_nat sfb, distort 0%nat sfb - thresh)
    else st
  else st.

(** The search for the most distorted short band and window. *)
Record worst_short : Type := {
  ws_j : Z;
  ws_asfb : Z;
  ws_ablk : nat;
  ws_astart : Z;
  ws_aend : Z;
  ws_max_dist : R
}.

Definition worst_short_window (distort : nat -> nat -> R) (thresh : R)
  (sfb : nat) (width : Z) (st : worst_short) (i : nat) : worst_short :=
  let hit := Rgtb (distort (i + 1)%nat sfb) thresh
             && Rgtb (distort (i + 1)%nat sfb) (ws_max_dist st) in
  {| ws_j := (ws_j st + width)%Z;
     ws_asfb := if hit then Z.of_nat sfb else ws_asfb st;
     ws_ablk := if hit then i else ws_ablk st;
     ws_astart := if hit then ws_j st else ws_astart st;
     ws_aend := if hit then (ws_j st + width)%Z else ws_aend st;
     ws_max_dist := if hit then distort (i + 1)%nat sfb else ws_max_dist st |}.

Definition worst_short_step (gfc : lame_internal_flags) (distort : nat -> nat -> R)
  (thresh : R) (st : worst_short) (sfb : nat) : worst_short :=
  let width := (scalefac_band_s gfc (S sfb) - scalefac_band_s gfc sfb)%Z in
  for_loop (worst_short_window distort thresh sfb width) 0 3 st.

(** The state of the amplification loops over the short bands: the
    running index [j], the scalefactors and [xrpow]. *)
Record short_amp : Type := {
  sa_j : Z;
  sa_s : nat -> nat -> Z;
  sa_xrpow : nat -> R
}.

Definition amp_short_window (distort : nat -> nat -> R) (thresh ifqstep34 : R)
  (sfb : nat) (width : Z) (st : short_amp) (i : nat) : short_amp :=
  if Rgt_dec (distort (i + 1)%nat sfb) thresh then
    {| sa_j := (sa_j st + width)%Z;
       sa_s := incr2 (sa_s st) sfb i;
       sa_xrpow := scale_xrpow (sa_xrpow st) (sa_j st) width ifqstep34 |}
  else
    {| sa_j := (sa_j st + width)%Z; sa_s := sa_s st; sa_xrpow := sa_xrpow st |}.

Definition amp_short_step (gfc : lame_internal_flags) (distort : nat -> nat -> R)
  (thresh ifqstep34 : R) (st : short_amp) (sfb : nat) : short_amp :=
  let width := (scalefac_band_s gfc (S sfb) - scalefac_band_s gfc sfb)%Z in
  for_loop (amp_short_window distort thresh ifqstep34 sfb width) 0 3 st.

Definition amp_long_step (gfc : lame_internal_flags) (distort : nat -> nat -> R)
  (thresh ifqstep34 : R) (st : (nat -> Z) * (nat -> R)) (sfb : nat)
  : (nat -> Z) * (nat -> R) :=
  if Rgt_dec (distort 0%nat sfb) thresh then
    (incr (fst st) sfb,
     scale_xrpow (snd st) (scalefac_band_l gfc sfb)
       (scalefac_band_l gfc (S sfb) - scalefac_band_l gfc sfb) ifqstep34)
  else st.

(** [amp_scalefac_bands (gfc, cod_info, scalefac, distort, xrpow)]. *)
Definition amp_scalefac_bands (gfc : lame_internal_flags) (cod_info : gr_info)
  (scalefac : III_scalefac_t) (distort : nat -> nat -> R) (xrpow : nat -> R)
  : III_scalefac_t * (nat -> R) :=
  let ifqstep34 := ifqstep34_of cod_info in
  let thresh := distort_threshold cod_info distort in
  if nsPsy_use gfc && (vbr_mode_eqb (VBR gfc) vbr_off || vbr_mode_eqb (VBR gfc) vbr_abr)
  then
    let wl := for_loop (worst_long_step distort thresh) 0 (sfb_lmax cod_info)
                ((-1)%Z, 0) in
    let '(l1, x1) :=
      if (fst wl =? -1)%Z then (sf_l scalefac, xrpow)
      else
        let asfb := Z.to_nat (fst wl) in
        (incr (sf_l scalefac) asfb,
         scale_xrpow xrpow (scalefac_band_l gfc asfb)
           (scalefac_band_l gfc (S asfb) - scalefac_band_l gfc asfb) ifqstep34) in
    let ws := for_loop (worst_short_step gfc distort thresh)
                (sfb_smin cod_info) (12 - sfb_smin cod_info)
                {| ws_j := 0; ws_asfb := -1; ws_ablk := 0; ws_astart := 0;
                   ws_aend := 0; ws_max_dist := 0 |} in
    if (ws_asfb ws =? -1)%Z then ({| sf_l := l1; sf_s := sf_s scalefac |}, x1)
    else
      ({| sf_l := l1;
          sf_s := incr2 (sf_s scalefac) (Z.to_nat (ws_asfb ws)) (ws_ablk ws) |},
       scale_xrpow x1 (ws_astart ws) (ws_aend ws - ws_astart ws) ifqstep34)
  else
    let '(l1, x1) := for_loop (amp_long_step gfc distort thresh ifqstep34)
                       0 (sfb_lmax cod_info) (sf_l scalefac, xrpow) in
    let sa := for_loop (amp_short_step gfc distort thresh ifqstep34)
                (sfb_smin cod_info) (12 - sfb_smin cod_info)
                {| sa_j := 0; sa_s := sf_s scalefac; sa_xrpow := x1 |} in
    ({| sf_l := l1; sf_s := sa_s sa |}, sa_xrpow sa).

(** *** [inc_scalefac_scale] *)

(** The state of its loop over the long bands: [preflag], [scalefac->l]
    and [xrpow]. *)
Record long_scale : Type := {
  lsc_preflag : Z;
  lsc_l : nat -> Z;
  lsc_xrpow : nat -> R
}.

Definition inc_scale_long_step (gfc : lame_internal_flags) (st : long_scale)
  (sfb : nat) : long_scale :=
  let s := (lsc_l st sfb + (if (lsc_preflag st =? 0)%Z then 0 else pretab sfb))%Z in
  let odd := Z.odd s in
  let s := if odd then (s + 1)%Z else s in
  {| lsc_preflag := 0;
     lsc_l := upd (lsc_l st) sfb (Z.shiftr s 1);
     lsc_xrpow :=
       if odd then
         scale_xrpow (lsc_xrpow st) (scalefac_band_l gfc sfb)
           (scalefac_band_l gfc (S sfb) - scalefac_band_l gfc sfb)
           1.29683955465100964055
       else lsc_xrpow st |}.

Definition inc_scale_short_window (sfb : nat) (width : Z) (st : short_amp) (i : nat)
  : short_amp :=
  let odd := Z.odd (sa_s st sfb i) in
  let s := if odd then (sa_s st sfb i + 1)%Z else sa_s st sfb i in
  {| sa_j := (sa_j st + width)%Z;
     sa_s := set2 (sa_s st) sfb i (Z.shiftr s 1);
     sa_xrpow := if odd
                 then scale_xrpow (sa_xrpow st) (sa_j st) width 1.29683955465100964055
                 else sa_xrpow st |}.

Definition inc_scale_short_step (gfc : lame_internal_flags) (st : short_amp)
  (sfb : nat) : short_amp :=
  let width := (scalefac_band_s gfc (S sfb) - scalefac_band_s gfc sfb)%Z in
  for_loop (inc_scale_short_window sfb width) 0 3 st.

(** What the noise balancing routines hand back. *)
Record balanced : Type := {
  bn_ret : Z;
  bn_cod : gr_info;
  bn_scalefac : III_scalefac_t;
  bn_xrpow : nat -> R
}.

(** [inc_scalefac_scale (gfc, cod_info, scalefac, xrpow)] (it returns
    nothing: [bn_ret] is 0). *)
Definition inc_scalefac_scale (gfc : lame_internal_flags) (cod_info : gr_info)
  (scalefac : III_scalefac_t) (xrpow : nat -> R) : balanced :=
  let ls := for_loop (inc_scale_long_step gfc) 0 (sfb_lmax cod_info)
              {| lsc_preflag := preflag cod_info; lsc_l := sf_l scalefac;
                 lsc_xrpow := xrpow |} in
  let sa := for_loop (inc_scale_short_step gfc)
              (sfb_smin cod_info) (SBPSY_s - sfb_smin cod_info)
              {| sa_j := 0; sa_s := sf_s scalefac; sa_xrpow := lsc_xrpow ls |} in
  {| bn_ret := 0;
     bn_cod := set_scalefac_scale (set_preflag cod_info (lsc_preflag ls)) 1;
     bn_scalefac := {| sf_l := lsc_l ls; sf_s := sa_s sa |};
     bn_xrpow := sa_xrpow sa |}.

(** *** [inc_subblock_gain] *)

(** The largest scalefactor of [window] over the bands [lo .. lo+n-1],
    and at least 0: the runs for [s1] and [s2]. *)
Definition max_scalefac (s : nat -> nat -> Z) (window lo n : nat) : Z :=
  for_loop (fun m sfb => if (m <? s sfb window)%Z then s sfb window else m) lo n 0%Z.

(** One band of the loop that lowers the scalefactors of [window] after
    its subblock gain went up. *)
Definition lower_scalefac (gfc : lame_internal_flags) (scale : Z) (window : nat)
  (st : (nat -> nat -> Z) * (nat -> R)) (sfb : nat) : (nat -> nat -> Z) * (nat -> R) :=
  let s := fst st sfb window in
  if (s <? 0)%Z then st
  else
    let s := (s - Z.shiftr 4 scale)%Z in
    if (s >=? 0)%Z then (set2 (fst st) sfb window s, snd st)
    else
      let width := (scalefac_band_s gfc sfb - scalefac_band_s gfc (S sfb))%Z in
      let amp := IPOW20 (210 + Z.shiftl s (scale + 1)) in
      (set2 (fst st) sfb window 0, scale_xrpow (snd st) 0 width amp).

(** One window; once [bn_ret] is 1 the function has returned. *)
Definition inc_subblock_gain_window (gfc : lame_internal_flags) (st : balanced)
  (window : nat) : balanced :=
  if (bn_ret st =? 1)%Z then st
  else
    let cod_info := bn_cod st in
    let s := sf_s (bn_scalefac st) in
    let smin := sfb_smin cod_info in
    let s1 := max_scalefac s window smin (6 - smin) in
    let s2 := max_scalefac s window (Nat.max smin 6) (SBPSY_s - Nat.max smin 6) in
    if (s1 <? 16)%Z && (s2 <? 8)%Z then st
    else if (subblock_gain cod_info window >? 7)%Z then
      {| bn_ret := 1; bn_cod := cod_info; bn_scalefac := bn_scalefac st;
         bn_xrpow := bn_xrpow st |}
    else
      let r := for_loop (lower_scalefac gfc (scalefac_scale cod_info) window)
                 smin (SBMAX_s - smin) (s, bn_xrpow st) in
      {| bn_ret := 0;
         bn_cod := set_subblock_gain cod_info (incr (subblock_gain cod_info) window);
         bn_scalefac := {| sf_l := sf_l (bn_scalefac st); sf_s := fst r |};
         bn_xrpow := snd r |}.

(** [inc_subblock_gain (gfc, cod_info, scalefac, xrpow)]. *)
Definition inc_subblock_gain (gfc : lame_internal_flags) (cod_info : gr_info)
  (scalefac : III_scalefac_t) (xrpow : nat -> R) : balanced :=
  for_loop (inc_subblock_gain_window gfc) 0 3
    {| bn_ret := 0; bn_cod := cod_info; bn_scalefac := scalefac; bn_xrpow := xrpow |}.

(** *** [balance_noise] *)

Definition count_scalefac_bits (gfc : lame_internal_flags)
  (scalefac : III_scalefac_t) (cod_info : gr_info) : Z * III_scalefac_t * gr_info :=
  if (version gfc =? 1)%Z then scale_bitcount scalefac cod_info
  else scale_bitcount_lsf scalefac cod_info.

(** [balance_noise (gfc, cod_info, scalefac, distort, xrpow)], with
    neither RH_AMP nor RH_SUBBLOCK defined. *)
Definition balance_noise (gfc : lame_internal_flags) (cod_info : gr_info)
  (scalefac : III_scalefac_t) (distort : nat -> nat -> R) (xrpow : nat -> R)
  : balanced :=
  let '(sf1, x1) := amp_scalefac_bands gfc cod_info scalefac distort xrpow in
  if negb (loop_break SBPSY_s cod_info sf1 =? 0)%Z then
    (* all bands amplified *)
    {| bn_ret := 0; bn_cod := cod_info; bn_scalefac := sf1; bn_xrpow := x1 |}
  else
    let '(status, sf2, cod2) := count_scalefac_bits gfc sf1 cod_info in
    if (status =? 0)%Z then
      (* amplified some bands not exceeding limits *)
      {| bn_ret := 1; bn_cod := cod2; bn_scalefac := sf2; bn_xrpow := x1 |}
    else
      let r :=
        if (noise_shaping gfc >? 1)%Z && (scalefac_scale cod2 =? 0)%Z then
          inc_scalefac_scale gfc cod2 sf2 x1
        else if block_type_eqb (block_type_of cod2) SHORT_TYPE
                && experimentalZ gfc && (noise_shaping gfc >? 1)%Z then
          let g := inc_subblock_gain gfc cod2 sf2 x1 in
          {| bn_ret := if negb (bn_ret g =? 0)%Z then 1
                       else if negb (loop_break SBPSY_s (bn_cod g) (bn_scalefac g) =? 0)%Z
                            then 1 else 0;
             bn_cod := bn_cod g; bn_scalefac := bn_scalefac g; bn_xrpow := bn_xrpow g |}
        else {| bn_ret := status; bn_cod := cod2; bn_scalefac := sf2; bn_xrpow := x1 |} in
      let '(status, sf3, cod3) :=
        if (bn_ret r =? 0)%Z then count_scalefac_bits gfc (bn_scalefac r) (bn_cod r)
        else (bn_ret r, bn_scalefac r, bn_cod r) in
      {| bn_ret := if (status =? 0)%Z then 1 else 0;
         bn_cod := cod3; bn_scalefac := sf3; bn_xrpow := bn_xrpow r |}.

(** *** [outer_loop] *)

(** [SBMAX_l], the type of the allowed distortions and [calc_noise]
    (quantize_pvt.c) are outside the translated sources as well;
    [calc_noise] returns the number of distorted bands and writes
    [distort] and the noise figures. *)
Variable SBMAX_l : nat.
Variable III_psy_xmin : Type.
Variable calc_noise :
  lame_internal_flags -> (nat -> R) -> (nat -> Z) -> gr_info -> III_psy_xmin ->
  III_scalefac_t -> (nat -> nat -> R) -> calc_noise_result ->
  Z * (nat -> nat -> R) * calc_noise_result.
Variable count_bits :
  lame_internal_flags -> (nat -> Z) -> (nat -> R) -> gr_info -> counted.

(** The variables of [outer_loop] that live across its main loop. *)
Record outer_state : Type := {
  os_cod : gr_info;
  os_scalefac : III_scalefac_t;
  os_xrpow : nat -> R;
  os_l3enc : nat -> Z;
  os_l3_enc_w : nat -> Z;
  os_distort : nat -> nat -> R;
  os_noise_info : calc_noise_result;
  os_best_noise_info : calc_noise_result;
  os_iteration : Z;
  os_copy : bool;
  os_age : Z;
  os_save_scalefac : III_scalefac_t;
  os_save_cod_info : gr_info;
  os_save_xrpow : nat -> R
}.

Definition is_vbr_rh_or_mtrh (gfc : lame_internal_flags) : bool :=
  vbr_mode_eqb (VBR gfc) vbr_rh || vbr_mode_eqb (VBR gfc) vbr_mtrh.

(** The test on the last scalefactor band, under [gfc->sfb21_extra]. *)
Definition last_band_distorted (gfc : lame_internal_flags) (cod_info : gr_info)
  (distort : nat -> nat -> R) : bool :=
  sfb21_extra gfc
  && (if block_type_eqb (block_type_of cod_info) SHORT_TYPE
      then Rgtb (distort 1%nat (SBMAX_s - 1)%nat) 1
           || Rgtb (distort 2%nat (SBMAX_s - 1)%nat) 1
           || Rgtb (distort 3%nat (SBMAX_s - 1)%nat) 1
      else Rgtb (distort 0%nat (SBMAX_l - 1)%nat) 1).

(** The early stop of the main loop (RH_OUTERLOOP not defined). *)
Definition early_stop (gfc : lame_internal_flags) (iteration over : Z)
  (best : calc_noise_result) : bool :=
  (noise_shaping_stop gfc <? iteration)%Z
  && (((experimentalX gfc =? 0)%Z && ((over =? 0)%Z || (over_count best =? 0)%Z))
      || ((iteration >? 7)%Z && (over_count best =? 0)%Z)).

(** One turn of the main loop: the new state and whether the loop goes
    on ([false] at each [break]).  [None] when an [inner_loop] has not
    come back within [fuel] increments. *)
Definition outer_iteration (fuel : nat) (gfc : lame_internal_flags)
  (xr : nat -> R) (l3_xmin : III_psy_xmin) (targ_bits bits_found : Z)
  (st : outer_state) : option (outer_state * bool) :=
  let iteration := (os_iteration st + 1)%Z in
  let huff_bits := (targ_bits - part2_length (os_cod st))%Z in
  if (huff_bits <? 0)%Z then
    (* scale factors too large, not enough bits: use previous quantizaton *)
    Some ({| os_cod := os_cod st; os_scalefac := os_scalefac st;
             os_xrpow := os_xrpow st; os_l3enc := os_l3enc st;
             os_l3_enc_w := os_l3_enc_w st; os_distort := os_distort st;
             os_noise_info := os_noise_info st;
             os_best_noise_info := os_best_noise_info st;
             os_iteration := iteration; os_copy := os_copy st; os_age := os_age st;
             os_save_scalefac := os_save_scalefac st;
             os_save_cod_info := os_save_cod_info st;
             os_save_xrpow := os_save_xrpow st |}, false)
  else
    let quantized :=
      if (iteration =? 1)%Z then
        if (bits_found >? huff_bits)%Z then
          inner_loop count_bits fuel gfc
            (set_global_gain (os_cod st) (global_gain (os_cod st) + 1))
            huff_bits (os_xrpow st) (os_l3_enc_w st)
        else
          Some {| cb_bits := bits_found; cb_l3enc := os_l3_enc_w st;
                  cb_cod := os_cod st |}
      else
        inner_loop count_bits fuel gfc (os_cod st) huff_bits (os_xrpow st)
          (os_l3_enc_w st) in
    match quantized with
    | None => None
    | Some c =>
        let cod := set_part2_3_length (cb_cod c) (cb_bits c) in
        let l3_enc_w := cb_l3enc c in
        if (noise_shaping gfc =? 0)%Z then
          (* fast mode, no noise shaping, we are ready *)
          Some ({| os_cod := cod; os_scalefac := os_scalefac st;
                   os_xrpow := os_xrpow st; os_l3enc := l3_enc_w;
                   os_l3_enc_w := l3_enc_w; os_distort := os_distort st;
                   os_noise_info := os_noise_info st;
                   os_best_noise_info := os_noise_info st;
                   os_iteration := iteration; os_copy := false; os_age := os_age st;
                   os_save_scalefac := os_save_scalefac st;
                   os_save_cod_info := os_save_cod_info st;
                   os_save_xrpow := os_save_xrpow st |}, false)
        else
          let '(over, distort, noise_info) :=
            calc_noise gfc xr l3_enc_w cod l3_xmin (os_scalefac st)
              (os_distort st) (os_noise_info st) in
          let better :=
            if (iteration =? 1)%Z then true
            else quant_compare (experimentalX gfc) (os_best_noise_info st) noise_info in
          let best := if better then noise_info else os_best_noise_info st in
          let l3enc := if better then l3_enc_w else os_l3enc st in
          let copy := if better then false else os_copy st in
          let age := if better then 0%Z else (os_age st + 1)%Z in
          let stopped :=
            {| os_cod := cod; os_scalefac := os_scalefac st;
               os_xrpow := os_xrpow st; os_l3enc := l3enc;
               os_l3_enc_w := l3_enc_w; os_distort := distort;
               os_noise_info := noise_info; os_best_noise_info := best;
               os_iteration := iteration; os_copy := copy; os_age := age;
               os_save_scalefac := os_save_scalefac st;
               os_save_cod_info := os_save_cod_info st;
               os_save_xrpow := os_save_xrpow st |} in
          if early_stop gfc iteration over best then Some (stopped, false)
          else if last_band_distorted gfc cod distort then Some (stopped, false)
          else
            let b := balance_noise gfc cod (os_scalefac st) distort (os_xrpow st) in
            Some ({| os_cod := bn_cod b; os_scalefac := bn_scalefac b;
                     os_xrpow := bn_xrpow b; os_l3enc := l3enc;
                     os_l3_enc_w := l3_enc_w; os_distort := distort;
                     os_noise_info := noise_info; os_best_noise_info := best;
                     os_iteration := iteration;
                     os_copy := if better then true else copy;
                     os_age := age;
                     os_save_scalefac :=
                       if better then os_scalefac st else os_save_scalefac st;
                     os_save_cod_info := if better then cod else os_save_cod_info st;
                     os_save_xrpow :=
                       if better && is_vbr_rh_or_mtrh gfc then os_xrpow st
                       else os_save_xrpow st |},
                  negb (bn_ret b =? 0)%Z)
    end.

Fixpoint outer_main_loop (fuel : nat) (gfc : lame_internal_flags)
  (xr : nat -> R) (l3_xmin : III_psy_xmin) (targ_bits bits_found : Z)
  (st : outer_state) : option outer_state :=
  match fuel with
  | O => None
  | S fuel' =>
      match outer_iteration fuel gfc xr l3_xmin targ_bits bits_found st with
      | None => None
      | Some (st', true) =>
          outer_main_loop fuel' gfc xr l3_xmin targ_bits bits_found st'
      | Some (st', false) => Some st'
      end
  end.

(** What [outer_loop] returns and leaves behind; [ol_assert] is the value
    of its closing [assert (cod_info->global_gain < 256)]. *)
Record outer_result : Type := {
  ol_ret : Z;
  ol_gfc : lame_internal_flags;
  ol_cod : gr_info;
  ol_scalefac : III_scalefac_t;
  ol_xrpow : nat -> R;
  ol_l3enc : nat -> Z;
  ol_assert : bool
}.

(** [outer_loop (gfc, cod_info, xr, l3_xmin, scalefac, xrpow, l3enc, ch,
    targ_bits)].  The locals that C leaves uninitialized come in as
    [locals]; [fuel] bounds the turns of every loop. *)
Definition outer_loop (fuel : nat) (gfc : lame_internal_flags) (cod_info : gr_info)
  (xr : nat -> R) (l3_xmin : III_psy_xmin) (scalefac : III_scalefac_t)
  (xrpow : nat -> R) (l3enc : nat -> Z) (ch : nat) (targ_bits : Z)
  (locals : outer_state) : option outer_result :=
  match bin_search_StepSize count_bits fuel gfc cod_info targ_bits
          (OldValue gfc ch) xrpow (os_l3_enc_w locals) with
  | None => None
  | Some (gfc1, c) =>
      let gfc2 := set_OldValue gfc1 (upd (OldValue gfc1) ch (global_gain (cb_cod c))) in
      let noise_info :=
        {| over_count := 100; tot_count := 100; over_noise := 0;
           tot_noise := 0; max_noise := 0;
           klemm_noise := klemm_noise (os_noise_info locals) |} in
      let best_noise_info :=
        {| over_count := 100;
           tot_count := tot_count (os_best_noise_info locals);
           over_noise := over_noise (os_best_noise_info locals);
           tot_noise := tot_noise (os_best_noise_info locals);
           max_noise := max_noise (os_best_noise_info locals);
           klemm_noise := klemm_noise (os_best_noise_info locals) |} in
      match outer_main_loop fuel gfc2 xr l3_xmin targ_bits (cb_bits c)
              {| os_cod := cb_cod c; os_scalefac := scalefac; os_xrpow := xrpow;
                 os_l3enc := l3enc; os_l3_enc_w := cb_l3enc c;
                 os_distort := os_distort locals;
                 os_noise_info := noise_info;
                 os_best_noise_info := best_noise_info;
                 os_iteration := 0; os_copy := false; os_age := 0;
                 os_save_scalefac := os_save_scalefac locals;
                 os_save_cod_info := os_save_cod_info locals;
                 os_save_xrpow := os_save_xrpow locals |} with
      | None => None
      | Some st =>
          (* finish up *)
          let cod := if os_copy st then os_save_cod_info st else os_cod st in
          let cod := set_part2_3_length cod (part2_3_length cod + part2_length cod) in
          Some {| ol_ret := over_count (os_best_noise_info st);
                  ol_gfc := gfc2;
                  ol_cod := cod;
                  ol_scalefac := if os_copy st then os_save_scalefac st
                                 else os_scalefac st;
                  ol_xrpow := if os_copy st && is_vbr_rh_or_mtrh gfc2
                              then os_save_xrpow st else os_xrpow st;
                  ol_l3enc := os_l3enc st;
                  ol_assert := (global_gain cod <? 256)%Z |}
      end
  end.

(** *** The granule step of the iteration loops *)

(** [SBPSY_l] and the row [nr_of_sfb_block[0][0]] for [init_outer_loop];
    [calc_xmin] (quantize_pvt.c) computes the allowed distortion from the
    masking ratios. *)
Variable SBPSY_l : nat.
Variable nr_of_sfb_block_0_0 : nat -> Z.
Variable III_psy_ratio : Type.
Variable calc_xmin :
  lame_internal_flags -> (nat -> R) -> III_psy_ratio -> gr_info -> III_psy_xmin.

(** [memset (l3_enc[gr][ch], 0, sizeof (int) * 576)]. *)
Definition memset_l3_enc (l3_enc : nat -> Z) : nat -> Z :=
  for_loop (fun a i => upd a i 0%Z) 0 576 l3_enc.

(** The closing loop over the coefficients: the sign of [l3_enc] is set
    from the sign of [xr]. *)
Definition set_signs (xr : nat -> R) (l3_enc : nat -> Z) : nat -> Z :=
  for_loop (fun a i => if Rlt_dec (xr i) 0 then upd a i (a i * -1)%Z else a)
    0 576 l3_enc.

Record granule : Type := {
  g_gfc : lame_internal_flags;
  g_cod : gr_info;
  g_scalefac : III_scalefac_t;
  g_xrpow : nat -> R;
  g_l3_enc : nat -> Z;
  g_outer_loop_ran : bool
}.

(** The quantization of one channel of one granule in [iteration_loop]:
    [init_outer_loop], then either the [memset] or [calc_xmin] and
    [outer_loop].  [ABR_iteration_loop] and [VBR_iteration_loop] branch
    on the value of [init_outer_loop] the same way. *)
Definition quantize_channel (fuel : nat) (gfc : lame_internal_flags)
  (cod_info : gr_info) (xr xrpow : nat -> R) (ratio : III_psy_ratio)
  (l3_enc : nat -> Z) (ch : nat) (targ_bits : Z) (locals : outer_state)
  : option granule :=
  let r := init_outer_loop SBPSY_l SBPSY_s nr_of_sfb_block_0_0 gfc cod_info xr xrpow in
  if (init_ret r =? 0)%Z then
    (* xr contains no energy, l3_enc will be quantized to zero *)
    Some {| g_gfc := gfc; g_cod := init_cod r; g_scalefac := init_scalefac r;
            g_xrpow := init_xrpow r; g_l3_enc := memset_l3_enc l3_enc;
            g_outer_loop_ran := false |}
  else
    match outer_loop fuel gfc (init_cod r) xr (calc_xmin gfc xr ratio (init_cod r))
            (init_scalefac r) (init_xrpow r) l3_enc ch targ_bits locals with
    | None => None
    | Some o =>
        Some {| g_gfc := ol_gfc o; g_cod := ol_cod o; g_scalefac := ol_scalefac o;
                g_xrpow := ol_xrpow o; g_l3_enc := ol_l3enc o;
                g_outer_loop_ran := true |}
    end.

(** *** [init_outer_loop]: the power law and the silence test *)

Lemma sqrt_three_quarters (t : R) :
  0 <= t -> sqrt (t * sqrt t) = Masking.c_pow t 0.75.
Proof.
  intro Ht. unfold Masking.c_pow.
  destruct (Rle_dec t 0) as [H0|Hpos].
  - assert (t = 0) by lra. subst t. rewrite sqrt_0, Rmult_0_l. apply sqrt_0.
  - assert (Hp : 0 < t) by lra.
    rewrite <- (Rpower_sqrt t Hp).
    rewrite <- (Rpower_1 t Hp) at 1.
    rewrite <- Rpower_plus.
    rewrite <- Rpower_sqrt by apply exp_pos.
    rewrite Rpower_mult. f_equal. lra.
Qed.

Lemma init_xrpow_written (xr : nat -> R) (i n lo : nat) (st : (nat -> R) * Z) :
  (lo <= i < lo + n)%nat ->
  fst (for_loop (init_xrpow_step xr) lo n st) i
  = sqrt (Rabs (xr i) * sqrt (Rabs (xr i))).
Proof.
  intro Hi.
  apply (for_loop_set (init_xrpow_step xr) (fun st => fst st i) _ i); [| |exact Hi].
  - intros s k Hk. unfold init_xrpow_step. cbn [fst]. now apply upd_other.
  - intros s. unfold init_xrpow_step. cbn [fst]. apply upd_same.
Qed.

(** The counter [o] never decreases, and stands still exactly over
    coefficients that are all at most 1E-20 in magnitude. *)
Lemma init_count (xr : nat -> R) (n lo : nat) (st : (nat -> R) * Z) :
  (snd st <= snd (for_loop (init_xrpow_step xr) lo n st))%Z /\
  (snd (for_loop (init_xrpow_step xr) lo n st) = snd st <->
   forall i, (lo <= i < lo + n)%nat -> Rabs (xr i) <= 1e-20).
Proof.
  revert lo st. induction n as [|n IH]; intros lo st; simpl.
  - split; [lia|]. split; [intros _ i Hi; lia | reflexivity].
  - destruct (IH (S lo) (init_xrpow_step xr st lo)) as [Hle Hiff].
    assert (Es : snd (init_xrpow_step xr st lo)
                 = (snd st + (if Rgt_dec (Rabs (xr lo)) 1e-20 then 1 else 0))%Z)
      by reflexivity.
    rewrite Es in Hle, Hiff. clear Es.
    destruct (Rgt_dec (Rabs (xr lo)) 1e-20) as [Hgt|Hngt].
    + split; [lia|]. split.
      * intro E. lia.
      * intro Hall. specialize (Hall lo ltac:(lia)). lra.
    + rewrite Z.add_0_r in *. split; [exact Hle|]. split.
      * intros E i Hi. destruct (Nat.eq_dec i lo) as [->|Hne]; [lra|].
        apply (proj1 Hiff E). lia.
      * intro Hall. apply (proj2 Hiff). intros i Hi. apply Hall. lia.
Qed.

Lemma memset_l3_enc_zero (l3_enc : nat -> Z) (i : nat) :
  (i < 576)%nat -> memset_l3_enc l3_enc i = 0%Z.
Proof.
  intro Hi. unfold memset_l3_enc.
  apply (for_loop_set (fun a k => upd a k 0%Z) (fun a => a i) _ i); [| |lia].
  - intros s k Hk. now apply upd_other.
  - intros s. apply upd_same.
Qed.

Lemma set_signs_keeps_zero (xr : nat -> R) (l3_enc : nat -> Z) :
  (forall i, (i < 576)%nat -> l3_enc i = 0%Z) ->
  forall i, (i < 576)%nat -> set_signs xr l3_enc i = 0%Z.
Proof.
  intro H. unfold set_signs.
  refine (for_loop_ind (fun _ a => forall i, (i < 576)%nat -> a i = 0%Z) _ 576 0 _ H _).
  intros k a _ IH i Hi. destruct (Rlt_dec (xr k) 0); [|now apply IH].
  unfold upd. destruct (Nat.eqb_spec i k) as [->|]; [|now apply IH].
  rewrite (IH k Hi). reflexivity.
Qed.

(** C5: [init_outer_loop] sets [xrpow[i]] to the power 0.75 of the
    magnitude of [xr[i]] for every [i] below 576, and returns 0 exactly
    when every magnitude is at most 1E-20; in that case the granule step
    does not run [outer_loop] and leaves the 576 values of [l3_enc] at 0,
    which the closing sign loop keeps. *)
Theorem init_outer_loop_silence (fuel : nat) (gfc : lame_internal_flags)
  (cod_info : gr_info) (xr xrpow : nat -> R) (ratio : III_psy_ratio)
  (l3_enc : nat -> Z) (ch : nat) (targ_bits : Z) (locals : outer_state) :
  let r := init_outer_loop SBPSY_l SBPSY_s nr_of_sfb_block_0_0 gfc cod_info xr xrpow in
  (forall i, (i < 576)%nat -> init_xrpow r i = Masking.c_pow (Rabs (xr i)) 0.75) /\
  (init_ret r = 0%Z <-> forall i, (i < 576)%nat -> Rabs (xr i) <= 1e-20) /\
  (init_ret r = 0%Z ->
   exists g,
     quantize_channel fuel gfc cod_info xr xrpow ratio l3_enc ch targ_bits locals
     = Some g /\
     g_outer_loop_ran g = false /\
     forall i, (i < 576)%nat ->
       g_l3_enc g i = 0%Z /\ set_signs xr (g_l3_enc g) i = 0%Z).
Proof.
  intro r. split; [|split].
  - intros i Hi. unfold r, init_outer_loop. cbn [init_xrpow].
    rewrite init_xrpow_written by lia.
    apply sqrt_three_quarters, Rabs_pos.
  - unfold r, init_outer_loop. cbn [init_ret].
    destruct (init_count xr 576 0 (xrpow, 0%Z)) as [Hle Hiff]. cbn [snd] in Hle, Hiff.
    destruct (Z.ltb_spec 0 (snd (for_loop (init_xrpow_step xr) 0 576 (xrpow, 0%Z))))
      as [Hpos|Hzero].
    + split; [discriminate|]. intro Hall.
      assert (E : snd (for_loop (init_xrpow_step xr) 0 576 (xrpow, 0%Z)) = 0%Z).
      { apply Hiff. intros i Hi. apply Hall. lia. }
      lia.
    + split; [|reflexivity]. intros _ i Hi. apply Hiff; lia.
  - intro E. unfold quantize_channel. fold r. rewrite E. cbn [Z.eqb].
    eexists. split; [reflexivity|]. cbn [g_outer_loop_ran g_l3_enc].
    split; [reflexivity|]. intros i Hi. split.
    + now apply memset_l3_enc_zero.
    + apply set_signs_keeps_zero; [|exact Hi].
      intros k Hk. now apply memset_l3_enc_zero.
Qed.

End Balance.

(** *** [inner_loop]: the first gain that fits *)

Section InnerLoopProperties.

Variable count_bits :
  lame_internal_flags -> (nat -> Z) -> (nat -> R) -> gr_info -> counted.

(** [count_bits] fills in the Huffman side of the granule info; the gain
    is its input. *)
Hypothesis count_bits_keeps_gain :
  forall gfc l3enc xrpow cod,
    global_gain (cb_cod (count_bits gfc l3enc xrpow cod)) = global_gain cod.

Variable gfc : lame_internal_flags.
Variable xrpow : nat -> R.
Variable max_bits : Z.

(** The count after [k] further increments of the gain. *)
Fixpoint count_after (k : nat) (c : counted) : counted :=
  match k with
  | O => c
  | S k' =>
      count_after k'
        (count_bits gfc (cb_l3enc c) xrpow
           (set_global_gain (cb_cod c) (global_gain (cb_cod c) + 1)))
  end.

Lemma inner_loop_while_fits (fuel : nat) (c : counted) :
  (cb_bits c <= max_bits)%Z ->
  inner_loop_while count_bits fuel gfc max_bits xrpow c = Some c.
Proof.
  intro H. destruct fuel; simpl;
    destruct (Z.gtb_spec (cb_bits c) max_bits); try reflexivity; lia.
Qed.

Lemma inner_loop_while_first_fit (k : nat) :
  forall (c : counted) (fuel : nat),
    (forall j, (j < k)%nat -> (cb_bits (count_after j c) > max_bits)%Z) ->
    (cb_bits (count_after k c) <= max_bits)%Z ->
    (k <= fuel)%nat ->
    inner_loop_while count_bits fuel gfc max_bits xrpow c = Some (count_after k c).
Proof.
  induction k as [|k IH]; intros c fuel Hbefore Hfit Hfuel.
  - now apply inner_loop_while_fits.
  - destruct fuel as [|fuel]; [lia|].
    pose proof (Hbefore 0%nat ltac:(lia)) as H0. cbn [count_after] in H0.
    cbn [inner_loop_while count_after].
    destruct (Z.gtb_spec (cb_bits c) max_bits); [|lia].
    apply IH; [|exact Hfit|lia].
    intros j Hj. apply (Hbefore (S j)). lia.
Qed.

Lemma count_after_gain (k : nat) :
  forall c, global_gain (cb_cod (count_after k c))
            = (global_gain (cb_cod c) + Z.of_nat k)%Z.
Proof.
  induction k as [|k IH]; intro c.
  - simpl. lia.
  - cbn [count_after]. rewrite IH, count_bits_keeps_gain. cbn [set_global_gain global_gain].
    lia.
Qed.

Lemma first_fit_exists (k : nat) :
  forall c, (cb_bits (count_after k c) <= max_bits)%Z ->
    exists k', (k' <= k)%nat /\
      (cb_bits (count_after k' c) <= max_bits)%Z /\
      forall j, (j < k')%nat -> (cb_bits (count_after j c) > max_bits)%Z.
Proof.
  induction k as [|k IH]; intros c Hfit.
  - exists 0%nat. split; [lia|]. split; [exact Hfit|]. intros j Hj. lia.
  - destruct (Z_le_gt_dec (cb_bits c) max_bits) as [Hnow|Hlater].
    + exists 0%nat. split; [lia|]. split; [exact Hnow|]. intros j Hj. lia.
    + cbn [count_after] in Hfit. destruct (IH _ Hfit) as (k' & Hle & Hk' & Hbefore).
      exists (S k'). split; [lia|]. split; [exact Hk'|].
      intros [|j] Hj; [exact Hlater|]. cbn [count_after]. apply Hbefore. lia.
Qed.

(** When some gain at or above the starting gain has a bit count within
    [max_bits], [inner_loop] comes back, at the first such gain: the gain
    has only gone up, by the number [k'] of increments, and the count
    returned is within [max_bits]. *)
Theorem inner_loop_fits_when_feasible (cod_info : gr_info) (l3enc : nat -> Z)
  (k : nat) :
  (cb_bits (count_after k (count_bits gfc l3enc xrpow cod_info)) <= max_bits)%Z ->
  exists (k' : nat) (c : counted),
    (k' <= k)%nat /\
    (forall fuel, (k' <= fuel)%nat ->
       inner_loop count_bits fuel gfc cod_info max_bits xrpow l3enc = Some c) /\
    (cb_bits c <= max_bits)%Z /\
    global_gain (cb_cod c) = (global_gain cod_info + Z.of_nat k')%Z /\
    forall j, (j < k')%nat ->
      (cb_bits (count_after j (count_bits gfc l3enc xrpow cod_info)) > max_bits)%Z.
Proof.
  intro Hfit. destruct (first_fit_exists k _ Hfit) as (k' & Hle & Hk' & Hbefore).
  exists k', (count_after k' (count_bits gfc l3enc xrpow cod_info)).
  split; [exact Hle|]. split; [|split; [exact Hk'|split; [|exact Hbefore]]].
  - intros fuel Hfuel. unfold inner_loop.
    now apply inner_loop_while_first_fit.
  - rewrite count_after_gain, count_bits_keeps_gain. reflexivity.
Qed.

End InnerLoopProperties.

(** A granule so loud that its bit count stays at 100 up to the gain 255
    and falls to 0 only beyond. *)
Definition loud_count_bits (gfc : lame_internal_flags) (l3enc : nat -> Z)
  (xrpow : nat -> R) (cod_info : gr_info) : counted :=
  {| cb_bits := if (global_gain cod_info <? 256)%Z then 100 else 0;
     cb_l3enc := l3enc; cb_cod := cod_info |}.

Definition sample_gfc : lame_internal_flags :=
  {| CurrentStep := 4; OldValue := fun _ => 180%Z; noise_shaping := 0;
     noise_shaping_stop := 0; sfb21_extra := false; nsPsy_use := false;
     scalefac_band_l := fun sfb => (4 * Z.of_nat sfb)%Z;
     scalefac_band_s := fun sfb => (4 * Z.of_nat sfb)%Z;
     version := 1; VBR := vbr_off; experimentalX := 0;
     experimentalY := false; experimentalZ := false |}.

Definition blank_huffman : huffman_side :=
  {| big_values := 0; count1 := 0; scalefac_compress := 0;
     table_select := fun _ => 0%Z; region0_count := 0; region1_count := 0;
     count1table_select := 0; count1bits := 0;
     sfb_partition_table := fun _ => 0%Z; slen := fun _ => 0%Z |}.

(** A long-block granule info as [init_outer_loop] leaves it. *)
Definition sample_cod_info : gr_info :=
  fresh_cod_info 21 12 (fun _ => 0%Z) sample_gfc
    {| part2_3_length := 0; global_gain := 0; block_type_of := NORM_TYPE;
       mixed_block_flag := false; subblock_gain := fun _ => 0%Z; preflag := 0;
       scalefac_scale := 0; part2_length := 0; sfb_lmax := 0; sfb_smin := 0;
       huff := blank_huffman |}.

Definition unit_xrpow : nat -> R := fun _ => 1.
Definition zero_l3enc : nat -> Z := fun _ => 0%Z.

Lemma inner_loop_fits_when_feasible_witness :
  exists (k' : nat) (c : counted),
    (k' <= 3)%nat /\
    (forall fuel, (k' <= fuel)%nat ->
       inner_loop loud_count_bits fuel sample_gfc
         (set_global_gain sample_cod_info 253) 0 unit_xrpow zero_l3enc = Some c) /\
    (cb_bits c <= 0)%Z /\
    global_gain (cb_cod c)
    = (global_gain (set_global_gain sample_cod_info 253) + Z.of_nat k')%Z /\
    forall j, (j < k')%nat ->
      (cb_bits (count_after loud_count_bits sample_gfc unit_xrpow j
                  (loud_count_bits sample_gfc zero_l3enc unit_xrpow
                     (set_global_gain sample_cod_info 253))) > 0)%Z.
Proof.
  apply (inner_loop_fits_when_feasible loud_count_bits).
  - intros gfc l3enc xrpow cod. reflexivity.
  - vm_compute. discriminate.
Defined.

(** A loud granule: every line has the magnitude 220 in [xrpow].  With
    the step table of the encoder, which is outside [src/] ([IPOW20 (g)]
    is 2 to the power [-3/16 (g - 210)]), such a line still quantizes to
    1 at the gain 255 and to 0 only from 256 on, which is how
    [loud_count_bits] counts. *)
Definition loud_xrpow : nat -> R := fun _ => 220.

(** The call of [inner_loop] that [outer_loop] makes on a loud granule
    with no bits to spend: [bin_search_StepSize] has stopped at the gain
    252 with more bits than the budget of 0, [outer_loop] has raised the
    gain to 253. *)
Definition inner_loop_on_loud_granule : option counted :=
  inner_loop loud_count_bits 40 sample_gfc (set_global_gain sample_cod_info 253)
    0 loud_xrpow zero_l3enc.


(** *** [bin_search_StepSize] keeps the gain within 0..255 *)

Section BinSearchProperties.

Variable count_bits :
  lame_internal_flags -> (nat -> Z) -> (nat -> R) -> gr_info -> counted.

Hypothesis count_bits_keeps_gain :
  forall gfc l3enc xrpow cod,
    global_gain (cb_cod (count_bits gfc l3enc xrpow cod)) = global_gain cod.

Lemma bin_search_loop_range (gfc : lame_internal_flags) (desired_rate : Z)
  (xrpow : nat -> R) (fuel : nat) :
  forall st st',
    (0 <= ss_StepSize st <= 255)%Z -> (0 <= ss_CurrentStep st)%Z ->
    bin_search_loop count_bits fuel gfc desired_rate xrpow st = Some st' ->
    (0 <= global_gain (cb_cod (ss_counted st')) <= 255)%Z.
Proof.
  induction fuel as [|fuel IH]; intros st st' Hs Hc H; [discriminate|].
  cbn [bin_search_loop] in H.
  pose proof (count_bits_keeps_gain gfc (cb_l3enc (ss_counted st)) xrpow
                (set_global_gain (cb_cod (ss_counted st)) (ss_StepSize st))) as Hg.
  cbn [set_global_gain global_gain] in Hg.
  set (c := count_bits gfc (cb_l3enc (ss_counted st)) xrpow
              (set_global_gain (cb_cod (ss_counted st)) (ss_StepSize st))) in *.
  assert (Hq : forall a, (0 <= a)%Z -> (0 <= Z.quot a 2)%Z).
  { intros a Ha. apply Z.quot_pos; lia. }
  assert (Hcs : (0 <= (if ss_flag_GoneOver st then Z.quot (ss_CurrentStep st) 2
                       else ss_CurrentStep st))%Z).
  { destruct (ss_flag_GoneOver st); auto. }
  set (cs := if ss_flag_GoneOver st then Z.quot (ss_CurrentStep st) 2
             else ss_CurrentStep st) in *.
  destruct (ss_CurrentStep st =? 1)%Z.
  { injection H as <-. cbn [ss_counted]. lia. }
  destruct (cb_bits c >? desired_rate)%Z.
  { set (cs' := if is_down (ss_Direction st) && negb (ss_flag_GoneOver st)
                then Z.quot cs 2 else cs) in *.
    assert (Hcs' : (0 <= cs')%Z).
    { unfold cs'. destruct (is_down (ss_Direction st) && negb (ss_flag_GoneOver st)); auto. }
    cbn [ss_StepSize] in H.
    destruct (Z.gtb_spec (ss_StepSize st + cs') 255).
    - injection H as <-. cbn [ss_counted]. lia.
    - apply IH in H; [exact H | cbn [ss_StepSize]; lia | cbn [ss_CurrentStep]; lia]. }
  destruct (cb_bits c <? desired_rate)%Z.
  { set (cs' := if is_up (ss_Direction st) && negb (ss_flag_GoneOver st)
                then Z.quot cs 2 else cs) in *.
    assert (Hcs' : (0 <= cs')%Z).
    { unfold cs'. destruct (is_up (ss_Direction st) && negb (ss_flag_GoneOver st)); auto. }
    cbn [ss_StepSize] in H.
    destruct (Z.ltb_spec (ss_StepSize st - cs') 0).
    - injection H as <-. cbn [ss_counted]. lia.
    - apply IH in H; [exact H | cbn [ss_StepSize]; lia | cbn [ss_CurrentStep]; lia]. }
  injection H as <-. cbn [ss_counted]. lia.
Qed.

(** From a start within 0..255 and a step that is not negative,
    [bin_search_StepSize] leaves [global_gain] within 0..255 and
    [gfc->CurrentStep] at 2 or 4. *)
Theorem bin_search_StepSize_gain_range (fuel : nat) (gfc gfc' : lame_internal_flags)
  (cod_info : gr_info) (desired_rate start : Z) (xrpow : nat -> R)
  (l3enc : nat -> Z) (c : counted) :
  (0 <= start <= 255)%Z -> (0 <= CurrentStep gfc)%Z ->
  bin_search_StepSize count_bits fuel gfc cod_info desired_rate start xrpow l3enc
  = Some (gfc', c) ->
  (0 <= global_gain (cb_cod c) <= 255)%Z /\
  (CurrentStep gfc' = 2%Z \/ CurrentStep gfc' = 4%Z).
Proof.
  intros Hs Hc H. unfold bin_search_StepSize in H.
  destruct (bin_search_loop count_bits fuel gfc desired_rate xrpow _) as [st|] eqn:E;
    [|discriminate].
  injection H as <- <-. split.
  - apply (bin_search_loop_range _ _ _ _ _ _) with (3 := E); assumption.
  - cbn [set_CurrentStep CurrentStep].
    destruct (Z.quot (start - ss_StepSize st) 4 =? 0)%Z; auto.
Qed.

End BinSearchProperties.

Lemma bin_search_StepSize_gain_range_witness :
  (0 <= global_gain (cb_cod
          {| cb_bits := 100; cb_l3enc := zero_l3enc;
             cb_cod := set_global_gain sample_cod_info 252 |}) <= 255)%Z /\
  (CurrentStep (set_CurrentStep sample_gfc 4) = 2%Z
   \/ CurrentStep (set_CurrentStep sample_gfc 4) = 4%Z).
Proof.
  apply (bin_search_StepSize_gain_range loud_count_bits
           (fun _ _ _ _ => eq_refl) 40 sample_gfc _ sample_cod_info 0 180
           unit_xrpow zero_l3enc).
  - lia.
  - simpl. lia.
  - reflexivity.
Defined.

(** *** [outer_loop] on a loud granule with no bits to spend *)

(** Stand-ins for the routines the fast mode never reaches. *)
Definition idle_scale_bitcount (scalefac : III_scalefac_t) (cod_info : gr_info)
  : Z * III_scalefac_t * gr_info := (0%Z, scalefac, cod_info).

Definition idle_calc_noise (gfc : lame_internal_flags) (xr : nat -> R)
  (l3enc : nat -> Z) (cod_info : gr_info) (l3_xmin : unit)
  (scalefac : III_scalefac_t) (distort : nat -> nat -> R)
  (noise_info : calc_noise_result) : Z * (nat -> nat -> R) * calc_noise_result :=
  (0%Z, distort, noise_info).

Definition blank_noise : calc_noise_result :=
  {| over_count := 0; tot_count := 0; over_noise := 0; tot_noise := 0;
     max_noise := 0; klemm_noise := 0 |}.

Definition blank_locals : outer_state :=
  {| os_cod := sample_cod_info; os_scalefac := zero_scalefac;
     os_xrpow := unit_xrpow; os_l3enc := zero_l3enc; os_l3_enc_w := zero_l3enc;
     os_distort := fun _ _ => 0; os_noise_info := blank_noise;
     os_best_noise_info := blank_noise; os_iteration := 0; os_copy := false;
     os_age := 0; os_save_scalefac := zero_scalefac;
     os_save_cod_info := sample_cod_info; os_save_xrpow := unit_xrpow |}.

(** [outer_loop] in fast mode ([noise_shaping] 0) with [targ_bits] 0,
    from [OldValue[ch]] 180 and [CurrentStep] 4, on the loud granule. *)
Definition outer_loop_on_loud_granule : option outer_result :=
  outer_loop 12 13 (fun _ => 0%Z) (fun _ => 1) idle_scale_bitcount
    idle_scale_bitcount 22 unit idle_calc_noise loud_count_bits
    40 sample_gfc sample_cod_info unit_xrpow tt zero_scalefac unit_xrpow
    zero_l3enc 0 0 blank_locals.

(** C3 at the failing input: [bin_search_StepSize] stops at the gain 252
    with 100 bits found; [outer_loop] then raises the gain and
    [inner_loop] goes on raising it until the count fits, at 256: the
    closing assertion is false. *)
Theorem outer_loop_gain_leaves_range :
  option_map (fun o => (global_gain (ol_cod o), ol_assert o))
    outer_loop_on_loud_granule
  = Some (256%Z, false).
Proof. vm_compute. reflexivity. Qed.

(** *** [inc_subblock_gain] at the gain 7 *)

(** A short-block granule with [scalefac_scale] set, the subblock gain of
    window 0 at 7. *)
Definition short_cod_info : gr_info :=
  {| part2_3_length := 0; global_gain := 210; block_type_of := SHORT_TYPE;
     mixed_block_flag := false;
     subblock_gain := fun w => if (w =? 0)%nat then 7%Z else 0%Z;
     preflag := 0; scalefac_scale := 1; part2_length := 0;
     sfb_lmax := 0; sfb_smin := 0; huff := blank_huffman |}.

(** The scalefactor of band 6, window 0 has reached 8. *)
Definition overflowing_scalefac : III_scalefac_t :=
  {| sf_l := fun _ => 0%Z;
     sf_s := fun sfb w => if ((sfb =? 6) && (w =? 0))%nat then 8%Z else 0%Z |}.

(** C6 at the failing input: the test [subblock_gain[window] > 7] lets
    the gain 7 through, and the increment makes it 8; the function
    returns 0. *)
Theorem inc_subblock_gain_exceeds_7 (IPOW20 : Z -> R) (xrpow : nat -> R) :
  bn_ret (inc_subblock_gain 12 13 IPOW20 sample_gfc short_cod_info
            overflowing_scalefac xrpow) = 0%Z /\
  subblock_gain (bn_cod (inc_subblock_gain 12 13 IPOW20 sample_gfc short_cod_info
                           overflowing_scalefac xrpow)) 0%nat = 8%Z.
Proof. split; vm_compute; reflexivity. Qed.

End Quantize.

(** * lame.c: the session handle and the return codes of the API *)

Module Session.

Open Scope Z_scope.

(** What a call does: it returns an [int], or it reads through a pointer
    that is NULL or freed, where C defines no behaviour. *)
Inductive outcome : Type :=
| Returns (ret : Z)
| Undefined.

Section Handle.

(** [LAME_ID] (util.h) and the fields of [lame_internal_flags] other
    than [Class_ID], which the checks do not look at. *)
Variable LAME_ID : Z.
Variable encoder_state : Type.

(** What [lame_encode_buffer_sample_t] does after its two checks, on
    [nsamples] samples: the value it returns and the new encoder state. *)
Variable encode_samples : encoder_state -> Z -> Z * encoder_state.

Record lame_internal_flags : Type := {
  Class_ID : Z;
  enc : encoder_state
}.

(** [lame_global_flags]; [internal_flags] is [None] for the NULL
    pointer. *)
Record lame_global_flags : Type := {
  internal_flags : option lame_internal_flags;
  lame_allocated_gfp : bool;
  framesize : Z
}.

(** A handle held by the caller: [None] once its storage has been
    freed. *)
Definition handle : Type := option lame_global_flags.

(** Every function starts with [gfc = gfp->internal_flags] and then reads
    [gfc->Class_ID]. *)
Definition with_gfc (gfp : lame_global_flags)
  (k : lame_internal_flags -> outcome * handle) : outcome * handle :=
  match internal_flags gfp with
  | None => (Undefined, Some gfp)
  | Some gfc => k gfc
  end.

Definition on_handle (h : handle) (f : lame_global_flags -> outcome * handle)
  : outcome * handle :=
  match h with
  | None => (Undefined, None)
  | Some gfp => f gfp
  end.

(** [lame_encode_buffer_sample_t]. *)
Definition lame_encode_buffer_sample_t (nsamples : Z) (gfp : lame_global_flags)
  : outcome * handle :=
  with_gfc gfp (fun gfc =>
    if negb (Class_ID gfc =? LAME_ID) then (Returns (-3), Some gfp)
    else if nsamples =? 0 then (Returns 0, Some gfp)
    else
      let '(ret, e) := encode_samples (enc gfc) nsamples in
      (Returns ret,
       Some {| internal_flags := Some {| Class_ID := Class_ID gfc; enc := e |};
               lame_allocated_gfp := lame_allocated_gfp gfp;
               framesize := framesize gfp |})).

(** The five entry points that convert the samples first share one
    control flow; [allocated] tells whether both [calloc]s succeeded. *)
Definition encode_buffer_converted (nsamples : Z) (allocated : bool)
  (gfp : lame_global_flags) : outcome * handle :=
  with_gfc gfp (fun gfc =>
    if negb (Class_ID gfc =? LAME_ID) then (Returns (-3), Some gfp)
    else if nsamples =? 0 then (Returns 0, Some gfp)
    else if negb allocated then (Returns (-2), Some gfp)
    else lame_encode_buffer_sample_t nsamples gfp).

Definition lame_encode_buffer := encode_buffer_converted.
Definition lame_encode_buffer_float := encode_buffer_converted.
Definition lame_encode_buffer_int := encode_buffer_converted.
Definition lame_encode_buffer_long2 := encode_buffer_converted.
Definition lame_encode_buffer_long := encode_buffer_converted.

(** [lame_encode_buffer_interleaved] allocates before anything else. *)
Definition lame_encode_buffer_interleaved (nsamples : Z) (allocated : bool)
  (gfp : lame_global_flags) : outcome * handle :=
  if negb allocated then (Returns (-2), Some gfp)
  else lame_encode_buffer_sample_t nsamples gfp.

(** [lame_encode]. *)
Definition lame_encode (allocated : bool) (gfp : lame_global_flags)
  : outcome * handle :=
  with_gfc gfp (fun gfc =>
    if negb (Class_ID gfc =? LAME_ID) then (Returns (-3), Some gfp)
    else lame_encode_buffer (framesize gfp) allocated gfp).

(** [lame_close]: the class id is reset, the internal flags are freed
    and [gfp->internal_flags] becomes NULL; a handle from [lame_init] is
    freed as well. *)
Definition lame_close (gfp : lame_global_flags) : outcome * handle :=
  with_gfc gfp (fun gfc =>
    if negb (Class_ID gfc =? LAME_ID) then (Returns (-3), Some gfp)
    else
      (Returns 0,
       if lame_allocated_gfp gfp then None
       else Some {| internal_flags := None; lame_allocated_gfp := false;
                    framesize := framesize gfp |})).

(** [lame_init_old] up to the fields above: the internal flags come from
    [calloc], so the class id is 0. *)
Definition lame_init_old (e : encoder_state) : lame_global_flags :=
  {| internal_flags := Some {| Class_ID := 0; enc := e |};
     lame_allocated_gfp := false; framesize := 0 |}.

Definition valid (gfp : lame_global_flags) : Prop :=
  exists gfc, internal_flags gfp = Some gfc /\ Class_ID gfc = LAME_ID.

(** The return codes of the checks, for a handle whose internal flags
    are in place. *)
Lemma encode_buffer_return_codes (gfp : lame_global_flags)
  (gfc : lame_internal_flags) (nsamples : Z) (allocated : bool) :
  internal_flags gfp = Some gfc ->
  (Class_ID gfc <> LAME_ID ->
     lame_encode_buffer nsamples allocated gfp = (Returns (-3), Some gfp) /\
     lame_encode_buffer_sample_t nsamples gfp = (Returns (-3), Some gfp) /\
     lame_encode allocated gfp = (Returns (-3), Some gfp) /\
     lame_close gfp = (Returns (-3), Some gfp)) /\
  (Class_ID gfc = LAME_ID ->
     lame_encode_buffer 0 allocated gfp = (Returns 0, Some gfp) /\
     lame_encode_buffer_sample_t 0 gfp = (Returns 0, Some gfp) /\
     (nsamples <> 0 ->
      lame_encode_buffer nsamples false gfp = (Returns (-2), Some gfp)) /\
     fst (lame_close gfp) = Returns 0).
Proof.
  intro E.
  unfold lame_encode, lame_encode_buffer, encode_buffer_converted,
    lame_encode_buffer_sample_t, lame_close, with_gfc.
  rewrite E. split.
  - intro Hne. apply Z.eqb_neq in Hne. rewrite Hne. cbn [negb]. repeat split.
  - intro He. apply Z.eqb_eq in He. rewrite He. cbn [negb Z.eqb fst].
    repeat split. intro Hn. apply Z.eqb_neq in Hn. now rewrite Hn.
Qed.

(** [lame_encode_buffer_interleaved] reports a failed allocation before
    it has looked at the session at all. *)
Lemma interleaved_allocates_first (gfp : lame_global_flags) (nsamples : Z) :
  lame_encode_buffer_interleaved nsamples false gfp = (Returns (-2), Some gfp).
Proof. reflexivity. Qed.

(** C9 at the failing input: after [lame_close] on a valid session a
    further [lame_close] or encode call does not return -3; it reads
    [gfc->Class_ID] through the NULL pointer left in
    [gfp->internal_flags] (or through the freed handle). *)
Theorem call_after_close_is_undefined (gfp : lame_global_flags)
  (nsamples : Z) (allocated : bool) :
  valid gfp ->
  fst (lame_close gfp) = Returns 0 /\
  fst (on_handle (snd (lame_close gfp)) lame_close) = Undefined /\
  fst (on_handle (snd (lame_close gfp)) (lame_encode_buffer nsamples allocated))
  = Undefined /\
  fst (on_handle (snd (lame_close gfp)) (lame_encode_buffer_sample_t nsamples))
  = Undefined.
Proof.
  intros (gfc & E & Hid). apply Z.eqb_eq in Hid.
  assert (Ec : lame_close gfp
               = (Returns 0,
                  if lame_allocated_gfp gfp then None
                  else Some {| internal_flags := None; lame_allocated_gfp := false;
                               framesize := framesize gfp |})).
  { unfold lame_close, with_gfc. rewrite E, Hid. reflexivity. }
  rewrite Ec. cbn [fst snd]. split; [reflexivity|].
  destruct (lame_allocated_gfp gfp); repeat split.
Qed.

End Handle.

Arguments Class_ID {encoder_state}.
Arguments enc {encoder_state}.
Arguments internal_flags {encoder_state}.
Arguments on_handle {encoder_state}.
Arguments lame_close LAME_ID {encoder_state}.
Arguments lame_encode_buffer LAME_ID {encoder_state}.
Arguments lame_encode_buffer_sample_t LAME_ID {encoder_state}.

(** A session set up on the caller's own [lame_global_flags], after
    [lame_init_params] has stamped the class id. *)
Definition LAME_ID_value : Z := 4294479419. (* 0xFFF88E3B *)

Definition open_session : lame_global_flags unit :=
  Build_lame_global_flags unit
    (Some (Build_lame_internal_flags unit LAME_ID_value tt)) false 1152.

(** A handle fresh from [lame_init_old], before [lame_init_params]. *)
Definition fresh_session : lame_global_flags unit :=
  Build_lame_global_flags unit (Some (Build_lame_internal_flags unit 0 tt)) false 0.

Lemma encode_buffer_return_codes_witness :
  lame_encode_buffer LAME_ID_value (fun e n => (0, e)) 1152 true fresh_session
  = (Returns (-3), Some fresh_session).
Proof.
  apply (encode_buffer_return_codes LAME_ID_value unit (fun e n => (0, e))
           fresh_session (Build_lame_internal_flags unit 0 tt) 1152 true eq_refl).
  discriminate.
Defined.

Lemma call_after_close_is_undefined_witness :
  fst (lame_close LAME_ID_value open_session) = Returns 0 /\
  fst (on_handle (snd (lame_close LAME_ID_value open_session))
         (lame_close LAME_ID_value)) = Undefined /\
  fst (on_handle (snd (lame_close LAME_ID_value open_session))
         (lame_encode_buffer LAME_ID_value (fun e n => (0, e)) 1152 true))
  = Undefined /\
  fst (on_handle (snd (lame_close LAME_ID_value open_session))
         (lame_encode_buffer_sample_t LAME_ID_value (fun e n => (0, e)) 1152))
  = Undefined.
Proof.
  apply (call_after_close_is_undefined LAME_ID_value unit (fun e n => (0, e))
           open_session 1152 true).
  exists (Build_lame_internal_flags unit LAME_ID_value tt). split; reflexivity.
Defined.

End Session.

Open Scope R_scope.

(** * quantize.c: further properties of the quantization loops *)

Module QuantizeLoops.

Import BlockType Quantize.

(** *** [bin_search_StepSize] comes back *)

Section BinSearchTermination.

Variable count_bits :
  lame_internal_flags -> (nat -> Z) -> (nat -> R) -> gr_info -> counted.
Variable gfc : lame_internal_flags.
Variable desired_rate : Z.
Variable xrpow : nat -> R.

(** The room left in the direction the search is going. *)
Definition search_room (st : search_state) : Z :=
  match ss_Direction st with
  | BINSEARCH_NONE => 256
  | BINSEARCH_UP => 255 - ss_StepSize st
  | BINSEARCH_DOWN => ss_StepSize st
  end.

(** Once the search has gone over, the step halves at every turn; before
    that the step size walks towards the end of the range. *)
Definition search_measure (st : search_state) : Z :=
  if ss_flag_GoneOver st then ss_CurrentStep st
  else ss_CurrentStep st + 1 + search_room st.

Lemma quot2_bounds (a : Z) : (2 <= a)%Z -> (1 <= Z.quot a 2 < a)%Z.
Proof.
  intro H. rewrite Z.quot_div_nonneg by lia. split.
  - apply Z.div_le_lower_bound; lia.
  - apply Z.div_lt_upper_bound; lia.
Qed.

Lemma bin_search_loop_terminates (fuel : nat) :
  forall st,
    (1 <= ss_CurrentStep st)%Z -> (0 <= ss_StepSize st <= 255)%Z ->
    (search_measure st < Z.of_nat fuel)%Z ->
    exists st', bin_search_loop count_bits fuel gfc desired_rate xrpow st = Some st'.
Proof.
  induction fuel as [|fuel IH]; intros st Hc Hs Hm.
  - unfold search_measure, search_room in Hm.
    destruct (ss_flag_GoneOver st), (ss_Direction st); lia.
  - cbn [bin_search_loop].
    set (c := count_bits gfc (cb_l3enc (ss_counted st)) xrpow
                (set_global_gain (cb_cod (ss_counted st)) (ss_StepSize st))).
    destruct (Z.eqb_spec (ss_CurrentStep st) 1) as [|Hne]; [eexists; reflexivity|].
    assert (Hc2 : (2 <= ss_CurrentStep st)%Z) by lia.
    pose proof (quot2_bounds _ Hc2) as Hq.
    destruct (cb_bits c >? desired_rate)%Z.
    { match goal with
      | |- context [if (ss_StepSize ?s >? 255)%Z then _ else _] => set (st' := s)
      end.
      destruct (Z.gtb_spec (ss_StepSize st') 255) as [|Hin]; [eexists; reflexivity|].
      apply IH; unfold st' in *; clear st'; cbn [ss_CurrentStep ss_StepSize] in *;
        unfold search_measure, search_room in *;
        cbn [ss_flag_GoneOver ss_CurrentStep ss_StepSize ss_Direction] in *;
        destruct (ss_flag_GoneOver st), (ss_Direction st);
        cbn [is_down negb andb] in *; lia. }
    destruct (cb_bits c <? desired_rate)%Z; [|eexists; reflexivity].
    match goal with
    | |- context [if (ss_StepSize ?s <? 0)%Z then _ else _] => set (st' := s)
    end.
    destruct (Z.ltb_spec (ss_StepSize st') 0) as [|Hin]; [eexists; reflexivity|].
    apply IH; unfold st' in *; clear st'; cbn [ss_CurrentStep ss_StepSize] in *;
      unfold search_measure, search_room in *;
      cbn [ss_flag_GoneOver ss_CurrentStep ss_StepSize ss_Direction] in *;
      destruct (ss_flag_GoneOver st), (ss_Direction st);
      cbn [is_up negb andb] in *; lia.
Qed.

(** From a start within 0..255 and a step of at least 1,
    [bin_search_StepSize] returns after at most [CurrentStep + 258] calls
    of [count_bits], whatever the counts are: the loop makes one call for
    each unit of [fuel], and [CurrentStep + 258] units are enough. *)
Theorem bin_search_StepSize_terminates (fuel : nat) (cod_info : gr_info)
  (start : Z) (l3enc : nat -> Z) :
  (1 <= CurrentStep gfc)%Z -> (0 <= start <= 255)%Z ->
  (CurrentStep gfc + 258 <= Z.of_nat fuel)%Z ->
  exists r,
    bin_search_StepSize count_bits fuel gfc cod_info desired_rate start xrpow l3enc
    = Some r.
Proof.
  intros Hc Hs Hf. unfold bin_search_StepSize.
  destruct (bin_search_loop_terminates fuel
              {| ss_counted := {| cb_bits := 0; cb_l3enc := l3enc; cb_cod := cod_info |};
                 ss_CurrentStep := CurrentStep gfc; ss_flag_GoneOver := false;
                 ss_StepSize := start; ss_Direction := BINSEARCH_NONE |})
    as [st' E]; [exact Hc | exact Hs | unfold search_measure, search_room; simpl; lia |].
  rewrite E. eexists. reflexivity.
Qed.

End BinSearchTermination.

Lemma bin_search_StepSize_terminates_witness :
  exists r,
    bin_search_StepSize loud_count_bits 262 sample_gfc sample_cod_info 0 180
      unit_xrpow zero_l3enc = Some r.
Proof.
  apply (bin_search_StepSize_terminates loud_count_bits sample_gfc 0 unit_xrpow 262
           sample_cod_info 180 zero_l3enc); simpl; lia.
Defined.

(** *** [outer_loop] without noise shaping *)

Section FastMode.

Variables SBPSY_s SBMAX_s SBMAX_l : nat.
Variable pretab : nat -> Z.
Variable IPOW20 : Z -> R.
Variables scale_bitcount scale_bitcount_lsf :
  III_scalefac_t -> gr_info -> Z * III_scalefac_t * gr_info.
Variable III_psy_xmin : Type.
Variable calc_noise :
  lame_internal_flags -> (nat -> R) -> (nat -> Z) -> gr_info -> III_psy_xmin ->
  III_scalefac_t -> (nat -> nat -> R) -> calc_noise_result ->
  Z * (nat -> nat -> R) * calc_noise_result.
Variable count_bits :
  lame_internal_flags -> (nat -> Z) -> (nat -> R) -> gr_info -> counted.

(** [count_bits] counts the Huffman bits; the length of the scalefactor
    part is not its business. *)
Hypothesis count_bits_keeps_part2_length :
  forall gfc l3enc xrpow cod,
    part2_length (cb_cod (count_bits gfc l3enc xrpow cod)) = part2_length cod.

Lemma bin_search_loop_part2_length (gfc : lame_internal_flags) (rate : Z)
  (xrpow : nat -> R) (fuel : nat) :
  forall st st',
    bin_search_loop count_bits fuel gfc rate xrpow st = Some st' ->
    part2_length (cb_cod (ss_counted st')) = part2_length (cb_cod (ss_counted st)).
Proof.
  induction fuel as [|fuel IH]; intros st st' H; [discriminate|].
  cbn [bin_search_loop] in H.
  pose proof (count_bits_keeps_part2_length gfc (cb_l3enc (ss_counted st)) xrpow
                (set_global_gain (cb_cod (ss_counted st)) (ss_StepSize st))) as Hp.
  cbn [set_global_gain part2_length] in Hp.
  set (c := count_bits gfc (cb_l3enc (ss_counted st)) xrpow
              (set_global_gain (cb_cod (ss_counted st)) (ss_StepSize st))) in *.
  destruct (ss_CurrentStep st =? 1)%Z.
  { injection H as <-. exact Hp. }
  destruct (cb_bits c >? rate)%Z.
  { match type of H with
    | (if ?b then _ else _) = _ => destruct b
    end.
    - injection H as <-. exact Hp.
    - apply IH in H. cbn [ss_counted] in H. congruence. }
  destruct (cb_bits c <? rate)%Z.
  { match type of H with
    | (if ?b then _ else _) = _ => destruct b
    end.
    - injection H as <-. exact Hp.
    - apply IH in H. cbn [ss_counted] in H. congruence. }
  injection H as <-. exact Hp.
Qed.

Lemma inner_loop_while_result (gfc : lame_internal_flags) (max_bits : Z)
  (xrpow : nat -> R) (fuel : nat) :
  forall c c',
    inner_loop_while count_bits fuel gfc max_bits xrpow c = Some c' ->
    (cb_bits c' <= max_bits)%Z /\
    part2_length (cb_cod c') = part2_length (cb_cod c).
Proof.
  induction fuel as [|fuel IH]; intros c c' H; cbn [inner_loop_while] in H;
    destruct (Z.gtb_spec (cb_bits c) max_bits) as [Hgt|Hle]; try discriminate.
  - injection H as <-. split; [exact Hle | reflexivity].
  - apply IH in H. destruct H as [Hb Hp]. split; [exact Hb|].
    rewrite Hp, count_bits_keeps_part2_length. reflexivity.
  - injection H as <-. split; [exact Hle | reflexivity].
Qed.

(** The first turn of the main loop in fast mode. *)
Lemma outer_iteration_fast (fuel : nat) (gfc : lame_internal_flags)
  (xr : nat -> R) (l3_xmin : III_psy_xmin) (targ_bits bits_found : Z)
  (st st' : outer_state) (go_on : bool) :
  noise_shaping gfc = 0%Z ->
  (part2_length (os_cod st) <= targ_bits)%Z ->
  outer_iteration SBPSY_s SBMAX_s pretab IPOW20 scale_bitcount scale_bitcount_lsf
    SBMAX_l III_psy_xmin calc_noise count_bits fuel gfc xr l3_xmin targ_bits
    bits_found st = Some (st', go_on) ->
  go_on = false /\
  (part2_3_length (os_cod st') + part2_length (os_cod st') <= targ_bits)%Z /\
  os_scalefac st' = os_scalefac st /\ os_xrpow st' = os_xrpow st /\
  os_copy st' = false /\
  os_best_noise_info st' = os_noise_info st.
Proof.
  intros Hfast Hp2 H. unfold outer_iteration in H.
  destruct (Z.ltb_spec (targ_bits - part2_length (os_cod st)) 0) as [|_]; [lia|].
  match type of H with
  | match ?q with Some _ => _ | None => _ end = _ =>
      destruct q as [c2|] eqn:Eq; [|discriminate]
  end.
  rewrite Hfast in H. cbn [Z.eqb] in H. cbv iota in H.
  injection H as <- <-.
  cbn [os_cod os_scalefac os_xrpow os_copy os_best_noise_info
       set_part2_3_length part2_3_length part2_length].
  assert (Hc2 : (cb_bits c2 <= targ_bits - part2_length (os_cod st))%Z /\
                part2_length (cb_cod c2) = part2_length (os_cod st)).
  { destruct (os_iteration st + 1 =? 1)%Z.
    - destruct (Z.gtb_spec bits_found (targ_bits - part2_length (os_cod st))).
      + unfold inner_loop in Eq. apply inner_loop_while_result in Eq.
        destruct Eq as [Eq1 Eq2]. split; [exact Eq1|].
        rewrite Eq2, count_bits_keeps_part2_length. reflexivity.
      + injection Eq as <-. cbn [cb_bits cb_cod]. split; [lia | reflexivity].
    - unfold inner_loop in Eq. apply inner_loop_while_result in Eq.
      destruct Eq as [Eq1 Eq2]. split; [exact Eq1|].
      rewrite Eq2, count_bits_keeps_part2_length. reflexivity. }
  destruct Hc2 as [Hb Hp]. rewrite Hp. repeat split. lia.
Qed.

Local Abbreviation outer :=
  (outer_loop SBPSY_s SBMAX_s pretab IPOW20 scale_bitcount scale_bitcount_lsf
     SBMAX_l III_psy_xmin calc_noise count_bits).

(** In fast mode ([gfc->noise_shaping] 0) a call of [outer_loop] that
    returns has quantized once: the bits of the granule,
    [part2_3_length], fit the target, the scalefactors and [xrpow] are
    the ones that came in, and the value returned is the initial
    over-count 100. *)
Theorem outer_loop_fast_mode_fits (fuel : nat) (gfc : lame_internal_flags)
  (cod_info : gr_info) (xr : nat -> R) (l3_xmin : III_psy_xmin)
  (scalefac : III_scalefac_t) (xrpow : nat -> R) (l3enc : nat -> Z) (ch : nat)
  (targ_bits : Z) (locals : outer_state) (o : outer_result) :
  noise_shaping gfc = 0%Z ->
  (part2_length cod_info <= targ_bits)%Z ->
  outer fuel gfc cod_info xr l3_xmin scalefac xrpow l3enc ch targ_bits locals = Some o ->
  (part2_3_length (ol_cod o) <= targ_bits)%Z /\
  ol_scalefac o = scalefac /\ ol_xrpow o = xrpow /\ ol_ret o = 100%Z.
Proof.
  intros Hfast Hp2 H. unfold outer_loop in H.
  destruct (bin_search_StepSize count_bits fuel gfc cod_info targ_bits
              (OldValue gfc ch) xrpow (os_l3_enc_w locals)) as [[gfc1 c]|] eqn:Eb;
    [|discriminate].
  assert (Hc : part2_length (cb_cod c) = part2_length cod_info /\
               noise_shaping gfc1 = 0%Z).
  { unfold bin_search_StepSize in Eb.
    destruct (bin_search_loop count_bits fuel gfc targ_bits xrpow _) as [st|] eqn:El;
      [|discriminate].
    injection Eb as <- <-. apply bin_search_loop_part2_length in El.
    split; [exact El | exact Hfast]. }
  destruct Hc as [Hc Hg].
  match type of H with
  | match ?m with Some _ => _ | None => _ end = _ =>
      destruct m as [st|] eqn:Em; [|discriminate]
  end.
  destruct fuel as [|fuel']; [discriminate|].
  cbn [outer_main_loop] in Em.
  match type of Em with
  | match ?m with Some _ => _ | None => _ end = _ =>
      destruct m as [[st1 go_on]|] eqn:Ei; [|discriminate]
  end.
  apply outer_iteration_fast in Ei; [|exact Hg | cbn [os_cod]; lia].
  destruct Ei as (-> & Hfit & Hsf & Hx & Hcopy & Hbest).
  injection Em as <-. injection H as <-.
  cbn [ol_cod ol_scalefac ol_xrpow ol_ret]. rewrite Hcopy. cbn [andb]. cbv iota.
  cbn [set_part2_3_length part2_3_length]. rewrite Hsf, Hx, Hbest.
  cbn [os_scalefac os_xrpow os_noise_info over_count].
  repeat split. exact Hfit.
Qed.

End FastMode.

(** *** [inc_subblock_gain] *)

Section SubblockGain.

Variables SBPSY_s SBMAX_s : nat.
Variable IPOW20 : Z -> R.
Variable gfc : lame_internal_flags.

Local Abbreviation window_step := (inc_subblock_gain_window SBPSY_s SBMAX_s IPOW20 gfc).

Lemma max_scalefac_below (s : nat -> nat -> Z) (window : nat) (B : Z) (n : nat) :
  forall lo m,
    (m < B)%Z ->
    (forall sfb, (lo <= sfb < lo + n)%nat -> (s sfb window < B)%Z) ->
    (for_loop (fun m sfb => if (m <? s sfb window)%Z then s sfb window else m) lo n m
     < B)%Z.
Proof.
  induction n as [|n IH]; intros lo m Hm H; simpl; [exact Hm|].
  apply IH.
  - destruct (m <? s lo window)%Z; [apply H; lia | exact Hm].
  - intros sfb Hs. apply H. lia.
Qed.

(** When no scalefactor of a short block has outgrown its field (16 for
    the bands below 6, 8 from band 6 on), [inc_subblock_gain] changes
    nothing and returns 0. *)
Theorem inc_subblock_gain_nothing_to_do (cod_info : gr_info)
  (scalefac : III_scalefac_t) (xrpow : nat -> R) :
  (forall sfb w, (w < 3)%nat -> (sfb < 6)%nat -> (sf_s scalefac sfb w < 16)%Z) ->
  (forall sfb w, (w < 3)%nat -> (6 <= sfb < SBPSY_s)%nat ->
     (sf_s scalefac sfb w < 8)%Z) ->
  inc_subblock_gain SBPSY_s SBMAX_s IPOW20 gfc cod_info scalefac xrpow
  = {| bn_ret := 0; bn_cod := cod_info; bn_scalefac := scalefac; bn_xrpow := xrpow |}.
Proof.
  intros H16 H8. unfold inc_subblock_gain.
  assert (Hstep : forall w, (w < 3)%nat ->
            window_step {| bn_ret := 0; bn_cod := cod_info; bn_scalefac := scalefac;
                           bn_xrpow := xrpow |} w
            = {| bn_ret := 0; bn_cod := cod_info; bn_scalefac := scalefac;
                 bn_xrpow := xrpow |}).
  { intros w Hw. unfold inc_subblock_gain_window. cbn [bn_ret bn_cod bn_scalefac Z.eqb].
    unfold max_scalefac.
    pose proof (max_scalefac_below (sf_s scalefac) w 16 (6 - sfb_smin cod_info)
                  (sfb_smin cod_info) 0 ltac:(lia)) as H1.
    pose proof (max_scalefac_below (sf_s scalefac) w 8
                  (SBPSY_s - Nat.max (sfb_smin cod_info) 6)
                  (Nat.max (sfb_smin cod_info) 6) 0 ltac:(lia)) as H2.
    apply Z.ltb_lt in H1; [|intros sfb Hs; apply H16; lia].
    apply Z.ltb_lt in H2; [|intros sfb Hs; apply H8; lia].
    rewrite H1, H2. reflexivity. }
  cbn [for_loop]. rewrite !Hstep by lia. reflexivity.
Qed.

(** Whatever the scalefactors are, one call raises the subblock gain of
    a window by 0 or 1 and touches nothing but the three windows; it
    returns 0 or 1, and 1 only when a window that needs more gain already
    stands above 7.  The long scalefactors, the global gain and
    [scalefac_scale] are left alone. *)
Theorem inc_subblock_gain_one_step (cod_info : gr_info) (scalefac : III_scalefac_t)
  (xrpow : nat -> R) :
  let r := inc_subblock_gain SBPSY_s SBMAX_s IPOW20 gfc cod_info scalefac xrpow in
  (bn_ret r = 0%Z \/ bn_ret r = 1%Z) /\
  (forall w, (subblock_gain cod_info w <= subblock_gain (bn_cod r) w
              <= subblock_gain cod_info w + 1)%Z) /\
  (forall w, (3 <= w)%nat -> subblock_gain (bn_cod r) w = subblock_gain cod_info w) /\
  (bn_ret r = 1%Z -> exists w, (w < 3)%nat /\ (subblock_gain cod_info w > 7)%Z) /\
  sf_l (bn_scalefac r) = sf_l scalefac /\
  global_gain (bn_cod r) = global_gain cod_info /\
  scalefac_scale (bn_cod r) = scalefac_scale cod_info.
Proof.
  unfold inc_subblock_gain.
  refine (for_loop_ind
    (fun j st =>
       (bn_ret st = 0%Z \/ bn_ret st = 1%Z) /\
       (forall w, (subblock_gain cod_info w <= subblock_gain (bn_cod st) w
                   <= subblock_gain cod_info w + 1)%Z) /\
       (forall w, (j <= w)%nat -> subblock_gain (bn_cod st) w = subblock_gain cod_info w) /\
       (bn_ret st = 1%Z -> exists w, (w < j)%nat /\ (subblock_gain cod_info w > 7)%Z) /\
       sf_l (bn_scalefac st) = sf_l scalefac /\
       global_gain (bn_cod st) = global_gain cod_info /\
       scalefac_scale (bn_cod st) = scalefac_scale cod_info)
    window_step 3 0 _ _ _).
  - cbn [bn_ret bn_cod bn_scalefac]. split; [now left|].
    split; [intro w; lia|]. split; [reflexivity|].
    split; [discriminate|]. repeat split.
  - intros i st Hi (Hret & Hrange & Hrest & Hone & Hl & Hg & Hsc).
    unfold inc_subblock_gain_window.
    destruct (Z.eqb_spec (bn_ret st) 1) as [E1|N1].
    { split; [exact Hret|]. split; [exact Hrange|].
      split; [intros w Hw; apply Hrest; lia|].
      split; [|repeat split; assumption].
      intros _. destruct (Hone E1) as (w & Hw & Hgt). exists w. split; [lia | exact Hgt]. }
    destruct ((max_scalefac _ _ _ _ <? 16)%Z && (max_scalefac _ _ _ _ <? 8)%Z).
    { split; [exact Hret|]. split; [exact Hrange|].
      split; [intros w Hw; apply Hrest; lia|].
      split; [|repeat split; assumption].
      intros E. contradiction. }
    destruct (Z.gtb_spec (subblock_gain (bn_cod st) i) 7) as [Hgt|Hle].
    { cbn [bn_ret bn_cod bn_scalefac]. split; [now right|]. split; [exact Hrange|].
      split; [intros w Hw; apply Hrest; lia|].
      split; [|repeat split; assumption].
      intros _. exists i. split; [lia|]. rewrite <- (Hrest i) by lia. lia. }
    cbn [bn_ret bn_cod bn_scalefac set_subblock_gain subblock_gain sf_l global_gain
         scalefac_scale].
    split; [now left|]. split; [|split; [|split; [discriminate | repeat split; assumption]]].
    + intro w. unfold incr, upd. destruct (Nat.eqb_spec w i) as [->|Hne].
      * rewrite (Hrest i) by lia. lia.
      * apply Hrange.
    + intros w Hw. unfold incr, upd. destruct (Nat.eqb_spec w i) as [->|Hne]; [lia|].
      apply Hrest. lia.
Qed.

End SubblockGain.

(** *** [balance_noise] *)

Section BalanceNoise.

Variables SBPSY_s SBMAX_s : nat.
Variable pretab : nat -> Z.
Variable IPOW20 : Z -> R.
Variables scale_bitcount scale_bitcount_lsf :
  III_scalefac_t -> gr_info -> Z * III_scalefac_t * gr_info.
Variable gfc : lame_internal_flags.

Local Abbreviation count_here :=
  (count_scalefac_bits scale_bitcount scale_bitcount_lsf gfc).

(** [balance_noise] answers 0 or 1.  It answers 1, "go on", only with
    scalefactors that the bit counter for them ([scale_bitcount] or
    [scale_bitcount_lsf], by the MPEG version) has just accepted: its
    last call returned 0 and left the scalefactors and the granule that
    [balance_noise] hands back.  When every band is amplified after the
    amplification step it answers 0 and the granule is as it came
    in. *)
Theorem balance_noise_goes_on_with_counted_scalefactors (cod_info : gr_info)
  (scalefac : III_scalefac_t) (distort : nat -> nat -> R) (xrpow : nat -> R) :
  let r := balance_noise SBPSY_s SBMAX_s pretab IPOW20 scale_bitcount
             scale_bitcount_lsf gfc cod_info scalefac distort xrpow in
  (bn_ret r = 0%Z \/ bn_ret r = 1%Z) /\
  (bn_ret r = 1%Z ->
   exists sf cod, count_here sf cod = (0%Z, bn_scalefac r, bn_cod r)) /\
  (loop_break SBPSY_s cod_info
     (fst (amp_scalefac_bands gfc cod_info scalefac distort xrpow)) <> 0%Z ->
   bn_ret r = 0%Z /\ bn_cod r = cod_info).
Proof.
  intro r. unfold r, balance_noise.
  destruct (amp_scalefac_bands gfc cod_info scalefac distort xrpow) as [sf1 x1].
  cbn [fst].
  destruct (Z.eqb_spec (loop_break SBPSY_s cod_info sf1) 0) as [Hlb|Hlb];
    cbn [negb].
  2:{ cbn [bn_ret bn_cod]. split; [now left|]. split; [discriminate|].
      intros _. split; reflexivity. }
  destruct (count_here sf1 cod_info) as [[status sf2] cod2] eqn:E1.
  destruct (Z.eqb_spec status 0) as [Hs|Hs].
  { cbn [bn_ret bn_cod bn_scalefac]. split; [now right|].
    split; [|intro; contradiction].
    intros _. exists sf1, cod_info. rewrite E1, Hs. reflexivity. }
  match goal with
  | |- context [if (bn_ret ?x =? 0)%Z
                then count_scalefac_bits _ _ _ _ _ else _] =>
      set (mid := x)
  end.
  destruct (Z.eqb_spec (bn_ret mid) 0) as [Hm|Hm].
  - destruct (count_here (bn_scalefac mid) (bn_cod mid)) as [[st3 sf3] cod3] eqn:E3.
    cbn [bn_ret bn_cod bn_scalefac].
    destruct (Z.eqb_spec st3 0) as [H3|H3].
    + split; [now right|]. split; [|intro; contradiction].
      intros _. exists (bn_scalefac mid), (bn_cod mid). rewrite E3, H3. reflexivity.
    + split; [now left|]. split; [discriminate|intro; contradiction].
  - cbn [bn_ret bn_cod bn_scalefac].
    destruct (Z.eqb_spec (bn_ret mid) 0) as [|_]; [contradiction|].
    split; [now left|]. split; [discriminate|intro; contradiction].
Qed.

End BalanceNoise.

(** *** [amp_scalefac_bands] *)

Section Amplification.

Variable gfc : lame_internal_flags.
Variable cod_info : gr_info.
Variable distort : nat -> nat -> R.

Definition grows_by_0_or_1 (a b : Z) : Prop := b = a \/ b = (a + 1)%Z.

Lemma amp_long_loop (thresh ifq : R) (k n lo : nat) (st : (nat -> Z) * (nat -> R)) :
  grows_by_0_or_1 (fst st k)
    (fst (for_loop (amp_long_step gfc distort thresh ifq) lo n st) k).
Proof.
  pose proof (for_loop_view (amp_long_step gfc distort thresh ifq)
                (fun st => fst st k)
                (fun v => if Rgt_dec (distort 0%nat k) thresh then (v + 1)%Z else v) k)
    as H.
  rewrite H.
  - destruct ((lo <=? k)%nat && (k <? lo + n)%nat); [|now left].
    destruct (Rgt_dec (distort 0%nat k) thresh); [now right | now left].
  - intros s c Hc. unfold amp_long_step.
    destruct (Rgt_dec (distort 0%nat c) thresh); [|reflexivity].
    cbn [fst]. unfold incr. now apply upd_other.
  - intros s. unfold amp_long_step.
    destruct (Rgt_dec (distort 0%nat k) thresh); [|reflexivity].
    cbn [fst]. unfold incr. apply upd_same.
Qed.

Lemma amp_short_windows (thresh ifq : R) (sfb k i : nat) (width : Z) (n lo : nat)
  (st : short_amp) :
  sa_s (for_loop (amp_short_window distort thresh ifq sfb width) lo n st) k i
  = if (k =? sfb)%nat && ((lo <=? i)%nat && (i <? lo + n)%nat)
    then (if Rgt_dec (distort (i + 1)%nat sfb) thresh
          then (sa_s st k i + 1)%Z else sa_s st k i)
    else sa_s st k i.
Proof.
  destruct (Nat.eqb_spec k sfb) as [->|Hne]; cbn [andb].
  - apply (for_loop_view (amp_short_window distort thresh ifq sfb width)
             (fun st => sa_s st sfb i)
             (fun v => if Rgt_dec (distort (i + 1)%nat sfb) thresh
                       then (v + 1)%Z else v) i).
    + intros s c Hc. unfold amp_short_window.
      destruct (Rgt_dec (distort (c + 1)%nat sfb) thresh); [|reflexivity].
      cbn [sa_s]. unfold incr2. rewrite upd_same. now apply upd_other.
    + intros s. unfold amp_short_window.
      destruct (Rgt_dec (distort (i + 1)%nat sfb) thresh); [|reflexivity].
      cbn [sa_s]. unfold incr2. now rewrite !upd_same.
  - apply (for_loop_frame (amp_short_window distort thresh ifq sfb width)
             (fun st => sa_s st k i)).
    intros s c. unfold amp_short_window.
    destruct (Rgt_dec (distort (c + 1)%nat sfb) thresh); [|reflexivity].
    cbn [sa_s]. unfold incr2. now rewrite upd_other by assumption.
Qed.

Lemma amp_short_loop (thresh ifq : R) (k i n lo : nat) (st : short_amp) :
  grows_by_0_or_1 (sa_s st k i)
    (sa_s (for_loop (amp_short_step gfc distort thresh ifq) lo n st) k i).
Proof.
  pose proof (for_loop_view (amp_short_step gfc distort thresh ifq)
                (fun st => sa_s st k i)
                (fun v => if (0 <=? i)%nat && (i <? 0 + 3)%nat
                          then (if Rgt_dec (distort (i + 1)%nat k) thresh
                                then (v + 1)%Z else v)
                          else v) k) as H.
  rewrite H.
  - destruct ((lo <=? k)%nat && (k <? lo + n)%nat); [|now left].
    destruct ((0 <=? i)%nat && (i <? 0 + 3)%nat); [|now left].
    destruct (Rgt_dec (distort (i + 1)%nat k) thresh); [now right | now left].
  - intros s c Hc. unfold amp_short_step. rewrite amp_short_windows.
    destruct (Nat.eqb_spec k c); [congruence | reflexivity].
  - intros s. unfold amp_short_step. rewrite amp_short_windows.
    now rewrite Nat.eqb_refl.
Qed.

(** One call of [amp_scalefac_bands] raises a scalefactor by 1 or leaves
    it: no band is amplified twice, none is lowered. *)
Theorem amp_scalefac_bands_one_step (scalefac : III_scalefac_t) (xrpow : nat -> R) :
  (forall sfb,
     grows_by_0_or_1 (sf_l scalefac sfb)
       (sf_l (fst (amp_scalefac_bands gfc cod_info scalefac distort xrpow)) sfb)) /\
  (forall sfb i,
     grows_by_0_or_1 (sf_s scalefac sfb i)
       (sf_s (fst (amp_scalefac_bands gfc cod_info scalefac distort xrpow)) sfb i)).
Proof.
  unfold amp_scalefac_bands.
  destruct (nsPsy_use gfc
            && (vbr_mode_eqb (VBR gfc) vbr_off || vbr_mode_eqb (VBR gfc) vbr_abr)).
  - set (wl := for_loop (worst_long_step distort _) 0 (sfb_lmax cod_info) _).
    set (ws := for_loop (worst_short_step gfc distort _) _ _ _).
    assert (Hl : forall sfb,
              grows_by_0_or_1 (sf_l scalefac sfb)
                ((if (fst wl =? -1)%Z then sf_l scalefac
                  else incr (sf_l scalefac) (Z.to_nat (fst wl))) sfb)).
    { intro sfb. destruct (fst wl =? -1)%Z; [now left|].
      unfold incr, upd. destruct (sfb =? Z.to_nat (fst wl))%nat eqn:E; [|now left].
      apply Nat.eqb_eq in E. subst sfb. now right. }
    destruct (fst wl =? -1)%Z; destruct (ws_asfb ws =? -1)%Z; cbn [fst sf_l sf_s];
      (split; [exact Hl | intros sfb i]); try (now left);
      unfold incr2, upd;
      destruct (Nat.eqb_spec sfb (Z.to_nat (ws_asfb ws))) as [->|]; try (now left);
      (destruct (Nat.eqb_spec i (ws_ablk ws)) as [->|]; [now right | now left]).
  - pose proof (amp_long_loop (distort_threshold cod_info distort)
                  (ifqstep34_of cod_info)) as Hl.
    destruct (for_loop (amp_long_step gfc distort _ _) 0 (sfb_lmax cod_info)
                (sf_l scalefac, xrpow)) as [l1 x1] eqn:El.
    cbn [fst sf_l sf_s]. split.
    + intro sfb. specialize (Hl sfb (sfb_lmax cod_info) 0%nat (sf_l scalefac, xrpow)).
      rewrite El in Hl. exact Hl.
    + intros sfb i.
      apply (amp_short_loop _ _ sfb i _ _
               {| sa_j := 0; sa_s := sf_s scalefac; sa_xrpow := x1 |}).
Qed.

End Amplification.

(** *** [inc_scalefac_scale] *)

Section ScalefacScale.

Variable SBPSY_s : nat.
Variable pretab : nat -> Z.
Variable gfc : lame_internal_flags.
Variable cod_info : gr_info.

(** Odd values are first made even, then all are shifted right by 1:
    halving, rounded up. *)
Lemma halve_round_up (s : Z) :
  Z.shiftr (if Z.odd s then (s + 1)%Z else s) 1 = ((s + 1) / 2)%Z.
Proof.
  rewrite Z.shiftr_div_pow2 by lia. change (2 ^ 1)%Z with 2%Z.
  destruct (Z.odd s) eqn:E; [reflexivity|].
  rewrite <- Z.negb_even in E. apply negb_false_iff, Z.even_spec in E.
  destruct E as [m ->].
  rewrite (Z.mul_comm 2 m), Z.div_mul by lia.
  rewrite Z.div_add_l by lia. change (1 / 2)%Z with 0%Z. lia.
Qed.

(** What [pretab] adds: the loop clears [preflag] in its first turn, so
    only band 0 sees it. *)
Definition pretab_seen (sfb : nat) : Z :=
  if (sfb =? 0)%nat && negb (preflag cod_info =? 0)%Z then pretab sfb else 0%Z.

Lemma inc_scale_long_loop (l : nat -> Z) (xrpow : nat -> R) (n : nat) :
  let r := for_loop (inc_scale_long_step pretab gfc) 0 n
             {| lsc_preflag := preflag cod_info; lsc_l := l; lsc_xrpow := xrpow |} in
  lsc_preflag r = (if (n =? 0)%nat then preflag cod_info else 0%Z) /\
  forall k, lsc_l r k
            = if (k <? n)%nat then ((l k + pretab_seen k + 1) / 2)%Z else l k.
Proof.
  refine (for_loop_ind
    (fun j st =>
       lsc_preflag st = (if (j =? 0)%nat then preflag cod_info else 0%Z) /\
       forall k, lsc_l st k
                 = if (k <? j)%nat then ((l k + pretab_seen k + 1) / 2)%Z else l k)
    (inc_scale_long_step pretab gfc) n 0 _ _ _).
  - cbn [lsc_preflag lsc_l]. split; reflexivity.
  - intros i st _ [Hp Hl]. unfold inc_scale_long_step. cbn [lsc_preflag lsc_l].
    split; [reflexivity|]. intro k. unfold upd.
    destruct (Nat.eqb_spec k i) as [->|Hne].
    + rewrite (proj2 (Nat.ltb_lt i (S i))) by lia.
      rewrite halve_round_up. f_equal. f_equal.
      rewrite Hl, Nat.ltb_irrefl, Hp. unfold pretab_seen.
      destruct (Nat.eqb_spec i 0) as [->|]; cbn [andb].
      * destruct (preflag cod_info =? 0)%Z; reflexivity.
      * reflexivity.
    + rewrite Hl.
      destruct (Nat.ltb_spec k i), (Nat.ltb_spec k (S i)); try reflexivity; lia.
Qed.

Lemma inc_scale_short_windows (sfb k i : nat) (width : Z) (n lo : nat)
  (st : short_amp) :
  sa_s (for_loop (inc_scale_short_window sfb width) lo n st) k i
  = if (k =? sfb)%nat && ((lo <=? i)%nat && (i <? lo + n)%nat)
    then ((sa_s st k i + 1) / 2)%Z else sa_s st k i.
Proof.
  destruct (Nat.eqb_spec k sfb) as [->|Hne]; cbn [andb].
  - apply (for_loop_view (inc_scale_short_window sfb width)
             (fun st => sa_s st sfb i) (fun v => ((v + 1) / 2)%Z) i).
    + intros s c Hc. unfold inc_scale_short_window. cbn [sa_s].
      unfold set2. rewrite upd_same. now apply upd_other.
    + intros s. unfold inc_scale_short_window. cbn [sa_s].
      unfold set2. rewrite !upd_same. apply halve_round_up.
  - apply (for_loop_frame (inc_scale_short_window sfb width) (fun st => sa_s st k i)).
    intros s c. unfold inc_scale_short_window. cbn [sa_s].
    unfold set2. now rewrite upd_other by assumption.
Qed.

Lemma inc_scale_short_loop (k i n lo : nat) (st : short_amp) :
  sa_s (for_loop (inc_scale_short_step gfc) lo n st) k i
  = if ((lo <=? k)%nat && (k <? lo + n)%nat) && (i <? 3)%nat
    then ((sa_s st k i + 1) / 2)%Z else sa_s st k i.
Proof.
  rewrite (for_loop_view (inc_scale_short_step gfc) (fun st => sa_s st k i)
             (fun v => if (i <? 3)%nat then ((v + 1) / 2)%Z else v) k).
  - destruct ((lo <=? k)%nat && (k <? lo + n)%nat), (i <? 3)%nat; reflexivity.
  - intros s c Hc. unfold inc_scale_short_step. rewrite inc_scale_short_windows.
    destruct (Nat.eqb_spec k c); [congruence | reflexivity].
  - intros s. unfold inc_scale_short_step. rewrite inc_scale_short_windows.
    rewrite Nat.eqb_refl. reflexivity.
Qed.

(** [inc_scalefac_scale] switches [scalefac_scale] on and halves every
    scalefactor in range, rounding up: the long ones below [sfb_lmax]
    (with [pretab] folded in for band 0 only, when [preflag] was set),
    the short ones from [sfb_smin] to [SBPSY_s - 1] in the three
    windows.  The others are untouched, and [preflag] is cleared as soon
    as there is a long band. *)
Theorem inc_scalefac_scale_halves (scalefac : III_scalefac_t) (xrpow : nat -> R) :
  let r := inc_scalefac_scale SBPSY_s pretab gfc cod_info scalefac xrpow in
  scalefac_scale (bn_cod r) = 1%Z /\
  preflag (bn_cod r) = (if (sfb_lmax cod_info =? 0)%nat then preflag cod_info else 0%Z) /\
  (forall sfb,
     sf_l (bn_scalefac r) sfb
     = if (sfb <? sfb_lmax cod_info)%nat
       then ((sf_l scalefac sfb + pretab_seen sfb + 1) / 2)%Z
       else sf_l scalefac sfb) /\
  (forall sfb i,
     sf_s (bn_scalefac r) sfb i
     = if ((sfb_smin cod_info <=? sfb)%nat
           && (sfb <? sfb_smin cod_info + (SBPSY_s - sfb_smin cod_info))%nat)
          && (i <? 3)%nat
       then ((sf_s scalefac sfb i + 1) / 2)%Z
       else sf_s scalefac sfb i).
Proof.
  intro r. unfold r, inc_scalefac_scale.
  destruct (inc_scale_long_loop (sf_l scalefac) xrpow (sfb_lmax cod_info)) as [Hp Hl].
  cbv zeta in Hp, Hl.
  cbn [bn_cod bn_scalefac set_scalefac_scale set_preflag scalefac_scale preflag
       sf_l sf_s].
  split; [reflexivity|]. split; [exact Hp|]. split; [exact Hl|].
  intros sfb i. apply inc_scale_short_loop.
Qed.

End ScalefacScale.

(** *** [quant_compare] *)

Definition noise_less (x y : calc_noise_result) : Prop :=
  (over_count x < over_count y)%Z
  \/ (over_count x = over_count y /\ over_noise x < over_noise y)
  \/ (over_count x = over_count y /\ over_noise x = over_noise y
      /\ tot_noise x < tot_noise y).

Lemma quant_compare_0_spec (best calc : calc_noise_result) :
  quant_compare 0 best calc = true <-> noise_less calc best.
Proof.
  unfold quant_compare, noise_less, Rltb, Reqb.
  destruct (Z.ltb_spec (over_count calc) (over_count best)),
           (Z.eqb_spec (over_count calc) (over_count best)),
           (Rlt_dec (over_noise calc) (over_noise best)),
           (Req_dec_T (over_noise calc) (over_noise best)),
           (Rlt_dec (tot_noise calc) (tot_noise best));
    cbn [orb andb]; split; intro Hq; try reflexivity; try discriminate;
    try (left; lia); try (right; left; split; [lia | lra]);
    try (right; right; split; [lia | split; lra]);
    try (exfalso; destruct Hq as [Hq | [[Hq1 Hq2] | [Hq1 [Hq2 Hq3]]]]; (lia || lra)).
Qed.

(** With [experimentalX] 0 the comparison is the strict lexicographic
    order on (over_count, over_noise, tot_noise): no quantization is
    better than itself, two are never each better than the other, and
    "better" carries over. *)
Theorem quant_compare_strict_order :
  (forall a, quant_compare 0 a a = false) /\
  (forall best calc,
     quant_compare 0 best calc = true -> quant_compare 0 calc best = false) /\
  (forall a b c,
     quant_compare 0 a b = true -> quant_compare 0 b c = true ->
     quant_compare 0 a c = true).
Proof.
  split; [|split].
  - intro a. apply not_true_is_false. rewrite quant_compare_0_spec.
    unfold noise_less. intros [Hq | [[Hq1 Hq2] | [Hq1 [Hq2 Hq3]]]]; lia || lra.
  - intros best calc Hq. apply not_true_is_false.
    rewrite quant_compare_0_spec in *. unfold noise_less in *.
    intros [Hp | [[Hp1 Hp2] | [Hp1 [Hp2 Hp3]]]];
      destruct Hq as [Hq | [[Hq1 Hq2] | [Hq1 [Hq2 Hq3]]]]; lia || lra.
  - intros a b c Hab Hbc. rewrite quant_compare_0_spec in *. unfold noise_less in *.
    destruct Hab as [Hp | [[Hp1 Hp2] | [Hp1 [Hp2 Hp3]]]];
      destruct Hbc as [Hq | [[Hq1 Hq2] | [Hq1 [Hq2 Hq3]]]];
      first [ left; lia
            | right; left; split; [lia | lra]
            | right; right; split; [lia | split; lra] ].
Qed.

(** *** The theorems at concrete inputs *)

(** [outer_loop] in fast mode with 100 bits to spend on the loud granule,
    whose count is 100 at every gain below 256. *)
Definition fast_call : option outer_result :=
  outer_loop 12 13 (fun _ => 0%Z) (fun _ => 1) idle_scale_bitcount
    idle_scale_bitcount 22 unit idle_calc_noise loud_count_bits
    40 sample_gfc sample_cod_info unit_xrpow tt zero_scalefac unit_xrpow
    zero_l3enc 0 100 blank_locals.

Lemma outer_loop_fast_mode_fits_witness :
  match fast_call with
  | Some o =>
      (part2_3_length (ol_cod o) <= 100)%Z /\
      ol_scalefac o = zero_scalefac /\ ol_xrpow o = unit_xrpow /\ ol_ret o = 100%Z
  | None => False
  end.
Proof.
  destruct fast_call as [o|] eqn:E.
  - apply (outer_loop_fast_mode_fits 12 13 22 (fun _ => 0%Z) (fun _ => 1)
             idle_scale_bitcount idle_scale_bitcount unit idle_calc_noise
             loud_count_bits (fun _ _ _ _ => eq_refl) 40 sample_gfc sample_cod_info
             unit_xrpow tt zero_scalefac unit_xrpow zero_l3enc 0%nat 100 blank_locals o).
    + reflexivity.
    + simpl. lia.
    + exact E.
  - vm_compute in E. discriminate.
Defined.

Lemma inc_subblock_gain_nothing_to_do_witness :
  inc_subblock_gain 12 13 (fun _ => 1) sample_gfc short_cod_info zero_scalefac
    unit_xrpow
  = {| bn_ret := 0; bn_cod := short_cod_info; bn_scalefac := zero_scalefac;
       bn_xrpow := unit_xrpow |}.
Proof.
  apply (inc_subblock_gain_nothing_to_do 12 13 (fun _ => 1) sample_gfc).
  - intros sfb w _ _. simpl. lia.
  - intros sfb w _ _. simpl. lia.
Defined.

End QuantizeLoops.

(** * psymodel.c: further properties of the long-block masking *)

Module MaskingFacts.

Import BlockType MaskAdd Masking.

(** *** [calc_energy] *)

Lemma energy_line_bounds (fftenergy : nat -> R) (j0 n : nat) :
  (forall j, 0 <= fftenergy j) ->
  forall lo acc (c : nat),
    0 <= snd acc <= fst acc -> fst acc <= INR c * snd acc ->
    let r := for_loop (energy_line fftenergy j0) lo n acc in
    0 <= snd r <= fst r /\ fst r <= INR (c + n) * snd r.
Proof.
  intro Hf. induction n as [|n IH]; intros lo acc c H1 H2; simpl.
  - rewrite Nat.add_0_r. split; assumption.
  - replace (c + S n)%nat with (S c + n)%nat by lia.
    apply IH; unfold energy_line; cbn [fst snd];
      pose proof (Hf (j0 + lo)%nat) as Hel; rewrite ?S_INR;
      pose proof (pos_INR c) as Hc;
      destruct (Rlt_dec (snd acc) (fftenergy (j0 + lo)%nat)); nra.
Qed.

(** For a spectrum that is not negative, [calc_energy] leaves in every
    partition a maximum between 0 and the energy, an energy of at most
    [numlines] times the maximum, and the average [eb * rnumlines]. *)
Theorem calc_energy_bounds (l : PsyConst_l) (fftenergy eb mx av : nat -> R) :
  (forall j, 0 <= fftenergy j) ->
  forall b, (b < npart l)%nat ->
    let t := calc_energy l fftenergy eb mx av in
    0 <= max_of t b <= eb_of t b /\
    eb_of t b <= INR (numlines l b) * max_of t b /\
    avg_of t b = eb_of t b * rnumlines l b.
Proof.
  intros Hf. unfold calc_energy.
  refine (for_loop_ind
    (fun j t => forall b, (b < j)%nat ->
       0 <= max_of t b <= eb_of t b /\
       eb_of t b <= INR (numlines l b) * max_of t b /\
       avg_of t b = eb_of t b * rnumlines l b)
    (calc_energy_band l fftenergy) (npart l) 0 _ _ _).
  - intros b Hb. lia.
  - intros i t _ IH b Hb. unfold calc_energy_band; cbn [eb_of max_of avg_of].
    unfold upd. destruct (Nat.eqb_spec b i) as [->|Hne]; [|apply IH; lia].
    destruct (energy_line_bounds fftenergy (ce_j t) (numlines l i) Hf 0 (0, 0) 0)
      as [H1 H2]; cbn [fst snd]; try lra.
    cbn [Nat.add] in H2. repeat split; try lra.
Qed.

Lemma calc_energy_bounds_witness :
  0 <= max_of (calc_energy two_partitions loud_then_silent
                 (fun _ => 0) (fun _ => 0) (fun _ => 0)) 0%nat
    <= eb_of (calc_energy two_partitions loud_then_silent
                (fun _ => 0) (fun _ => 0) (fun _ => 0)) 0%nat /\
  eb_of (calc_energy two_partitions loud_then_silent
           (fun _ => 0) (fun _ => 0) (fun _ => 0)) 0%nat
  <= INR (numlines two_partitions 0%nat) *
     max_of (calc_energy two_partitions loud_then_silent
               (fun _ => 0) (fun _ => 0) (fun _ => 0)) 0%nat /\
  avg_of (calc_energy two_partitions loud_then_silent
            (fun _ => 0) (fun _ => 0) (fun _ => 0)) 0%nat
  = eb_of (calc_energy two_partitions loud_then_silent
             (fun _ => 0) (fun _ => 0) (fun _ => 0)) 0%nat
    * rnumlines two_partitions 0%nat.
Proof.
  apply (calc_energy_bounds two_partitions loud_then_silent).
  - intro j. unfold loud_then_silent. destruct (j =? 0)%nat; lra.
  - simpl. lia.
Defined.

(** *** [calc_mask_index_l] *)

(** The index of one neighbourhood is an entry of [tab] as soon as its
    largest line is at least the mean of its averages. *)
Lemma mask_index_in_tab (a m c : R) (w : Z) :
  0 <= a -> a <= m * c -> (1 <= w)%Z ->
  (0 <= mask_index a m c w <= 8)%Z.
Proof.
  intros Ha Hm Hw. unfold mask_index, last_tab_entry.
  destruct (Rgt_dec a 0) as [Hpos|]; [|lia].
  assert (Hw1 : 1 <= IZR w) by (apply IZR_le; exact Hw).
  assert (Hq : 0 <= 20.0 * (m * c - a) / (a * IZR w)).
  { apply Rmult_le_pos; [nra|]. left. apply Rinv_0_lt_compat. nra. }
  pose proof (c_int_lower _ 0 Hq Hq) as Hk.
  destruct (Z.ltb_spec 8 (c_int (20.0 * (m * c - a) / (a * IZR w)))).
  - change (8 mod 256)%Z with 8%Z. lia.
  - rewrite Z.mod_small by lia. lia.
Qed.

Lemma Rmax_c_ge (a b : R) : a <= Rmax_c a b /\ b <= Rmax_c a b.
Proof. unfold Rmax_c. destruct (Rlt_dec a b); lra. Qed.

Section MaskIndex.

Variable l : PsyConst_l.
Variables mx av : nat -> R.

Hypothesis two_partitions_at_least : (2 <= npart l)%nat.
Hypothesis lines_in_every_partition :
  forall b, (b < npart l)%nat -> (1 <= numlines l b)%nat.
Hypothesis average_below_maximum :
  forall b, (b < npart l)%nat -> 0 <= av b <= mx b.

Lemma mask_index_first_in_tab : (0 <= mask_index_first l mx av <= 8)%Z.
Proof.
  unfold mask_index_first.
  pose proof (average_below_maximum 0%nat ltac:(lia)).
  pose proof (average_below_maximum 1%nat ltac:(lia)).
  pose proof (lines_in_every_partition 0%nat ltac:(lia)).
  pose proof (lines_in_every_partition 1%nat ltac:(lia)).
  pose proof (Rmax_c_ge (mx 0%nat) (mx 1%nat)).
  apply mask_index_in_tab; [lra | lra | lia].
Qed.

Lemma mask_index_last_in_tab (b : nat) :
  (1 <= b < npart l)%nat -> (0 <= mask_index_last l mx av b <= 8)%Z.
Proof.
  intro Hb. unfold mask_index_last.
  pose proof (average_below_maximum (b - 1)%nat ltac:(lia)).
  pose proof (average_below_maximum b ltac:(lia)).
  pose proof (lines_in_every_partition (b - 1)%nat ltac:(lia)).
  pose proof (lines_in_every_partition b ltac:(lia)).
  pose proof (Rmax_c_ge (mx (b - 1)%nat) (mx b)).
  apply mask_index_in_tab; [lra | lra | lia].
Qed.

Lemma mask_index_middle_written (idx : nat -> Z) (b : nat) :
  (1 <= b)%nat -> (b + 1 < npart l)%nat ->
  (0 <= mask_index_middle l mx av idx b b <= 8)%Z.
Proof.
  intros Hb1 Hb2. unfold mask_index_middle. rewrite upd_same.
  pose proof (average_below_maximum (b - 1)%nat ltac:(lia)).
  pose proof (average_below_maximum b ltac:(lia)).
  pose proof (average_below_maximum (b + 1)%nat ltac:(lia)).
  pose proof (lines_in_every_partition (b - 1)%nat ltac:(lia)).
  pose proof (lines_in_every_partition b ltac:(lia)).
  pose proof (lines_in_every_partition (b + 1)%nat ltac:(lia)).
  pose proof (Rmax_c_ge (mx (b - 1)%nat) (mx b)).
  pose proof (Rmax_c_ge (Rmax_c (mx (b - 1)%nat) (mx b)) (mx (b + 1)%nat)).
  apply mask_index_in_tab; [lra | lra | lia].
Qed.

Lemma calc_mask_index_l_in_tab (idx : nat -> Z) (b : nat) :
  (b < npart l)%nat -> (0 <= calc_mask_index_l l mx av idx b <= 8)%Z.
Proof.
  intro Hb. unfold calc_mask_index_l.
  replace (Nat.max 1 (npart l - 1)) with (npart l - 1)%nat by lia.
  destruct (Nat.eq_dec b (npart l - 1)) as [->|Hlast].
  { rewrite upd_same. apply mask_index_last_in_tab. lia. }
  rewrite upd_other by assumption.
  refine (for_loop_ind
    (fun j (i : nat -> Z) => forall k, (k < j)%nat -> (k + 1 < npart l)%nat ->
                               (0 <= i k <= 8)%Z)
    (mask_index_middle l mx av) (npart l - 1 - 1) 1 _ _ _ b _ _); try lia.
  - intros k Hk _. assert (k = 0)%nat by lia. subst k. rewrite upd_same.
    apply mask_index_first_in_tab.
  - intros i s Hi IH k Hk Hk2. destruct (Nat.eq_dec k i) as [->|Hne].
    + apply mask_index_middle_written; lia.
    + unfold mask_index_middle. rewrite upd_other by assumption. apply IH; lia.
Qed.

End MaskIndex.

(** The tonality index that [calc_mask_index_l] derives from the output
    of [calc_energy] is an index into the 9 entries of [tab], in every
    partition: the spectrum must not be negative, every partition must
    hold a line, and [rnumlines] must be at most the inverse of
    [numlines]. *)
Theorem mask_index_of_energy_in_tab (l : PsyConst_l)
  (fftenergy eb mx av : nat -> R) (idx : nat -> Z) :
  (2 <= npart l)%nat ->
  (forall j, 0 <= fftenergy j) ->
  (forall b, (b < npart l)%nat -> (1 <= numlines l b)%nat) ->
  (forall b, (b < npart l)%nat ->
     0 <= rnumlines l b /\ rnumlines l b * INR (numlines l b) <= 1) ->
  forall b, (b < npart l)%nat ->
    let t := calc_energy l fftenergy eb mx av in
    (0 <= calc_mask_index_l l (max_of t) (avg_of t) idx b <= 8)%Z.
Proof.
  intros Hn Hf Hlines Hr b Hb t.
  apply calc_mask_index_l_in_tab; try assumption.
  intros k Hk. destruct (calc_energy_bounds l fftenergy eb mx av Hf k Hk)
    as (H1 & H2 & H3). fold t in H1, H2, H3.
  destruct (Hr k Hk) as [Hr0 Hr1]. rewrite H3. split; [nra|].
  assert (eb_of t k * rnumlines l k
          <= INR (numlines l k) * max_of t k * rnumlines l k) by nra.
  nra.
Qed.

Definition no_energy : nat -> R := fun _ => 0.
Definition no_index : nat -> Z := fun _ => 0%Z.

Lemma mask_index_of_energy_in_tab_witness :
  (0 <= calc_mask_index_l two_partitions
          (max_of (calc_energy two_partitions loud_then_silent
                     no_energy no_energy no_energy))
          (avg_of (calc_energy two_partitions loud_then_silent
                     no_energy no_energy no_energy))
          no_index 1%nat <= 8)%Z.
Proof.
  apply (mask_index_of_energy_in_tab two_partitions loud_then_silent).
  - simpl. lia.
  - intro j. unfold loud_then_silent. destruct (j =? 0)%nat; lra.
  - intros b _. simpl. lia.
  - intros b _. simpl. lra.
  - simpl. lia.
Defined.

(** *** [NS_INTERP] *)

Lemma exp_le (a b : R) : a <= b -> exp a <= exp b.
Proof.
  intros [H| ->]; [left; now apply exp_increasing | right; reflexivity].
Qed.

(** A power with an exponent between 0 and 1 lies between the base
    and 1. *)
Lemma Rpower_between (q r : R) :
  0 < q -> 0 <= r <= 1 ->
  (q <= 1 -> q <= Rpower q r <= 1) /\ (1 <= q -> 1 <= Rpower q r <= q).
Proof.
  intros Hq Hr. unfold Rpower.
  assert (Eq : forall t, t <= ln q -> exp t <= q).
  { intros t Ht. rewrite <- (exp_ln q Hq). now apply exp_le. }
  assert (Eq' : forall t, ln q <= t -> q <= exp t).
  { intros t Ht. rewrite <- (exp_ln q Hq) at 1. now apply exp_le. }
  assert (E1 : forall t, t <= 0 -> exp t <= 1).
  { intros t Ht. rewrite <- exp_0. now apply exp_le. }
  assert (E1' : forall t, 0 <= t -> 1 <= exp t).
  { intros t Ht. rewrite <- exp_0. now apply exp_le. }
  split; intro H1.
  - assert (ln q <= 0).
    { rewrite <- ln_1. destruct H1 as [H1| ->]; [left; apply ln_increasing; lra | lra]. }
    split; [apply Eq' | apply E1]; nra.
  - assert (0 <= ln q).
    { rewrite <- ln_1. destruct H1 as [H1| <-]; [left; apply ln_increasing; lra | lra]. }
    split; [apply E1' | apply Eq]; nra.
Qed.

(** [NS_INTERP (x, y, r)] interpolates: for [x] and [y] that are not
    negative the result lies between the smaller and the larger of the
    two, whatever [r] is. *)
Theorem NS_INTERP_between (x y r : R) :
  0 <= x -> 0 <= y ->
  Rmin x y <= NS_INTERP x y r <= Rmax x y.
Proof.
  intros Hx Hy. unfold NS_INTERP, c_pow.
  pose proof (Rmin_l x y). pose proof (Rmin_r x y).
  pose proof (Rmax_l x y). pose proof (Rmax_r x y).
  destruct (Rge_dec r 1.0); [lra|].
  destruct (Rle_dec r 0.0); [lra|].
  destruct (Rgt_dec y 0.0) as [Hpos|]; [|lra].
  destruct (Rle_dec (x / y) 0) as [Hq|Hq].
  - assert (x = 0).
    { destruct (Req_dec x 0) as [|Hne]; [assumption|exfalso].
      assert (0 < x / y) by (apply Rdiv_lt_0_compat; lra). lra. }
    subst x. rewrite Rmult_0_l. lra.
  - assert (Hqpos : 0 < x / y) by lra.
    assert (Hxy : x = x / y * y) by (field; lra).
    destruct (Rpower_between (x / y) r Hqpos ltac:(lra)) as [Hlow Hhigh].
    destruct (Rle_dec x y) as [Hle|Hgt].
    + assert (x / y <= 1).
      { apply (Rmult_le_reg_r y); [lra|]. rewrite <- Hxy. lra. }
      destruct (Hlow ltac:(assumption)) as [H5 H6].
      assert (x <= Rpower (x / y) r * y) by (rewrite Hxy at 1; nra).
      assert (Rpower (x / y) r * y <= y) by nra.
      lra.
    + assert (1 <= x / y).
      { apply (Rmult_le_reg_r y); [lra|]. rewrite <- Hxy. lra. }
      destruct (Hhigh ltac:(assumption)) as [H5 H6].
      assert (Rpower (x / y) r * y <= x) by (rewrite Hxy at 2; nra).
      assert (y <= Rpower (x / y) r * y) by nra.
      lra.
Qed.

Lemma NS_INTERP_between_witness :
  Rmin 4 9 <= NS_INTERP 4 9 0.5 <= Rmax 4 9.
Proof. apply (NS_INTERP_between 4 9 0.5); lra. Defined.

(** *** [vbrpsy_compute_MS_thresholds] *)

Lemma ms_threshold_band_capped ebM ebS thmL thmR thmM thmS mld ath_b athlower msfix :
  fst (ms_threshold_band ebM ebS thmL thmR thmM thmS mld ath_b athlower msfix) <= ebM /\
  snd (ms_threshold_band ebM ebS thmL thmR thmM thmS mld ath_b athlower msfix) <= ebS.
Proof.
  unfold ms_threshold_band.
  destruct (if Rle_dec thmL (1.58 * thmR) then _ else _) as [rmid rside].
  destruct (if Rgt_dec msfix 0.0 then _ else _) as [rm rs].
  cbn [fst snd]. destruct (Rgt_dec rm ebM), (Rgt_dec rs ebS); lra.
Qed.

(** Whatever comes in, [vbrpsy_compute_MS_thresholds] leaves the mid and
    side thresholds of the first [n] partitions at or below the mid and
    side energies; the left and right rows and the partitions from [n]
    on are not written. *)
Theorem vbrpsy_compute_MS_thresholds_capped (eb thr : nat -> nat -> R)
  (cb_mld ath_cb : nat -> R) (athlower msfix : R) (n : nat) :
  let r := vbrpsy_compute_MS_thresholds eb thr cb_mld ath_cb athlower msfix n in
  (forall b, (b < n)%nat -> r 2%nat b <= eb 2%nat b /\ r 3%nat b <= eb 3%nat b) /\
  (forall chn b, chn <> 2%nat -> chn <> 3%nat -> r chn b = thr chn b) /\
  (forall chn b, (n <= b)%nat -> r chn b = thr chn b).
Proof.
  unfold vbrpsy_compute_MS_thresholds.
  refine (for_loop_ind
    (fun j t =>
       (forall b, (b < j)%nat -> t 2%nat b <= eb 2%nat b /\ t 3%nat b <= eb 3%nat b) /\
       (forall chn b, chn <> 2%nat -> chn <> 3%nat -> t chn b = thr chn b) /\
       (forall chn b, (j <= b)%nat -> t chn b = thr chn b))
    (ms_threshold_step eb cb_mld ath_cb athlower msfix) n 0 thr _ _).
  - split; [intros b Hb; lia|]. split; reflexivity.
  - intros i t _ (Hcap & Hrows & Hrest). unfold ms_threshold_step.
    destruct (ms_threshold_band_capped (eb 2%nat i) (eb 3%nat i)
                (t 0%nat i) (t 1%nat i) (t 2%nat i) (t 3%nat i)
                (cb_mld i) (ath_cb i) athlower msfix) as [HM HS].
    split; [|split].
    + intros b Hb. rewrite upd_same. rewrite (upd_other _ 3%nat 2%nat) by lia.
      rewrite upd_same. unfold upd.
      destruct (Nat.eqb_spec b i) as [->|Hne]; [split; assumption|].
      apply Hcap. lia.
    + intros chn b H2 H3. rewrite !upd_other by assumption. now apply Hrows.
    + intros chn b Hb. unfold upd.
      destruct (Nat.eqb_spec chn 3) as [->|].
      * destruct (Nat.eqb_spec b i); [lia | apply Hrest; lia].
      * destruct (Nat.eqb_spec chn 2) as [->|]; [|apply Hrest; lia].
        destruct (Nat.eqb_spec b i); [lia | apply Hrest; lia].
Qed.

(** *** [convert_partition2scalefac_l] creates no energy *)

(** [f lo + ... + f (lo + n - 1)]. *)
Definition sum_from (f : nat -> R) (lo n : nat) : R :=
  for_loop (fun acc j => acc + f j) lo n 0.

Lemma sum_loop_from (f : nat -> R) (n : nat) :
  forall lo a, for_loop (fun acc j => acc + f j) lo n a = a + sum_from f lo n.
Proof.
  unfold sum_from. induction n as [|n IH]; intros lo a; simpl; [lra|].
  rewrite (IH (S lo) (a + f lo)), (IH (S lo) (0 + f lo)). lra.
Qed.

Lemma sum_from_nil (f : nat -> R) (lo : nat) : sum_from f lo 0 = 0.
Proof. reflexivity. Qed.

Lemma sum_from_S (f : nat -> R) (lo n : nat) :
  sum_from f lo (S n) = f lo + sum_from f (S lo) n.
Proof. unfold sum_from at 1. simpl. rewrite sum_loop_from. lra. Qed.

Lemma sum_from_split (f : nat -> R) (n1 n2 : nat) :
  forall lo, sum_from f lo (n1 + n2) = sum_from f lo n1 + sum_from f (lo + n1) n2.
Proof.
  induction n1 as [|n1 IH]; intro lo.
  - simpl. rewrite Nat.add_0_r. unfold sum_from at 2. simpl. lra.
  - cbn [Nat.add]. rewrite !sum_from_S, IH.
    replace (S lo + n1)%nat with (lo + S n1)%nat by lia. lra.
Qed.

Lemma sum_from_ext (f g : nat -> R) (n : nat) :
  forall lo, (forall j, (lo <= j < lo + n)%nat -> f j = g j) ->
    sum_from f lo n = sum_from g lo n.
Proof.
  induction n as [|n IH]; intros lo H; [reflexivity|].
  rewrite !sum_from_S, (H lo) by lia. f_equal. apply IH. intros j Hj. apply H. lia.
Qed.

Lemma sum_from_zero (f : nat -> R) (n : nat) :
  forall lo, (forall j, (lo <= j < lo + n)%nat -> f j = 0) -> sum_from f lo n = 0.
Proof.
  induction n as [|n IH]; intros lo H; [reflexivity|].
  rewrite sum_from_S, (H lo) by lia. rewrite IH; [lra|]. intros j Hj. apply H. lia.
Qed.

Lemma sum_from_nonneg (f : nat -> R) (n : nat) :
  forall lo, (forall j, (lo <= j < lo + n)%nat -> 0 <= f j) -> 0 <= sum_from f lo n.
Proof.
  induction n as [|n IH]; intros lo H; [rewrite sum_from_nil; lra|].
  rewrite sum_from_S. pose proof (H lo ltac:(lia)).
  pose proof (IH (S lo) ltac:(intros j Hj; apply H; lia)). lra.
Qed.

Section Totals.

Variable SBMAX_l : nat.
Variable l : PsyConst_l.
Variables eb thr : nat -> R.

(** The two assertions of the loop, and the weights as [init_numline]
    limits them. *)
Hypothesis eb_nonneg : forall b, (b < npart l)%nat -> 0 <= eb b.
Hypothesis thr_nonneg : forall b, (b < npart l)%nat -> 0 <= thr b.
Hypothesis bo_weight_le_1 : forall sb, (sb < SBMAX_l)%nat -> bo_weight l sb <= 1.

(** The bands written by [convert_bands] from the state [(sb, b, enn,
    thmm)] add up to no more than what is carried plus the partitions
    from [b] on: every partition is shared out between two bands at
    most, with weights that add up to 1, and what is carried out of the
    last band is dropped. *)
Lemma convert_bands_no_gain (n : nat) :
  forall sb b enn thmm en thm,
    (sb + n <= SBMAX_l)%nat -> (b <= npart l)%nat -> 0 <= enn -> 0 <= thmm ->
    let r := convert_bands l eb thr n sb b enn thmm en thm in
    (sb <= fst (fst r) <= sb + n)%nat /\
    sum_from (snd (fst r)) sb (fst (fst r) - sb)
    <= enn + sum_from eb b (npart l - b) /\
    sum_from (snd r) sb (fst (fst r) - sb)
    <= thmm + sum_from thr b (npart l - b) /\
    (forall j, (j < sb)%nat -> snd (fst r) j = en j /\ snd r j = thm j).
Proof.
  induction n as [|n IH]; intros sb b enn thmm en thm Hsb Hb Henn Hthmm.
  - cbn [convert_bands fst snd]. rewrite Nat.sub_diag, !sum_from_nil.
    pose proof (sum_from_nonneg eb (npart l - b) b
                  ltac:(intros j Hj; apply eb_nonneg; lia)).
    pose proof (sum_from_nonneg thr (npart l - b) b
                  ltac:(intros j Hj; apply thr_nonneg; lia)).
    split; [lia|]. split; [lra|]. split; [lra|]. intros j Hj. split; reflexivity.
  - cbn [convert_bands].
    set (b_lim := if (bo l sb <? npart l)%nat then bo l sb else npart l).
    assert (Hlim : (b_lim <= npart l)%nat).
    { unfold b_lim. destruct (Nat.ltb_spec (bo l sb) (npart l)); lia. }
    rewrite !sum_loop_from.
    destruct (Nat.leb_spec (npart l) (Nat.max b b_lim)) as [Hend|Hmore].
    + cbn [fst snd]. replace (S sb - sb)%nat with 1%nat by lia.
      rewrite !sum_from_S, !sum_from_nil, !upd_same.
      assert (E : (b_lim - b = npart l - b)%nat) by lia. rewrite E.
      split; [lia|]. split; [lra|]. split; [lra|].
      intros j Hj. rewrite !upd_other by lia. split; reflexivity.
    + set (b1 := Nat.max b b_lim) in *.
      pose proof (eb_nonneg b1 Hmore) as Heb1.
      pose proof (thr_nonneg b1 Hmore) as Hthr1.
      pose proof (bo_weight_le_1 sb ltac:(lia)) as Hw.
      match goal with
      | |- context [convert_bands l eb thr n (S sb) (S b1) ?e ?t ?en2 ?thm2] =>
          pose proof (IH (S sb) (S b1) e t en2 thm2 ltac:(lia) ltac:(lia)
                        ltac:(nra) ltac:(nra)) as IH'
      end.
      cbv zeta in IH'. destruct IH' as (Hrange & Hen & Hthm & Hkeep).
      set (r := convert_bands l eb thr n (S sb) (S b1) _ _ _ _) in *.
      destruct (Hkeep sb ltac:(lia)) as [Ken Kthm].
      rewrite !upd_same in Ken, Kthm.
      replace (fst (fst r) - sb)%nat with (S (fst (fst r) - S sb)) by lia.
      rewrite !sum_from_S, Ken, Kthm.
      assert (Esplit : forall f, sum_from f b (npart l - b)
                = sum_from f b (b_lim - b) + f b1 + sum_from f (S b1) (npart l - S b1)).
      { intro f.
        replace (npart l - b)%nat with ((b1 - b) + S (npart l - S b1))%nat by lia.
        rewrite sum_from_split, sum_from_S.
        replace (b + (b1 - b))%nat with b1 by lia.
        replace (b1 - b)%nat with (b_lim - b)%nat by lia. lra. }
      rewrite (Esplit eb), (Esplit thr).
      split; [lia|]. split; [lra|]. split; [lra|].
      intros j Hj. destruct (Hkeep j ltac:(lia)) as [K1 K2].
      rewrite K1, K2, !upd_other by lia. split; reflexivity.
Qed.

(** The conversion to scalefactor bands creates neither energy nor
    threshold: when the partition energies and thresholds are not
    negative (the loop asserts it) and no band weight exceeds 1, the
    [SBMAX_l] band energies add up to no more than the [npart] partition
    energies, and the band thresholds to no more than the partition
    thresholds, wherever the band boundaries [bo] lie. *)
Theorem convert_partition2scalefac_l_no_gain (en thm : nat -> R) :
  sum_from (fst (convert_partition2scalefac_l SBMAX_l l eb thr en thm)) 0 SBMAX_l
  <= sum_from eb 0 (npart l) /\
  sum_from (snd (convert_partition2scalefac_l SBMAX_l l eb thr en thm)) 0 SBMAX_l
  <= sum_from thr 0 (npart l).
Proof.
  unfold convert_partition2scalefac_l.
  pose proof (convert_bands_no_gain SBMAX_l 0 0 0.0 0.0 en thm ltac:(lia)
                ltac:(lia) ltac:(lra) ltac:(lra)) as H.
  cbv zeta in H.
  destruct (convert_bands l eb thr SBMAX_l 0 0 0.0 0.0 en thm) as [[sb en1] thm1].
  cbn [fst snd] in H. destruct H as (Hrange & Hen & Hthm & _).
  rewrite !Nat.sub_0_r in Hen, Hthm.
  pose proof (zero_band_fill (SBMAX_l - sb) sb (en1, thm1)) as Hz.
  cbn [fst snd] in Hz.
  set (z := for_loop zero_band sb (SBMAX_l - sb) (en1, thm1)) in *.
  assert (Hlow : forall j, (j < sb)%nat -> fst z j = en1 j /\ snd z j = thm1 j).
  { intros j Hj. specialize (Hz j).
    destruct (Nat.leb_spec sb j); [lia|]. cbn [andb] in Hz.
    injection Hz as -> ->. split; reflexivity. }
  assert (Hhigh : forall j, (sb <= j < sb + (SBMAX_l - sb))%nat ->
                    fst z j = 0 /\ snd z j = 0).
  { intros j Hj. specialize (Hz j).
    destruct (Nat.leb_spec sb j), (Nat.ltb_spec j (sb + (SBMAX_l - sb))); try lia.
    cbn [andb] in Hz. injection Hz as -> ->. split; reflexivity. }
  assert (Esum : forall f, sum_from f 0 SBMAX_l
                           = sum_from f 0 sb + sum_from f sb (SBMAX_l - sb)).
  { intro f. pose proof (sum_from_split f sb (SBMAX_l - sb) 0) as E.
    cbn [Nat.add] in E. replace (sb + (SBMAX_l - sb))%nat with SBMAX_l in E by lia.
    exact E. }
  rewrite !Esum.
  rewrite (sum_from_zero (fst z) (SBMAX_l - sb) sb),
          (sum_from_zero (snd z) (SBMAX_l - sb) sb)
    by (intros j Hj; apply Hhigh; lia).
  rewrite (sum_from_ext (fst z) en1 sb 0), (sum_from_ext (snd z) thm1 sb 0)
    by (intros j Hj; apply Hlow; lia).
  split; lra.
Qed.

End Totals.

(** Three partitions and two scalefactor bands: the first band ends in
    partition 1, the second in partition 2, the last one, and each takes
    half of the partition it ends in. *)
Definition three_partitions : PsyConst_l :=
  {| npart := 3;
     numlines := fun _ => 1%nat;
     rnumlines := fun _ => 1;
     s3 := fun _ => 1;
     s3ind0 := fun _ => 0%nat;
     s3ind1 := fun _ => 2%nat;
     bo := fun sb => S sb;
     bo_weight := fun _ => 0.5;
     minval := fun _ => 1;
     masking_lower := fun _ => 1;
     mld_cb := fun _ => 1 |}.

Lemma convert_partition2scalefac_l_no_gain_witness :
  sum_from (fst (convert_partition2scalefac_l 2 three_partitions
                   (fun _ => 8) (fun _ => 2) no_energy no_energy)) 0 2
  <= sum_from (fun _ => 8) 0 (npart three_partitions) /\
  sum_from (snd (convert_partition2scalefac_l 2 three_partitions
                   (fun _ => 8) (fun _ => 2) no_energy no_energy)) 0 2
  <= sum_from (fun _ => 2) 0 (npart three_partitions).
Proof.
  apply (convert_partition2scalefac_l_no_gain 2 three_partitions).
  - intros b Hb. lra.
  - intros b Hb. lra.
  - intros sb Hsb. simpl. lra.
Defined.

(** *** The pre-echo memory *)

Section History.

Variable FAST_LOG10_X : R -> R -> R.
Variables rpelev rpelev2 NS_PREECHO_ATT2 : R.
Variable CBANDS : nat.
Variables ATH_cb_l ATH_cb_s : Z -> R.
Variable ATH_adjust_factor : R.

(** What holds of the two rows of the memory before partition [i]. *)
Definition history_inv (nb1 nb2 : nat -> R) (i : nat) (st : band_state) : Prop :=
  (forall j, (j < i)%nat -> bs_nb_l2 st j = nb1 j) /\
  (forall j, (i <= j)%nat -> bs_nb_l1 st j = nb1 j /\ bs_nb_l2 st j = nb2 j).

Lemma history_step (nb1 nb2 : nat -> R) (i : nat) (st st' : band_state) (ecb : R) :
  bs_nb_l1 st' = upd (bs_nb_l1 st) i ecb ->
  bs_nb_l2 st' = upd (bs_nb_l2 st) i (bs_nb_l1 st i) ->
  history_inv nb1 nb2 i st -> history_inv nb1 nb2 (S i) st'.
Proof.
  intros E1 E2 [Hold Hnew]. unfold history_inv. rewrite E1, E2. split.
  - intros j Hj. destruct (Nat.eq_dec j i) as [->|Hne].
    + rewrite upd_same. apply Hnew. lia.
    + rewrite upd_other by assumption. apply Hold. lia.
  - intros j Hj. rewrite !upd_other by lia. apply Hnew. lia.
Qed.

Lemma vbr_band_history (l : PsyConst_l) (old : block_type) (qml : R)
  (eb mx : nat -> R) (idx : nat -> Z) (nb1 nb2 : nat -> R) (n : nat)
  (st : band_state) :
  history_inv nb1 nb2 0 st ->
  history_inv nb1 nb2 n
    (for_loop (vbr_band FAST_LOG10_X rpelev rpelev2 NS_PREECHO_ATT2
                 l old qml eb mx idx) 0 n st).
Proof.
  intro H0.
  apply (for_loop_ind (history_inv nb1 nb2)
           (vbr_band FAST_LOG10_X rpelev rpelev2 NS_PREECHO_ATT2 l old qml eb mx idx)
           n 0 st H0).
  intros i st' _ Hinv. unfold vbr_band.
  destruct (vbr_spread FAST_LOG10_X l eb idx (bs_k st') i) as [ecb avg_mask].
  apply (history_step nb1 nb2 i st' _ ecb); [reflexivity|reflexivity|exact Hinv].
Qed.

Lemma ns_band_history (l : PsyConst_l) (old : block_type) (pcfact : R)
  (eb : nat -> R) (idx : nat -> Z) (nb1 nb2 : nat -> R) (n : nat)
  (st : band_state) :
  history_inv nb1 nb2 0 st ->
  history_inv nb1 nb2 n
    (for_loop (ns_band FAST_LOG10_X rpelev rpelev2 ATH_cb_l ATH_cb_s
                 ATH_adjust_factor l old pcfact eb idx) 0 n st).
Proof.
  intro H0.
  apply (for_loop_ind (history_inv nb1 nb2)
           (ns_band FAST_LOG10_X rpelev rpelev2 ATH_cb_l ATH_cb_s
              ATH_adjust_factor l old pcfact eb idx)
           n 0 st H0).
  intros i st' _ Hinv. unfold ns_band. cbv zeta.
  eapply (history_step nb1 nb2 i st'); [reflexivity|reflexivity|exact Hinv].
Qed.

Lemma zero_partition_fill (n lo : nat) (t : (nat -> R) * (nat -> R)) (j : nat) :
  (fst (for_loop zero_partition lo n t) j, snd (for_loop zero_partition lo n t) j)
  = if (lo <=? j)%nat && (j <? lo + n)%nat then (0, 0) else (fst t j, snd t j).
Proof.
  apply (for_loop_view zero_partition (fun t => (fst t j, snd t j))
           (fun _ => (0, 0)) j).
  - intros t' k Hk. unfold zero_partition; simpl. now rewrite !upd_other by congruence.
  - intros t'. unfold zero_partition; simpl. now rewrite !upd_same.
Qed.

(** Both long-block masking routines shift the pre-echo memory by one
    granule: after the call [nb_l2] holds, in every partition below
    [npart], what [nb_l1] held before it; from [npart] on both rows are
    kept.  The partitions from [npart] up to [CBANDS] (excluded in
    vbrpsy_compute_masking_l, included in L3psycho_anal_ns) are cleared
    in [eb_l] and [thr]. *)
Theorem long_masking_shifts_history (l : PsyConst_l) (old : block_type)
  (qml pcfact : R) (fftenergy eb_l thr nb1 nb2 : nat -> R) :
  let v := vbrpsy_compute_masking_l FAST_LOG10_X rpelev rpelev2 NS_PREECHO_ATT2
             CBANDS l old qml fftenergy eb_l thr nb1 nb2 in
  let n := ns_compute_masking_l FAST_LOG10_X rpelev rpelev2 CBANDS
             ATH_cb_l ATH_cb_s ATH_adjust_factor l old pcfact
             fftenergy eb_l thr nb1 nb2 in
  (forall b, (b < npart l)%nat ->
     mr_nb_l2 v b = nb1 b /\ mr_nb_l2 n b = nb1 b) /\
  (forall b, (npart l <= b)%nat ->
     mr_nb_l1 v b = nb1 b /\ mr_nb_l2 v b = nb2 b /\
     mr_nb_l1 n b = nb1 b /\ mr_nb_l2 n b = nb2 b) /\
  (forall b, (npart l <= b < CBANDS)%nat -> mr_eb v b = 0 /\ mr_thr v b = 0) /\
  (forall b, (npart l <= b <= CBANDS)%nat -> mr_eb n b = 0 /\ mr_thr n b = 0).
Proof.
  intros v n.
  assert (H0 : history_inv nb1 nb2 0
                 {| bs_k := 0; bs_thr := thr; bs_nb_l1 := nb1; bs_nb_l2 := nb2 |}).
  { split; [intros; lia|]. intros j _. split; reflexivity. }
  split; [|split; [|split]].
  - intros b Hb. split.
    + unfold v, vbrpsy_compute_masking_l. cbv zeta. cbn [mr_nb_l2].
      match goal with
      | |- bs_nb_l2 (for_loop (vbr_band _ _ _ _ _ _ _ ?eb ?mx ?idx) 0 _ ?st) b = _ =>
          destruct (vbr_band_history l old qml eb mx idx nb1 nb2 (npart l) st H0)
            as [Hold _]
      end.
      now apply Hold.
    + unfold n, ns_compute_masking_l. cbv zeta. cbn [mr_nb_l2].
      match goal with
      | |- bs_nb_l2 (for_loop (ns_band _ _ _ _ _ _ _ _ _ ?eb ?idx) 0 _ ?st) b = _ =>
          destruct (ns_band_history l old pcfact eb idx nb1 nb2 (npart l) st H0)
            as [Hold _]
      end.
      now apply Hold.
  - intros b Hb.
    unfold v, n, vbrpsy_compute_masking_l, ns_compute_masking_l. cbv zeta.
    cbn [mr_nb_l1 mr_nb_l2].
    match goal with
    | |- context [for_loop (vbr_band _ _ _ _ _ _ _ ?eb ?mx ?idx) 0 _ ?st] =>
        destruct (vbr_band_history l old qml eb mx idx nb1 nb2 (npart l) st H0)
          as [_ Hv]
    end.
    match goal with
    | |- context [for_loop (ns_band _ _ _ _ _ _ _ _ _ ?eb ?idx) 0 _ ?st] =>
        destruct (ns_band_history l old pcfact eb idx nb1 nb2 (npart l) st H0)
          as [_ Hn]
    end.
    destruct (Hv b Hb) as [? ?]. destruct (Hn b Hb) as [? ?].
    repeat split; assumption.
  - intros b Hb. unfold v, vbrpsy_compute_masking_l. cbv zeta. cbn [mr_eb mr_thr].
    match goal with
    | |- fst (for_loop zero_partition ?lo ?k ?t) b = 0 /\ _ =>
        pose proof (zero_partition_fill k lo t b) as E
    end.
    destruct (Nat.leb_spec (npart l) b), (Nat.ltb_spec b (npart l + (CBANDS - npart l)));
      try lia.
    cbn [andb] in E. now injection E.
  - intros b Hb. unfold n, ns_compute_masking_l. cbv zeta. cbn [mr_eb mr_thr].
    match goal with
    | |- fst (for_loop zero_partition ?lo ?k ?t) b = 0 /\ _ =>
        pose proof (zero_partition_fill k lo t b) as E
    end.
    destruct (Nat.leb_spec (npart l) b),
      (Nat.ltb_spec b (npart l + (CBANDS + 1 - npart l))); try lia.
    cbn [andb] in E. now injection E.
Qed.

End History.

End MaskingFacts.

(** * psymodel.c: short-block masking of the ns analyser *)

Module ShortMasking.

Import BlockType.

(** The fields of [PsyConst_s_t] that [compute_masking_s] reads;
    [s3ind0 b] and [s3ind1 b] are [s3ind[b][0]] and [s3ind[b][1]]. *)
Record PsyConst_s : Type := {
  npart : nat;
  numlines : nat -> nat;
  s3 : nat -> R;
  s3ind0 : nat -> nat;
  s3ind1 : nat -> nat
}.

Section Thresholds.

(** Macros and dimensions of the headers. *)
Variables rpelev_s rpelev2_s : R.
Variable CBANDS : nat.

(** The first loop: the energy of partition [b], on [(j, eb)]. *)
Definition short_energy_band (gds : PsyConst_s) (fftenergy_s : nat -> R)
  (t : nat * (nat -> R)) (b : nat) : nat * (nat -> R) :=
  let acc := for_loop (Masking.energy_line fftenergy_s (fst t)) 0
               (numlines gds b) (0, 0) in
  ((fst t + numlines gds b)%nat, upd (snd t) b (fst acc)).

(** The state of the second loop: the running index [j] into [s3], the
    thresholds, and the channel's rows of [psv->nb_s1] and [psv->nb_s2]. *)
Record short_state : Type := {
  ss_j : nat;
  ss_thr : nat -> R;
  ss_nb_s1 : nat -> R;
  ss_nb_s2 : nat -> R
}.

(** The convolution of partition [b] with the spreading function. *)
Definition short_spread (gds : PsyConst_s) (eb : nat -> R) (j b : nat) : R :=
  let kk0 := s3ind0 gds b in
  for_loop (fun ecb i => ecb + s3 gds (j + 1 + i)%nat * eb (kk0 + 1 + i)%nat)
    0 (s3ind1 gds b - kk0) (s3 gds j * eb kk0).

(** One partition of the second loop; [old] is
    [psv->blocktype_old[chn & 1]]. *)
Definition short_band (gds : PsyConst_s) (old : block_type) (eb : nat -> R)
  (st : short_state) (b : nat) : short_state :=
  let ecb := short_spread gds eb (ss_j st) b in
  let thr1 := Masking.Min ecb (rpelev_s * ss_nb_s1 st b) in
  let thr2 := if block_type_eqb old SHORT_TYPE
              then Masking.Min (rpelev2_s * ss_nb_s2 st b) thr1 else thr1 in
  {| ss_j := (ss_j st + 1 + (s3ind1 gds b - s3ind0 gds b))%nat;
     ss_thr := upd (ss_thr st) b thr2;
     ss_nb_s1 := upd (ss_nb_s1 st) b ecb;
     ss_nb_s2 := upd (ss_nb_s2 st) b (ss_nb_s1 st b) |}.

(** The outcome for one channel and window. *)
Record short_result : Type := {
  sr_eb : nat -> R;
  sr_thr : nat -> R;
  sr_nb_s1 : nat -> R;
  sr_nb_s2 : nat -> R
}.

(** [compute_masking_s (gfc, fftenergy_s, eb, thr, chn, sblock)];
    [fftenergy_s] is the row [fftenergy_s[sblock]], [nb1] and [nb2] the
    rows [psv->nb_s1[chn]] and [psv->nb_s2[chn]]. *)
Definition compute_masking_s (gds : PsyConst_s) (old : block_type)
  (fftenergy_s : nat -> R) (eb thr nb1 nb2 : nat -> R) : short_result :=
  let e := for_loop (short_energy_band gds fftenergy_s) 0 (npart gds) (0%nat, eb) in
  let st := for_loop (short_band gds old (snd e)) 0 (npart gds)
              {| ss_j := 0; ss_thr := thr; ss_nb_s1 := nb1; ss_nb_s2 := nb2 |} in
  let z := for_loop Masking.zero_partition (npart gds) (CBANDS + 1 - npart gds)
             (snd e, ss_thr st) in
  {| sr_eb := fst z; sr_thr := snd z;
     sr_nb_s1 := ss_nb_s1 st; sr_nb_s2 := ss_nb_s2 st |}.

(** *** Pre-echo control *)

(** What holds before partition [i]: below it the threshold is limited
    and the memory shifted, from it on the memory is as it came in. *)
Definition short_inv (old : block_type) (nb1 nb2 : nat -> R) (i : nat)
  (st : short_state) : Prop :=
  (forall j, (j < i)%nat ->
     ss_thr st j <= ss_nb_s1 st j /\
     ss_thr st j <= rpelev_s * nb1 j /\
     (old = SHORT_TYPE -> ss_thr st j <= rpelev2_s * nb2 j) /\
     ss_nb_s2 st j = nb1 j) /\
  (forall j, (i <= j)%nat -> ss_nb_s1 st j = nb1 j /\ ss_nb_s2 st j = nb2 j).

Lemma Min_below (a b : R) : Masking.Min a b <= a /\ Masking.Min a b <= b.
Proof. unfold Masking.Min. destruct (Rlt_dec a b); lra. Qed.

Lemma short_band_inv (gds : PsyConst_s) (old : block_type) (eb nb1 nb2 : nat -> R)
  (n : nat) (st : short_state) :
  short_inv old nb1 nb2 0 st ->
  short_inv old nb1 nb2 n (for_loop (short_band gds old eb) 0 n st).
Proof.
  intro H0.
  apply (for_loop_ind (short_inv old nb1 nb2) (short_band gds old eb) n 0 st H0).
  intros i st' _ [Hdone Hrest]. unfold short_inv, short_band.
  cbn [ss_thr ss_nb_s1 ss_nb_s2]. split.
  - intros j Hj. destruct (Nat.eq_dec j i) as [->|Hne].
    + rewrite !upd_same. destruct (Hrest i (le_n i)) as [E1 E2].
      rewrite E1, E2.
      set (ecb := short_spread gds eb (ss_j st') i).
      pose proof (Min_below ecb (rpelev_s * nb1 i)) as [M1 M2].
      destruct old; cbn [block_type_eqb];
        try (repeat split; [exact M1 | exact M2 | discriminate]).
      pose proof (Min_below (rpelev2_s * nb2 i)
                    (Masking.Min ecb (rpelev_s * nb1 i))) as [M3 M4].
      repeat split; try lra.
    + rewrite !upd_other by assumption. apply Hdone. lia.
  - intros j Hj. rewrite !upd_other by lia. apply Hrest. lia.
Qed.

(** In every partition below [npart] the short-block threshold that
    [compute_masking_s] leaves is at most the spread energy of the
    partition (which becomes the new [nb_s1]) and at most [rpelev_s]
    times the [nb_s1] of the granule before; after a short block it is
    also at most [rpelev2_s] times the old [nb_s2].  The memory is
    shifted: [nb_s2] takes the old [nb_s1].  From [npart] on the memory
    is kept, and [eb] and [thr] are cleared up to [CBANDS] included. *)
Theorem compute_masking_s_pre_echo (gds : PsyConst_s) (old : block_type)
  (fftenergy_s eb thr nb1 nb2 : nat -> R) :
  let r := compute_masking_s gds old fftenergy_s eb thr nb1 nb2 in
  (forall b, (b < npart gds)%nat ->
     sr_thr r b <= sr_nb_s1 r b /\
     sr_thr r b <= rpelev_s * nb1 b /\
     (old = SHORT_TYPE -> sr_thr r b <= rpelev2_s * nb2 b) /\
     sr_nb_s2 r b = nb1 b) /\
  (forall b, (npart gds <= b)%nat ->
     sr_nb_s1 r b = nb1 b /\ sr_nb_s2 r b = nb2 b) /\
  (forall b, (npart gds <= b <= CBANDS)%nat -> sr_eb r b = 0 /\ sr_thr r b = 0).
Proof.
  intro r. unfold r, compute_masking_s. cbv zeta.
  cbn [sr_eb sr_thr sr_nb_s1 sr_nb_s2].
  set (e := for_loop (short_energy_band gds fftenergy_s) 0 (npart gds) (0%nat, eb)).
  set (st0 := {| ss_j := 0; ss_thr := thr; ss_nb_s1 := nb1; ss_nb_s2 := nb2 |}).
  assert (H0 : short_inv old nb1 nb2 0 st0).
  { split; [intros; lia|]. intros j _. split; reflexivity. }
  pose proof (short_band_inv gds old (snd e) nb1 nb2 (npart gds) st0 H0)
    as [Hdone Hrest].
  set (st := for_loop (short_band gds old (snd e)) 0 (npart gds) st0) in *.
  split; [|split].
  - intros b Hb.
    destruct (Masking.zero_partition_below (CBANDS + 1 - npart gds) (npart gds)
                (snd e, ss_thr st) b Hb) as [_ E].
    cbn [snd] in E. rewrite E. apply Hdone. exact Hb.
  - exact Hrest.
  - intros b Hb.
    pose proof (for_loop_view Masking.zero_partition
                  (fun t => (fst t b, snd t b)) (fun _ => (0, 0)) b) as V.
    specialize (V ltac:(intros t k Hk; unfold Masking.zero_partition; cbn [fst snd];
                        now rewrite !upd_other by congruence)
                  ltac:(intros t; unfold Masking.zero_partition; cbn [fst snd];
                        now rewrite !upd_same)
                  (CBANDS + 1 - npart gds)%nat (npart gds) (snd e, ss_thr st)).
    destruct (Nat.leb_spec (npart gds) b),
      (Nat.ltb_spec b (npart gds + (CBANDS + 1 - npart gds))); try lia.
    cbn [andb] in V. now injection V.
Qed.

End Thresholds.

End ShortMasking.

(** * psymodel.c: the stereo stage of L3psycho_anal_ns *)

Module Stereo.

Import Masking.

(** [III_psy_xmin]: the long-block row [l] and the short-block rows
    [s[sb][sblock]]. *)
Record III_psy_xmin : Type := {
  l : nat -> R;
  s : nat -> nat -> R
}.

(** The assignments [x->l[sb] = v] and [x->s[sb][sblock] = v]. *)
Definition set_l (x : III_psy_xmin) (sb : nat) (v : R) : III_psy_xmin :=
  {| l := upd (l x) sb v; s := s x |}.

Definition set_s (x : III_psy_xmin) (sb sblock : nat) (v : R) : III_psy_xmin :=
  {| l := l x; s := upd (s x) sb (upd (s x sb) sblock v) |}.

Lemma set_s_at (x : III_psy_xmin) (sb sblock : nat) (v : R) (j k : nat) :
  s (set_s x sb sblock v) j k
  = if (Nat.eqb j sb && Nat.eqb k sblock)%bool then v else s x j k.
Proof.
  unfold set_s, upd; cbn [s].
  destruct (Nat.eqb_spec j sb) as [->|]; [|reflexivity].
  destruct (Nat.eqb_spec k sblock); reflexivity.
Qed.

Lemma set_l_at (x : III_psy_xmin) (sb : nat) (v : R) (j : nat) :
  l (set_l x sb v) j = if Nat.eqb j sb then v else l x j.
Proof. reflexivity. Qed.

Section Dimensions.

(** Dimensions of the headers. *)
Variables SBMAX_l SBMAX_s : nat.

(** *** [calc_interchannel_masking] *)

Definition interchannel_l (ratio : R) (t : III_psy_xmin * III_psy_xmin) (sb : nat)
  : III_psy_xmin * III_psy_xmin :=
  let l0 := l (fst t) sb in
  let r0 := l (snd t) sb in
  (set_l (fst t) sb (l (fst t) sb + r0 * ratio),
   set_l (snd t) sb (l (snd t) sb + l0 * ratio)).

Definition interchannel_s (ratio : R) (sb : nat) (t : III_psy_xmin * III_psy_xmin)
  (sblock : nat) : III_psy_xmin * III_psy_xmin :=
  let l0 := s (fst t) sb sblock in
  let r0 := s (snd t) sb sblock in
  (set_s (fst t) sb sblock (s (fst t) sb sblock + r0 * ratio),
   set_s (snd t) sb sblock (s (snd t) sb sblock + l0 * ratio)).

(** [calc_interchannel_masking (thm0, thm1, ratio)] on two distinct
    structures: the new [( *thm0, *thm1 )]. *)
Definition calc_interchannel_masking (thm0 thm1 : III_psy_xmin) (ratio : R)
  : III_psy_xmin * III_psy_xmin :=
  let t := for_loop (interchannel_l ratio) 0 SBMAX_l (thm0, thm1) in
  for_loop (fun t sb => for_loop (interchannel_s ratio sb) 0 3 t) 0 SBMAX_s t.

(** *** [msfix1] *)

(** One band of [msfix1]: [None] where the loop continues without a
    store, else the new [(thm[2], thm[3])] of the band. *)
Definition msfix1_band (mld thmL thmR thmM thmS enM enS : R) : option (R * R) :=
  if Rgt_dec thmL (1.58 * thmR) then None
  else if Rgt_dec thmR (1.58 * thmL) then None
  else
    let mld_m := mld * enS in
    let rmid := Max thmM (Min thmS mld_m) in
    let mld_s := mld * enM in
    let rside := Max thmS (Min thmM mld_s) in
    Some (rmid, rside).

Definition msfix1_l (mld : nat -> R) (en thm : nat -> III_psy_xmin) (sb : nat)
  : nat -> III_psy_xmin :=
  match msfix1_band (mld sb) (l (thm 0%nat) sb) (l (thm 1%nat) sb)
          (l (thm 2%nat) sb) (l (thm 3%nat) sb)
          (l (en 2%nat) sb) (l (en 3%nat) sb) with
  | None => thm
  | Some (rmid, rside) =>
      let thm' := upd thm 2%nat (set_l (thm 2%nat) sb rmid) in
      upd thm' 3%nat (set_l (thm' 3%nat) sb rside)
  end.

Definition msfix1_s (mld : nat -> R) (en : nat -> III_psy_xmin) (sb : nat)
  (thm : nat -> III_psy_xmin) (sblock : nat) : nat -> III_psy_xmin :=
  match msfix1_band (mld sb) (s (thm 0%nat) sb sblock) (s (thm 1%nat) sb sblock)
          (s (thm 2%nat) sb sblock) (s (thm 3%nat) sb sblock)
          (s (en 2%nat) sb sblock) (s (en 3%nat) sb sblock) with
  | None => thm
  | Some (rmid, rside) =>
      let thm' := upd thm 2%nat (set_s (thm 2%nat) sb sblock rmid) in
      upd thm' 3%nat (set_s (thm' 3%nat) sb sblock rside)
  end.

(** [msfix1 (gfc)]: the new [psv->thm]; [mld_l] and [mld_s] are
    [gfc->cd_psy->l.mld] and [gfc->cd_psy->s.mld], [en] is [psv->en]. *)
Definition msfix1 (mld_l mld_s : nat -> R) (en thm : nat -> III_psy_xmin)
  : nat -> III_psy_xmin :=
  let thm1 := for_loop (msfix1_l mld_l en) 0 SBMAX_l thm in
  for_loop (fun t sb => for_loop (msfix1_s mld_s en sb) 0 3 t) 0 SBMAX_s thm1.

(** *** [ns_msfix] *)

(** [BLKSIZE] and [BLKSIZE_s] of the headers. *)
Variables BLKSIZE BLKSIZE_s : R.

(** One band of [ns_msfix], from the band's [ath]: the values [thmM] and
    [thmS] the two [Min] receive.  [msfix] is the factor of the test,
    [msfix_f] the factor of [f] ([msfix2] in the long loop, [msfix] in
    the short one). *)
Definition ns_msfix_band (msfix msfix_f ath thmL thmR thmM thmS : R) : R * R :=
  let thmLR := Min (Max thmL ath) (Max thmR ath) in
  let thmM1 := Max thmM ath in
  let thmS1 := Max thmS ath in
  if Rlt_dec (thmLR * msfix) (thmM1 + thmS1) then
    let f := thmLR * msfix_f / (thmM1 + thmS1) in
    (thmM1 * f, thmS1 * f)
  else (thmM1, thmS1).

Definition ns_msfix_l (cb_l : nat -> R) (bm_l : nat -> nat)
  (msfix msfix2 athlower : R)
  (thm : nat -> III_psy_xmin) (sb : nat) : nat -> III_psy_xmin :=
  let ath := cb_l (bm_l sb) * athlower in
  let r := ns_msfix_band msfix msfix2 ath (l (thm 0%nat) sb) (l (thm 1%nat) sb)
             (l (thm 2%nat) sb) (l (thm 3%nat) sb) in
  let thm' := upd thm 2%nat (set_l (thm 2%nat) sb (Min (fst r) (l (thm 2%nat) sb))) in
  upd thm' 3%nat (set_l (thm' 3%nat) sb (Min (snd r) (l (thm' 3%nat) sb))).

Definition ns_msfix_s (cb_s : nat -> R) (bm_s : nat -> nat) (msfix athlower : R)
  (sb : nat) (thm : nat -> III_psy_xmin) (sblock : nat) : nat -> III_psy_xmin :=
  let ath := cb_s (bm_s sb) * athlower in
  let r := ns_msfix_band msfix msfix ath (s (thm 0%nat) sb sblock) (s (thm 1%nat) sb sblock)
             (s (thm 2%nat) sb sblock) (s (thm 3%nat) sb sblock) in
  let thm' := upd thm 2%nat
                (set_s (thm 2%nat) sb sblock (Min (s (thm 2%nat) sb sblock) (fst r))) in
  upd thm' 3%nat
    (set_s (thm' 3%nat) sb sblock (Min (s (thm' 3%nat) sb sblock) (snd r))).

(** [ns_msfix (gfc, msfix, athoffset_factor, athadjust_factor)]: the new
    [psv->thm]; [cb_l], [cb_s] are the tables of [gfc->ATH], [bm_l],
    [bm_s] the tables [bm] of [gfc->cd_psy]. *)
Definition ns_msfix (cb_l cb_s : nat -> R) (bm_l bm_s : nat -> nat)
  (msfix athoffset_factor athadjust_factor : R) (thm : nat -> III_psy_xmin)
  : nat -> III_psy_xmin :=
  let msfix2 := msfix in
  let athlower := athoffset_factor * athadjust_factor in
  let msfix := msfix * 2.0 in
  let msfix2 := msfix2 * 2.0 in
  let thm1 := for_loop (ns_msfix_l cb_l bm_l msfix msfix2 athlower) 0 SBMAX_l thm in
  let athlower := athlower * (BLKSIZE_s / BLKSIZE) in
  for_loop (fun t sb => for_loop (ns_msfix_s cb_s bm_s msfix athlower sb) 0 3 t)
    0 SBMAX_s thm1.

End Dimensions.

(** A doubly nested loop whose body changes the part [view] of the state
    only at the indices [(c, k)]. *)
Lemma for_loop_nested_view {St V : Type} (body : nat -> St -> nat -> St)
  (view : St -> V) (f : V -> V) (c k m : nat) :
  (forall t i j, (i <> c \/ j <> k) -> view (body i t j) = view t) ->
  (forall t, view (body c t k) = f (view t)) ->
  forall n lo t,
    view (for_loop (fun t i => for_loop (body i) 0 m t) lo n t)
    = if ((lo <=? c)%nat && (c <? lo + n)%nat && (k <? m)%nat)%bool
      then f (view t) else view t.
Proof.
  intros Hother Hsame n lo t.
  rewrite (for_loop_view (fun t i => for_loop (body i) 0 m t) view
             (fun v => if (k <? m)%nat then f v else v) c).
  - destruct (lo <=? c)%nat, (c <? lo + n)%nat, (k <? m)%nat; reflexivity.
  - intros t' i Hi. apply for_loop_frame. intros t'' j. apply Hother. now left.
  - intros t'.
    rewrite (for_loop_view (body c) view f k).
    + cbn [Nat.leb Nat.add andb]. reflexivity.
    + intros t'' j Hj. apply Hother. now right.
    + exact Hsame.
Qed.

Lemma Min_le (a b : R) : Min a b <= a /\ Min a b <= b.
Proof. unfold Min. destruct (Rlt_dec a b); lra. Qed.

Lemma Max_ge (a b : R) : a <= Max a b /\ b <= Max a b.
Proof. unfold Max. destruct (Rgt_dec a b); lra. Qed.

Lemma Max_cases (a b : R) : Max a b = a \/ Max a b = b.
Proof. unfold Max. destruct (Rgt_dec a b); auto. Qed.

Section StereoFacts.

Variables SBMAX_l SBMAX_s : nat.

(** *** Interchannel masking *)

Definition exchange (ratio : R) (c : R * R) : R * R :=
  (fst c + snd c * ratio, snd c + fst c * ratio).

(** The two channels' values of one long band, and of one short band and
    window. *)
Definition pair_l (sb : nat) (t : III_psy_xmin * III_psy_xmin) : R * R :=
  (l (fst t) sb, l (snd t) sb).

Definition pair_s (sb k : nat) (t : III_psy_xmin * III_psy_xmin) : R * R :=
  (s (fst t) sb k, s (snd t) sb k).

Lemma calc_interchannel_masking_l (thm0 thm1 : III_psy_xmin) (ratio : R) (sb : nat) :
  pair_l sb (calc_interchannel_masking SBMAX_l SBMAX_s thm0 thm1 ratio)
  = if (sb <? SBMAX_l)%nat then exchange ratio (l thm0 sb, l thm1 sb)
    else (l thm0 sb, l thm1 sb).
Proof.
  unfold calc_interchannel_masking.
  rewrite (for_loop_frame (fun t sb => for_loop (interchannel_s ratio sb) 0 3 t)
             (pair_l sb)).
  2:{ intros t k. apply (for_loop_frame (interchannel_s ratio k) (pair_l sb)).
      intros t' j. reflexivity. }
  rewrite (for_loop_view (interchannel_l ratio) (pair_l sb) (exchange ratio) sb).
  - cbn [Nat.leb Nat.add andb]. reflexivity.
  - intros t chn Hne. unfold interchannel_l, pair_l. cbn [fst snd].
    rewrite !set_l_at. apply Nat.eqb_neq in Hne. rewrite Nat.eqb_sym, Hne. reflexivity.
  - intros t. unfold interchannel_l, exchange, pair_l. cbn [fst snd].
    rewrite !set_l_at, Nat.eqb_refl. reflexivity.
Qed.

Lemma calc_interchannel_masking_s (thm0 thm1 : III_psy_xmin) (ratio : R)
  (sb k : nat) :
  pair_s sb k (calc_interchannel_masking SBMAX_l SBMAX_s thm0 thm1 ratio)
  = if ((sb <? SBMAX_s)%nat && (k <? 3)%nat)%bool
    then exchange ratio (s thm0 sb k, s thm1 sb k)
    else (s thm0 sb k, s thm1 sb k).
Proof.
  unfold calc_interchannel_masking.
  rewrite (for_loop_nested_view (interchannel_s ratio)
             (pair_s sb k) (exchange ratio) sb k 3).
  - rewrite (for_loop_frame (interchannel_l ratio) (pair_s sb k))
      by (intros; reflexivity).
    cbn [Nat.leb Nat.add andb]. reflexivity.
  - intros t i j Hne. unfold interchannel_s, pair_s. cbn [fst snd].
    rewrite !set_s_at.
    destruct (Nat.eqb_spec sb i), (Nat.eqb_spec k j); cbn [andb];
      try reflexivity.
    exfalso. destruct Hne; congruence.
  - intros t. unfold interchannel_s, exchange, pair_s. cbn [fst snd].
    rewrite !set_s_at, !Nat.eqb_refl. reflexivity.
Qed.

(** Interchannel masking adds to every long band and every short band
    and window of each channel [ratio] times what the other channel held
    before the call, and touches nothing outside the [SBMAX_l] long and
    [SBMAX_s] x 3 short entries. *)
Theorem calc_interchannel_masking_exchange (thm0 thm1 : III_psy_xmin) (ratio : R) :
  let r := calc_interchannel_masking SBMAX_l SBMAX_s thm0 thm1 ratio in
  (forall sb, (sb < SBMAX_l)%nat ->
     l (fst r) sb = l thm0 sb + l thm1 sb * ratio /\
     l (snd r) sb = l thm1 sb + l thm0 sb * ratio) /\
  (forall sb k, (sb < SBMAX_s)%nat -> (k < 3)%nat ->
     s (fst r) sb k = s thm0 sb k + s thm1 sb k * ratio /\
     s (snd r) sb k = s thm1 sb k + s thm0 sb k * ratio) /\
  (forall sb, (SBMAX_l <= sb)%nat ->
     l (fst r) sb = l thm0 sb /\ l (snd r) sb = l thm1 sb) /\
  (forall sb k, (SBMAX_s <= sb)%nat \/ (3 <= k)%nat ->
     s (fst r) sb k = s thm0 sb k /\ s (snd r) sb k = s thm1 sb k).
Proof.
  intro r. repeat split.
  - pose proof (calc_interchannel_masking_l thm0 thm1 ratio sb) as E.
    destruct (Nat.ltb_spec sb SBMAX_l); [|lia].
    now injection E.
  - pose proof (calc_interchannel_masking_l thm0 thm1 ratio sb) as E.
    destruct (Nat.ltb_spec sb SBMAX_l); [|lia].
    now injection E.
  - pose proof (calc_interchannel_masking_s thm0 thm1 ratio sb k) as E.
    destruct (Nat.ltb_spec sb SBMAX_s), (Nat.ltb_spec k 3); try lia.
    now injection E.
  - pose proof (calc_interchannel_masking_s thm0 thm1 ratio sb k) as E.
    destruct (Nat.ltb_spec sb SBMAX_s), (Nat.ltb_spec k 3); try lia.
    now injection E.
  - pose proof (calc_interchannel_masking_l thm0 thm1 ratio sb) as E.
    destruct (Nat.ltb_spec sb SBMAX_l); [lia|].
    now injection E.
  - pose proof (calc_interchannel_masking_l thm0 thm1 ratio sb) as E.
    destruct (Nat.ltb_spec sb SBMAX_l); [lia|].
    now injection E.
  - pose proof (calc_interchannel_masking_s thm0 thm1 ratio sb k) as E.
    destruct (Nat.ltb_spec sb SBMAX_s), (Nat.ltb_spec k 3); try lia;
      cbn [andb] in E; now injection E.
  - pose proof (calc_interchannel_masking_s thm0 thm1 ratio sb k) as E.
    destruct (Nat.ltb_spec sb SBMAX_s), (Nat.ltb_spec k 3); try lia;
      cbn [andb] in E; now injection E.
Qed.

(** *** [msfix1] *)

(** The four channels' values of one long band, and of one short band
    and window. *)
Definition quad_l (sb : nat) (thm : nat -> III_psy_xmin) : R * R * R * R :=
  (l (thm 0%nat) sb, l (thm 1%nat) sb, l (thm 2%nat) sb, l (thm 3%nat) sb).

Definition quad_s (sb k : nat) (thm : nat -> III_psy_xmin) : R * R * R * R :=
  (s (thm 0%nat) sb k, s (thm 1%nat) sb k, s (thm 2%nat) sb k, s (thm 3%nat) sb k).

Definition msfix1_quad (mld enM enS : R) (q : R * R * R * R) : R * R * R * R :=
  let '(thmL, thmR, thmM, thmS) := q in
  match msfix1_band mld thmL thmR thmM thmS enM enS with
  | None => q
  | Some (rmid, rside) => (thmL, thmR, rmid, rside)
  end.

Lemma msfix1_quad_l (mld_l mld_s : nat -> R) (en thm : nat -> III_psy_xmin) (sb : nat) :
  quad_l sb (msfix1 SBMAX_l SBMAX_s mld_l mld_s en thm)
  = if (sb <? SBMAX_l)%nat
    then msfix1_quad (mld_l sb) (l (en 2%nat) sb) (l (en 3%nat) sb) (quad_l sb thm)
    else quad_l sb thm.
Proof.
  unfold msfix1.
  rewrite (for_loop_frame (fun t sb => for_loop (msfix1_s mld_s en sb) 0 3 t)
             (quad_l sb)).
  2:{ intros t k. apply (for_loop_frame (msfix1_s mld_s en k) (quad_l sb)).
      intros t' j. unfold msfix1_s.
      destruct (msfix1_band _ _ _ _ _ _ _) as [[rmid rside]|]; reflexivity. }
  rewrite (for_loop_view (msfix1_l mld_l en) (quad_l sb)
             (msfix1_quad (mld_l sb) (l (en 2%nat) sb) (l (en 3%nat) sb)) sb).
  - cbn [Nat.leb Nat.add andb]. reflexivity.
  - intros t chn Hne. unfold msfix1_l.
    destruct (msfix1_band _ _ _ _ _ _ _) as [[rmid rside]|]; [|reflexivity].
    unfold quad_l. cbv zeta.
    rewrite upd_same, !(upd_other _ 3%nat) by lia. rewrite upd_same.
    rewrite !(upd_other _ 2%nat) by lia.
    rewrite !set_l_at. apply Nat.eqb_neq in Hne. rewrite Nat.eqb_sym, Hne. reflexivity.
  - intros t. unfold msfix1_l, msfix1_quad, quad_l.
    destruct (msfix1_band _ _ _ _ _ _ _) as [[rmid rside]|]; [|reflexivity].
    cbv zeta.
    rewrite upd_same, !(upd_other _ 3%nat) by lia. rewrite upd_same.
    rewrite !(upd_other _ 2%nat) by lia.
    rewrite !set_l_at, Nat.eqb_refl. reflexivity.
Qed.

Lemma msfix1_quad_s (mld_l mld_s : nat -> R) (en thm : nat -> III_psy_xmin)
  (sb k : nat) :
  quad_s sb k (msfix1 SBMAX_l SBMAX_s mld_l mld_s en thm)
  = if ((sb <? SBMAX_s)%nat && (k <? 3)%nat)%bool
    then msfix1_quad (mld_s sb) (s (en 2%nat) sb k) (s (en 3%nat) sb k) (quad_s sb k thm)
    else quad_s sb k thm.
Proof.
  unfold msfix1.
  rewrite (for_loop_nested_view (msfix1_s mld_s en) (quad_s sb k)
             (msfix1_quad (mld_s sb) (s (en 2%nat) sb k) (s (en 3%nat) sb k)) sb k 3).
  - rewrite (for_loop_frame (msfix1_l mld_l en) (quad_s sb k)).
    + cbn [Nat.leb Nat.add andb]. reflexivity.
    + intros t j. unfold msfix1_l.
      destruct (msfix1_band _ _ _ _ _ _ _) as [[rmid rside]|]; reflexivity.
  - intros t i j Hne. unfold msfix1_s.
    destruct (msfix1_band _ _ _ _ _ _ _) as [[rmid rside]|]; [|reflexivity].
    unfold quad_s. cbv zeta.
    rewrite upd_same, !(upd_other _ 3%nat) by lia. rewrite upd_same.
    rewrite !(upd_other _ 2%nat) by lia.
    rewrite !set_s_at.
    destruct (Nat.eqb_spec sb i), (Nat.eqb_spec k j); cbn [andb];
      try reflexivity.
    exfalso. destruct Hne; congruence.
  - intros t. unfold msfix1_s, msfix1_quad, quad_s.
    destruct (msfix1_band _ _ _ _ _ _ _) as [[rmid rside]|]; [|reflexivity].
    cbv zeta.
    rewrite upd_same, !(upd_other _ 3%nat) by lia. rewrite upd_same.
    rewrite !(upd_other _ 2%nat) by lia.
    rewrite !set_s_at, !Nat.eqb_refl. reflexivity.
Qed.

Lemma msfix1_other_channels (mld_l mld_s : nat -> R) (en thm : nat -> III_psy_xmin)
  (chn : nat) :
  chn <> 2%nat -> chn <> 3%nat ->
  msfix1 SBMAX_l SBMAX_s mld_l mld_s en thm chn = thm chn.
Proof.
  intros H2 H3. unfold msfix1.
  rewrite (for_loop_frame (fun t sb => for_loop (msfix1_s mld_s en sb) 0 3 t)
             (fun t => t chn)).
  2:{ intros t k. apply (for_loop_frame (msfix1_s mld_s en k) (fun t => t chn)).
      intros t' j. unfold msfix1_s.
      destruct (msfix1_band _ _ _ _ _ _ _) as [[rmid rside]|]; [|reflexivity].
      cbv zeta. now rewrite !upd_other by assumption. }
  apply (for_loop_frame (msfix1_l mld_l en) (fun t => t chn)).
  intros t j. unfold msfix1_l.
  destruct (msfix1_band _ _ _ _ _ _ _) as [[rmid rside]|]; [|reflexivity].
  cbv zeta. now rewrite !upd_other by assumption.
Qed.

(** What one band of [msfix1] does to the mid and side thresholds:
    neither is lowered, neither ends above the larger of the two, and
    both are kept when the left and right thresholds differ by more than
    the factor 1.58. *)
Definition msfix1_band_ok (q q' : R * R * R * R) : Prop :=
  let '(thmL, thmR, thmM, thmS) := q in
  let '(thmL', thmR', thmM', thmS') := q' in
  thmL' = thmL /\ thmR' = thmR /\
  thmM <= thmM' <= Rmax thmM thmS /\
  thmS <= thmS' <= Rmax thmM thmS /\
  (thmL > 1.58 * thmR \/ thmR > 1.58 * thmL -> thmM' = thmM /\ thmS' = thmS).

Lemma msfix1_quad_ok (mld enM enS : R) (q : R * R * R * R) :
  msfix1_band_ok q (msfix1_quad mld enM enS q).
Proof.
  destruct q as [[[thmL thmR] thmM] thmS].
  unfold msfix1_quad, msfix1_band, msfix1_band_ok, Max, Min, Rmax.
  repeat match goal with
         | |- context [Rgt_dec ?a ?b] => destruct (Rgt_dec a b)
         | |- context [Rlt_dec ?a ?b] => destruct (Rlt_dec a b)
         | |- context [Rle_dec ?a ?b] => destruct (Rle_dec a b)
         end;
    repeat split; try lra; intros [H|H]; lra.
Qed.

Lemma msfix1_band_ok_refl (q : R * R * R * R) : msfix1_band_ok q q.
Proof.
  destruct q as [[[thmL thmR] thmM] thmS]. unfold msfix1_band_ok, Rmax.
  destruct (Rle_dec thmM thmS); repeat split; lra.
Qed.

(** [msfix1] changes the mid and side thresholds only (channels 2 and 3).
    It never lowers one, never sets one above the larger of the two in
    its band, and leaves both as they were in every band whose left and
    right thresholds differ by more than the factor 1.58. *)
Theorem msfix1_raises_within_pair (mld_l mld_s : nat -> R)
  (en thm : nat -> III_psy_xmin) :
  let r := msfix1 SBMAX_l SBMAX_s mld_l mld_s en thm in
  (forall chn, chn <> 2%nat -> chn <> 3%nat -> r chn = thm chn) /\
  (forall sb, msfix1_band_ok (quad_l sb thm) (quad_l sb r)) /\
  (forall sb k, msfix1_band_ok (quad_s sb k thm) (quad_s sb k r)).
Proof.
  intro r. split; [|split].
  - intros chn H2 H3. now apply msfix1_other_channels.
  - intro sb. unfold r. rewrite msfix1_quad_l.
    destruct (sb <? SBMAX_l)%nat; [apply msfix1_quad_ok | apply msfix1_band_ok_refl].
  - intros sb k. unfold r. rewrite msfix1_quad_s.
    destruct ((sb <? SBMAX_s)%nat && (k <? 3)%nat)%bool;
      [apply msfix1_quad_ok | apply msfix1_band_ok_refl].
Qed.

(** *** [ns_msfix] *)

Variables BLKSIZE BLKSIZE_s : R.

(** The [ath] of a long and of a short band inside [ns_msfix]. *)
Definition ath_l (cb_l : nat -> R) (bm_l : nat -> nat)
  (athoffset_factor athadjust_factor : R) (sb : nat) : R :=
  cb_l (bm_l sb) * (athoffset_factor * athadjust_factor).

Definition ath_s (cb_s : nat -> R) (bm_s : nat -> nat)
  (athoffset_factor athadjust_factor : R) (sb : nat) : R :=
  cb_s (bm_s sb) * (athoffset_factor * athadjust_factor * (BLKSIZE_s / BLKSIZE)).

Definition ns_msfix_quad_l (msfix ath : R) (q : R * R * R * R) : R * R * R * R :=
  let '(thmL, thmR, thmM, thmS) := q in
  let r := ns_msfix_band msfix msfix ath thmL thmR thmM thmS in
  (thmL, thmR, Min (fst r) thmM, Min (snd r) thmS).

Definition ns_msfix_quad_s (msfix ath : R) (q : R * R * R * R) : R * R * R * R :=
  let '(thmL, thmR, thmM, thmS) := q in
  let r := ns_msfix_band msfix msfix ath thmL thmR thmM thmS in
  (thmL, thmR, Min thmM (fst r), Min thmS (snd r)).

Section NsMsfix.

Variables cb_l cb_s : nat -> R.
Variables bm_l bm_s : nat -> nat.
Variables msfix athoffset_factor athadjust_factor : R.

Let ns_msfix_here :=
  ns_msfix SBMAX_l SBMAX_s BLKSIZE BLKSIZE_s cb_l cb_s bm_l bm_s
    msfix athoffset_factor athadjust_factor.

Lemma ns_msfix_quad_long (thm : nat -> III_psy_xmin) (sb : nat) :
  quad_l sb (ns_msfix_here thm)
  = if (sb <? SBMAX_l)%nat
    then ns_msfix_quad_l (msfix * 2.0)
           (ath_l cb_l bm_l athoffset_factor athadjust_factor sb) (quad_l sb thm)
    else quad_l sb thm.
Proof.
  unfold ns_msfix_here, ns_msfix. cbv zeta.
  rewrite (for_loop_frame
             (fun t sb => for_loop (ns_msfix_s cb_s bm_s (msfix * 2.0)
                (athoffset_factor * athadjust_factor * (BLKSIZE_s / BLKSIZE)) sb) 0 3 t)
             (quad_l sb)).
  2:{ intros t k. apply (for_loop_frame (ns_msfix_s cb_s bm_s _ _ k) (quad_l sb)).
      intros t' j. reflexivity. }
  rewrite (for_loop_view (ns_msfix_l cb_l bm_l (msfix * 2.0) (msfix * 2.0)
                            (athoffset_factor * athadjust_factor)) (quad_l sb)
             (ns_msfix_quad_l (msfix * 2.0)
                (ath_l cb_l bm_l athoffset_factor athadjust_factor sb)) sb).
  - cbn [Nat.leb Nat.add andb]. reflexivity.
  - intros t chn Hne. unfold ns_msfix_l, quad_l. cbv zeta.
    rewrite upd_same, !(upd_other _ 3%nat) by lia. rewrite upd_same.
    rewrite !(upd_other _ 2%nat) by lia.
    rewrite !set_l_at. apply Nat.eqb_neq in Hne. rewrite Nat.eqb_sym, Hne. reflexivity.
  - intros t. unfold ns_msfix_l, ns_msfix_quad_l, quad_l, ath_l. cbv zeta.
    rewrite upd_same, !(upd_other _ 3%nat) by lia. rewrite upd_same.
    rewrite !(upd_other _ 2%nat) by lia.
    rewrite !set_l_at, Nat.eqb_refl. reflexivity.
Qed.

Lemma ns_msfix_quad_short (thm : nat -> III_psy_xmin) (sb k : nat) :
  quad_s sb k (ns_msfix_here thm)
  = if ((sb <? SBMAX_s)%nat && (k <? 3)%nat)%bool
    then ns_msfix_quad_s (msfix * 2.0)
           (ath_s cb_s bm_s athoffset_factor athadjust_factor sb) (quad_s sb k thm)
    else quad_s sb k thm.
Proof.
  unfold ns_msfix_here, ns_msfix. cbv zeta.
  rewrite (for_loop_nested_view
             (ns_msfix_s cb_s bm_s (msfix * 2.0)
                (athoffset_factor * athadjust_factor * (BLKSIZE_s / BLKSIZE)))
             (quad_s sb k)
             (ns_msfix_quad_s (msfix * 2.0)
                (ath_s cb_s bm_s athoffset_factor athadjust_factor sb)) sb k 3).
  - rewrite (for_loop_frame (ns_msfix_l cb_l bm_l _ _ _) (quad_s sb k))
      by (intros; reflexivity).
    cbn [Nat.leb Nat.add andb]. reflexivity.
  - intros t i j Hne. unfold ns_msfix_s, quad_s. cbv zeta.
    rewrite upd_same, !(upd_other _ 3%nat) by lia. rewrite upd_same.
    rewrite !(upd_other _ 2%nat) by lia.
    rewrite !set_s_at.
    destruct (Nat.eqb_spec sb i), (Nat.eqb_spec k j); cbn [andb];
      try reflexivity.
    exfalso. destruct Hne; congruence.
  - intros t. unfold ns_msfix_s, ns_msfix_quad_s, quad_s, ath_s. cbv zeta.
    rewrite upd_same, !(upd_other _ 3%nat) by lia. rewrite upd_same.
    rewrite !(upd_other _ 2%nat) by lia.
    rewrite !set_s_at, !Nat.eqb_refl. reflexivity.
Qed.

Lemma ns_msfix_other_channels (thm : nat -> III_psy_xmin) (chn : nat) :
  chn <> 2%nat -> chn <> 3%nat -> ns_msfix_here thm chn = thm chn.
Proof.
  intros H2 H3. unfold ns_msfix_here, ns_msfix. cbv zeta.
  rewrite (for_loop_frame
             (fun t sb => for_loop (ns_msfix_s cb_s bm_s (msfix * 2.0)
                (athoffset_factor * athadjust_factor * (BLKSIZE_s / BLKSIZE)) sb) 0 3 t)
             (fun t => t chn)).
  2:{ intros t k. apply (for_loop_frame (ns_msfix_s cb_s bm_s _ _ k) (fun t => t chn)).
      intros t' j. unfold ns_msfix_s. cbv zeta. now rewrite !upd_other by assumption. }
  apply (for_loop_frame (ns_msfix_l cb_l bm_l _ _ _) (fun t => t chn)).
  intros t j. unfold ns_msfix_l. cbv zeta. now rewrite !upd_other by assumption.
Qed.

End NsMsfix.

(** With a positive [ath], the two values one band of [ns_msfix] hands to
    its [Min] add up to at most [msfix2] times the smaller of the left and
    right thresholds (each raised to [ath]). *)
Lemma ns_msfix_band_sum (m ath thmL thmR thmM thmS : R) :
  0 < ath ->
  fst (ns_msfix_band m m ath thmL thmR thmM thmS)
  + snd (ns_msfix_band m m ath thmL thmR thmM thmS)
  <= m * Min (Max thmL ath) (Max thmR ath).
Proof.
  intro Hath. unfold ns_msfix_band.
  set (thmLR := Min (Max thmL ath) (Max thmR ath)).
  pose proof (Max_ge thmM ath) as [_ HM]. pose proof (Max_ge thmS ath) as [_ HS].
  set (thmM1 := Max thmM ath) in *. set (thmS1 := Max thmS ath) in *.
  destruct (Rlt_dec (thmLR * m) (thmM1 + thmS1)) as [Hlt|Hge]; cbn [fst snd].
  - assert (E : thmM1 * (thmLR * m / (thmM1 + thmS1))
                + thmS1 * (thmLR * m / (thmM1 + thmS1)) = m * thmLR)
      by (field; lra).
    lra.
  - lra.
Qed.

(** What one band of [ns_msfix] does: left and right are kept, mid and
    side are not raised, and where [ath] is positive mid and side add up
    to at most [2 * msfix] times the smaller of the left and right
    thresholds, each taken no lower than [ath]. *)
Definition ns_msfix_band_ok (msfix ath : R) (q q' : R * R * R * R) : Prop :=
  let '(thmL, thmR, thmM, thmS) := q in
  let '(thmL', thmR', thmM', thmS') := q' in
  thmL' = thmL /\ thmR' = thmR /\ thmM' <= thmM /\ thmS' <= thmS /\
  (0 < ath -> thmM' + thmS' <= 2 * msfix * Min (Max thmL ath) (Max thmR ath)).

Lemma ns_msfix_quad_l_ok (msfix ath : R) (q : R * R * R * R) :
  ns_msfix_band_ok msfix ath q (ns_msfix_quad_l (msfix * 2.0) ath q).
Proof.
  destruct q as [[[thmL thmR] thmM] thmS]. unfold ns_msfix_band_ok, ns_msfix_quad_l.
  cbv zeta.
  set (r := ns_msfix_band _ _ _ _ _ _ _).
  pose proof (Min_le (fst r) thmM) as [H1 H2].
  pose proof (Min_le (snd r) thmS) as [H3 H4].
  repeat split; try assumption.
  intro Hath. pose proof (ns_msfix_band_sum (msfix * 2.0) ath thmL thmR thmM thmS Hath) as Hs.
  fold r in Hs. lra.
Qed.

Lemma ns_msfix_quad_s_ok (msfix ath : R) (q : R * R * R * R) :
  ns_msfix_band_ok msfix ath q (ns_msfix_quad_s (msfix * 2.0) ath q).
Proof.
  destruct q as [[[thmL thmR] thmM] thmS]. unfold ns_msfix_band_ok, ns_msfix_quad_s.
  cbv zeta.
  set (r := ns_msfix_band _ _ _ _ _ _ _).
  pose proof (Min_le thmM (fst r)) as [H1 H2].
  pose proof (Min_le thmS (snd r)) as [H3 H4].
  repeat split; try assumption.
  intro Hath. pose proof (ns_msfix_band_sum (msfix * 2.0) ath thmL thmR thmM thmS Hath) as Hs.
  fold r in Hs. lra.
Qed.

(** [ns_msfix] changes the mid and side thresholds only and never raises
    one.  In every long band, and every short band and window, in range
    whose [ath] is positive, the new mid and side thresholds add up to at
    most [2 * msfix] times the smaller of the left and right thresholds,
    each taken no lower than [ath]. *)
Theorem ns_msfix_limits_mid_side (cb_l cb_s : nat -> R) (bm_l bm_s : nat -> nat)
  (msfix athoffset_factor athadjust_factor : R) (thm : nat -> III_psy_xmin) :
  let r := ns_msfix SBMAX_l SBMAX_s BLKSIZE BLKSIZE_s cb_l cb_s bm_l bm_s
             msfix athoffset_factor athadjust_factor thm in
  (forall chn, chn <> 2%nat -> chn <> 3%nat -> r chn = thm chn) /\
  (forall sb, l (r 2%nat) sb <= l (thm 2%nat) sb /\ l (r 3%nat) sb <= l (thm 3%nat) sb) /\
  (forall sb k, s (r 2%nat) sb k <= s (thm 2%nat) sb k /\
                s (r 3%nat) sb k <= s (thm 3%nat) sb k) /\
  (forall sb, (sb < SBMAX_l)%nat ->
     ns_msfix_band_ok msfix (ath_l cb_l bm_l athoffset_factor athadjust_factor sb)
       (quad_l sb thm) (quad_l sb r)) /\
  (forall sb k, (sb < SBMAX_s)%nat -> (k < 3)%nat ->
     ns_msfix_band_ok msfix (ath_s cb_s bm_s athoffset_factor athadjust_factor sb)
       (quad_s sb k thm) (quad_s sb k r)).
Proof.
  intro r. split; [|split; [|split; [|split]]].
  - intros chn H2 H3. now apply ns_msfix_other_channels.
  - intro sb.
    pose proof (ns_msfix_quad_long cb_l cb_s bm_l bm_s msfix athoffset_factor
                  athadjust_factor thm sb) as E.
    fold r in E.
    destruct (sb <? SBMAX_l)%nat.
    + pose proof (ns_msfix_quad_l_ok msfix
                    (ath_l cb_l bm_l athoffset_factor athadjust_factor sb)
                    (quad_l sb thm)) as H.
      rewrite <- E in H. unfold ns_msfix_band_ok, quad_l in H. tauto.
    + unfold quad_l in E. injection E as _ _ E2 E3. rewrite E2, E3. lra.
  - intros sb k.
    pose proof (ns_msfix_quad_short cb_l cb_s bm_l bm_s msfix athoffset_factor
                  athadjust_factor thm sb k) as E.
    fold r in E.
    destruct ((sb <? SBMAX_s)%nat && (k <? 3)%nat)%bool.
    + pose proof (ns_msfix_quad_s_ok msfix
                    (ath_s cb_s bm_s athoffset_factor athadjust_factor sb)
                    (quad_s sb k thm)) as H.
      rewrite <- E in H. unfold ns_msfix_band_ok, quad_s in H. tauto.
    + unfold quad_s in E. injection E as _ _ E2 E3. rewrite E2, E3. lra.
  - intros sb Hsb.
    pose proof (ns_msfix_quad_long cb_l cb_s bm_l bm_s msfix athoffset_factor
                  athadjust_factor thm sb) as E.
    fold r in E.
    destruct (Nat.ltb_spec sb SBMAX_l); [|lia].
    rewrite E. apply ns_msfix_quad_l_ok.
  - intros sb k Hsb Hk.
    pose proof (ns_msfix_quad_short cb_l cb_s bm_l bm_s msfix athoffset_factor
                  athadjust_factor thm sb k) as E.
    fold r in E.
    destruct (Nat.ltb_spec sb SBMAX_s), (Nat.ltb_spec k 3); try lia.
    cbn [andb] in E. rewrite E. apply ns_msfix_quad_s_ok.
Qed.

End StereoFacts.

End Stereo.

(** * psymodel.c: perceptual entropy *)

Module Entropy.

Import Stereo.

(** [III_psy_ratio]. *)
Record III_psy_ratio : Type := {
  thm : III_psy_xmin;
  en : III_psy_xmin
}.

Definition regcoef_s : list R :=
  [ 11.8; 13.6; 17.2; 32; 46.5; 51.3; 57.5; 67.1; 71.5; 84.6; 97.6; 130 ].

Definition regcoef_l : list R :=
  [ 6.8; 5.8; 5.8; 6.4; 6.5; 9.9; 12.1; 14.4; 15; 18.9; 21.6; 26.9; 34.2;
    40.2; 46.8; 56.5; 60.7; 73.9; 85.7; 93.4; 126.1 ].

Section Macros.

(** Dimensions and macros of the headers. *)
Variables SBMAX_l SBMAX_s : nat.
Variable LOG10 : R.
Variable FAST_LOG10 : R -> R.

(** What one band adds to the entropy [pe]. *)
Definition pe_band (coef masking_lower thm_b en_b pe : R) : R :=
  if Rgt_dec thm_b 0.0 then
    let x := thm_b * masking_lower in
    if Rgt_dec en_b x then
      if Rgt_dec en_b (x * 1e10) then pe + coef * (10.0 * LOG10)
      else pe + coef * FAST_LOG10 (en_b / x)
    else pe
  else pe.

Definition pecalc_s_window (mr : III_psy_ratio) (masking_lower : R) (sb : nat)
  (pe_s : R) (sblock : nat) : R :=
  pe_band (table_at regcoef_s (Z.of_nat sb)) masking_lower
    (s (thm mr) sb sblock) (s (en mr) sb sblock) pe_s.

(** [pecalc_s (mr, masking_lower)]. *)
Definition pecalc_s (mr : III_psy_ratio) (masking_lower : R) : R :=
  for_loop (fun pe_s sb => for_loop (pecalc_s_window mr masking_lower sb) 0 3 pe_s)
    0 (SBMAX_s - 1) (1236.28 / 4).

Definition pecalc_l_band (mr : III_psy_ratio) (masking_lower : R)
  (pe_l : R) (sb : nat) : R :=
  pe_band (table_at regcoef_l (Z.of_nat sb)) masking_lower
    (l (thm mr) sb) (l (en mr) sb) pe_l.

(** [pecalc_l (mr, masking_lower)]. *)
Definition pecalc_l (mr : III_psy_ratio) (masking_lower : R) : R :=
  for_loop (pecalc_l_band mr masking_lower) 0 (SBMAX_l - 1) (1124.23 / 4).

(** A band whose energy is above its lowered threshold. *)
Definition audible (masking_lower thm_b en_b : R) : Prop :=
  thm_b > 0 /\ en_b > thm_b * masking_lower.

Lemma pe_band_masked (coef masking_lower thm_b en_b pe : R) :
  ~ audible masking_lower thm_b en_b ->
  pe_band coef masking_lower thm_b en_b pe = pe.
Proof.
  unfold audible, pe_band. intro H.
  destruct (Rgt_dec thm_b 0.0) as [Ht|]; [|reflexivity].
  destruct (Rgt_dec en_b (thm_b * masking_lower)) as [He|]; [|reflexivity].
  exfalso. apply H. split; lra.
Qed.

Lemma regcoef_nonneg (t : list R) (i : Z) :
  Forall (fun c => 0 <= c) t -> 0 <= table_at t i.
Proof.
  intro H. unfold table_at. destruct (i <? 0)%Z; [lra|].
  destruct (nth_in_or_default (Z.to_nat i) t 0) as [Hin| ->]; [|lra].
  rewrite Forall_forall in H. now apply H.
Qed.

Lemma regcoef_l_nonneg (i : Z) : 0 <= table_at regcoef_l i.
Proof. apply regcoef_nonneg. unfold regcoef_l. repeat constructor; lra. Qed.

Lemma regcoef_s_nonneg (i : Z) : 0 <= table_at regcoef_s i.
Proof. apply regcoef_nonneg. unfold regcoef_s. repeat constructor; lra. Qed.

Section Grows.

Hypothesis LOG10_nonneg : 0 <= LOG10.
Hypothesis FAST_LOG10_nonneg : forall x, 1 <= x -> 0 <= FAST_LOG10 x.

Lemma pe_band_grows (coef masking_lower thm_b en_b pe : R) :
  0 <= coef -> pe <= pe_band coef masking_lower thm_b en_b pe.
Proof.
  intro Hc. unfold pe_band.
  destruct (Rgt_dec thm_b 0.0) as [Ht|]; [|lra].
  cbv zeta. set (x := thm_b * masking_lower).
  destruct (Rgt_dec en_b x) as [He|]; [|lra].
  destruct (Rgt_dec en_b (x * 1e10)) as [Hbig|Hsmall].
  - assert (0 <= coef * (10.0 * LOG10)) by (apply Rmult_le_pos; lra). lra.
  - assert (Hx : 0 < x) by lra.
    assert (Hq : 1 <= en_b / x).
    { apply Rmult_le_reg_r with x; [exact Hx|].
      unfold Rdiv. rewrite Rmult_assoc, Rinv_l by lra. lra. }
    pose proof (FAST_LOG10_nonneg _ Hq).
    assert (0 <= coef * FAST_LOG10 (en_b / x)) by (apply Rmult_le_pos; lra). lra.
Qed.

Lemma pecalc_l_grows (mr : III_psy_ratio) (masking_lower : R) (n : nat) (pe : R) :
  pe <= for_loop (pecalc_l_band mr masking_lower) 0 n pe.
Proof.
  apply (for_loop_ind (fun _ p => pe <= p) (pecalc_l_band mr masking_lower) n 0 pe).
  - lra.
  - intros i p _ Hp. unfold pecalc_l_band.
    pose proof (pe_band_grows (table_at regcoef_l (Z.of_nat i)) masking_lower
                  (l (thm mr) i) (l (en mr) i) p (regcoef_l_nonneg _)). lra.
Qed.

Lemma pecalc_s_grows (mr : III_psy_ratio) (masking_lower : R) (n : nat) (pe : R) :
  pe <= for_loop (fun pe_s sb => for_loop (pecalc_s_window mr masking_lower sb) 0 3 pe_s)
          0 n pe.
Proof.
  apply (for_loop_ind (fun _ p => pe <= p)
           (fun pe_s sb => for_loop (pecalc_s_window mr masking_lower sb) 0 3 pe_s)
           n 0 pe).
  - lra.
  - intros i p _ Hp.
    apply (for_loop_ind (fun _ q => pe <= q) (pecalc_s_window mr masking_lower i)
             3 0 p Hp).
    intros k q _ Hq. unfold pecalc_s_window.
    pose proof (pe_band_grows (table_at regcoef_s (Z.of_nat i)) masking_lower
                  (s (thm mr) i k) (s (en mr) i k) q (regcoef_s_nonneg _)). lra.
Qed.

End Grows.

Lemma pecalc_l_masked (mr : III_psy_ratio) (masking_lower : R) (n : nat) (pe : R) :
  (forall sb, (sb < n)%nat ->
     ~ audible masking_lower (l (thm mr) sb) (l (en mr) sb)) ->
  for_loop (pecalc_l_band mr masking_lower) 0 n pe = pe.
Proof.
  intro H.
  pose proof (for_loop_ind (fun _ p => p = pe) (pecalc_l_band mr masking_lower)
                n 0 pe eq_refl) as Hind.
  apply Hind. intros i p Hi ->. unfold pecalc_l_band.
  apply pe_band_masked. apply H. lia.
Qed.

Lemma pecalc_s_masked (mr : III_psy_ratio) (masking_lower : R) (n : nat) (pe : R) :
  (forall sb k, (sb < n)%nat -> (k < 3)%nat ->
     ~ audible masking_lower (s (thm mr) sb k) (s (en mr) sb k)) ->
  for_loop (fun pe_s sb => for_loop (pecalc_s_window mr masking_lower sb) 0 3 pe_s)
    0 n pe = pe.
Proof.
  intro H.
  pose proof (for_loop_ind (fun _ p => p = pe)
                (fun pe_s sb => for_loop (pecalc_s_window mr masking_lower sb) 0 3 pe_s)
                n 0 pe eq_refl) as Hind.
  apply Hind. intros i p Hi ->.
  pose proof (for_loop_ind (fun _ q => q = pe) (pecalc_s_window mr masking_lower i)
                3 0 pe eq_refl) as Hin.
  apply Hin. intros k q Hk ->. unfold pecalc_s_window.
  apply pe_band_masked. apply H; lia.
Qed.

(** With a [LOG10] that is not negative and a [FAST_LOG10] that is not
    negative from 1 on, the perceptual entropy never falls below its
    base value, 1124.23 / 4 for long and 1236.28 / 4 for short blocks,
    whatever [masking_lower] is; and it is exactly the base value when
    no band below the last one has an energy above its lowered
    threshold.  The dimensions are those for which every read of the
    coefficient tables stays inside them. *)
Theorem pecalc_at_least_base (mr : III_psy_ratio) (masking_lower : R) :
  (1 <= SBMAX_l <= 22)%nat -> (1 <= SBMAX_s <= 13)%nat ->
  0 <= LOG10 -> (forall x, 1 <= x -> 0 <= FAST_LOG10 x) ->
  1124.23 / 4 <= pecalc_l mr masking_lower /\
  1236.28 / 4 <= pecalc_s mr masking_lower /\
  ((forall sb, (sb < SBMAX_l - 1)%nat ->
      ~ audible masking_lower (l (thm mr) sb) (l (en mr) sb)) ->
   pecalc_l mr masking_lower = 1124.23 / 4) /\
  ((forall sb k, (sb < SBMAX_s - 1)%nat -> (k < 3)%nat ->
      ~ audible masking_lower (s (thm mr) sb k) (s (en mr) sb k)) ->
   pecalc_s mr masking_lower = 1236.28 / 4).
Proof.
  intros _ _ HL HF. unfold pecalc_l, pecalc_s.
  split; [now apply pecalc_l_grows|].
  split; [now apply pecalc_s_grows|].
  split; [apply pecalc_l_masked | apply pecalc_s_masked].
Qed.

End Macros.

(** A ratio with one audible long band, for natural logarithms. *)
Definition one_loud_band : III_psy_ratio :=
  {| thm := {| l := fun _ => 1; s := fun _ _ => 0 |};
     en := {| l := fun sb => if Nat.eqb sb 0 then 4 else 0; s := fun _ _ => 0 |} |}.

Lemma pecalc_at_least_base_witness :
  1124.23 / 4 <= pecalc_l 22 2.30258509299404568402 ln one_loud_band 1 /\
  1236.28 / 4 <= pecalc_s 13 2.30258509299404568402 ln one_loud_band 1 /\
  ((forall sb, (sb < 22 - 1)%nat ->
      ~ audible 1 (l (thm one_loud_band) sb) (l (en one_loud_band) sb)) ->
   pecalc_l 22 2.30258509299404568402 ln one_loud_band 1 = 1124.23 / 4) /\
  ((forall sb k, (sb < 13 - 1)%nat -> (k < 3)%nat ->
      ~ audible 1 (s (thm one_loud_band) sb k) (s (en one_loud_band) sb k)) ->
   pecalc_s 13 2.30258509299404568402 ln one_loud_band 1 = 1236.28 / 4).
Proof.
  apply (pecalc_at_least_base 22 13 2.30258509299404568402 ln one_loud_band 1).
  - lia.
  - lia.
  - lra.
  - intros x Hx. rewrite <- ln_1. destruct Hx as [Hx| <-]; [|lra].
    left. apply ln_increasing; lra.
Defined.

End Entropy.

(** * psymodel.c: the short-block policy *)

Module BlockPolicy.

Import BlockType.

(** The long/short decision a channel ends up with: the attack
    detector's, after the coupling of the channels and the two
    overrides. *)
Definition decision (cfg : SessionConfig) (ul : nat -> bool) (c : nat) : bool :=
  override_channel cfg (fun _ => couple_channels cfg ul c) c c.

Lemma block_type_set_decision cfg v c :
  (c < channels_out cfg)%nat ->
  blocktype_d (block_type_set cfg v) c
  = fst (chan_step (blocktype_old v c) (decision cfg (uselongblock v) c)) /\
  blocktype_old (block_type_set cfg v) c
  = snd (chan_step (blocktype_old v c) (decision cfg (uselongblock v) c)).
Proof.
  intro Hc. unfold block_type_set, decision.
  set (body := fun (v : bt_vars) (chn : nat) => apply_channel _ chn).
  set (v0 := Build_bt_vars _ _ _ _).
  pose proof (for_loop_view body (chan_view c)
    (fun x => chan_apply (override_channel cfg (fun _ => fst (fst x)) c c,
                          snd (fst x), snd x)) c) as H.
  assert (H1 : forall s chn, chn <> c -> chan_view c (body s chn) = chan_view c s).
  { intros s chn Hne. unfold body. rewrite apply_channel_other by exact Hne.
    unfold chan_view; simpl. now rewrite override_channel_other. }
  assert (H2 : forall s, chan_view c (body s c)
     = chan_apply (override_channel cfg (fun _ => fst (fst (chan_view c s))) c c,
                   snd (fst (chan_view c s)), snd (chan_view c s))).
  { intros s. unfold body. rewrite apply_channel_same.
    unfold chan_view; cbn [uselongblock blocktype_old blocktype_d fst snd].
    now rewrite override_channel_same. }
  specialize (H H1 H2 (channels_out cfg) 0%nat v0).
  destruct (Nat.leb_spec 0 c); [|lia].
  destruct (Nat.ltb_spec c (0 + channels_out cfg)); [|lia].
  cbn [andb] in H.
  unfold chan_view, chan_apply in H.
  cbn [fst snd uselongblock blocktype_old blocktype_d v0] in H.
  injection H as _ Hold Hd.
  split; [exact Hd | exact Hold].
Qed.

Lemma vbrpsy_compute_block_type_decision cfg ul c :
  (c < channels_out cfg)%nat ->
  vbrpsy_compute_block_type cfg ul c = decision cfg ul c.
Proof.
  intro Hc. unfold vbrpsy_compute_block_type, decision.
  rewrite (for_loop_view (override_channel cfg) (fun u => u c)
             (fun x => override_channel cfg (fun _ => x) c c) c).
  - destruct (Nat.leb_spec 0 c); [|lia].
    destruct (Nat.ltb_spec c (0 + channels_out cfg)); [|lia].
    reflexivity.
  - intros u chn Hne. now apply override_channel_other.
  - intros u. apply override_channel_same.
Qed.

Lemma vbr_block_type_step_decision cfg v c :
  (c < channels_out cfg)%nat ->
  blocktype_d (vbr_block_type_step cfg v) c
  = fst (chan_step (blocktype_old v c) (decision cfg (uselongblock v) c)) /\
  blocktype_old (vbr_block_type_step cfg v) c
  = snd (chan_step (blocktype_old v c) (decision cfg (uselongblock v) c)).
Proof.
  intro Hc. unfold vbr_block_type_step, vbrpsy_apply_block_type.
  set (v0 := Build_bt_vars _ _ _ _).
  pose proof (for_loop_view apply_channel (chan_view c) chan_apply c
                (fun s chn Hne => apply_channel_other c chn s Hne)
                (apply_channel_same c) (channels_out cfg) 0%nat v0) as H.
  destruct (Nat.leb_spec 0 c); [|lia].
  destruct (Nat.ltb_spec c (0 + channels_out cfg)); [|lia].
  cbn [andb] in H.
  unfold chan_view, chan_apply in H.
  cbn [fst snd uselongblock blocktype_old blocktype_d v0] in H.
  rewrite (vbrpsy_compute_block_type_decision cfg _ c Hc) in H.
  injection H as _ Hold Hd.
  split; [exact Hd | exact Hold].
Qed.

(** Over a session a channel's types are the trace of [chan_step] on its
    decisions. *)
Lemma run_granules_decisions (cfg : SessionConfig) (step : bt_vars -> bt_vars)
  (c : nat) :
  (forall v,
      blocktype_d (step v) c
      = fst (chan_step (blocktype_old v c) (decision cfg (uselongblock v) c)) /\
      blocktype_old (step v) c
      = snd (chan_step (blocktype_old v c) (decision cfg (uselongblock v) c))) ->
  forall uls old d,
    map (fun d => d c) (run_granules step old d uls)
    = chan_trace (old c) (map (fun ul => decision cfg ul c) uls).
Proof.
  intros Hstep uls. induction uls as [|ul rest IH]; intros old d; [reflexivity|].
  cbn [run_granules map chan_trace].
  destruct (Hstep {| uselongblock := ul; blocktype_old := old;
                     blocktype_d := d; blocktype := fun _ => NORM_TYPE |})
    as [Hd Hold].
  cbn [uselongblock blocktype_old] in Hd, Hold.
  rewrite IH, Hd, Hold. reflexivity.
Qed.

(** The analysers' steps: [block_type_set] and the pair
    [vbrpsy_compute_block_type], [vbrpsy_apply_block_type]. *)
Definition analyser_step (cfg : SessionConfig) (step : bt_vars -> bt_vars) : Prop :=
  step = block_type_set cfg \/ step = vbr_block_type_step cfg.

Lemma emitted_decisions (cfg : SessionConfig) (step : bt_vars -> bt_vars)
  (uls : list (nat -> bool)) (c : nat) :
  analyser_step cfg step -> (c < channels_out cfg)%nat ->
  emitted step uls c = chan_trace NORM_TYPE (map (fun ul => decision cfg ul c) uls).
Proof.
  intros [-> | ->] Hc; unfold emitted.
  - apply (run_granules_decisions cfg (block_type_set cfg) c
             (fun v => block_type_set_decision cfg v c Hc)).
  - apply (run_granules_decisions cfg (vbr_block_type_step cfg) c
             (fun v => vbr_block_type_step_decision cfg v c Hc)).
Qed.

Lemma chan_trace_all_long (n : nat) :
  chan_trace NORM_TYPE (repeat true n) = repeat NORM_TYPE n.
Proof. induction n as [|n IH]; [reflexivity|]. cbn. now rewrite IH. Qed.

Lemma chan_trace_short_run (n : nat) :
  chan_trace SHORT_TYPE (repeat false n) = repeat SHORT_TYPE n.
Proof. induction n as [|n IH]; [reflexivity|]. cbn. now rewrite IH. Qed.

Lemma map_const {A B : Type} (f : A -> B) (b : B) (xs : list A) :
  (forall x, f x = b) -> map f xs = repeat b (length xs).
Proof.
  intro H. induction xs as [|x xs IH]; [reflexivity|].
  cbn. now rewrite H, IH.
Qed.

(** The short-block policy is honoured on every coded channel, in both
    analysers.  With short blocks dispensed every granule is handed back
    as NORM.  With short blocks forced the first granule is START and
    every later one SHORT.  With coupled short blocks and two channels,
    both channels are handed the same types.  With short blocks allowed
    or not set, a channel follows the attack detector's decisions. *)
Theorem short_block_policy_honoured (cfg : SessionConfig)
  (step : bt_vars -> bt_vars) (uls : list (nat -> bool)) (chn : nat) :
  analyser_step cfg step ->
  (chn < channels_out cfg)%nat ->
  (short_blocks cfg = short_block_dispensed ->
   emitted step uls chn = repeat NORM_TYPE (length uls)) /\
  (short_blocks cfg = short_block_forced ->
   emitted step uls chn
   = firstn (length uls) (START_TYPE :: repeat SHORT_TYPE (length uls))) /\
  (short_blocks cfg = short_block_coupled -> channels_out cfg = 2%nat ->
   emitted step uls 0 = emitted step uls 1) /\
  (short_blocks cfg = short_block_allowed \/ short_blocks cfg = short_block_not_set ->
   emitted step uls chn = chan_trace NORM_TYPE (map (fun ul => ul chn) uls)).
Proof.
  intros Hstep Hc.
  split; [|split; [|split]].
  - intro Hp. rewrite (emitted_decisions cfg step uls chn Hstep Hc).
    rewrite (map_const (fun ul => decision cfg ul chn) true).
    + apply chan_trace_all_long.
    + intro ul. unfold decision, override_channel. rewrite Hp. cbn.
      now rewrite upd_same.
  - intro Hp. rewrite (emitted_decisions cfg step uls chn Hstep Hc).
    rewrite (map_const (fun ul => decision cfg ul chn) false).
    + destruct (length uls) as [|n]; [reflexivity|].
      cbn. rewrite chan_trace_short_run.
      f_equal. clear. induction n as [|n IH]; [reflexivity|].
      cbn. f_equal. exact IH.
    + intro ul. unfold decision, override_channel. rewrite Hp. cbn.
      now rewrite upd_same.
  - intros Hp H2.
    rewrite (emitted_decisions cfg step uls 0 Hstep ltac:(lia)).
    rewrite (emitted_decisions cfg step uls 1 Hstep ltac:(lia)).
    f_equal. apply map_ext. intro ul.
    unfold decision, override_channel, couple_channels. rewrite Hp.
    cbn [short_block_eqb andb].
    destruct (ul 0%nat) eqn:E0, (ul 1%nat) eqn:E1; cbn [andb negb];
      rewrite ?E0, ?E1; unfold upd; reflexivity.
  - intro Hp. rewrite (emitted_decisions cfg step uls chn Hstep Hc).
    f_equal. apply map_ext. intro ul.
    unfold decision, override_channel, couple_channels.
    destruct Hp as [-> | ->]; reflexivity.
Qed.

(** A stereo session with short blocks forced, four granules without an
    attack. *)
Lemma short_block_policy_honoured_witness :
  let cfg := {| short_blocks := short_block_forced; channels_out := 2 |} in
  let uls := [ (fun _ : nat => true); (fun _ : nat => true);
               (fun _ : nat => true); (fun _ : nat => true) ] in
  emitted (block_type_set cfg) uls 1
  = [START_TYPE; SHORT_TYPE; SHORT_TYPE; SHORT_TYPE] /\
  ((short_blocks cfg = short_block_dispensed ->
    emitted (block_type_set cfg) uls 1 = repeat NORM_TYPE (length uls)) /\
   (short_blocks cfg = short_block_forced ->
    emitted (block_type_set cfg) uls 1
    = firstn (length uls) (START_TYPE :: repeat SHORT_TYPE (length uls))) /\
   (short_blocks cfg = short_block_coupled -> channels_out cfg = 2%nat ->
    emitted (block_type_set cfg) uls 0 = emitted (block_type_set cfg) uls 1) /\
   (short_blocks cfg = short_block_allowed \/ short_blocks cfg = short_block_not_set ->
    emitted (block_type_set cfg) uls 1
    = chan_trace NORM_TYPE (map (fun ul => ul 1%nat) uls))).
Proof.
  intros cfg uls. split.
  - reflexivity.
  - apply (short_block_policy_honoured cfg (block_type_set cfg) uls 1%nat).
    + left; reflexivity.
    + unfold cfg; simpl; lia.
Defined.

End BlockPolicy.

(** * quantize.c: the bit search of the VBR granule encoder *)

Module VbrGranule.

Import BlockType Quantize.

(** What [VBR_encode_granule] and [outer_loop] share: [gfc], [cod_info],
    [scalefac], [xrpow] and [l3_enc]. *)
Record granule_state : Type := {
  g_gfc : lame_internal_flags;
  g_cod : gr_info;
  g_scalefac : III_scalefac_t;
  g_xrpow : nat -> R;
  g_l3_enc : nat -> Z
}.

(** The locals of the search; [bst_l3_enc] holds nothing until the first
    copy into it. *)
Record bit_search : Type := {
  bs_state : granule_state;
  bst_cod_info : gr_info;
  bst_scalefac : III_scalefac_t;
  bst_xrpow : nat -> R;
  bst_l3_enc : option (nat -> Z);
  bs_min_bits : Z;
  bs_max_bits : Z;
  bs_real_bits : Z;
  bs_this_bits : Z
}.

Section Search.

(** [outer_loop] as [VBR_encode_granule] calls it, with [xr], [l3_xmin]
    and [ch] fixed: from the shared state and [targ_bits] to the value
    returned and the state left behind. *)
Variable outer_loop : granule_state -> Z -> Z * granule_state.

(** "start again with best quantization so far". *)
Definition start_again (st : granule_state) (b : bit_search) : granule_state :=
  {| g_gfc := g_gfc st; g_cod := bst_cod_info b; g_scalefac := bst_scalefac b;
     g_xrpow := bst_xrpow b; g_l3_enc := g_l3_enc st |}.

(** The body of the [do ... while (dbits > 8)] loop: the new locals and
    [dbits]. *)
Definition search_step (b : bit_search) : bit_search * Z :=
  let '(over, st) := outer_loop (bs_state b) (bs_this_bits b) in
  if (over <=? 0)%Z then
    let real_bits := part2_3_length (g_cod st) in
    let max_bits := (real_bits - 32)%Z in
    let dbits := (max_bits - bs_min_bits b)%Z in
    ({| bs_state := st;
        bst_cod_info := g_cod st; bst_scalefac := g_scalefac st;
        bst_xrpow := g_xrpow st; bst_l3_enc := Some (g_l3_enc st);
        bs_min_bits := bs_min_bits b; bs_max_bits := max_bits;
        bs_real_bits := real_bits;
        bs_this_bits := (bs_min_bits b + Z.quot dbits 2)%Z |}, dbits)
  else
    let min_bits := (bs_this_bits b + 32)%Z in
    let dbits := (bs_max_bits b - min_bits)%Z in
    ({| bs_state := if (dbits >? 8)%Z then start_again st b else st;
        bst_cod_info := bst_cod_info b; bst_scalefac := bst_scalefac b;
        bst_xrpow := bst_xrpow b; bst_l3_enc := bst_l3_enc b;
        bs_min_bits := min_bits; bs_max_bits := bs_max_bits b;
        bs_real_bits := bs_real_bits b;
        bs_this_bits := (min_bits + Z.quot dbits 2)%Z |}, dbits).

(** The loop; [None] when [fuel] iterations did not end it. *)
Fixpoint search_loop (fuel : nat) (b : bit_search) : option bit_search :=
  match fuel with
  | O => None
  | S fuel' =>
      let '(b', dbits) := search_step b in
      if (dbits >? 8)%Z then search_loop fuel' b' else Some b'
  end.

(** [VBR_encode_granule (gfc, cod_info, xr, l3_xmin, scalefac, xrpow,
    l3_enc, ch, min_bits, max_bits)]: the state left behind.  [None]
    when the loop has not ended within [fuel] iterations, or when the
    last copy would read a [bst_l3_enc] that was never written. *)
Definition VBR_encode_granule (fuel : nat) (st : granule_state)
  (min_bits max_bits : Z) : option granule_state :=
  let Max_bits := max_bits in
  let b0 := {| bs_state := st;
               bst_cod_info := g_cod st; bst_scalefac := zero_scalefac;
               bst_xrpow := g_xrpow st; bst_l3_enc := None;
               bs_min_bits := min_bits; bs_max_bits := max_bits;
               bs_real_bits := (max_bits + 1)%Z;
               bs_this_bits := (min_bits + Z.quot (max_bits - min_bits) 2)%Z |} in
  match search_loop fuel b0 with
  | None => None
  | Some b =>
      if (bs_real_bits b <=? Max_bits)%Z then
        match bst_l3_enc b with
        | None => None
        | Some enc =>
            Some {| g_gfc := g_gfc (bs_state b); g_cod := bst_cod_info b;
                    g_scalefac := bst_scalefac b;
                    g_xrpow := g_xrpow (bs_state b); g_l3_enc := enc |}
        end
      else Some (bs_state b)
  end.

(** *** The search ends within the budget *)

Section Fits.

(** The bounds of the call. *)
Variables min_bits max_bits : Z.

(** What [outer_loop] owes to the search: called with a target between
    [min_bits] and [max_bits] on a granule whose scalefactor part fits
    in [min_bits] (its first turn asserts as much of the target), it
    leaves no more bits than the target, and a scalefactor part that
    still fits in [min_bits]. *)
Hypothesis outer_loop_fits :
  forall st targ_bits,
    (min_bits <= targ_bits <= max_bits)%Z ->
    (part2_length (g_cod st) <= min_bits)%Z ->
    (part2_3_length (g_cod (snd (outer_loop st targ_bits))) <= targ_bits)%Z /\
    (part2_length (g_cod (snd (outer_loop st targ_bits))) <= min_bits)%Z.

(** What holds of the locals when the body is entered; [first] tells the
    first entry. *)
Definition search_inv (first : bool) (b : bit_search) : Prop :=
  (min_bits <= bs_min_bits b)%Z /\
  (bs_max_bits b <= max_bits)%Z /\
  bs_this_bits b
  = (bs_min_bits b + Z.quot (bs_max_bits b - bs_min_bits b) 2)%Z /\
  (if first then (bs_min_bits b <= bs_max_bits b)%Z
   else (8 < bs_max_bits b - bs_min_bits b)%Z) /\
  (part2_length (g_cod (bs_state b)) <= min_bits)%Z /\
  (part2_length (bst_cod_info b) <= min_bits)%Z /\
  (if (bs_real_bits b <=? max_bits)%Z
   then bst_l3_enc b <> None /\ part2_3_length (bst_cod_info b) = bs_real_bits b
   else bst_l3_enc b = None).

Lemma quot2_le (d : Z) : (0 <= d)%Z -> (0 <= Z.quot d 2 <= d)%Z.
Proof.
  intro H. pose proof (Z.quot_pos d 2 H ltac:(lia)).
  pose proof (Z.quot_le_upper_bound d 2 d ltac:(lia) ltac:(lia)). lia.
Qed.

(** The target of every call lies between the bounds of the call, as the
    two assertions at the head of the loop demand. *)
Lemma search_inv_target (first : bool) (b : bit_search) :
  search_inv first b ->
  (bs_min_bits b <= bs_this_bits b <= bs_max_bits b)%Z /\
  (min_bits <= bs_this_bits b <= max_bits)%Z.
Proof.
  intros (Hmin & Hmax & Hthis & Hd & _).
  assert (Hd0 : (0 <= bs_max_bits b - bs_min_bits b)%Z)
    by (destruct first; lia).
  pose proof (quot2_le _ Hd0) as Hq. lia.
Qed.

Lemma search_step_inv (first : bool) (b : bit_search) :
  search_inv first b ->
  let '(b', dbits) := search_step b in
  dbits = (bs_max_bits b' - bs_min_bits b')%Z /\
  (bs_max_bits b' - bs_min_bits b'
   <= bs_max_bits b - bs_min_bits b - 32)%Z /\
  ((8 < dbits)%Z -> search_inv false b') /\
  (~ (8 < dbits)%Z ->
   (if (bs_real_bits b' <=? max_bits)%Z
    then bst_l3_enc b' <> None /\ part2_3_length (bst_cod_info b') = bs_real_bits b'
    else bst_l3_enc b' = None /\
         (part2_3_length (g_cod (bs_state b')) <= max_bits)%Z)).
Proof.
  intro Hinv. pose proof (search_inv_target first b Hinv) as [Hin Hrange].
  destruct Hinv as (Hmin & Hmax & Hthis & Hd & Hst & Hbst & Hbest).
  unfold search_step.
  pose proof (outer_loop_fits (bs_state b) (bs_this_bits b) Hrange Hst)
    as [Hfit Hpart].
  destruct (outer_loop (bs_state b) (bs_this_bits b)) as [over st].
  cbn [snd] in Hfit, Hpart.
  destruct (Z.leb_spec over 0) as [Hover|Hover].
  - cbn [bs_max_bits bs_min_bits bs_real_bits bst_l3_enc bst_cod_info
         bs_this_bits bs_state].
    split; [reflexivity|]. split; [lia|].
    assert (Hreal : (part2_3_length (g_cod st) <= max_bits)%Z) by lia.
    split.
    + intro Hgo. unfold search_inv.
      cbn [bs_max_bits bs_min_bits bs_real_bits bst_l3_enc bst_cod_info
           bs_this_bits bs_state].
      split; [lia|]. split; [lia|]. split; [reflexivity|]. split; [lia|].
      split; [exact Hpart|]. split; [exact Hpart|].
      destruct (Z.leb_spec (part2_3_length (g_cod st)) max_bits); [|lia].
      split; [discriminate|reflexivity].
    + intro Hstop.
      destruct (Z.leb_spec (part2_3_length (g_cod st)) max_bits); [|lia].
      split; [discriminate|reflexivity].
  - cbn [bs_max_bits bs_min_bits bs_real_bits bst_l3_enc bst_cod_info
         bs_this_bits bs_state].
    split; [reflexivity|]. split; [lia|].
    split.
    + intro Hgo. unfold search_inv.
      cbn [bs_max_bits bs_min_bits bs_real_bits bst_l3_enc bst_cod_info
           bs_this_bits bs_state].
      split; [lia|]. split; [lia|]. split; [reflexivity|]. split; [lia|].
      destruct (Z.gtb_spec (bs_max_bits b - (bs_this_bits b + 32)) 8); [|lia].
      unfold start_again. cbn [g_cod].
      split; [exact Hbst|]. split; [exact Hbst|]. exact Hbest.
    + intro Hstop.
      destruct (Z.leb_spec (bs_real_bits b) max_bits); [exact Hbest|].
      split; [exact Hbest|].
      destruct (Z.gtb_spec (bs_max_bits b - (bs_this_bits b + 32)) 8); [lia|].
      lia.
Qed.

Lemma search_loop_ends (fuel : nat) :
  forall (first : bool) (b : bit_search),
    search_inv first b ->
    (bs_max_bits b - bs_min_bits b < 32 * Z.of_nat fuel)%Z ->
    exists b',
      search_loop fuel b = Some b' /\
      (if (bs_real_bits b' <=? max_bits)%Z
       then bst_l3_enc b' <> None /\
            part2_3_length (bst_cod_info b') = bs_real_bits b'
       else (part2_3_length (g_cod (bs_state b')) <= max_bits)%Z).
Proof.
  induction fuel as [|fuel IH]; intros first b Hinv Hfuel.
  - destruct Hinv as (_ & _ & _ & Hd & _). destruct first; lia.
  - cbn [search_loop].
    pose proof (search_step_inv first b Hinv) as Hstep.
    destruct (search_step b) as [b' dbits].
    destruct Hstep as (Hdb & Hdec & Hgo & Hstop).
    destruct (Z.gtb_spec dbits 8) as [Hgt|Hle].
    + apply (IH false b'); [apply Hgo; lia|lia].
    + exists b'. split; [reflexivity|].
      pose proof (Hstop ltac:(lia)) as Hfin.
      destruct (bs_real_bits b' <=? max_bits)%Z; [exact Hfin|apply Hfin].
Qed.


End Fits.

End Search.

(** A granule that takes 170 bits to code without distortion and has no
    scalefactor bits: given 170 bits or more, [outer_loop] spends 170 and
    reports no distorted band; given fewer, it spends what it is given
    (never less than nothing) and reports one distorted band. *)
Definition needy_outer_loop (st : granule_state) (targ_bits : Z)
  : Z * granule_state :=
  let spend (bits : Z) :=
    {| g_gfc := g_gfc st; g_cod := set_part2_3_length (g_cod st) bits;
       g_scalefac := g_scalefac st; g_xrpow := g_xrpow st;
       g_l3_enc := g_l3_enc st |} in
  if (170 <=? targ_bits)%Z then (0%Z, spend 170%Z)
  else (1%Z, spend (Z.max 0 targ_bits)).

Definition sample_granule : granule_state :=
  {| g_gfc := sample_gfc; g_cod := sample_cod_info; g_scalefac := zero_scalefac;
     g_xrpow := unit_xrpow; g_l3_enc := zero_l3enc |}.


End VbrGranule.

(** * lame.c: the polyphase filter set-up *)

Module Polyphase.

(** [filter_coef (x)]. *)
Definition filter_coef (x : R) : R :=
  if Rgt_dec x 1.0 then 0.0
  else if Rle_dec x 0.0 then 1.0
  else cos (PI / 2 * x).

(** The fields of [lame_internal_flags] that [lame_init_params_ppflt]
    reads and writes. *)
Record lame_internal_flags : Type := {
  lowpass1 : R;
  lowpass2 : R;
  highpass1 : R;
  highpass2 : R;
  amp_filter : nat -> R
}.

(** The macros [Min] and [Max] on [int] operands. *)
Definition Min (a b : Z) : Z := if (a <? b)%Z then a else b.
Definition Max (a b : Z) : Z := if (a >? b)%Z then a else b.

(** [freq = band / 31.0]. *)
Definition freq_of (band : nat) : R := IZR (Z.of_nat band) / 31.0.

(** One band of the low-pass search, on [(lowpass_band, minband)]. *)
Definition lowpass_step (lp1 lp2 : R) (st : Z * Z) (band : nat) : Z * Z :=
  let freq := freq_of band in
  let lowpass_band :=
    if Rge_dec freq lp2 then Min (fst st) (Z.of_nat band) else fst st in
  let minband :=
    if Rlt_dec lp1 freq then
      if Rlt_dec freq lp2 then Min (snd st) (Z.of_nat band) else snd st
    else snd st in
  (lowpass_band, minband).

(** One band of the high-pass search, on [(highpass_band, maxband)]. *)
Definition highpass_step (hp1 hp2 : R) (st : Z * Z) (band : nat) : Z * Z :=
  let freq := freq_of band in
  let highpass_band :=
    if Rle_dec freq hp1 then Max (fst st) (Z.of_nat band) else fst st in
  let maxband :=
    if Rlt_dec hp1 freq then
      if Rlt_dec freq hp2 then Max (snd st) (Z.of_nat band) else snd st
    else snd st in
  (highpass_band, maxband).

(** The new [(lowpass1, lowpass2)]. *)
Definition lowpass_edges (lp1 lp2 : R) : R * R :=
  if Rgt_dec lp1 0 then
    let '(lowpass_band, minband) :=
      for_loop (lowpass_step lp1 lp2) 0 32 (32%Z, 999%Z) in
    ((if (minband =? 999)%Z then (IZR lowpass_band - 0.75) / 31.0
      else (IZR minband - 0.75) / 31.0),
     IZR lowpass_band / 31.0)
  else (lp1, lp2).

(** The new [(highpass1, highpass2)]; the warning printed when the filter
    is disabled is not modelled. *)
Definition highpass_edges (hp1 hp2 : R) : R * R :=
  let '(hp1, hp2) :=
    if Rgt_dec hp2 0 then
      if Rlt_dec hp2 (0.9 * (0.75 / 31.0)) then (0, 0) else (hp1, hp2)
    else (hp1, hp2) in
  if Rgt_dec hp2 0 then
    let '(highpass_band, maxband) :=
      for_loop (highpass_step hp1 hp2) 0 32 ((-1)%Z, (-1)%Z) in
    (IZR highpass_band / 31.0,
     if (maxband =? -1)%Z then (IZR highpass_band + 0.75) / 31.0
     else (IZR maxband + 0.75) / 31.0)
  else (hp1, hp2).

Definition amp_filter_band (gfc : lame_internal_flags) (amp : nat -> R)
  (band : nat) : nat -> R :=
  let freq := freq_of band in
  upd amp band
    (filter_coef ((highpass2 gfc - freq)
                  / (highpass2 gfc - highpass1 gfc + 1e-37))
     * filter_coef ((freq - lowpass1 gfc)
                    / (lowpass2 gfc - lowpass1 gfc - 1e-37))).

(** [lame_init_params_ppflt (gfp)], on [gfp->internal_flags]. *)
Definition lame_init_params_ppflt (gfc : lame_internal_flags)
  : lame_internal_flags :=
  let lp := lowpass_edges (lowpass1 gfc) (lowpass2 gfc) in
  let hp := highpass_edges (highpass1 gfc) (highpass2 gfc) in
  let gfc1 := {| lowpass1 := fst lp; lowpass2 := snd lp;
                 highpass1 := fst hp; highpass2 := snd hp;
                 amp_filter := amp_filter gfc |} in
  {| lowpass1 := fst lp; lowpass2 := snd lp;
     highpass1 := fst hp; highpass2 := snd hp;
     amp_filter := for_loop (amp_filter_band gfc1) 0 32 (amp_filter gfc) |}.

(** *** The filter coefficient *)

Lemma filter_coef_range (x : R) : 0 <= filter_coef x <= 1.
Proof.
  unfold filter_coef.
  destruct (Rgt_dec x 1.0); [lra|].
  destruct (Rle_dec x 0.0); [lra|].
  pose proof PI_RGT_0 as Hpi.
  split; [|apply COS_bound].
  apply cos_ge_0; nra.
Qed.

Lemma filter_coef_decreasing (x y : R) : x <= y -> filter_coef y <= filter_coef x.
Proof.
  intro Hxy. pose proof (filter_coef_range x) as Hx.
  pose proof (filter_coef_range y) as Hy.
  unfold filter_coef in *.
  destruct (Rgt_dec y 1.0); [lra|].
  destruct (Rgt_dec x 1.0); [lra|].
  destruct (Rle_dec x 0.0); [lra|].
  destruct (Rle_dec y 0.0); [lra|].
  pose proof PI_RGT_0 as Hpi.
  apply cos_decr_1; nra.
Qed.

Lemma amp_filter_written (gfc : lame_internal_flags) (amp : nat -> R) (band : nat) :
  for_loop (amp_filter_band gfc) 0 32 amp band
  = if (band <? 32)%nat
    then filter_coef ((highpass2 gfc - freq_of band)
                      / (highpass2 gfc - highpass1 gfc + 1e-37))
         * filter_coef ((freq_of band - lowpass1 gfc)
                        / (lowpass2 gfc - lowpass1 gfc - 1e-37))
    else amp band.
Proof.
  rewrite (for_loop_view (amp_filter_band gfc) (fun a => a band)
             (fun _ => filter_coef ((highpass2 gfc - freq_of band)
                                    / (highpass2 gfc - highpass1 gfc + 1e-37))
                       * filter_coef ((freq_of band - lowpass1 gfc)
                                      / (lowpass2 gfc - lowpass1 gfc - 1e-37)))
             band).
  - cbn [Nat.leb Nat.add andb]. reflexivity.
  - intros a chn Hne. unfold amp_filter_band. now rewrite upd_other by congruence.
  - intros a. unfold amp_filter_band. now rewrite upd_same.
Qed.

(** [filter_coef] stays within 0..1 and never grows with its argument;
    so each of the 32 entries of [amp_filter] that
    [lame_init_params_ppflt] writes is a gain within 0..1, and the
    entries from 32 on are not written. *)
Theorem filter_coef_is_a_gain (gfc : lame_internal_flags) :
  (forall x, 0 <= filter_coef x <= 1) /\
  (forall x y, x <= y -> filter_coef y <= filter_coef x) /\
  (forall band, (band < 32)%nat ->
     0 <= amp_filter (lame_init_params_ppflt gfc) band <= 1) /\
  (forall band, (32 <= band)%nat ->
     amp_filter (lame_init_params_ppflt gfc) band = amp_filter gfc band).
Proof.
  split; [exact filter_coef_range|].
  split; [exact filter_coef_decreasing|].
  split.
  - intros band Hb. unfold lame_init_params_ppflt. cbn [amp_filter].
    rewrite amp_filter_written.
    destruct (Nat.ltb_spec band 32); [|lia].
    match goal with
    | |- 0 <= filter_coef ?a * filter_coef ?b <= 1 =>
        pose proof (filter_coef_range a); pose proof (filter_coef_range b)
    end.
    nra.
  - intros band Hb. unfold lame_init_params_ppflt. cbn [amp_filter].
    rewrite amp_filter_written.
    destruct (Nat.ltb_spec band 32); [lia|reflexivity].
Qed.

(** *** The low-pass transition band *)

Lemma Min_int_cases (a b : Z) :
  (Min a b = a /\ (a <= b)%Z) \/ (Min a b = b /\ (b < a)%Z).
Proof. unfold Min. destruct (Z.ltb_spec a b); lia. Qed.

Lemma Max_int_cases (a b : Z) :
  (Max a b = a /\ (b <= a)%Z) \/ (Max a b = b /\ (a < b)%Z).
Proof. unfold Max. destruct (Z.gtb_spec a b); lia. Qed.

(** What holds of [(lowpass_band, minband)] before band [i]. *)
Definition lowpass_inv (lp1 lp2 : R) (i : nat) (st : Z * Z) : Prop :=
  (fst st = 32%Z \/
   ((0 <= fst st < Z.of_nat i)%Z /\ IZR (fst st) / 31.0 >= lp2)) /\
  (forall band, (band < i)%nat -> freq_of band >= lp2 ->
     (fst st <= Z.of_nat band)%Z) /\
  (snd st = 999%Z \/
   ((0 <= snd st < Z.of_nat i)%Z /\ lp1 < IZR (snd st) / 31.0 < lp2)).

Lemma lowpass_loop_inv (lp1 lp2 : R) (n : nat) :
  (n <= 32)%nat ->
  lowpass_inv lp1 lp2 n (for_loop (lowpass_step lp1 lp2) 0 n (32%Z, 999%Z)).
Proof.
  intro Hn.
  apply (for_loop_ind (fun i st => (i <= 32)%nat -> lowpass_inv lp1 lp2 i st)
           (lowpass_step lp1 lp2) n 0 (32%Z, 999%Z)); [| |exact Hn].
  - intros _. unfold lowpass_inv. cbn [fst snd].
    split; [now left|]. split; [intros; lia|now left].
  - intros i st Hi IH Hi'. specialize (IH ltac:(lia)).
    destruct st as [lb mb]. unfold lowpass_inv in *. cbn [fst snd] in *.
    destruct IH as (Hlb & Hleast & Hmb).
    unfold lowpass_step. cbn [fst snd]. unfold freq_of in *.
    split; [|split].
    + destruct (Rge_dec (IZR (Z.of_nat i) / 31.0) lp2) as [Hge|Hlt].
      * destruct (Min_int_cases lb (Z.of_nat i)) as [[-> Hc]|[-> Hc]].
        -- destruct Hlb as [->|[Hr Hg]]; [lia|]. right. split; [lia|exact Hg].
        -- right. split; [lia|exact Hge].
      * destruct Hlb as [->|[Hr Hg]]; [now left|]. right. split; [lia|exact Hg].
    + intros band Hband Hfreq.
      destruct (Rge_dec (IZR (Z.of_nat i) / 31.0) lp2) as [Hge|Hlt].
      * destruct (Min_int_cases lb (Z.of_nat i)) as [[-> Hc]|[-> Hc]].
        -- destruct (Nat.eq_dec band i) as [->|Hne]; [lia|].
           apply Hleast; [lia|exact Hfreq].
        -- destruct (Nat.eq_dec band i) as [->|Hne]; [lia|].
           specialize (Hleast band ltac:(lia) Hfreq). lia.
      * destruct (Nat.eq_dec band i) as [->|Hne]; [contradiction|].
        apply Hleast; [lia|exact Hfreq].
    + destruct (Rlt_dec lp1 (IZR (Z.of_nat i) / 31.0)) as [H1|H1];
        [destruct (Rlt_dec (IZR (Z.of_nat i) / 31.0) lp2) as [H2|H2]|].
      * destruct (Min_int_cases mb (Z.of_nat i)) as [[-> Hc]|[-> Hc]].
        -- destruct Hmb as [->|[Hr Hg]]; [lia|]. right. split; [lia|exact Hg].
        -- right. split; [lia|]. split; assumption.
      * destruct Hmb as [->|[Hr Hg]]; [now left|]. right. split; [lia|exact Hg].
      * destruct Hmb as [->|[Hr Hg]]; [now left|]. right. split; [lia|exact Hg].
Qed.

(** A positive [lowpass1] makes [lame_init_params_ppflt] move the
    transition band onto the 32 polyphase bands: the new [lowpass2] is
    the lowest band edge [k / 31] (band [k] of 0..31) at or above the old
    one, or [32 / 31] when there is none, and the new [lowpass1] lies at
    least three quarters of a band below it.  Otherwise both are kept. *)
Theorem lowpass_moves_to_band_edges (gfc : lame_internal_flags) :
  let g := lame_init_params_ppflt gfc in
  (lowpass1 gfc > 0 ->
   exists k : Z,
     (0 <= k <= 32)%Z /\
     lowpass2 g = IZR k / 31.0 /\
     (forall band, (band <= 31)%nat -> freq_of band >= lowpass2 gfc ->
        (k <= Z.of_nat band)%Z) /\
     ((k <= 31)%Z -> IZR k / 31.0 >= lowpass2 gfc) /\
     lowpass1 g + 0.75 / 31.0 <= lowpass2 g) /\
  (lowpass1 gfc <= 0 ->
   lowpass1 g = lowpass1 gfc /\ lowpass2 g = lowpass2 gfc).
Proof.
  intro g. unfold g, lame_init_params_ppflt. cbn [lowpass1 lowpass2].
  unfold lowpass_edges. split.
  - intro Hpos. destruct (Rgt_dec (lowpass1 gfc) 0) as [_|Hn]; [|contradiction].
    pose proof (lowpass_loop_inv (lowpass1 gfc) (lowpass2 gfc) 32 (le_n 32)) as Hinv.
    destruct (for_loop _ 0 32 (32%Z, 999%Z)) as [lb mb].
    unfold lowpass_inv in Hinv. cbn [fst snd] in *.
    destruct Hinv as (Hlb & Hleast & Hmb).
    exists lb. split; [destruct Hlb as [->|[Hr _]]; lia|].
    split; [reflexivity|].
    split; [intros band Hband; apply Hleast; lia|].
    split; [intro Hk; destruct Hlb as [->|[_ Hg]]; [lia|exact Hg]|].
    destruct (Z.eqb_spec mb 999) as [->|Hne]; [lra|].
    destruct Hmb as [->|[Hr [Hm1 Hm2]]]; [contradiction|].
    assert (Hlt : (mb < lb)%Z).
    { destruct Hlb as [->|[_ Hg]]; [lia|]. apply lt_IZR. lra. }
    assert (Hle : IZR mb <= IZR lb - 1).
    { rewrite <- minus_IZR. apply IZR_le. lia. }
    lra.
  - intro Hnp. destruct (Rgt_dec (lowpass1 gfc) 0) as [Hp|_]; [lra|].
    split; reflexivity.
Qed.

(** *** The high-pass transition band *)

(** What holds of [(highpass_band, maxband)] before band [i]. *)
Definition highpass_inv (hp1 hp2 : R) (i : nat) (st : Z * Z) : Prop :=
  (fst st = (-1)%Z \/
   ((0 <= fst st < Z.of_nat i)%Z /\ IZR (fst st) / 31.0 <= hp1)) /\
  (forall band, (band < i)%nat -> freq_of band <= hp1 ->
     (Z.of_nat band <= fst st)%Z) /\
  (snd st = (-1)%Z \/
   ((0 <= snd st < Z.of_nat i)%Z /\ hp1 < IZR (snd st) / 31.0 < hp2)).

Lemma highpass_loop_inv (hp1 hp2 : R) (n : nat) :
  highpass_inv hp1 hp2 n (for_loop (highpass_step hp1 hp2) 0 n ((-1)%Z, (-1)%Z)).
Proof.
  apply (for_loop_ind (highpass_inv hp1 hp2) (highpass_step hp1 hp2) n 0
           ((-1)%Z, (-1)%Z)).
  - unfold highpass_inv. cbn [fst snd].
    split; [now left|]. split; [intros; lia|now left].
  - intros i st Hi IH.
    destruct st as [hb mb]. unfold highpass_inv in *. cbn [fst snd] in *.
    destruct IH as (Hhb & Hmost & Hmb).
    unfold highpass_step. cbn [fst snd]. unfold freq_of in *.
    split; [|split].
    + destruct (Rle_dec (IZR (Z.of_nat i) / 31.0) hp1) as [Hle|Hgt].
      * destruct (Max_int_cases hb (Z.of_nat i)) as [[-> Hc]|[-> Hc]].
        -- destruct Hhb as [->|[Hr Hg]]; [lia|]. right. split; [lia|exact Hg].
        -- right. split; [lia|exact Hle].
      * destruct Hhb as [->|[Hr Hg]]; [now left|]. right. split; [lia|exact Hg].
    + intros band Hband Hfreq.
      destruct (Rle_dec (IZR (Z.of_nat i) / 31.0) hp1) as [Hle|Hgt].
      * destruct (Max_int_cases hb (Z.of_nat i)) as [[-> Hc]|[-> Hc]].
        -- destruct (Nat.eq_dec band i) as [->|Hne]; [lia|].
           apply Hmost; [lia|exact Hfreq].
        -- destruct (Nat.eq_dec band i) as [->|Hne]; [lia|].
           specialize (Hmost band ltac:(lia) Hfreq). lia.
      * destruct (Nat.eq_dec band i) as [->|Hne]; [contradiction|].
        apply Hmost; [lia|exact Hfreq].
    + destruct (Rlt_dec hp1 (IZR (Z.of_nat i) / 31.0)) as [H1|H1];
        [destruct (Rlt_dec (IZR (Z.of_nat i) / 31.0) hp2) as [H2|H2]|].
      * destruct (Max_int_cases mb (Z.of_nat i)) as [[-> Hc]|[-> Hc]].
        -- destruct Hmb as [->|[Hr Hg]]; [lia|]. right. split; [lia|exact Hg].
        -- right. split; [lia|]. split; assumption.
      * destruct Hmb as [->|[Hr Hg]]; [now left|]. right. split; [lia|exact Hg].
      * destruct Hmb as [->|[Hr Hg]]; [now left|]. right. split; [lia|exact Hg].
Qed.

(** A [highpass2] of at least 90% of three quarters of a band makes
    [lame_init_params_ppflt] move the transition band onto the polyphase
    bands: the new [highpass1] is the highest band edge [k / 31] at or
    below the old one, or [-1 / 31] when there is none, and the new
    [highpass2] lies at least three quarters of a band above it.  A
    smaller positive [highpass2] switches the filter off (both become 0),
    and a [highpass2] that is not positive leaves both as they are. *)
Theorem highpass_moves_to_band_edges (gfc : lame_internal_flags) :
  let g := lame_init_params_ppflt gfc in
  (highpass2 gfc >= 0.9 * (0.75 / 31.0) ->
   exists k : Z,
     (-1 <= k <= 31)%Z /\
     highpass1 g = IZR k / 31.0 /\
     (forall band, (band <= 31)%nat -> freq_of band <= highpass1 gfc ->
        (Z.of_nat band <= k)%Z) /\
     ((0 <= k)%Z -> IZR k / 31.0 <= highpass1 gfc) /\
     highpass1 g + 0.75 / 31.0 <= highpass2 g) /\
  (0 < highpass2 gfc < 0.9 * (0.75 / 31.0) ->
   highpass1 g = 0 /\ highpass2 g = 0) /\
  (highpass2 gfc <= 0 ->
   highpass1 g = highpass1 gfc /\ highpass2 g = highpass2 gfc).
Proof.
  intro g. unfold g, lame_init_params_ppflt. cbn [highpass1 highpass2].
  unfold highpass_edges. split; [|split].
  - intro Hbig.
    destruct (Rgt_dec (highpass2 gfc) 0) as [_|Hn]; [|lra].
    destruct (Rlt_dec (highpass2 gfc) (0.9 * (0.75 / 31.0))) as [Hs|_]; [lra|].
    destruct (Rgt_dec (highpass2 gfc) 0) as [_|Hn]; [|lra].
    pose proof (highpass_loop_inv (highpass1 gfc) (highpass2 gfc) 32) as Hinv.
    destruct (for_loop _ 0 32 ((-1)%Z, (-1)%Z)) as [hb mb].
    unfold highpass_inv in Hinv. cbn [fst snd] in *.
    destruct Hinv as (Hhb & Hmost & Hmb).
    exists hb. split; [destruct Hhb as [->|[Hr _]]; lia|].
    split; [reflexivity|].
    split; [intros band Hband; apply Hmost; lia|].
    split; [intro Hk; destruct Hhb as [->|[_ Hg]]; [lia|exact Hg]|].
    destruct (Z.eqb_spec mb (-1)) as [->|Hne]; [lra|].
    destruct Hmb as [->|[Hr [Hm1 Hm2]]]; [contradiction|].
    assert (Hlt : (hb < mb)%Z).
    { destruct Hhb as [->|[_ Hg]]; [lia|]. apply lt_IZR. lra. }
    assert (Hle : IZR hb + 1 <= IZR mb).
    { rewrite <- plus_IZR. apply IZR_le. lia. }
    lra.
  - intros [Hpos Hsmall].
    destruct (Rgt_dec (highpass2 gfc) 0) as [_|Hn]; [|lra].
    destruct (Rlt_dec (highpass2 gfc) (0.9 * (0.75 / 31.0))) as [_|Hs]; [|lra].
    destruct (Rgt_dec 0 0) as [H0|_]; [lra|].
    split; reflexivity.
  - intro Hnp.
    destruct (Rgt_dec (highpass2 gfc) 0) as [Hp|_]; [lra|].
    destruct (Rgt_dec (highpass2 gfc) 0) as [Hp|_]; [lra|].
    split; reflexivity.
Qed.

End Polyphase.

(** * lame.c: scaling and downmix of the input samples *)

Module Rescale.

Import Quantize.

(** The fields read by the scaling and downmix statements of
    [lame_encode_buffer_sample_t]; [channels_out] is
    [gfp->internal_flags->channels_out]. *)
Record lame_global_flags : Type := {
  scale : R;
  scale_left : R;
  scale_right : R;
  num_channels : Z;
  channels_out : Z
}.

(** [if (k != 0 && k != 1.0)]. *)
Definition scaling_requested (k : R) : bool :=
  negb (Reqb k 0) && negb (Reqb k 1.0).

Definition scale_both (gfp : lame_global_flags)
  (b : (nat -> R) * (nat -> R)) (i : nat) : (nat -> R) * (nat -> R) :=
  (upd (fst b) i (fst b i * scale gfp),
   if (channels_out gfp =? 2)%Z then upd (snd b) i (snd b i * scale gfp)
   else snd b).

Definition scale_one (k : R) (b : nat -> R) (i : nat) : nat -> R :=
  upd b i (b i * k).

Definition downmix (b : (nat -> R) * (nat -> R)) (i : nat)
  : (nat -> R) * (nat -> R) :=
  (upd (fst b) i (0.5 * (fst b i + snd b i)), upd (snd b) i 0.0).

(** The statements of [lame_encode_buffer_sample_t] from "Apply user
    defined re-scaling" to "Downsample to Mono", on the two input
    buffers [in_buffer[0]] and [in_buffer[1]] of [nsamples] samples. *)
Definition rescale_and_downmix (gfp : lame_global_flags) (nsamples : nat)
  (in_buffer : (nat -> R) * (nat -> R)) : (nat -> R) * (nat -> R) :=
  let b :=
    if scaling_requested (scale gfp)
    then for_loop (scale_both gfp) 0 nsamples in_buffer
    else in_buffer in
  let b :=
    if scaling_requested (scale_left gfp)
    then (for_loop (scale_one (scale_left gfp)) 0 nsamples (fst b), snd b)
    else b in
  let b :=
    if scaling_requested (scale_right gfp)
    then (fst b, for_loop (scale_one (scale_right gfp)) 0 nsamples (snd b))
    else b in
  if ((num_channels gfp =? 2)%Z && (channels_out gfp =? 1)%Z)%bool
  then for_loop downmix 0 nsamples b
  else b.

(** The factor a scale setting stands for: 0 means "not set". *)
Definition gain (k : R) : R := if Reqb k 0 then 1 else k.

Lemma scaling_requested_gain (k x : R) :
  (if scaling_requested k then x * k else x) = x * gain k.
Proof.
  unfold scaling_requested, gain, Reqb.
  destruct (Req_dec_T k 0) as [->|H0]; cbn [negb andb]; [lra|].
  destruct (Req_dec_T k 1.0) as [->|H1]; cbn [negb andb]; lra.
Qed.

Lemma scale_one_loop (k : R) (n : nat) (b : nat -> R) (i : nat) :
  for_loop (scale_one k) 0 n b i = if (i <? n)%nat then b i * k else b i.
Proof.
  rewrite (for_loop_view (scale_one k) (fun b => b i) (fun x => x * k) i).
  - cbn [Nat.leb Nat.add andb]. reflexivity.
  - intros b' j Hne. unfold scale_one. now rewrite upd_other by congruence.
  - intros b'. unfold scale_one. now rewrite upd_same.
Qed.

Definition sample_pair (i : nat) (b : (nat -> R) * (nat -> R)) : R * R :=
  (fst b i, snd b i).

Lemma scale_both_loop (gfp : lame_global_flags) (n : nat)
  (b : (nat -> R) * (nat -> R)) (i : nat) :
  sample_pair i (for_loop (scale_both gfp) 0 n b)
  = if (i <? n)%nat
    then (fst b i * scale gfp,
          if (channels_out gfp =? 2)%Z then snd b i * scale gfp else snd b i)
    else (fst b i, snd b i).
Proof.
  rewrite (for_loop_view (scale_both gfp) (sample_pair i)
             (fun p => (fst p * scale gfp,
                        if (channels_out gfp =? 2)%Z then snd p * scale gfp
                        else snd p)) i).
  - cbn [Nat.leb Nat.add andb]. reflexivity.
  - intros b' j Hne. unfold scale_both, sample_pair. cbn [fst snd].
    destruct (channels_out gfp =? 2)%Z; now rewrite !upd_other by congruence.
  - intros b'. unfold scale_both, sample_pair. cbn [fst snd].
    destruct (channels_out gfp =? 2)%Z; now rewrite !upd_same.
Qed.

Lemma downmix_loop (n : nat) (b : (nat -> R) * (nat -> R)) (i : nat) :
  sample_pair i (for_loop downmix 0 n b)
  = if (i <? n)%nat then (0.5 * (fst b i + snd b i), 0.0)
    else (fst b i, snd b i).
Proof.
  rewrite (for_loop_view downmix (sample_pair i)
             (fun p => (0.5 * (fst p + snd p), 0.0)) i).
  - cbn [Nat.leb Nat.add andb]. reflexivity.
  - intros b' j Hne. unfold downmix, sample_pair. cbn [fst snd].
    now rewrite !upd_other by congruence.
  - intros b'. unfold downmix, sample_pair. cbn [fst snd].
    now rewrite !upd_same.
Qed.

(** The samples as they stand before the downmix. *)
Lemma scaled_samples (gfp : lame_global_flags) (n : nat)
  (in_buffer : (nat -> R) * (nat -> R)) (i : nat) :
  (i < n)%nat ->
  let b :=
    if scaling_requested (scale gfp)
    then for_loop (scale_both gfp) 0 n in_buffer
    else in_buffer in
  let b :=
    if scaling_requested (scale_left gfp)
    then (for_loop (scale_one (scale_left gfp)) 0 n (fst b), snd b)
    else b in
  let b :=
    if scaling_requested (scale_right gfp)
    then (fst b, for_loop (scale_one (scale_right gfp)) 0 n (snd b))
    else b in
  fst b i = fst in_buffer i * gain (scale gfp) * gain (scale_left gfp) /\
  snd b i = snd in_buffer i
            * (if (channels_out gfp =? 2)%Z then gain (scale gfp) else 1)
            * gain (scale_right gfp).
Proof.
  intro Hi. cbv zeta.
  pose proof (scale_both_loop gfp n in_buffer i) as E0.
  destruct (Nat.ltb_spec i n) as [_|]; [|lia].
  unfold sample_pair in E0. injection E0 as E0l E0r.
  rewrite <- (scaling_requested_gain (scale gfp) (fst in_buffer i)).
  rewrite <- (scaling_requested_gain (scale_left gfp)).
  rewrite <- (scaling_requested_gain (scale_right gfp)).
  assert (Er : (if (channels_out gfp =? 2)%Z
                then snd in_buffer i * scale gfp else snd in_buffer i)
               = snd in_buffer i * (if (channels_out gfp =? 2)%Z then scale gfp else 1)).
  { destruct (channels_out gfp =? 2)%Z; lra. }
  destruct (scaling_requested (scale gfp)) eqn:Es;
    destruct (scaling_requested (scale_left gfp));
    destruct (scaling_requested (scale_right gfp));
    cbn [fst snd]; rewrite ?scale_one_loop;
    destruct (Nat.ltb_spec i n) as [_|]; try lia;
    rewrite ?E0l, ?E0r; (split; [try lra|]).
  all: unfold gain, scaling_requested, Reqb in *;
       destruct (Req_dec_T (scale gfp) 0) as [Ez|Ez]; try rewrite Ez;
       destruct (channels_out gfp =? 2)%Z; cbn [negb andb] in *;
       try lra; try discriminate.
  all: destruct (Req_dec_T (scale gfp) 1.0) as [E1|E1]; cbn [negb] in *;
       try discriminate; try rewrite E1; lra.
Qed.

Lemma untouched_samples (gfp : lame_global_flags) (n : nat)
  (in_buffer : (nat -> R) * (nat -> R)) (i : nat) :
  (n <= i)%nat ->
  sample_pair i (rescale_and_downmix gfp n in_buffer) = sample_pair i in_buffer.
Proof.
  intro Hi. unfold rescale_and_downmix.
  pose proof (scale_both_loop gfp n in_buffer i) as E0.
  destruct (Nat.ltb_spec i n) as [|_]; [lia|].
  unfold sample_pair in E0. injection E0 as E0l E0r.
  destruct ((num_channels gfp =? 2)%Z && (channels_out gfp =? 1)%Z)%bool.
  - rewrite downmix_loop. destruct (Nat.ltb_spec i n) as [|_]; [lia|].
    unfold sample_pair.
    destruct (scaling_requested (scale gfp)),
      (scaling_requested (scale_left gfp)),
      (scaling_requested (scale_right gfp));
      cbn [fst snd]; rewrite ?scale_one_loop;
      destruct (Nat.ltb_spec i n) as [|_]; try lia;
      rewrite ?E0l, ?E0r; reflexivity.
  - unfold sample_pair.
    destruct (scaling_requested (scale gfp)),
      (scaling_requested (scale_left gfp)),
      (scaling_requested (scale_right gfp));
      cbn [fst snd]; rewrite ?scale_one_loop;
      destruct (Nat.ltb_spec i n) as [|_]; try lia;
      rewrite ?E0l, ?E0r; reflexivity.
Qed.

(** What reaches the encoder from [nsamples] input samples, with a scale
    setting of 0 read as 1.  With two output channels the left samples
    are multiplied by [scale] and [scale_left], the right ones by [scale]
    and [scale_right].  When two input channels are mixed down to one,
    the output is half the sum of the left samples times [scale] and
    [scale_left] and the right samples times [scale_right] alone: the
    global [scale] does not reach the right channel, whose buffer is then
    cleared.  Samples from [nsamples] on are not touched. *)
Theorem downmix_scales_left_only (gfp : lame_global_flags) (nsamples : nat)
  (in_buffer : (nat -> R) * (nat -> R)) :
  let r := rescale_and_downmix gfp nsamples in_buffer in
  (num_channels gfp = 2%Z -> channels_out gfp = 1%Z ->
   forall i, (i < nsamples)%nat ->
     fst r i = 0.5 * (fst in_buffer i * gain (scale gfp) * gain (scale_left gfp)
                      + snd in_buffer i * gain (scale_right gfp)) /\
     snd r i = 0) /\
  (channels_out gfp = 2%Z ->
   forall i, (i < nsamples)%nat ->
     fst r i = fst in_buffer i * gain (scale gfp) * gain (scale_left gfp) /\
     snd r i = snd in_buffer i * gain (scale gfp) * gain (scale_right gfp)) /\
  (forall i, (nsamples <= i)%nat ->
     fst r i = fst in_buffer i /\ snd r i = snd in_buffer i).
Proof.
  intro r. split; [|split].
  - intros Hn Hc i Hi. unfold r, rescale_and_downmix.
    rewrite Hn, Hc. cbn [Z.eqb Pos.eqb andb].
    pose proof (scaled_samples gfp nsamples in_buffer i Hi) as Hs.
    cbv zeta in Hs. rewrite Hc in Hs. cbn [Z.eqb Pos.eqb] in Hs.
    match goal with
    | |- context [for_loop downmix 0 nsamples ?b] =>
        pose proof (downmix_loop nsamples b i) as Hd
    end.
    destruct (Nat.ltb_spec i nsamples) as [_|]; [|lia].
    unfold sample_pair in Hd. injection Hd as Hd0 Hd1.
    cbn [Z.eqb Pos.eqb] in *.
    rewrite Hd0, Hd1. destruct Hs as [-> ->]. split; lra.
  - intros Hc i Hi. unfold r, rescale_and_downmix.
    rewrite Hc. cbn [Z.eqb Pos.eqb andb]. rewrite Bool.andb_false_r.
    pose proof (scaled_samples gfp nsamples in_buffer i Hi) as Hs.
    cbv zeta in Hs. rewrite Hc in Hs. cbn [Z.eqb Pos.eqb] in Hs.
    exact Hs.
  - intros i Hi.
    pose proof (untouched_samples gfp nsamples in_buffer i Hi) as E.
    unfold sample_pair in E. fold r in E. now injection E.
Qed.

End Rescale.

(** * lame.c: the quality presets *)

Module Quality.

Open Scope Z_scope.

(** The fields of [lame_internal_flags] that [lame_init_qval] writes. *)
Record lame_internal_flags : Type := {
  filter_type : Z;
  psymodel : Z;
  quantization : Z;
  noise_shaping : Z;
  noise_shaping_amp : Z;
  noise_shaping_stop : Z;
  use_best_huffman : Z;
  subblock_gain : Z;
  substep_shaping : Z
}.

Record lame_global_flags : Type := {
  quality : Z;
  internal_flags : lame_internal_flags
}.

(** [if (gfc->noise_shaping == 0) gfc->noise_shaping = 1;] and its
    likes. *)
Definition default_noise_shaping (gfc : lame_internal_flags) : Z :=
  if noise_shaping gfc =? 0 then 1 else noise_shaping gfc.

Definition default_subblock_gain (gfc : lame_internal_flags) : Z :=
  if subblock_gain gfc =? -1 then 1 else subblock_gain gfc.

Definition raised_substep_shaping (gfc : lame_internal_flags) : Z :=
  if negb (substep_shaping gfc =? 0) then 2 else substep_shaping gfc.

(** The cases 9 and 7 of the switch. *)
Definition no_noise_shaping (gfc : lame_internal_flags) (psy : Z)
  : lame_internal_flags :=
  {| filter_type := 0; psymodel := psy; quantization := 0;
     noise_shaping := 0; noise_shaping_amp := 0; noise_shaping_stop := 0;
     use_best_huffman := 0;
     subblock_gain := subblock_gain gfc;
     substep_shaping := substep_shaping gfc |}.

(** The cases 5, 4 and 3 of the switch. *)
Definition with_noise_shaping (gfc : lame_internal_flags)
  (quant amp stop huffman : Z) : lame_internal_flags :=
  {| filter_type := 0; psymodel := 1; quantization := quant;
     noise_shaping := default_noise_shaping gfc;
     noise_shaping_amp := amp; noise_shaping_stop := stop;
     use_best_huffman := huffman;
     subblock_gain := default_subblock_gain gfc;
     substep_shaping := substep_shaping gfc |}.

(** The cases 2, 1 and 0 of the switch. *)
Definition with_substep_shaping (gfc : lame_internal_flags)
  (amp huffman : Z) : lame_internal_flags :=
  {| filter_type := 0; psymodel := 1; quantization := 1;
     noise_shaping := default_noise_shaping gfc;
     noise_shaping_amp := amp; noise_shaping_stop := 1;
     use_best_huffman := huffman;
     subblock_gain := default_subblock_gain gfc;
     substep_shaping := raised_substep_shaping gfc |}.

(** [lame_init_qval (gfp)]; the cases 8 and 6 fall through to 7 and 5,
    and a quality outside 0..9 meets no case. *)
Definition lame_init_qval (gfp : lame_global_flags) : lame_global_flags :=
  let gfc := internal_flags gfp in
  let q := quality gfp in
  if q =? 9 then
    {| quality := q; internal_flags := no_noise_shaping gfc 0 |}
  else if q =? 8 then
    {| quality := 7; internal_flags := no_noise_shaping gfc 1 |}
  else if q =? 7 then
    {| quality := q; internal_flags := no_noise_shaping gfc 1 |}
  else if q =? 6 then
    {| quality := 5; internal_flags := with_noise_shaping gfc 0 0 0 0 |}
  else if q =? 5 then
    {| quality := q; internal_flags := with_noise_shaping gfc 0 0 0 0 |}
  else if q =? 4 then
    {| quality := q; internal_flags := with_noise_shaping gfc 1 0 0 1 |}
  else if q =? 3 then
    {| quality := q; internal_flags := with_noise_shaping gfc 1 1 1 1 |}
  else if q =? 2 then
    {| quality := q; internal_flags := with_substep_shaping gfc 1 1 |}
  else if q =? 1 then
    {| quality := q; internal_flags := with_substep_shaping gfc 2 1 |}
  else if q =? 0 then
    {| quality := q; internal_flags := with_substep_shaping gfc 2 2 |}
  else gfp.

Definition set_quality (gfp : lame_global_flags) (q : Z) : lame_global_flags :=
  {| quality := q; internal_flags := internal_flags gfp |}.

Ltac split_eqb :=
  repeat match goal with
         | |- context [(?a =? ?b)] =>
             destruct (Z.eqb_spec a b); cbn [negb noise_shaping subblock_gain
                                             substep_shaping Z.eqb Pos.eqb]
         end.

Lemma no_noise_shaping_twice (gfc : lame_internal_flags) (psy : Z) :
  no_noise_shaping (no_noise_shaping gfc psy) psy = no_noise_shaping gfc psy.
Proof. reflexivity. Qed.

Lemma with_noise_shaping_twice (gfc : lame_internal_flags) (quant amp stop huffman : Z) :
  with_noise_shaping (with_noise_shaping gfc quant amp stop huffman)
    quant amp stop huffman
  = with_noise_shaping gfc quant amp stop huffman.
Proof.
  unfold with_noise_shaping, default_noise_shaping, default_subblock_gain.
  cbn [noise_shaping subblock_gain substep_shaping].
  split_eqb; try reflexivity; try lia; cbn [negb] in *; congruence.
Qed.

Lemma with_substep_shaping_twice (gfc : lame_internal_flags) (amp huffman : Z) :
  with_substep_shaping (with_substep_shaping gfc amp huffman) amp huffman
  = with_substep_shaping gfc amp huffman.
Proof.
  unfold with_substep_shaping, default_noise_shaping, default_subblock_gain,
    raised_substep_shaping.
  cbn [noise_shaping subblock_gain substep_shaping].
  split_eqb; try reflexivity; try lia; cbn [negb] in *; congruence.
Qed.

Lemma default_noise_shaping_nonzero (gfc : lame_internal_flags) :
  default_noise_shaping gfc <> 0.
Proof.
  unfold default_noise_shaping.
  destruct (Z.eqb_spec (noise_shaping gfc) 0); [discriminate|assumption].
Qed.

(** The ten cases of the switch and the one that meets none. *)
Lemma quality_cases (q : Z) :
  q = 9 \/ q = 8 \/ q = 7 \/ q = 6 \/ q = 5 \/ q = 4 \/ q = 3 \/ q = 2 \/ q = 1
  \/ q = 0 \/ (q < 0 \/ 9 < q).
Proof. lia. Qed.

Lemma lame_init_qval_outside (gfp : lame_global_flags) :
  quality gfp < 0 \/ 9 < quality gfp -> lame_init_qval gfp = gfp.
Proof.
  intro H. unfold lame_init_qval.
  repeat match goal with
         | |- context [(quality gfp =? ?k)] =>
             destruct (Z.eqb_spec (quality gfp) k); [lia|]
         end.
  reflexivity.
Qed.

Lemma lame_init_qval_twice (gfp : lame_global_flags) :
  lame_init_qval (lame_init_qval gfp) = lame_init_qval gfp.
Proof.
  destruct (quality_cases (quality gfp))
    as [E|[E|[E|[E|[E|[E|[E|[E|[E|[E|E]]]]]]]]]].
  11:{ rewrite (lame_init_qval_outside gfp E). exact (lame_init_qval_outside gfp E). }
  all: destruct gfp as [q gfc]; cbn [quality] in E; subst q;
    unfold lame_init_qval; cbn [quality internal_flags Z.eqb Pos.eqb];
    rewrite ?no_noise_shaping_twice, ?with_noise_shaping_twice,
      ?with_substep_shaping_twice; reflexivity.
Qed.

(** [lame_init_qval] settles the handle: running it again changes
    nothing.  Quality 8 is quality 7 and quality 6 is quality 5, so the
    quality left behind is never 8 or 6; a quality outside 0..9 leaves
    the handle as it is.  For the qualities 0..9 the polyphase filter is
    selected, and noise shaping ends up switched off exactly for the
    qualities 7 to 9. *)
Theorem lame_init_qval_settles (gfp : lame_global_flags) :
  lame_init_qval (lame_init_qval gfp) = lame_init_qval gfp /\
  (quality gfp = 8 -> lame_init_qval gfp = lame_init_qval (set_quality gfp 7)) /\
  (quality gfp = 6 -> lame_init_qval gfp = lame_init_qval (set_quality gfp 5)) /\
  (quality gfp < 0 \/ 9 < quality gfp -> lame_init_qval gfp = gfp) /\
  (0 <= quality gfp <= 9 ->
   quality (lame_init_qval gfp) <> 8 /\ quality (lame_init_qval gfp) <> 6 /\
   filter_type (internal_flags (lame_init_qval gfp)) = 0 /\
   (noise_shaping (internal_flags (lame_init_qval gfp)) = 0
    <-> 7 <= quality gfp)).
Proof.
  split; [apply lame_init_qval_twice|].
  split; [intro E; destruct gfp as [q gfc]; cbn [quality] in E; subst q; reflexivity|].
  split; [intro E; destruct gfp as [q gfc]; cbn [quality] in E; subst q; reflexivity|].
  split; [apply lame_init_qval_outside|].
  intro Hq.
  destruct (quality_cases (quality gfp))
    as [E|[E|[E|[E|[E|[E|[E|[E|[E|[E|E]]]]]]]]]]; [..|lia].
  all: destruct gfp as [q gfc]; cbn [quality] in E; subst q;
    unfold lame_init_qval;
    cbn [quality internal_flags Z.eqb Pos.eqb filter_type noise_shaping
         no_noise_shaping with_noise_shaping with_substep_shaping];
    pose proof (default_noise_shaping_nonzero gfc);
    repeat split; try lia; try discriminate; try reflexivity; intros; lia.
Qed.

End Quality.
